(** * sim_exchange: the matching engine, the order book and end-of-game scoring

    A shallow embedding of [server/models/index.js] (Game, Player, Order,
    Trade, OrderBook, DataStore), [server/engine/matchingEngine.js]
    (MatchingEngine) and the scoring half of [server/engine/gameManager.js]
    (GameManager.endGame), followed by the properties of the exchange.

    Conventions of the embedding.
    - JS numbers that the engine handles (cash, quantities, prices) are
      integers; they are modelled by [Z].  [null] prices are [None], and the
      arithmetic coercion of [null] to [0] is [toNum].
    - A JS object that is shared and mutated in place (an Order, a Player)
      lives in a heap keyed by its uuid: [w_orders], [w_players].  A JS
      reference to such an object is its key, so that a mutation through one
      reference is seen through every other one (the book, the data store and
      the caller all alias the same Order).
    - [uuidv4()] draws from a supply of fresh identifiers, [w_next].
    - [new Date()] reads the wall clock.  The clock is an oracle
      [clock : nat -> Z] (milliseconds; the [k]-th reading made by the
      process), and [w_ticks] counts the readings made so far.
    - [while] loops take fuel; running out of fuel is [Timeout]. *)

From Stdlib Require Import ZArith QArith Qminmax Qround Lia.
From stdpp Require Import gmap strings list fin_maps sorting.

Local Open Scope Z_scope.

Abbreviation uuid := positive (only parsing).

(** ** JavaScript helpers *)

(** Arithmetic on a possibly-null number: [null] coerces to [0]. *)
Definition toNum (x : option Z) : Z := default 0 x.

(** [Array.prototype.sort(cmp)]: the sort is stable (ECMAScript 2019), so for
    a consistent comparator its result is the one of a stable insertion sort:
    each element is placed after every element it does not strictly
    precede. *)
Fixpoint js_insert {A : Type} (cmp : A -> A -> Z) (x : A) (l : list A) : list A :=
  match l with
  | [] => [x]
  | y :: l' => if cmp x y <? 0 then x :: y :: l' else y :: js_insert cmp x l'
  end.

Definition js_sort {A : Type} (cmp : A -> A -> Z) (l : list A) : list A :=
  foldl (fun acc x => js_insert cmp x acc) [] l.

(** The outcome of a call. *)
Inductive Outcome (A : Type) : Type :=
| Returns (a : A)
| Throws    (* a TypeError: a property of [undefined] was read *)
| Timeout.  (* the loop is still running when the fuel is spent *)
Arguments Returns {A} a.
Arguments Throws {A}.
Arguments Timeout {A}.

(** ** Data model *)

Inductive Side := buy | sell.
Inductive OrderType := limit | market.
Inductive OrderStatus := open | partial | filled | cancelled.
Inductive GameStatus := lobby | running | ended.

#[global] Instance Side_eq_dec : EqDecision Side.
Proof. solve_decision. Defined.
#[global] Instance OrderType_eq_dec : EqDecision OrderType.
Proof. solve_decision. Defined.
#[global] Instance OrderStatus_eq_dec : EqDecision OrderStatus.
Proof. solve_decision. Defined.
#[global] Instance GameStatus_eq_dec : EqDecision GameStatus.
Proof. solve_decision. Defined.

(** config.json *)
Record Config := mkConfig {
  gameDuration : Z;
  startingCash : Z;
  maxPlayers : Z;
  products : list string;
  scrapValues : gmap string Z;
  setValue : Z;
  setRecipe : gmap string Z;
  minOrderSize : Z;
  maxOrderSize : Z;
  showOrderNames : bool
}.

(** An entry of [Order.fills]. *)
Record Fill := mkFill {
  f_tradeId : uuid;
  f_quantity : Z;
  f_price : option Z;
  f_timestamp : Z
}.

Record Order := mkOrder {
  o_orderId : uuid;
  o_gameId : uuid;
  o_playerId : uuid;
  o_playerName : string;
  o_product : string;
  o_side : Side;
  o_orderType : OrderType;
  o_quantity : Z;
  o_remainingQuantity : Z;
  o_price : option Z;
  o_status : OrderStatus;
  o_fills : list Fill;
  o_createdAt : Z;
  o_updatedAt : Z
}.

Record Trade := mkTrade {
  t_tradeId : uuid;
  t_gameId : uuid;
  t_buyOrderId : uuid;
  t_sellOrderId : uuid;
  t_buyerId : uuid;
  t_sellerId : uuid;
  t_product : string;
  t_quantity : Z;
  t_price : option Z;
  t_value : Z;
  t_executedAt : Z
}.

(** [Player.pnlBreakdown]. *)
Record PnlBreakdown := mkPnl {
  b_cash : Z;
  b_completeSets : Z;
  b_setsValue : Z;
  b_scrapValue : Z;
  b_totalScore : Z;
  b_pnl : Z
}.

Record Player := mkPlayer {
  p_playerId : uuid;
  p_gameId : uuid;
  p_name : string;
  p_cash : Z;
  p_inventory : gmap string Z;
  p_openOrderIds : list uuid;
  p_tradeHistory : list uuid;
  p_setsFormed : Z;
  p_initialCash : Z;
  p_initialInventory : gmap string Z;
  p_finalScore : option Z;
  p_pnlBreakdown : option PnlBreakdown;
  p_joinedAt : Z
}.

(** An OrderBook holds references to Order objects. *)
Record OrderBook := mkBook {
  bids : list uuid;
  asks : list uuid
}.

Record Game := mkGame {
  g_gameId : uuid;
  g_hostPlayerId : uuid;
  g_status : GameStatus;
  g_config : Config;
  g_playerIds : list uuid;
  g_startTime : option Z;   (* ISO string of a clock reading, in ms *)
  g_endTime : option Z;
  g_createdAt : Z
}.

(** The DataStore ([_players], [_orders], [_trades]) together with the
    engine's [orderBooks], the uuid supply and the number of clock readings.
    [w_playerKeys] is the insertion order of the [_players] Map, which is the
    order in which [Map.prototype.values()] enumerates it. *)
Record World := mkWorld {
  w_players : gmap uuid Player;
  w_playerKeys : list uuid;
  w_orders : gmap uuid Order;
  w_trades : gmap uuid Trade;
  w_orderBooks : gmap string OrderBook;
  w_next : uuid;
  w_ticks : nat
}.

(** Field updates. *)
Definition set_players (f : gmap uuid Player -> gmap uuid Player) (w : World) : World :=
  mkWorld (f (w_players w)) (w_playerKeys w) (w_orders w) (w_trades w)
          (w_orderBooks w) (w_next w) (w_ticks w).
Definition set_orders (f : gmap uuid Order -> gmap uuid Order) (w : World) : World :=
  mkWorld (w_players w) (w_playerKeys w) (f (w_orders w)) (w_trades w)
          (w_orderBooks w) (w_next w) (w_ticks w).
Definition set_trades (f : gmap uuid Trade -> gmap uuid Trade) (w : World) : World :=
  mkWorld (w_players w) (w_playerKeys w) (w_orders w) (f (w_trades w))
          (w_orderBooks w) (w_next w) (w_ticks w).
Definition set_orderBooks (f : gmap string OrderBook -> gmap string OrderBook) (w : World) : World :=
  mkWorld (w_players w) (w_playerKeys w) (w_orders w) (w_trades w)
          (f (w_orderBooks w)) (w_next w) (w_ticks w).

Definition with_cash (c : Z) (p : Player) : Player :=
  mkPlayer (p_playerId p) (p_gameId p) (p_name p) c (p_inventory p)
           (p_openOrderIds p) (p_tradeHistory p) (p_setsFormed p)
           (p_initialCash p) (p_initialInventory p) (p_finalScore p)
           (p_pnlBreakdown p) (p_joinedAt p).
Definition with_inventory (i : gmap string Z) (p : Player) : Player :=
  mkPlayer (p_playerId p) (p_gameId p) (p_name p) (p_cash p) i
           (p_openOrderIds p) (p_tradeHistory p) (p_setsFormed p)
           (p_initialCash p) (p_initialInventory p) (p_finalScore p)
           (p_pnlBreakdown p) (p_joinedAt p).
Definition with_openOrderIds (l : list uuid) (p : Player) : Player :=
  mkPlayer (p_playerId p) (p_gameId p) (p_name p) (p_cash p) (p_inventory p)
           l (p_tradeHistory p) (p_setsFormed p)
           (p_initialCash p) (p_initialInventory p) (p_finalScore p)
           (p_pnlBreakdown p) (p_joinedAt p).
Definition with_tradeHistory (l : list uuid) (p : Player) : Player :=
  mkPlayer (p_playerId p) (p_gameId p) (p_name p) (p_cash p) (p_inventory p)
           (p_openOrderIds p) l (p_setsFormed p)
           (p_initialCash p) (p_initialInventory p) (p_finalScore p)
           (p_pnlBreakdown p) (p_joinedAt p).
Definition with_score (b : PnlBreakdown) (p : Player) : Player :=
  mkPlayer (p_playerId p) (p_gameId p) (p_name p) (p_cash p) (p_inventory p)
           (p_openOrderIds p) (p_tradeHistory p) (b_completeSets b)
           (p_initialCash p) (p_initialInventory p) (Some (b_totalScore b))
           (Some b) (p_joinedAt p).

Definition with_fill (f : Fill) (remaining : Z) (st : OrderStatus) (upd : Z) (o : Order) : Order :=
  mkOrder (o_orderId o) (o_gameId o) (o_playerId o) (o_playerName o)
          (o_product o) (o_side o) (o_orderType o) (o_quantity o)
          remaining (o_price o) st (o_fills o ++ [f]) (o_createdAt o) upd.
Definition with_status (st : OrderStatus) (upd : Z) (o : Order) : Order :=
  mkOrder (o_orderId o) (o_gameId o) (o_playerId o) (o_playerName o)
          (o_product o) (o_side o) (o_orderType o) (o_quantity o)
          (o_remainingQuantity o) (o_price o) st (o_fills o) (o_createdAt o)
          upd.
Definition with_limit_price (pr : Z) (o : Order) : Order :=
  mkOrder (o_orderId o) (o_gameId o) (o_playerId o) (o_playerName o)
          (o_product o) (o_side o) limit (o_quantity o)
          (o_remainingQuantity o) (Some pr) (o_status o) (o_fills o)
          (o_createdAt o) (o_updatedAt o).

Definition with_game_end (t : Z) (g : Game) : Game :=
  mkGame (g_gameId g) (g_hostPlayerId g) ended (g_config g) (g_playerIds g)
         (g_startTime g) (Some t) (g_createdAt g).

(** ** Clock and identifiers *)

Section Exchange.

(** The wall clock: [clock k] is the value of the [k]-th [new Date()]. *)
Variable clock : nat -> Z.

(** [new Date().toISOString()] *)
Definition Date_now (w : World) : Z * World :=
  (clock (w_ticks w),
   mkWorld (w_players w) (w_playerKeys w) (w_orders w) (w_trades w)
           (w_orderBooks w) (w_next w) (S (w_ticks w))).

(** [uuidv4()] *)
Definition uuidv4 (w : World) : uuid * World :=
  (w_next w,
   mkWorld (w_players w) (w_playerKeys w) (w_orders w) (w_trades w)
           (w_orderBooks w) (Pos.succ (w_next w)) (w_ticks w)).

(** ** Player *)

(** [inventory[product] || 0] *)
Definition inventoryOf (inv : gmap string Z) (product : string) : Z :=
  default 0 (inv !! product).

(** The sum over [Object.entries(inv)] of [quantity * (scrapValues[product] || 0)]. *)
Definition scrapValueOf (scrap : gmap string Z) (inv : gmap string Z) : Z :=
  map_fold (fun product quantity value => value + quantity * default 0 (scrap !! product)) 0 inv.

Definition getInventoryScrapValue (scrap : gmap string Z) (p : Player) : Z :=
  scrapValueOf scrap (p_inventory p).

Definition getInitialInventoryValue (scrap : gmap string Z) (p : Player) : Z :=
  scrapValueOf scrap (p_initialInventory p).

(** [minSets] starts at [Infinity], here [None].
    [Math.floor(available / required)] is [Z.div] for a recipe quantity
    [required > 0]. *)
Definition minSetsOf (recipe inv : gmap string Z) : option Z :=
  map_fold (fun product required minSets =>
              let available := inventoryOf inv product in
              let n := available / required in
              Some (match minSets with None => n | Some m => Z.min m n end))
           None recipe.

Definition getCompleteSets (recipe : gmap string Z) (p : Player) : Z :=
  default 0 (minSetsOf recipe (p_inventory p)).

(** [remainingInventory[product] -= completeSets * required], for every
    entry of the recipe.  On a product that is not a key of the inventory the
    JS result is [NaN], which has no integer: the result is then [None]. *)
Definition remainingInventoryOf (recipe : gmap string Z) (completeSets : Z)
    (inv : gmap string Z) : option (gmap string Z) :=
  map_fold (fun product required acc =>
              match acc with
              | None => None
              | Some rem =>
                  match rem !! product with
                  | Some q => Some (<[product := q - completeSets * required]> rem)
                  | None => None
                  end
              end)
           (Some inv) recipe.

Definition calculateFinalScore (scrap : gmap string Z) (setVal : Z)
    (recipe : gmap string Z) (p : Player) : option (PnlBreakdown * Player) :=
  let completeSets := getCompleteSets recipe p in
  match remainingInventoryOf recipe completeSets (p_inventory p) with
  | None => None
  | Some remainingInventory =>
      let scrapValue := scrapValueOf scrap remainingInventory in
      let setsValue := completeSets * setVal in
      let totalScore := p_cash p + setsValue + scrapValue in
      let b := mkPnl (p_cash p) completeSets setsValue scrapValue totalScore
                     (totalScore - (p_initialCash p + getInitialInventoryValue scrap p)) in
      Some (b, with_score b p)
  end.

Definition Player_addOrder (orderId : uuid) (p : Player) : Player :=
  if decide (orderId ∈ p_openOrderIds p) then p
  else with_openOrderIds (p_openOrderIds p ++ [orderId]) p.

Definition Player_removeOrder (orderId : uuid) (p : Player) : Player :=
  with_openOrderIds (filter (fun id => id ≠ orderId) (p_openOrderIds p)) p.

Definition Player_addTrade (tradeId : uuid) (p : Player) : Player :=
  with_tradeHistory (p_tradeHistory p ++ [tradeId]) p.

(** ** Order *)

(** [new Order(...)]: the object is allocated in the heap and its reference
    returned. *)
Definition new_Order (gameId playerId : uuid) (playerName product : string)
    (side : Side) (orderType : OrderType) (quantity : Z) (price : option Z)
    (w : World) : uuid * World :=
  let '(orderId, w) := uuidv4 w in
  let '(createdAt, w) := Date_now w in
  let '(updatedAt, w) := Date_now w in
  let o := mkOrder orderId gameId playerId playerName product side orderType
                   quantity quantity price open [] createdAt updatedAt in
  (orderId, set_orders (insert orderId o) w).

(** The body of [order.fill(tradeId, quantity, price)]; [timestamp] and
    [updatedAt] are its two readings of the clock. *)
Definition Order_filled (tradeId : uuid) (quantity : Z) (price : option Z)
    (timestamp updatedAt : Z) (o : Order) : Order :=
  let remaining := o_remainingQuantity o - quantity in
  with_fill (mkFill tradeId quantity price timestamp) remaining
            (if decide (remaining <= 0) then filled else partial)
            updatedAt o.

(** [order.fill(tradeId, quantity, price)] on the object behind [ref]. *)
Definition Order_fill (tradeId : uuid) (quantity : Z) (price : option Z)
    (ref : uuid) (w : World) : World :=
  let '(timestamp, w) := Date_now w in
  let '(updatedAt, w) := Date_now w in
  set_orders (alter (Order_filled tradeId quantity price timestamp updatedAt) ref) w.

(** [order.cancel()] *)
Definition Order_cancel (ref : uuid) (w : World) : World :=
  let '(updatedAt, w) := Date_now w in
  set_orders (alter (with_status cancelled updatedAt) ref) w.

(** [new Trade(...)] *)
Definition new_Trade (gameId buyOrderId sellOrderId buyerId sellerId : uuid)
    (product : string) (quantity : Z) (price : option Z) (w : World) : Trade * World :=
  let '(tradeId, w) := uuidv4 w in
  let '(executedAt, w) := Date_now w in
  (mkTrade tradeId gameId buyOrderId sellOrderId buyerId sellerId product
           quantity price (quantity * toNum price) executedAt, w).

(** ** OrderBook *)

(** [o.status === 'open' || o.status === 'partial'] *)
Definition isResting (o : Order) : Prop :=
  o_status o = open \/ o_status o = partial.

#[global] Instance isResting_dec o : Decision (isResting o).
Proof. unfold isResting. apply _. Defined.

(** The same test through a reference. *)
Definition restingAt (h : gmap uuid Order) (ref : uuid) : Prop :=
  match h !! ref with Some o => isResting o | None => False end.

#[global] Instance restingAt_dec h ref : Decision (restingAt h ref).
Proof. unfold restingAt. destruct (h !! ref); apply _. Defined.

(** The comparator of [this.bids.sort]. *)
Definition bidCmp (a b : Order) : Z :=
  if decide (o_price b <> o_price a) then toNum (o_price b) - toNum (o_price a)
  else o_createdAt a - o_createdAt b.

(** The comparator of [this.asks.sort]. *)
Definition askCmp (a b : Order) : Z :=
  if decide (o_price a <> o_price b) then toNum (o_price a) - toNum (o_price b)
  else o_createdAt a - o_createdAt b.

(** A comparator on objects, applied through references. *)
Definition byRef (h : gmap uuid Order) (cmp : Order -> Order -> Z) (a b : uuid) : Z :=
  match h !! a, h !! b with
  | Some x, Some y => cmp x y
  | _, _ => 0
  end.

(** [addOrder(order)]: the side is read from the object. *)
Definition OrderBook_addOrder (h : gmap uuid Order) (order : uuid)
    (book : OrderBook) : OrderBook :=
  match o_side <$> h !! order with
  | Some buy => mkBook (js_sort (byRef h bidCmp) (bids book ++ [order])) (asks book)
  | Some sell => mkBook (bids book) (js_sort (byRef h askCmp) (asks book ++ [order]))
  | None => book
  end.

Definition OrderBook_removeOrder (orderId : uuid) (book : OrderBook) : OrderBook :=
  mkBook (filter (fun o => o ≠ orderId) (bids book))
         (filter (fun o => o ≠ orderId) (asks book)).

Definition getBestBid (h : gmap uuid Order) (book : OrderBook) : option uuid :=
  head (filter (restingAt h) (bids book)).

Definition getBestAsk (h : gmap uuid Order) (book : OrderBook) : option uuid :=
  head (filter (restingAt h) (asks book)).

Definition cleanup (h : gmap uuid Order) (book : OrderBook) : OrderBook :=
  mkBook (filter (restingAt h) (bids book)) (filter (restingAt h) (asks book)).

(** ** MatchingEngine *)

Variable config : Config.

(** The constructor's [orderBooks]: an empty book for each product. *)
Definition new_orderBooks : gmap string OrderBook :=
  foldl (fun m product => <[product := mkBook [] []]> m) ∅ (products config).

(** The messages pushed on [errors]. *)
Inductive SubmitError :=
| InvalidProduct (product : string)
| QuantityOutOfRange (lo hi : Z)
| LimitNeedsPositivePrice
| InsufficientCash (required available : Z)
| InsufficientProduct (product : string) (required available : Z).

(** [{ order, trades, errors }] *)
Record SubmitResult := mkSubmit {
  r_order : option uuid;
  r_trades : list Trade;
  r_errors : list SubmitError
}.

(** The loop of [estimateMarketBuyCost] over the open asks. *)
Fixpoint estimateLoop (asks : list Order) (remaining cost : Z) : Z * Z :=
  match asks with
  | [] => (remaining, cost)
  | ask :: rest =>
      if decide (remaining <= 0) then (remaining, cost)
      else
        let fillQty := Z.min remaining (o_remainingQuantity ask) in
        estimateLoop rest (remaining - fillQty) (cost + fillQty * toNum (o_price ask))
  end.

Definition estimateMarketBuyCost (product : string) (quantity : Z) (w : World) : Outcome Z :=
  match w_orderBooks w !! product with
  | None => Throws
  | Some orderBook =>
      let asks := omap (fun ref => w_orders w !! ref)
                       (filter (restingAt (w_orders w)) (asks orderBook)) in
      let '(remaining, cost) := estimateLoop asks quantity 0 in
      Returns (if decide (remaining > 0) then cost + remaining * 100 else cost)
  end.

(** [executeTrade(incomingOrder, restingOrder, incomingPlayer)].  The result
    is the trade, or [None] for [null]. *)
Definition executeTrade (incomingOrder restingOrder : uuid) (incomingPlayer : uuid)
    (w : World) : Outcome (option Trade * World) :=
  match w_orders w !! incomingOrder, w_orders w !! restingOrder with
  | Some inc, Some rst =>
      let quantity := Z.min (o_remainingQuantity inc) (o_remainingQuantity rst) in
      let price := o_price rst in
      let '(buyOrder, sellOrder, buyerId, sellerId) :=
        match o_side inc with
        | buy => (incomingOrder, restingOrder, o_playerId inc, o_playerId rst)
        | sell => (restingOrder, incomingOrder, o_playerId rst, o_playerId inc)
        end in
      match w_players w !! buyerId, w_players w !! sellerId with
      | Some buyer, Some seller =>
          let product := o_product inc in
          let tradeValue := quantity * toNum price in
          if decide (p_cash buyer < tradeValue) then Returns (None, w)
          else if decide (inventoryOf (p_inventory seller) product < quantity)
          then Returns (None, w)
          else
            (* buyer.cash -= tradeValue; buyer.inventory[product] += quantity *)
            let w := set_players (alter (fun b => with_cash (p_cash b - tradeValue) b) buyerId) w in
            let w := set_players (alter (fun b =>
                       with_inventory (<[product := inventoryOf (p_inventory b) product + quantity]>
                                         (p_inventory b)) b) buyerId) w in
            (* seller.cash += tradeValue; seller.inventory[product] -= quantity *)
            let w := set_players (alter (fun s => with_cash (p_cash s + tradeValue) s) sellerId) w in
            let w := set_players (alter (fun s =>
                       with_inventory (<[product := inventoryOf (p_inventory s) product - quantity]>
                                         (p_inventory s)) s) sellerId) w in
            let '(trade, w) := new_Trade (o_gameId inc) buyOrder sellOrder buyerId sellerId
                                         product quantity price w in
            let w := Order_fill (t_tradeId trade) quantity price buyOrder w in
            let w := Order_fill (t_tradeId trade) quantity price sellOrder w in
            let w := set_players (alter (Player_addTrade (t_tradeId trade)) buyerId) w in
            let w := set_players (alter (Player_addTrade (t_tradeId trade)) sellerId) w in
            let w := if decide (o_status <$> w_orders w !! buyOrder = Some filled)
                     then set_players (alter (Player_removeOrder buyOrder) buyerId) w else w in
            let w := if decide (o_status <$> w_orders w !! sellOrder = Some filled)
                     then set_players (alter (Player_removeOrder sellOrder) sellerId) w else w in
            let w := set_trades (insert (t_tradeId trade) trade) w in
            Returns (Some trade, w)
      | _, _ => Returns (None, w)
      end
  | _, _ => Throws
  end.

(** The [while] loop of [matchOrder]; [trades] is the array built so far. *)
Fixpoint matchLoop (fuel : nat) (incomingOrder incomingPlayer : uuid)
    (trades : list Trade) (w : World) : Outcome (list Trade * World) :=
  match fuel with
  | O => Timeout
  | S fuel =>
      match w_orders w !! incomingOrder with
      | None => Throws
      | Some inc =>
          if decide (o_remainingQuantity inc > 0) then
            match w_orderBooks w !! o_product inc with
            | None => Throws
            | Some orderBook =>
                let opposing :=
                  match o_side inc with
                  | buy => getBestAsk (w_orders w) orderBook
                  | sell => getBestBid (w_orders w) orderBook
                  end in
                match opposing with
                | None => Returns (trades, w)
                | Some opposingOrder =>
                    match w_orders w !! opposingOrder with
                    | None => Throws
                    | Some opp =>
                        if decide (o_playerId opp = o_playerId inc) then Returns (trades, w)
                        else if decide (o_orderType inc = limit /\ o_side inc = buy /\
                                        toNum (o_price inc) < toNum (o_price opp))
                        then Returns (trades, w)
                        else if decide (o_orderType inc = limit /\ o_side inc = sell /\
                                        toNum (o_price inc) > toNum (o_price opp))
                        then Returns (trades, w)
                        else
                          match executeTrade incomingOrder opposingOrder incomingPlayer w with
                          | Returns (trade, w) =>
                              let trades :=
                                match trade with
                                | Some t => trades ++ [t]
                                | None => trades
                                end in
                              let w := set_orderBooks
                                         (alter (cleanup (w_orders w)) (o_product inc)) w in
                              matchLoop fuel incomingOrder incomingPlayer trades w
                          | Throws => Throws
                          | Timeout => Timeout
                          end
                    end
                end
            end
          else Returns (trades, w)
      end
  end.

Definition matchOrder (fuel : nat) (incomingOrder incomingPlayer : uuid) (w : World)
    : Outcome (list Trade * World) :=
  matchLoop fuel incomingOrder incomingPlayer [] w.

(** The validation at the head of [submitOrder] (the product, the quantity,
    the price of a limit order, the player's resources): the error pushed,
    or [None] when the order is accepted.  [player] is a reference to the
    Player object. *)
Definition validateOrder (player : uuid) (product : string) (side : Side)
    (orderType : OrderType) (quantity : Z) (price : option Z) (w : World)
    : Outcome (option SubmitError) :=
  if decide (product ∉ products config)
  then Returns (Some (InvalidProduct product))
  else if decide (quantity < minOrderSize config \/ quantity > maxOrderSize config)
  then Returns (Some (QuantityOutOfRange (minOrderSize config) (maxOrderSize config)))
  else if decide (orderType = limit /\ (price = None \/ toNum price <= 0))
  then Returns (Some LimitNeedsPositivePrice)
  else
    match w_players w !! player with
    | None => Throws
    | Some pl =>
        match side with
        | buy =>
            match (match orderType with
                   | limit => Returns (quantity * toNum price)
                   | market => estimateMarketBuyCost product quantity w
                   end) with
            | Returns requiredCash =>
                Returns (if decide (p_cash pl < requiredCash)
                         then Some (InsufficientCash requiredCash (p_cash pl))
                         else None)
            | Throws => Throws
            | Timeout => Timeout
            end
        | sell =>
            Returns (if decide (inventoryOf (p_inventory pl) product < quantity)
                     then Some (InsufficientProduct product quantity
                                  (inventoryOf (p_inventory pl) product))
                     else None)
        end
    end.

(** The tail of [submitOrder], after the matching: an order with a remaining
    quantity is added to the book and to the player's open orders, a market
    order being first turned into an aggressive limit order. *)
Definition restRemainder (order player : uuid) (product : string) (side : Side)
    (orderType : OrderType) (trades : list Trade) (w : World)
    : Outcome (SubmitResult * World) :=
  match w_orders w !! order with
  | None => Throws
  | Some o =>
      if decide (o_remainingQuantity o > 0) then
        match w_orderBooks w !! product with
        | None => Throws
        | Some orderBook =>
            let w :=
              match orderType with
              | limit => w
              | market =>
                  set_orders (alter (with_limit_price
                     (match side with buy => 999999 | sell => 1 end)) order) w
              end in
            let w := set_orderBooks
                       (insert product (OrderBook_addOrder (w_orders w) order orderBook)) w in
            let w := set_players (alter (Player_addOrder order) player) w in
            Returns (mkSubmit (Some order) trades [], w)
        end
      else Returns (mkSubmit (Some order) trades [], w)
  end.

(** [submitOrder(gameId, player, product, side, orderType, quantity, price)] *)
Definition submitOrder (fuel : nat) (gameId : uuid) (player : uuid) (product : string)
    (side : Side) (orderType : OrderType) (quantity : Z) (price : option Z)
    (w : World) : Outcome (SubmitResult * World) :=
  match validateOrder player product side orderType quantity price w with
  | Throws => Throws
  | Timeout => Timeout
  | Returns (Some e) => Returns (mkSubmit None [] [e], w)
  | Returns None =>
      match w_players w !! player with
      | None => Throws
      | Some pl =>
          let '(order, w) := new_Order gameId (p_playerId pl) (p_name pl) product
                                       side orderType quantity price w in
          match matchOrder fuel order player w with
          | Throws => Throws
          | Timeout => Timeout
          | Returns (trades, w) => restRemainder order player product side orderType trades w
          end
      end
  end.

(** The [error] of a failed [cancelOrder]: 'Order not found', 'Not your
    order', 'Order already ' + status. *)
Inductive CancelError :=
| OrderNotFound
| NotYourOrder
| OrderAlready (s : OrderStatus).

(** [{ success: true, order }] or [{ success: false, error }] *)
Inductive CancelResult :=
| CancelOk (order : uuid)
| CancelFailed (error : CancelError).

Definition cancelOrder (orderId playerId : uuid) (w : World) : Outcome (CancelResult * World) :=
  match w_orders w !! orderId with
  | None => Returns (CancelFailed OrderNotFound, w)
  | Some order =>
      if decide (o_playerId order <> playerId) then Returns (CancelFailed NotYourOrder, w)
      else if decide (o_status order = filled \/ o_status order = cancelled)
      then Returns (CancelFailed (OrderAlready (o_status order)), w)
      else
        match w_orderBooks w !! o_product order with
        | None => Throws
        | Some orderBook =>
            let w := set_orderBooks
                       (insert (o_product order) (OrderBook_removeOrder orderId orderBook)) w in
            let w := Order_cancel orderId w in
            (* if (player) player.removeOrder(orderId) *)
            let w := set_players (alter (Player_removeOrder orderId) playerId) w in
            Returns (CancelOk orderId, w)
        end
  end.

(** ** DataStore, Game and GameManager.endGame *)

(** [savePlayer(player)]: [Map.set] keeps the position of a key that is
    already present and appends a new one. *)
Definition savePlayer (p : Player) (w : World) : World :=
  mkWorld (<[p_playerId p := p]> (w_players w))
          (if decide (p_playerId p ∈ w_playerKeys w) then w_playerKeys w
           else w_playerKeys w ++ [p_playerId p])
          (w_orders w) (w_trades w) (w_orderBooks w) (w_next w) (w_ticks w).

(** [getPlayersByGame(gameId)]: references to the players of the game, in
    the order of the [_players] Map. *)
Definition getPlayersByGame (gameId : uuid) (w : World) : list uuid :=
  filter (fun ref => p_gameId <$> w_players w !! ref = Some gameId) (w_playerKeys w).

(** [getRemainingTime()], in seconds; [now] is [Date.now()].  The division
    by 1000 is exact here (a rational), where JS rounds to a double. *)
Definition getRemainingTime (now : Z) (g : Game) : Q :=
  match g_status g, g_startTime g with
  | running, Some startTime =>
      let elapsed := Qmake (now - startTime) 1000 in
      Qmax (inject_Z 0) (inject_Z (gameDuration (g_config g)) - elapsed)
  | _, _ => inject_Z (gameDuration (g_config g))
  end.

(** An entry of the final leaderboard: [{ playerId, name, ...pnlBreakdown }],
    to which [rank] is added after the sort. *)
Record LeaderboardEntry := mkEntry {
  e_playerId : uuid;
  e_name : string;
  e_score : PnlBreakdown;
  e_rank : option Z
}.

Definition with_rank (r : Z) (e : LeaderboardEntry) : LeaderboardEntry :=
  mkEntry (e_playerId e) (e_name e) (e_score e) (Some r).

(** The scoring loop of [endGame]: every player is scored (and mutated) and
    an entry pushed on [leaderboard].  [None] when a score is [NaN]. *)
Fixpoint scoreLoop (players : list uuid) (leaderboard : list LeaderboardEntry)
    (w : World) : option (list LeaderboardEntry * World) :=
  match players with
  | [] => Some (leaderboard, w)
  | ref :: rest =>
      match w_players w !! ref with
      | None => None
      | Some player =>
          match calculateFinalScore (scrapValues config) (setValue config)
                                    (setRecipe config) player with
          | None => None
          | Some (pnlBreakdown, player') =>
              scoreLoop rest
                (leaderboard ++ [mkEntry (p_playerId player') (p_name player') pnlBreakdown None])
                (set_players (insert ref player') w)
          end
      end
  end.

(** [leaderboard.sort((a, b) => b.totalScore - a.totalScore)] followed by
    [leaderboard.forEach((entry, index) => entry.rank = index + 1)]. *)
Definition rankLeaderboard (leaderboard : list LeaderboardEntry) : list LeaderboardEntry :=
  imap (fun index entry => with_rank (Z.of_nat index + 1) entry)
       (js_sort (fun a b => b_totalScore (e_score b) - b_totalScore (e_score a)) leaderboard).

Inductive EndGameResult :=
| EndFailed                                        (* 'No active game to end' *)
| EndOk (leaderboard : list LeaderboardEntry).

(** [endGame()] on [currentGame]; [None] when a score is [NaN]. *)
Definition endGame (currentGame : option Game) (w : World)
    : option (EndGameResult * option Game * World) :=
  match currentGame with
  | None => Some (EndFailed, currentGame, w)
  | Some game =>
      if decide (g_status game = ended) then Some (EndFailed, currentGame, w)
      else
        let '(endTime, w) := Date_now w in
        let game := with_game_end endTime game in
        match scoreLoop (getPlayersByGame (g_gameId game) w) [] w with
        | None => None
        | Some (leaderboard, w) =>
            let leaderboard := rankLeaderboard leaderboard in
            let '(_, w) := Date_now w in      (* logEvent: timestamp *)
            let '(_, w) := Date_now w in      (* exportGameData: exportedAt *)
            Some (EndOk leaderboard, Some game, w)
        end
  end.

End Exchange.

(** ** The scoring rule as the specification words it *)

(** [min over products p of floor(inventory[p] / recipe[p])] *)
Definition spec_complete_sets (products : list string) (recipe inv : gmap string Z) : Z :=
  match products with
  | [] => 0
  | p :: ps =>
      foldl (fun k q => Z.min k (inventoryOf inv q / inventoryOf recipe q))
            (inventoryOf inv p / inventoryOf recipe p) ps
  end.


(** [Σ over p of inventory[p] × scrap_value[p]] *)
Definition spec_inventory_value (products : list string) (scrap inv : gmap string Z) : Z :=
  foldr (fun p acc => inventoryOf inv p * inventoryOf scrap p + acc) 0 products.


(** ** What the claims speak of *)

(** The validation of [submit] fails. *)
Definition validation_fails (cfg : Config) (w : World) (pl : Player)
    (product : string) (side : Side) (orderType : OrderType)
    (quantity : Z) (price : option Z) : Prop :=
  product ∉ products cfg
  \/ quantity < minOrderSize cfg
  \/ quantity > maxOrderSize cfg
  \/ (orderType = limit /\ (price = None \/ toNum price <= 0))
  \/ (side = buy /\ orderType = limit /\ p_cash pl < quantity * toNum price)
  \/ (side = buy /\ orderType = market /\
      exists estimate, estimateMarketBuyCost product quantity w = Returns estimate
                       /\ p_cash pl < estimate)
  \/ (side = sell /\ inventoryOf (p_inventory pl) product < quantity).

(** The order that [matchOrder] takes as the best opposing one. *)
Definition bestOpposing (h : gmap uuid Order) (inc : Order) (book : OrderBook) : option uuid :=
  match o_side inc with
  | buy => getBestAsk h book
  | sell => getBestBid h book
  end.

(** The price check of [matchOrder] lets the pair through. *)
Definition crosses (inc opp : Order) : Prop :=
  ~ (o_orderType inc = limit /\ o_side inc = buy /\ toNum (o_price inc) < toNum (o_price opp))
  /\ ~ (o_orderType inc = limit /\ o_side inc = sell /\ toNum (o_price inc) > toNum (o_price opp)).

(** Buyer and seller of a match, as [executeTrade] determines them. *)
Definition buyerOf (inc rst : Order) : uuid :=
  match o_side inc with buy => o_playerId inc | sell => o_playerId rst end.
Definition sellerOf (inc rst : Order) : uuid :=
  match o_side inc with buy => o_playerId rst | sell => o_playerId inc end.

Definition buyOrderOf (inc : Order) (incId rstId : uuid) : uuid :=
  match o_side inc with buy => incId | sell => rstId end.
Definition sellOrderOf (inc : Order) (incId rstId : uuid) : uuid :=
  match o_side inc with buy => rstId | sell => incId end.

(** The re-check of resources at execution time fails. *)
Definition recheck_fails (w : World) (inc rst : Order) : Prop :=
  exists buyer seller,
    w_players w !! buyerOf inc rst = Some buyer
    /\ w_players w !! sellerOf inc rst = Some seller
    /\ let quantity := Z.min (o_remainingQuantity inc) (o_remainingQuantity rst) in
       p_cash buyer < quantity * toNum (o_price rst)
       \/ inventoryOf (p_inventory seller) (o_product inc) < quantity.

(** Price-time priority on one side of a book: [x] is at least as good as
    [y].  Asks: the lower price, then the earlier [createdAt]; bids: the
    higher price, then the earlier [createdAt]. *)
Definition ask_le (x y : Order) : Prop :=
  toNum (o_price x) < toNum (o_price y)
  \/ (toNum (o_price x) = toNum (o_price y) /\ o_createdAt x <= o_createdAt y).

Definition bid_le (x y : Order) : Prop :=
  toNum (o_price x) > toNum (o_price y)
  \/ (toNum (o_price x) = toNum (o_price y) /\ o_createdAt x <= o_createdAt y).

(** Strictly better. *)
Definition ask_lt (x y : Order) : Prop :=
  toNum (o_price x) < toNum (o_price y)
  \/ (toNum (o_price x) = toNum (o_price y) /\ o_createdAt x < o_createdAt y).

Definition bid_lt (x y : Order) : Prop :=
  toNum (o_price x) > toNum (o_price y)
  \/ (toNum (o_price x) = toNum (o_price y) /\ o_createdAt x < o_createdAt y).

Definition side_le (s : Side) : Order -> Order -> Prop :=
  match s with buy => bid_le | sell => ask_le end.

Definition side_lt (s : Side) : Order -> Order -> Prop :=
  match s with buy => bid_lt | sell => ask_lt end.

(** The comparator that [addOrder] sorts the side [s] with. *)
Definition sideCmp (s : Side) : Order -> Order -> Z :=
  match s with buy => bidCmp | sell => askCmp end.

(** A relation on orders, between the objects behind two references. *)
Definition viaHeap (h : gmap uuid Order) (R : Order -> Order -> Prop) (a b : uuid) : Prop :=
  exists x y, h !! a = Some x /\ h !! b = Some y /\ R x y.

(** The array of a book that holds the orders of side [s]. *)
Definition book_side (s : Side) (book : OrderBook) : list uuid :=
  match s with buy => bids book | sell => asks book end.

Definition opposite (s : Side) : Side :=
  match s with buy => sell | sell => buy end.

(** The resting order of a trade made for an incoming order of side [s]. *)
Definition restingRef (s : Side) (t : Trade) : uuid :=
  match s with buy => t_sellOrderId t | sell => t_buyOrderId t end.

(** The reference points to a limit order, which has a price. *)
Definition limitAt (h : gmap uuid Order) (ref : uuid) : Prop :=
  exists o, h !! ref = Some o /\ o_orderType o = limit /\ is_Some (o_price o).

(** The invariant of one side of a book: no repetition, limit orders, best
    first. *)
Definition side_ok (h : gmap uuid Order) (s : Side) (l : list uuid) : Prop :=
  NoDup l /\ Forall (limitAt h) l /\ StronglySorted (viaHeap h (side_le s)) l.

(** The state of the books that the engine maintains: order ids are below
    the next uuid, and both sides of each book are in order. *)
Definition book_wf (w : World) : Prop :=
  (forall id, is_Some (w_orders w !! id) -> (id < w_next w)%positive)
  /\ forall product book, w_orderBooks w !! product = Some book ->
       forall s, side_ok (w_orders w) s (book_side s book).

(** What [fill], [cancel] and the market conversion leave alone, or not: the
    fields of an order that never change once it rests. *)
Definition stableFields (o o' : Order) : Prop :=
  o_orderId o' = o_orderId o /\ o_playerId o' = o_playerId o
  /\ o_product o' = o_product o /\ o_side o' = o_side o
  /\ o_orderType o' = o_orderType o /\ o_price o' = o_price o
  /\ o_createdAt o' = o_createdAt o.

Definition stable_at (h h' : gmap uuid Order) (ref : uuid) : Prop :=
  forall o, h !! ref = Some o -> exists o', h' !! ref = Some o' /\ stableFields o o'.

(** What holds of the trades made so far and of the world throughout the
    loop of [matchOrder], entered in the world [w0] for the incoming order
    [incId] of side [s0] on product [p0]: orders keep their stable fields, no
    order appears, each side of each book is a sublist of what it was, and
    the resting orders executed so far are the first ones of the opposing
    side, in its order; as long as the incoming order has a remaining
    quantity, the resting orders still on the book are exactly the ones that
    follow. *)
Definition loop_inv (incId : uuid) (s0 : Side) (p0 : string) (w0 : World)
    (trades : list Trade) (w : World) : Prop :=
  (forall id, stable_at (w_orders w0) (w_orders w) id)
  /\ (forall id, is_Some (w_orders w !! id) <-> is_Some (w_orders w0 !! id))
  /\ (w_next w0 <= w_next w)%positive
  /\ (forall product book, w_orderBooks w !! product = Some book ->
        exists book0, w_orderBooks w0 !! product = Some book0
                      /\ forall s, book_side s book `sublist_of` book_side s book0)
  /\ (forall book0, w_orderBooks w0 !! p0 = Some book0 ->
        let L0 := filter (restingAt (w_orders w0)) (book_side (opposite s0) book0) in
        restingRef s0 <$> trades `prefix_of` L0
        /\ forall inc book,
             w_orders w !! incId = Some inc -> o_remainingQuantity inc > 0 ->
             w_orderBooks w !! p0 = Some book ->
             (restingRef s0 <$> trades)
             ++ filter (restingAt (w_orders w)) (book_side (opposite s0) book) = L0).

(** The timestamps in the store are readings of the clock that have been
    made. *)
Definition stamped (clock : nat -> Z) (w : World) : Prop :=
  (forall id o, w_orders w !! id = Some o ->
      exists k, (k < w_ticks w)%nat /\ o_createdAt o = clock k)
  /\ (forall tid t, w_trades w !! tid = Some t ->
        exists k, (k < w_ticks w)%nat /\ t_executedAt t = clock k).

(** What holds of the timestamps throughout the loop of [matchOrder]. *)
Definition stamp_inv (clock : nat -> Z) (w0 : World) (trades : list Trade) (w : World) : Prop :=
  (w_ticks w0 <= w_ticks w)%nat
  /\ (forall id, stable_at (w_orders w0) (w_orders w) id)
  /\ (forall id, is_Some (w_orders w !! id) -> is_Some (w_orders w0 !! id))
  /\ (forall tid t, w_trades w !! tid = Some t -> w_trades w0 !! tid = Some t \/ t ∈ trades)
  /\ Forall (fun t => exists k, (w_ticks w0 <= k < w_ticks w)%nat /\ t_executedAt t = clock k)
            trades
  /\ StronglySorted (fun a b => t_executedAt a <= t_executedAt b) trades.

(** The total score of a leaderboard entry, and the comparator that
    [endGame] sorts with. *)
Definition totalOf (e : LeaderboardEntry) : Z := b_totalScore (e_score e).


(** The player holds a quantity, possibly zero, of every product of the
    configuration and of nothing else: [joinGame] creates every player with
    the inventory of [generateStartingInventory], which is initialised with a
    zero for each product. *)
Definition holds_all_products (cfg : Config) (p : Player) : Prop :=
  dom (p_inventory p) = list_to_set (products cfg)
  /\ dom (p_initialInventory p) = list_to_set (products cfg).


(** The sum of [g] over the entries of a map. *)
Definition msum {A : Type} (g : uuid -> A -> Z) (m : gmap uuid A) : Z :=
  map_fold (fun k x acc => acc + g k x) 0 m.

(** The cash of all participants, and their holdings of one product. *)
Definition total_cash (w : World) : Z :=
  msum (fun _ p => p_cash p) (w_players w).

Definition total_inventory (product : string) (w : World) : Z :=
  msum (fun _ p => inventoryOf (p_inventory p) product) (w_players w).

(** ** A session to run the engine on *)

Local Open Scope string_scope.

(** The configuration of the end-to-end scenarios. *)
Definition cfg8 : Config :=
  mkConfig 180 100 8 ["bread"; "veggies"; "cheese"; "meat"]
    (list_to_map [("bread", 2); ("veggies", 4); ("cheese", 6); ("meat", 8)])
    30
    (list_to_map [("bread", 1); ("veggies", 1); ("cheese", 1); ("meat", 1)])
    1 100 false.

Definition game1 : uuid := 1%positive.

Definition a_player (id : uuid) (name : string) (cash : Z) (inv : list (string * Z)) : Player :=
  mkPlayer id game1 name cash (list_to_map inv) [] [] 0 cash (list_to_map inv) None None 0.

Definition alice : Player :=
  a_player 10 "Alice" 100 [("bread", 10); ("veggies", 0); ("cheese", 0); ("meat", 0)].
Definition bob : Player :=
  a_player 11 "Bob" 100 [("bread", 0); ("veggies", 0); ("cheese", 0); ("meat", 0)].

(** Alice and Bob have joined, the books are empty. *)
Definition w0 : World :=
  savePlayer bob (savePlayer alice
    (mkWorld ∅ [] ∅ ∅ (new_orderBooks cfg8) 100%positive 0%nat)).

(** A clock that advances at every reading, and one that is read twice or
    more within the same millisecond. *)
Definition ticking_clock (k : nat) : Z := Z.of_nat k.
Definition frozen_clock (k : nat) : Z := 0.

(** Chaining calls on the world. *)
Definition andThen {A B : Type} (o : Outcome (A * World))
    (f : World -> Outcome (B * World)) : Outcome (B * World) :=
  match o with
  | Returns (_, w) => f w
  | Throws => Throws
  | Timeout => Timeout
  end.

Definition world_of {A : Type} (o : Outcome (A * World)) : World :=
  match o with
  | Returns (_, w) => w
  | _ => w0
  end.

(** Alice, who holds 10 bread, rests two asks of 6 bread at 1: nothing is
    held in escrow, so both are accepted. *)
Definition w_two_asks : World :=
  world_of (andThen
    (submitOrder ticking_clock cfg8 10 game1 10%positive "bread" sell limit 6 (Some 1) w0)
    (submitOrder ticking_clock cfg8 10 game1 10%positive "bread" sell limit 6 (Some 1))).

(** Bob buys 6 bread at 1: the first ask is filled, Alice is left with 4
    bread and an ask of 6. *)
Definition w_unbacked : World :=
  world_of (submitOrder ticking_clock cfg8 10 game1 11%positive "bread" buy limit 6 (Some 1)
                        w_two_asks).

(** Bob submits a second buy of 6 bread at 1; this is the world in which
    [matchOrder] is entered, [stuck_order] being the new order. *)
Definition stuck_order : uuid :=
  fst (new_Order ticking_clock game1 11%positive "Bob" "bread" buy limit 6 (Some 1) w_unbacked).
Definition w_stuck : World :=
  snd (new_Order ticking_clock game1 11%positive "Bob" "bread" buy limit 6 (Some 1) w_unbacked).

(** Bob's buy of 6 bread at 1 in [w_two_asks], as [matchOrder] receives
    it. *)
Definition cross_order : uuid :=
  fst (new_Order ticking_clock game1 11%positive "Bob" "bread" buy limit 6 (Some 1) w_two_asks).
Definition w_cross : World :=
  snd (new_Order ticking_clock game1 11%positive "Bob" "bread" buy limit 6 (Some 1) w_two_asks).

(** Alice rests one ask of 1 bread at 3, then submits a market buy of 1
    bread: her own ask is the best opposing order. *)
Definition w_alice_ask : World :=
  world_of (submitOrder ticking_clock cfg8 10 game1 10%positive "bread" sell limit 1 (Some 3) w0).

(** Within one millisecond: Alice rests two asks of 3 bread at 1, then Bob
    buys 6 bread at 1. *)
Definition w_tied1 : World :=
  world_of (submitOrder frozen_clock cfg8 10 game1 10%positive "bread" sell limit 3 (Some 1) w0).
Definition w_tied : World :=
  world_of (submitOrder frozen_clock cfg8 10 game1 10%positive "bread" sell limit 3 (Some 1)
                        w_tied1).

(** Dan has 5 in cash. *)
Definition dan : Player :=
  a_player 12 "Dan" 5 [("bread", 0); ("veggies", 0); ("cheese", 0); ("meat", 0)].
Definition w_dan : World := savePlayer dan w0.

(** A game that has ended, two minutes after it started. *)
Definition ended_game : Game :=
  mkGame game1 10%positive ended cfg8 [10%positive; 11%positive]
         (Some 1000) (Some 121000) 0.

(** Alice at the end of the session of scenario 6. *)
Definition alice_final : Player :=
  a_player 10 "Alice" 20 [("bread", 2); ("veggies", 2); ("cheese", 1); ("meat", 1)].

(** Bob ends level with Alice, Carol ahead of both; they joined in the
    order Alice, Bob, Carol, and the game is still running. *)
Definition bob_final : Player :=
  a_player 11 "Bob" 56 [("bread", 0); ("veggies", 0); ("cheese", 0); ("meat", 0)].
Definition carol_final : Player :=
  a_player 13 "Carol" 100 [("bread", 0); ("veggies", 0); ("cheese", 0); ("meat", 0)].

Definition w_final : World :=
  savePlayer carol_final (savePlayer bob_final (savePlayer alice_final
    (mkWorld ∅ [] ∅ ∅ (new_orderBooks cfg8) 100%positive 0%nat))).

Definition running_game : Game :=
  mkGame game1 10%positive running cfg8 [10%positive; 11%positive; 13%positive]
         (Some 1000) None 0.

Local Close Scope string_scope.

(** The loop of [cancelAllPlayerOrders] over the copy of [openOrderIds]. *)
Fixpoint cancelEach (clock : nat -> Z) (orderIds : list uuid) (playerId : uuid)
    (w : World) : Outcome World :=
  match orderIds with
  | [] => Returns w
  | orderId :: rest =>
      match cancelOrder clock orderId playerId w with
      | Returns (_, w) => cancelEach clock rest playerId w
      | Throws => Throws
      | Timeout => Timeout
      end
  end.

(** [cancelAllPlayerOrders(playerId)] *)
Definition cancelAllPlayerOrders (clock : nat -> Z) (playerId : uuid) (w : World)
    : Outcome World :=
  match w_players w !! playerId with
  | None => Returns w
  | Some player => cancelEach clock (p_openOrderIds player) playerId w
  end.

(** The order behind [id] belongs to the player and is open or partial:
    [cancelOrder(id, playerId)] goes through. *)
Definition ownResting (playerId : uuid) (h : gmap uuid Order) (id : uuid) : Prop :=
  match h !! id with
  | Some o => o_playerId o = playerId /\ isResting o
  | None => False
  end.

#[global] Instance ownResting_dec playerId h id : Decision (ownResting playerId h id).
Proof. unfold ownResting. destruct (h !! id); apply _. Defined.

(** Every order of the store is for a product that has a book. *)
Definition orders_have_books (w : World) : Prop :=
  map_Forall (fun _ o => is_Some (w_orderBooks w !! o_product o)) (w_orders w).

(** The order behind [ref] is of the game and open or partial: the test of
    [cancelAllOrders]. *)
Definition gameResting (gameId : uuid) (h : gmap uuid Order) (ref : uuid) : Prop :=
  match h !! ref with
  | Some o => o_gameId o = gameId /\ isResting o
  | None => False
  end.

#[global] Instance gameResting_dec gameId h ref : Decision (gameResting gameId h ref).
Proof. unfold gameResting. destruct (h !! ref); apply _. Defined.

(** The inner loop of [cancelAllOrders], over
    [[...orderBook.bids, ...orderBook.asks]]. *)
Fixpoint cancelResting (clock : nat -> Z) (gameId : uuid) (orders : list uuid)
    (w : World) : World :=
  match orders with
  | [] => w
  | order :: rest =>
      cancelResting clock gameId rest
        (if decide (gameResting gameId (w_orders w) order)
         then Order_cancel clock order w else w)
  end.

(** [cancelAllOrders(gameId)].  [this.orderBooks] is enumerated in the
    order in which the constructor filled it, the one of [config.products]. *)
Definition cancelAllOrders (clock : nat -> Z) (config : Config) (gameId : uuid)
    (w : World) : World :=
  foldl (fun w product =>
           match w_orderBooks w !! product with
           | Some orderBook =>
               set_orderBooks (insert product (mkBook [] []))
                 (cancelResting clock gameId (bids orderBook ++ asks orderBook) w)
           | None => w
           end)
        w (products config).

(** [reset()] *)
Definition reset (config : Config) (w : World) : World :=
  set_orderBooks (fun books =>
    foldl (fun m product => <[product := mkBook [] []]> m) books (products config)) w.

(** The order is on a book of one of the products. *)
Definition onBook (ps : list string) (books : gmap string OrderBook) (ref : uuid) : Prop :=
  Exists (fun p => match books !! p with
                   | Some book => ref ∈ bids book ++ asks book
                   | None => False
                   end) ps.

#[global] Instance onBook_dec ps books ref : Decision (onBook ps books ref).
Proof.
  unfold onBook. apply Exists_dec. intros p. destruct (books !! p); apply _.
Defined.

(** The books are the ones that the constructor of the engine made, one for
    each product: no other key is ever set in [orderBooks]. *)
Definition books_of_products (cfg : Config) (w : World) : Prop :=
  dom (w_orderBooks w) = list_to_set (products cfg).

(** The order is on one of the books. *)
Definition onSomeBook (books : gmap string OrderBook) (ref : uuid) : Prop :=
  exists p book, books !! p = Some book /\ ref ∈ bids book ++ asks book.

(** The quantity that the fills of an order add up to. *)
Definition filledQuantity (o : Order) : Z :=
  foldr Z.add 0 (f_quantity <$> o_fills o).

(** The books of an order are in balance: what remains is the quantity less
    the fills, every fill is of a positive quantity, and the status says
    where the order stands. *)
Definition order_ok (o : Order) : Prop :=
  o_remainingQuantity o = o_quantity o - filledQuantity o
  /\ Forall (fun f => 0 < f_quantity f) (o_fills o)
  /\ (0 <= o_quantity o -> 0 <= o_remainingQuantity o)
  /\ (o_status o = open -> o_fills o = [])
  /\ (o_status o = partial -> 0 < o_remainingQuantity o /\ o_fills o <> [])
  /\ (o_status o = filled -> o_remainingQuantity o = 0 /\ o_fills o <> []).

(** Every order of the store is in balance, and an order that rests on a
    book has something left and a positive price. *)
Definition accounts_ok (w : World) : Prop :=
  map_Forall (fun _ o => order_ok o) (w_orders w)
  /\ forall p book s ref o,
       w_orderBooks w !! p = Some book -> ref ∈ book_side s book ->
       w_orders w !! ref = Some o -> isResting o ->
       0 < o_remainingQuantity o /\ 0 < toNum (o_price o).

(** A trade is of a positive quantity, and its value is quantity times
    price. *)
Definition trade_ok (t : Trade) : Prop :=
  0 < t_quantity t /\ t_value t = t_quantity t * toNum (t_price t).

(** What the loop of [matchOrder] keeps for the accounts, for the incoming
    order [incId], which was [inc0] when the loop was entered. *)
Definition accounts_inv (incId : uuid) (inc0 : Order) (trades : list Trade) (w : World)
    : Prop :=
  accounts_ok w
  /\ (forall p book s, w_orderBooks w !! p = Some book -> incId ∉ book_side s book)
  /\ (exists inc', w_orders w !! incId = Some inc' /\ stableFields inc0 inc')
  /\ Forall trade_ok trades.

Definition tradedQuantity (trades : list Trade) : Z := foldr Z.add 0 (t_quantity <$> trades).

(** The estimate of [estimateMarketBuyCost] for a list of asks. *)
Definition estimateOver (asks : list Order) (quantity : Z) : Z :=
  let '(remaining, cost) := estimateLoop asks quantity 0 in
  if decide (remaining > 0) then cost + remaining * 100 else cost.

(** The cash that the validation of [submitOrder] requires of a buyer. *)
Definition requiredCash (orderType : OrderType) (product : string) (quantity : Z)
    (price : option Z) (w : World) : Outcome Z :=
  match orderType with
  | limit => Returns (quantity * toNum price)
  | market => estimateMarketBuyCost product quantity w
  end.

(** The price of a trade is within the limit of an order of side [s] at
    [price]: not above it for a buy, not below it for a sell. *)
Definition within_limit (s : Side) (price : option Z) (t : Trade) : Prop :=
  match s with
  | buy => toNum (t_price t) <= toNum price
  | sell => toNum price <= toNum (t_price t)
  end.

(** [order.toOrderBookJSON(showNames)]; [playerName] is [undefined] when
    names are not shown. *)
Record OrderBookJSON := mkBookJSON {
  j_orderId : uuid;
  j_playerName : option string;
  j_product : string;
  j_side : Side;
  j_orderType : OrderType;
  j_quantity : Z;
  j_price : option Z;
  j_createdAt : Z
}.

Definition toOrderBookJSON (showNames : bool) (o : Order) : OrderBookJSON :=
  mkBookJSON (o_orderId o) (if showNames then Some (o_playerName o) else None)
             (o_product o) (o_side o) (o_orderType o) (o_remainingQuantity o)
             (o_price o) (o_createdAt o).

(** A price level of [getDepth]: [{ price, quantity, orders }]. *)
Record Level := mkLevel {
  l_price : option Z;
  l_quantity : Z;
  l_orders : list OrderBookJSON
}.

(** One turn of the loop of [getDepth] on the Map of levels, which is keyed
    by price and kept in insertion order: the level of the price of the order
    is fetched, or made with quantity 0 and no order, and updated. *)
Fixpoint level_add (showNames : bool) (order : Order) (levels : list Level) : list Level :=
  match levels with
  | [] => [mkLevel (o_price order) (0 + o_remainingQuantity order)
                   [toOrderBookJSON showNames order]]
  | level :: rest =>
      if decide (l_price level = o_price order)
      then mkLevel (l_price level) (l_quantity level + o_remainingQuantity order)
                   (l_orders level ++ [toOrderBookJSON showNames order]) :: rest
      else level :: level_add showNames order rest
  end.

Definition levelsOf (showNames : bool) (orders : list Order) : list Level :=
  foldl (fun levels order => level_add showNames order levels) [] orders.

(** [x || null] on a price. *)
Definition orNull (price : option Z) : option Z :=
  match price with
  | Some p => if decide (p = 0) then None else Some p
  | None => None
  end.

(** The result of [getDepth]. *)
Record Depth := mkDepth {
  d_product : string;
  d_bids : list Level;
  d_asks : list Level;
  d_bestBid : option Z;
  d_bestAsk : option Z;
  d_spread : option Z
}.

(** [orderBook.getDepth(showNames)] on the book of [product]. *)
Definition getDepth (h : gmap uuid Order) (product : string) (showNames : bool)
    (book : OrderBook) : Depth :=
  let resting side := omap (fun ref => h !! ref) (filter (restingAt h) side) in
  let best (ref : option uuid) := ref ≫= (fun r => h !! r) in
  mkDepth product
    (js_sort (fun a b => toNum (l_price b) - toNum (l_price a))
             (levelsOf showNames (resting (bids book))))
    (js_sort (fun a b => toNum (l_price a) - toNum (l_price b))
             (levelsOf showNames (resting (asks book))))
    (orNull (best (getBestBid h book) ≫= o_price))
    (orNull (best (getBestAsk h book) ≫= o_price))
    (match best (getBestBid h book), best (getBestAsk h book) with
     | Some bid, Some ask => Some (toNum (o_price ask) - toNum (o_price bid))
     | _, _ => None
     end).

(** [getOrderBookDepth(product)] *)
Definition getOrderBookDepth (config : Config) (product : string) (w : World) : option Depth :=
  match w_orderBooks w !! product with
  | None => None
  | Some orderBook => Some (getDepth (w_orders w) product (showOrderNames config) orderBook)
  end.

(** The orders of a list that are at a price, and what they hold. *)
Definition atPrice (price : option Z) (orders : list Order) : list Order :=
  filter (fun o => o_price o = price) orders.

Definition restingQuantity (orders : list Order) : Z :=
  foldr Z.add 0 (o_remainingQuantity <$> orders).

(** The levels are those of the orders: one level for each price that occurs,
    holding the orders at that price, in their order, and their total. *)
Definition aggregates (showNames : bool) (orders : list Order) (levels : list Level) : Prop :=
  NoDup (l_price <$> levels)
  /\ (forall l, l ∈ levels ->
        atPrice (l_price l) orders <> []
        /\ l_orders l = toOrderBookJSON showNames <$> atPrice (l_price l) orders
        /\ l_quantity l = restingQuantity (atPrice (l_price l) orders))
  /\ (forall o, o ∈ orders -> o_price o ∈ l_price <$> levels).

(** The total quantity of a list of levels. *)
Definition levelQuantity (levels : list Level) : Z :=
  foldr Z.add 0 (l_quantity <$> levels).

(** The key by which the levels of a side are sorted, ascending: bids from
    the highest price down, asks from the lowest price up. *)
Definition levelKey (s : Side) (price : option Z) : Z :=
  match s with buy => - toNum price | sell => toNum price end.

Section StartingInventory.

(** [Math.random()]: the [k]-th number drawn by the process, in [0, 1). *)
Variable random : nat -> Q.

Variable config : Config.

(** [config.startingInventoryTargetTotalValue] and
    [config.startingInventoryRandomizationFactor]. *)
Variable targetValue : Z.
Variable factor : Q.

Definition minValue : Q := inject_Z targetValue * (1 - factor).
Definition maxValue : Q := inject_Z targetValue * (1 + factor).

(** [products[Math.floor(Math.random() * products.length)]], which is
    [undefined] out of the array. *)
Definition randomProduct (k : nat) : option string :=
  let i := Qfloor (random k * inject_Z (Z.of_nat (length (products config)))) in
  if decide (0 <= i) then products config !! Z.to_nat i else None.

(** [inventory[product]++] *)
Definition increment (product : string) (inventory : gmap string Z) : gmap string Z :=
  alter (fun n => n + 1) product inventory.

(** The inventory with a zero for each product. *)
Definition zeroInventory : gmap string Z :=
  foldl (fun inventory product => <[product := 0]> inventory) ∅ (products config).

(** The first loop: random picks until the value reaches [minValue].  A
    product without a scrap value makes the sum [NaN], which fails the
    comparison with [maxValue]: the loop is left. *)
Fixpoint fillRandom (fuel : nat) (k : nat) (inventory : gmap string Z) (currentValue : Z)
    : Outcome (gmap string Z * Z * nat) :=
  match fuel with
  | O => Timeout
  | S fuel =>
      if Qlt_le_dec (inject_Z currentValue) minValue then
        match randomProduct k ≫= (fun p => pair p <$> scrapValues config !! p) with
        | Some (product, productValue) =>
            if Qlt_le_dec maxValue (inject_Z (currentValue + productValue))
            then Returns (inventory, currentValue, S k)
            else fillRandom fuel (S k) (increment product inventory)
                            (currentValue + productValue)
        | None => Returns (inventory, currentValue, S k)
        end
      else Returns (inventory, currentValue, k)
  end.

(** [[...products].sort((a, b) => scrapValues[a] - scrapValues[b])]; the
    comparator is [NaN], which [sort] takes for 0, when a scrap value is
    missing. *)
Definition byScrapValue (a b : string) : Z :=
  match scrapValues config !! a, scrapValues config !! b with
  | Some x, Some y => x - y
  | _, _ => 0
  end.

Definition cheapestFirst : list string := js_sort byScrapValue (products config).

(** The inner loop of the second one: the first product, cheapest first,
    that still fits under [maxValue]. *)
Fixpoint firstFitting (currentValue : Z) (candidates : list string) : option (string * Z) :=
  match candidates with
  | [] => None
  | product :: rest =>
      match scrapValues config !! product with
      | Some v =>
          if Qlt_le_dec maxValue (inject_Z (currentValue + v))
          then firstFitting currentValue rest
          else Some (product, v)
      | None => firstFitting currentValue rest
      end
  end.

(** The second loop: cheap items are added while the value is under the
    target. *)
Fixpoint topUp (fuel : nat) (inventory : gmap string Z) (currentValue : Z)
    : Outcome (gmap string Z * Z) :=
  match fuel with
  | O => Timeout
  | S fuel =>
      if decide (currentValue < targetValue) then
        match firstFitting currentValue cheapestFirst with
        | Some (product, v) => topUp fuel (increment product inventory) (currentValue + v)
        | None => Returns (inventory, currentValue)
        end
      else Returns (inventory, currentValue)
  end.

(** [generateStartingInventory()]: [{ inventory, value }], and the number
    of random numbers drawn so far. *)
Definition generateStartingInventory (fuel : nat) (k : nat)
    : Outcome (gmap string Z * Z * nat) :=
  match fillRandom fuel k zeroInventory 0 with
  | Returns (inventory, currentValue, k) =>
      match topUp fuel inventory currentValue with
      | Returns (inventory, value) => Returns (inventory, value, k)
      | Throws => Throws
      | Timeout => Timeout
      end
  | Throws => Throws
  | Timeout => Timeout
  end.

End StartingInventory.

(** An inventory made for the products: a count, never negative, for each of
    them and for nothing else, worth [value] as scrap, and not above the
    ceiling. *)
Definition startingInventory_ok (config : Config) (ceiling : Q)
    (inventory : gmap string Z) (value : Z) : Prop :=
  dom inventory = list_to_set (products config)
  /\ map_Forall (fun _ n => 0 <= n) inventory
  /\ value = scrapValueOf (scrapValues config) inventory
  /\ (inject_Z value <= ceiling)%Q.

(** ** Game and GameManager *)

Definition with_playerIds (l : list uuid) (g : Game) : Game :=
  mkGame (g_gameId g) (g_hostPlayerId g) (g_status g) (g_config g) l
         (g_startTime g) (g_endTime g) (g_createdAt g).

Definition with_game_start (t : Z) (g : Game) : Game :=
  mkGame (g_gameId g) (g_hostPlayerId g) running (g_config g) (g_playerIds g)
         (Some t) (g_endTime g) (g_createdAt g).

(** [addPlayer(playerId)] *)
Definition Game_addPlayer (playerId : uuid) (g : Game) : Game :=
  if decide (playerId ∈ g_playerIds g) then g
  else with_playerIds (g_playerIds g ++ [playerId]) g.

(** [removePlayer(playerId)] *)
Definition Game_removePlayer (playerId : uuid) (g : Game) : Game :=
  with_playerIds (filter (fun id => id ≠ playerId) (g_playerIds g)) g.

(** The [error] of a failed call of the game manager. *)
Inductive GameError :=
| GameInProgress                  (* 'A game is already in progress' *)
| NoGameCreateFirst               (* 'No game exists. Create a game first.' *)
| CannotJoin (s : GameStatus)     (* 'Cannot join: game is ' + status *)
| GameFull                        (* 'Game is full' *)
| NameTaken                       (* 'Name already taken' *)
| NoGame                          (* 'No game exists' *)
| PlayerNotFound                  (* 'Player not found' *)
| OnlyHost                        (* 'Only the host can start the game' *)
| GameAlready (s : GameStatus)    (* 'Game is already ' + status *)
| NeedTwoPlayers.                 (* 'Need at least 2 players to start' *)

(** [{ success: true, ... }] or [{ success: false, error }] *)
Inductive GameResult (A : Type) : Type :=
| Succeeded (a : A)
| Failed (error : GameError).
Arguments Succeeded {A} a.
Arguments Failed {A} error.

(** A row of the live leaderboard. *)
Record LiveEntry := mkLive {
  l_playerId : uuid;
  l_name : string;
  l_estimatedValue : Z;
  l_completeSets : Z
}.

(** The result of [getGameState]. *)
Record GameState := mkGameState {
  s_gameId : uuid;
  s_status : GameStatus;
  s_hostPlayerId : uuid;
  s_remainingTime : Q;
  s_playerCount : nat;
  s_maxPlayers : Z;
  s_players : list (uuid * string)
}.

(** The result of [getPlayerState]; an open order is the object that
    [order.toJSON()] returns, which has every field of the order. *)
Record PlayerState := mkPlayerState {
  ps_playerId : uuid;
  ps_name : string;
  ps_cash : Z;
  ps_inventory : gmap string Z;
  ps_inventoryValue : Z;
  ps_completeSets : Z;
  ps_openOrders : list Order;
  ps_tradeCount : nat
}.

Section GameManager.

Variable clock : nat -> Z.

(** [Math.random()]: the [k]-th number drawn by the process. *)
Variable random : nat -> Q.

(** [String.prototype.toLowerCase] *)
Variable toLowerCase : string -> string.

(** [this.config], with its [startingInventoryTargetTotalValue] and
    [startingInventoryRandomizationFactor]. *)
Variable config : Config.
Variable targetValue : Z.
Variable factor : Q.

(** [new Game(hostPlayerId, config)] *)
Definition new_Game (hostPlayerId : uuid) (w : World) : Game * World :=
  let '(gameId, w) := uuidv4 w in
  let '(createdAt, w) := Date_now clock w in
  (mkGame gameId hostPlayerId lobby config [] None None createdAt, w).

(** [new Player(gameId, name, startingCash, startingInventory)] *)
Definition new_Player (gameId : uuid) (name : string) (cash : Z)
    (startingInventory : gmap string Z) (w : World) : Player * World :=
  let '(playerId, w) := uuidv4 w in
  let '(joinedAt, w) := Date_now clock w in
  (mkPlayer playerId gameId name cash startingInventory [] [] 0
            cash startingInventory None None joinedAt, w).

(** [createGame(hostPlayerId)] on [currentGame]. *)
Definition createGame (hostPlayerId : uuid) (currentGame : option Game) (w : World)
    : GameResult Game * option Game * World :=
  let create :=
    let '(game, w) := new_Game hostPlayerId w in
    let '(_, w) := Date_now clock w in          (* logEvent: timestamp *)
    (Succeeded game, Some game, w) in
  match currentGame with
  | Some game =>
      if decide (g_status game ≠ ended) then (Failed GameInProgress, currentGame, w)
      else create
  | None => create
  end.

(** [existingPlayers.some(p => p.name.toLowerCase() === playerName.toLowerCase())] *)
Definition nameTaken (playerName : string) (existingPlayers : list uuid) (w : World) : Prop :=
  Exists (fun ref => toLowerCase ∘ p_name <$> w_players w !! ref
                     = Some (toLowerCase playerName)) existingPlayers.

#[global] Instance nameTaken_dec playerName existingPlayers w :
  Decision (nameTaken playerName existingPlayers w).
Proof. unfold nameTaken. apply _. Defined.

(** [joinGame(playerName)]; [k] is the number of random numbers drawn so
    far.  The result holds the reference of the new player. *)
Definition joinGame (fuel : nat) (playerName : string) (currentGame : option Game)
    (k : nat) (w : World) : Outcome (GameResult uuid * option Game * nat * World) :=
  match currentGame with
  | None => Returns (Failed NoGameCreateFirst, currentGame, k, w)
  | Some game =>
      if decide (g_status game ≠ lobby)
      then Returns (Failed (CannotJoin (g_status game)), currentGame, k, w)
      else if decide (maxPlayers config <= Z.of_nat (length (g_playerIds game)))
      then Returns (Failed GameFull, currentGame, k, w)
      else
        let existingPlayers := getPlayersByGame (g_gameId game) w in
        if decide (nameTaken playerName existingPlayers w)
        then Returns (Failed NameTaken, currentGame, k, w)
        else
          match generateStartingInventory random config targetValue factor fuel k with
          | Returns (inventory, value, k) =>
              let '(player, w) := new_Player (g_gameId game) playerName
                                             (startingCash config) inventory w in
              let game := Game_addPlayer (p_playerId player) game in
              let w := savePlayer player w in
              let '(_, w) := Date_now clock w in    (* logEvent: timestamp *)
              Returns (Succeeded (p_playerId player), Some game, k, w)
          | Throws => Throws
          | Timeout => Timeout
          end
  end.

(** [leaveGame(playerId)] *)
Definition leaveGame (playerId : uuid) (currentGame : option Game) (w : World)
    : GameResult unit * option Game * World :=
  match currentGame with
  | None => (Failed NoGame, currentGame, w)
  | Some game =>
      match w_players w !! playerId with
      | None => (Failed PlayerNotFound, currentGame, w)
      | Some player =>
          let game := Game_removePlayer playerId game in
          let '(_, w) := Date_now clock w in        (* logEvent: timestamp *)
          (Succeeded (), Some game, w)
      end
  end.

(** [startGame(requestingPlayerId)].  The interval that [startTimer] sets
    runs after the call and is not part of it. *)
Definition startGame (requestingPlayerId : uuid) (currentGame : option Game) (w : World)
    : GameResult Game * option Game * World :=
  match currentGame with
  | None => (Failed NoGame, currentGame, w)
  | Some game =>
      if decide (g_hostPlayerId game ≠ requestingPlayerId)
      then (Failed OnlyHost, currentGame, w)
      else if decide (g_status game ≠ lobby)
      then (Failed (GameAlready (g_status game)), currentGame, w)
      else if decide (length (g_playerIds game) < 2)%nat
      then (Failed NeedTwoPlayers, currentGame, w)
      else
        let '(startTime, w) := Date_now clock w in
        let game := with_game_start startTime game in
        let '(_, w) := Date_now clock w in          (* logEvent: timestamp *)
        (Succeeded game, Some game, w)
  end.

(** The players of the game as objects. *)
Definition playersOf (gameId : uuid) (w : World) : list Player :=
  omap (fun ref => w_players w !! ref) (getPlayersByGame gameId w).

(** [getGameState()]; [now] is the [Date.now()] of [getRemainingTime]. *)
Definition getGameState (now : Z) (currentGame : option Game) (w : World)
    : option GameState :=
  match currentGame with
  | None => None
  | Some game =>
      let players := playersOf (g_gameId game) w in
      Some (mkGameState (g_gameId game) (g_status game) (g_hostPlayerId game)
              (getRemainingTime now game) (length players) (maxPlayers config)
              ((fun p => (p_playerId p, p_name p)) <$> players))
  end.

(** [getPlayerState(playerId)]: an id of [openOrderIds] that has no order
    in the store is dropped by [filter(Boolean)]. *)
Definition getPlayerState (playerId : uuid) (w : World) : option PlayerState :=
  match w_players w !! playerId with
  | None => None
  | Some player =>
      Some (mkPlayerState (p_playerId player) (p_name player) (p_cash player)
              (p_inventory player)
              (getInventoryScrapValue (scrapValues config) player)
              (getCompleteSets (setRecipe config) player)
              (omap (fun id => w_orders w !! id) (p_openOrderIds player))
              (length (p_tradeHistory player)))
  end.

Definition liveRow (p : Player) : LiveEntry :=
  mkLive (p_playerId p) (p_name p)
         (p_cash p + getInventoryScrapValue (scrapValues config) p)
         (getCompleteSets (setRecipe config) p).

Definition byEstimatedValueDesc (a b : LiveEntry) : Z :=
  l_estimatedValue b - l_estimatedValue a.

(** [getLiveLeaderboard()] *)
Definition getLiveLeaderboard (currentGame : option Game) (w : World) : list LiveEntry :=
  match currentGame with
  | None => []
  | Some game =>
      js_sort byEstimatedValueDesc (liveRow <$> playersOf (g_gameId game) w)
  end.

End GameManager.

(** The [_players] Map as the model holds it: no key twice, the keys are the
    ids of the players filed, and each player is filed under its own id. *)
Definition players_filed (w : World) : Prop :=
  NoDup (w_playerKeys w)
  /\ (forall id, id ∈ w_playerKeys w <-> is_Some (w_players w !! id))
  /\ (forall id p, w_players w !! id = Some p -> p_playerId p = id).

(** The ids in the store come from the supply. *)
Definition store_ok (w : World) : Prop :=
  players_filed w
  /\ forall id p, w_players w !! id = Some p ->
       (id < w_next w)%positive /\ (p_gameId p < w_next w)%positive.

(** The roster of a game: its [playerIds] are players of the game in the
    store, without repetition and not more than [maxPlayers]; the players of
    the game in the store have names that differ even when case is ignored,
    and each holds a quantity of every product. *)
Definition roster_ok (toLowerCase : string -> string) (cfg : Config)
    (game : Game) (w : World) : Prop :=
  (g_gameId game < w_next w)%positive
  /\ NoDup (g_playerIds game)
  /\ g_playerIds game ⊆ getPlayersByGame (g_gameId game) w
  /\ Z.of_nat (length (g_playerIds game)) <= Z.max 0 (maxPlayers cfg)
  /\ NoDup (toLowerCase ∘ p_name <$> playersOf (g_gameId game) w)
  /\ Forall (holds_all_products cfg) (playersOf (g_gameId game) w).

(** The player that [joinGame] makes in the world [w]: a new id, the
    starting cash, the inventory made for it, and the reading of the clock. *)
Definition joined (clock : nat -> Z) (cfg : Config) (game : Game) (name : string)
    (inventory : gmap string Z) (w : World) : Player :=
  mkPlayer (w_next w) (g_gameId game) name (startingCash cfg) inventory [] [] 0
           (startingCash cfg) inventory None None (clock (w_ticks w)).

(** What no call changes in a game. *)
Definition same_game (g g' : Game) : Prop :=
  g_gameId g' = g_gameId g /\ g_hostPlayerId g' = g_hostPlayerId g
  /\ g_config g' = g_config g /\ g_createdAt g' = g_createdAt g.

(** Lower case of the letters A to Z. *)
Definition lower_ascii (c : Ascii.ascii) : Ascii.ascii :=
  let n := Ascii.nat_of_ascii c in
  if (65 <=? n)%nat && (n <=? 90)%nat then Ascii.ascii_of_nat (n + 32) else c.

Fixpoint ascii_toLowerCase (s : string) : string :=
  match s with
  | EmptyString => EmptyString
  | String c s => String (lower_ascii c) (ascii_toLowerCase s)
  end.

(** Alice and Bob in the lobby of the game that Alice hosts. *)
Definition lobby_game : Game :=
  mkGame game1 10%positive lobby cfg8 [10%positive; 11%positive] None None 0.

(** [a] comes before [b] in the list. *)
Definition before {A : Type} (a b : A) (l : list A) : Prop :=
  exists l1 l2 l3, l = l1 ++ a :: l2 ++ b :: l3.

(** Admission order: [joinGame] files each player that joins at the end of the
    [_players] Map. *)
Definition filedBefore (w : World) (a b : uuid) : Prop :=
  before a b (w_playerKeys w).

(** The player [pl] is filed under [id] as a player of the game. *)
Definition playerOfGame (gameId : uuid) (w : World) (id : uuid) (pl : Player) : Prop :=
  w_players w !! id = Some pl /\ p_gameId pl = gameId.

Local Open Scope string_scope.


Local Close Scope string_scope.

(** The open orders of the players and the books agree: the ids that a
    player lists are orders of the player that are open or partial and are on
    the book of their product, on their side; an open or partial order that
    is on a book is listed by its owner; and no id is listed twice. *)
Definition open_orders_ok (w : World) : Prop :=
  (forall pid pl id, w_players w !! pid = Some pl -> id ∈ p_openOrderIds pl ->
     exists o, w_orders w !! id = Some o /\ o_playerId o = pid /\ isResting o
               /\ exists book, w_orderBooks w !! o_product o = Some book
                               /\ id ∈ book_side (o_side o) book)
  /\ (forall product book s id o,
        w_orderBooks w !! product = Some book -> id ∈ book_side s book ->
        w_orders w !! id = Some o -> isResting o ->
        exists pl, w_players w !! o_playerId o = Some pl /\ id ∈ p_openOrderIds pl)
  /\ (forall pid pl, w_players w !! pid = Some pl -> NoDup (p_openOrderIds pl)).

(** What the loop of [matchOrder] keeps, for the incoming order [incId]:
    the lists and the books agree, the incoming order is on no book, and it
    is open or partial as long as something is left of it. *)
Definition open_orders_inv (incId : uuid) (w : World) : Prop :=
  open_orders_ok w
  /\ (forall product book s, w_orderBooks w !! product = Some book ->
        incId ∉ book_side s book)
  /\ (forall inc, w_orders w !! incId = Some inc -> o_remainingQuantity inc > 0 ->
        isResting inc).

(** No player is in debt: cash and every held quantity are not negative. *)
Definition balances_ok (w : World) : Prop :=
  forall pid pl, w_players w !! pid = Some pl ->
    0 <= p_cash pl /\ forall product, 0 <= inventoryOf (p_inventory pl) product.

(** * Properties *)

(** ** Game.getRemainingTime *)

Lemma getRemainingTime_running now g start :
  g_status g = running -> g_startTime g = Some start ->
  getRemainingTime now g
  = Qmax (inject_Z 0) (inject_Z (gameDuration (g_config g)) - Qmake (now - start) 1000).
Proof. intros Hs Ht. unfold getRemainingTime. by rewrite Hs, Ht. Qed.

Lemma elapsed_mono (a b : Z) : a <= b -> (Qmake a 1000 <= Qmake b 1000)%Q.
Proof. intros H. unfold Qle. simpl. lia. Qed.

(** C10. While the status is not [running] the accessor returns the whole
    configured duration, whatever the clock says; while it is [running] (the
    start time is then set) it returns [max(0, duration - elapsed)], which is
    never negative and never grows as the clock advances. *)
Theorem getRemainingTime_spec (now : Z) (g : Game) :
  (g_status g <> running ->
     getRemainingTime now g = inject_Z (gameDuration (g_config g)))
  /\ (forall start, g_status g = running -> g_startTime g = Some start ->
        getRemainingTime now g
        = Qmax (inject_Z 0)
               (inject_Z (gameDuration (g_config g)) - Qmake (now - start) 1000)
        /\ (inject_Z 0 <= getRemainingTime now g)%Q
        /\ (forall later, now <= later ->
            (getRemainingTime later g <= getRemainingTime now g)%Q)).
Proof.
  split.
  - intros Hs. unfold getRemainingTime. destruct (g_status g); congruence.
  - intros start Hs Ht. rewrite !(getRemainingTime_running _ _ _ Hs Ht).
    split; [done|]. split; [apply Q.le_max_l|].
    intros later Hle. rewrite (getRemainingTime_running _ _ _ Hs Ht).
    apply Q.max_le_compat_l.
    apply Qplus_le_r. apply Qopp_le_compat. apply elapsed_mono. lia.
Qed.

(** ** submitOrder: validation *)

(** C5. A submission that fails validation returns an error; the world it
    returns is the world it was given, so no order exists or rests, no trade
    happened and no cash, inventory or open-order set changed. *)
Theorem submitOrder_rejects clock cfg fuel gameId player pl product side orderType
    quantity price (w : World) :
  w_players w !! player = Some pl ->
  validation_fails cfg w pl product side orderType quantity price ->
  exists e, submitOrder clock cfg fuel gameId player product side orderType
                        quantity price w
            = Returns (mkSubmit None [] [e], w).
Proof.
  intros Hpl Hfail. unfold submitOrder, validateOrder.
  destruct (decide (product ∉ products cfg)); [eauto|].
  destruct (decide (quantity < minOrderSize cfg \/ quantity > maxOrderSize cfg)); [eauto|].
  destruct (decide (orderType = limit /\ (price = None \/ toNum price <= 0))); [eauto|].
  rewrite Hpl.
  destruct Hfail as [H|[H|[H|[H|[H|[H|H]]]]]]; try (exfalso; tauto || lia).
  - destruct H as (-> & -> & Hc). rewrite decide_True by done. eauto.
  - destruct H as (-> & -> & est & -> & Hc). rewrite decide_True by done. eauto.
  - destruct H as (-> & Hc). rewrite decide_True by done. eauto.
Qed.

(** ** cancelOrder *)

Lemma not_elem_of_filter_ne (x : uuid) (l : list uuid) :
  x ∉ filter (fun y => y ≠ x) l.
Proof. rewrite list_elem_of_filter. tauto. Qed.

Lemma lookup_alter_fmap {A B : Type} (f : A -> A) (g : A -> B) (m : gmap uuid A) i j :
  (forall x, g (f x) = g x) -> g <$> (alter f i m !! j) = g <$> (m !! j).
Proof.
  intros Hg. destruct (decide (i = j)) as [->|Hne].
  - rewrite lookup_alter_eq. destruct (m !! j); simpl; by rewrite ?Hg.
  - by rewrite lookup_alter_ne.
Qed.

(** C9. [cancelOrder] on an unknown id fails with 'Order not found'; by
    someone who is not the owner, with 'Not your order'; by the owner on a
    filled or cancelled order, with 'Order already ...'; each time the world
    is unchanged.  Otherwise it succeeds: the order is cancelled, it is in
    neither side of its book nor in the owner's open orders, and every
    player's cash and inventory are what they were. *)
Theorem cancelOrder_spec clock (orderId playerId : uuid) (w : World) :
  (w_orders w !! orderId = None ->
     cancelOrder clock orderId playerId w = Returns (CancelFailed OrderNotFound, w))
  /\ (forall o, w_orders w !! orderId = Some o -> o_playerId o <> playerId ->
        cancelOrder clock orderId playerId w = Returns (CancelFailed NotYourOrder, w))
  /\ (forall o, w_orders w !! orderId = Some o -> o_playerId o = playerId ->
        o_status o = filled \/ o_status o = cancelled ->
        cancelOrder clock orderId playerId w
        = Returns (CancelFailed (OrderAlready (o_status o)), w))
  /\ (forall o book, w_orders w !! orderId = Some o -> o_playerId o = playerId ->
        o_status o = open \/ o_status o = partial ->
        w_orderBooks w !! o_product o = Some book ->
        exists w',
          cancelOrder clock orderId playerId w = Returns (CancelOk orderId, w')
          /\ o_status <$> w_orders w' !! orderId = Some cancelled
          /\ (exists book', w_orderBooks w' !! o_product o = Some book'
                            /\ (orderId ∉ bids book') /\ (orderId ∉ asks book'))
          /\ (forall pl', w_players w' !! playerId = Some pl' ->
                          orderId ∉ p_openOrderIds pl')
          /\ (forall pid, p_cash <$> w_players w' !! pid = p_cash <$> w_players w !! pid)
          /\ (forall pid, p_inventory <$> w_players w' !! pid
                          = p_inventory <$> w_players w !! pid)).
Proof.
  unfold cancelOrder. repeat split.
  - by intros ->.
  - intros o -> Hne. by rewrite decide_True.
  - intros o -> Heq Hst. rewrite decide_False by tauto. by rewrite decide_True.
  - intros o book Ho Heq Hst Hbook. rewrite Ho, Hbook.
    rewrite decide_False by tauto.
    rewrite decide_False by (intros [H|H]; destruct Hst; congruence).
    eexists. split; [reflexivity|]. simpl. repeat split.
    + rewrite lookup_alter_eq, Ho. done.
    + eexists. rewrite lookup_insert_eq. split; [reflexivity|].
      simpl. split; apply not_elem_of_filter_ne.
    + intros pl'. rewrite lookup_alter_eq.
      destruct (w_players w !! playerId); simpl; [|done].
      intros [= <-]. simpl. apply not_elem_of_filter_ne.
    + intros pid. by apply lookup_alter_fmap.
    + intros pid. by apply lookup_alter_fmap.
Qed.

(** ** The matching loop: one iteration *)

Lemma matchLoop_step clock fuel incId pl trades (w : World) inc book oppId opp tr w1 :
  w_orders w !! incId = Some inc ->
  o_remainingQuantity inc > 0 ->
  w_orderBooks w !! o_product inc = Some book ->
  bestOpposing (w_orders w) inc book = Some oppId ->
  w_orders w !! oppId = Some opp ->
  o_playerId opp <> o_playerId inc ->
  crosses inc opp ->
  executeTrade clock incId oppId pl w = Returns (tr, w1) ->
  matchLoop clock (S fuel) incId pl trades w
  = matchLoop clock fuel incId pl
      (match tr with Some t => trades ++ [t] | None => trades end)
      (set_orderBooks (alter (cleanup (w_orders w1)) (o_product inc)) w1).
Proof.
  intros Hinc Hrem Hbook Hbest Hopp Hself [Hc1 Hc2] Hex.
  simpl. rewrite Hinc. rewrite decide_True by done. rewrite Hbook.
  unfold bestOpposing in Hbest. rewrite Hbest, Hopp.
  rewrite decide_False by done. rewrite decide_False by done.
  rewrite decide_False by done. rewrite Hex. done.
Qed.

(** [executeTrade] returns [null] only on its early exits, where nothing has
    been written; whether it does depends on the orders and the players
    alone. *)
Lemma executeTrade_null clock incId rstId pl (w w1 : World) :
  executeTrade clock incId rstId pl w = Returns (None, w1) ->
  w1 = w /\ forall w2, w_orders w2 = w_orders w -> w_players w2 = w_players w ->
                       executeTrade clock incId rstId pl w2 = Returns (None, w2).
Proof.
  unfold executeTrade. intros H.
  split.
  - destruct (w_orders w !! incId) as [inc|]; [|done].
    destruct (w_orders w !! rstId) as [rst|]; [|done].
    destruct (o_side inc);
      (destruct (w_players w !! _) as [b|]; [|congruence]);
      (destruct (w_players w !! _) as [s|]; [|congruence]);
      repeat case_decide; try congruence; discriminate.
  - intros w2 -> ->.
    destruct (w_orders w !! incId) as [inc|]; [|done].
    destruct (w_orders w !! rstId) as [rst|]; [|done].
    destruct (o_side inc);
      (destruct (w_players w !! _) as [b|]; [|congruence]);
      (destruct (w_players w !! _) as [s|]; [|congruence]);
      repeat case_decide; try congruence; discriminate.
Qed.

Lemma filter_idemp {A : Type} (P : A -> Prop) `{!forall x, Decision (P x)} (l : list A) :
  filter P (filter P l) = filter P l.
Proof.
  induction l as [|x l IH]; [done|].
  rewrite filter_cons. case_decide as Hx; [|done].
  rewrite filter_cons. rewrite decide_True by done. by rewrite IH.
Qed.

Lemma bestOpposing_cleanup h inc book :
  bestOpposing h inc (cleanup h book) = bestOpposing h inc book.
Proof.
  unfold bestOpposing, getBestAsk, getBestBid, cleanup. simpl.
  by rewrite !filter_idemp.
Qed.

(** A failed re-check makes [executeTrade] return [null] on the spot. *)
Lemma executeTrade_recheck clock incId rstId pl (w : World) inc rst :
  w_orders w !! incId = Some inc ->
  w_orders w !! rstId = Some rst ->
  recheck_fails w inc rst ->
  executeTrade clock incId rstId pl w = Returns (None, w).
Proof.
  intros Hinc Hrst (buyer & seller & Hb & Hs & Hfail).
  unfold executeTrade, buyerOf, sellerOf in *. rewrite Hinc, Hrst.
  destruct (o_side inc); rewrite Hb, Hs; simpl in Hfail;
    repeat case_decide; try done; lia.
Qed.

(** Once [executeTrade] has returned [null] the loop is back where it was:
    the same opposing order is picked and refused again, for ever. *)
Lemma matchLoop_stuck clock fuel incId pl trades (w : World) inc book oppId opp :
  w_orders w !! incId = Some inc ->
  o_remainingQuantity inc > 0 ->
  w_orderBooks w !! o_product inc = Some book ->
  bestOpposing (w_orders w) inc book = Some oppId ->
  w_orders w !! oppId = Some opp ->
  o_playerId opp <> o_playerId inc ->
  crosses inc opp ->
  executeTrade clock incId oppId pl w = Returns (None, w) ->
  matchLoop clock fuel incId pl trades w = Timeout.
Proof.
  revert w book. induction fuel as [|fuel IH]; [done|].
  intros w book Hinc Hrem Hbook Hbest Hopp Hself Hcross Hex.
  rewrite (matchLoop_step _ _ _ _ _ _ _ _ _ _ _ _ Hinc Hrem Hbook Hbest Hopp Hself Hcross Hex).
  apply (IH _ (cleanup (w_orders w) book)); simpl; try done.
  - by rewrite lookup_alter_eq, Hbook.
  - by rewrite bestOpposing_cleanup.
  - by apply (executeTrade_null _ _ _ _ _ _ Hex).
Qed.

(** ** C1: a failed re-check *)

(** C1 (what the code does).  When the loop of [matchOrder] reaches an
    opposing order that passes the self-trade and price checks and the
    re-check of resources fails, [executeTrade] returns [null] and writes
    nothing: no trade, no change of cash or inventory.  But the loop does not
    stop there: with any amount of fuel it is still running, so [matchOrder]
    (and [submitOrder] with it) never returns. *)
Theorem matchLoop_recheck_failure clock incId pl trades (w : World) inc book oppId opp :
  w_orders w !! incId = Some inc ->
  o_remainingQuantity inc > 0 ->
  w_orderBooks w !! o_product inc = Some book ->
  bestOpposing (w_orders w) inc book = Some oppId ->
  w_orders w !! oppId = Some opp ->
  o_playerId opp <> o_playerId inc ->
  crosses inc opp ->
  recheck_fails w inc opp ->
  executeTrade clock incId oppId pl w = Returns (None, w)
  /\ forall fuel, matchLoop clock fuel incId pl trades w = Timeout.
Proof.
  intros Hinc Hrem Hbook Hbest Hopp Hself Hcross Hfail.
  pose proof (executeTrade_recheck clock _ _ pl _ _ _ Hinc Hopp Hfail) as Hex.
  split; [done|]. intros fuel. by eapply matchLoop_stuck.
Qed.

Lemma matchLoop_recheck_failure_witness :
  executeTrade ticking_clock stuck_order 101%positive 11%positive w_stuck
  = Returns (None, w_stuck)
  /\ matchLoop ticking_clock 1000 stuck_order 11%positive [] w_stuck = Timeout.
Proof.
  edestruct (matchLoop_recheck_failure ticking_clock stuck_order 11%positive []
               w_stuck) as [H1 H2].
  - vm_compute; reflexivity.
  - vm_compute; reflexivity.
  - vm_compute; reflexivity.
  - vm_compute; reflexivity.
  - vm_compute; reflexivity.
  - vm_compute; discriminate.
  - split; vm_compute; intros (_ & _ & ?); discriminate.
  - eexists _, _. split; [vm_compute; reflexivity|].
    split; [vm_compute; reflexivity|]. right. vm_compute. reflexivity.
  - split; [exact H1 | exact (H2 1000%nat)].
Defined.

(** The same on the whole call: in [w_unbacked], where Alice's resting ask of
    6 bread is backed by 4, Bob's buy of 6 bread at 1 never returns. *)
Lemma submitOrder_unbacked_never_returns (fuel : nat) :
  submitOrder ticking_clock cfg8 fuel game1 11%positive "bread" buy limit 6 (Some 1)
              w_unbacked
  = Timeout.
Proof.
  unfold submitOrder.
  replace (validateOrder cfg8 11%positive "bread" buy limit 6 (Some 1) w_unbacked)
    with (Returns (@None SubmitError)) by (vm_compute; reflexivity).
  destruct (w_players w_unbacked !! 11%positive) as [pl|] eqn:Hpl;
    [|vm_compute in Hpl; discriminate].
  assert (p_playerId pl = 11%positive /\ p_name pl = "Bob"%string) as [-> ->].
  { vm_compute in Hpl. injection Hpl as <-. done. }
  rewrite (surjective_pairing (new_Order _ _ _ _ _ _ _ _ _ _)).
  fold stuck_order w_stuck. unfold matchOrder.
  erewrite matchLoop_stuck; [done|..].
  - vm_compute; reflexivity.
  - vm_compute; reflexivity.
  - vm_compute; reflexivity.
  - vm_compute; reflexivity.
  - vm_compute; reflexivity.
  - vm_compute; discriminate.
  - split; vm_compute; intros (_ & _ & ?); discriminate.
  - vm_compute; reflexivity.
Qed.

(** ** executeTrade: what a call does to the world *)

Lemma inventoryOf_insert inv product product' n :
  inventoryOf (<[product := n]> inv) product'
  = if decide (product = product') then n else inventoryOf inv product'.
Proof.
  unfold inventoryOf. case_decide as H.
  - subst. by rewrite lookup_insert_eq.
  - by rewrite lookup_insert_ne.
Qed.

Tactic Notation "world_proj" :=
  cbv beta iota zeta delta [w_players w_orders w_trades w_orderBooks w_next w_ticks
                            w_playerKeys t_tradeId].
Tactic Notation "world_proj" "in" hyp(H) :=
  cbv beta iota zeta delta [w_players w_orders w_trades w_orderBooks w_next w_ticks
                            w_playerKeys t_tradeId] in H.

(** The branch of [executeTrade] past the re-check, for either side. *)
Ltac executeTrade_settled H inc rst :=
  cbv beta iota zeta delta [new_Trade Order_fill uuidv4 Date_now set_players set_orders
    set_trades w_players w_orders w_trades w_orderBooks w_next w_ticks w_playerKeys
    t_tradeId] in H;
  injection H as <- <-;
  split; [done|]; split; [by split|]; split;
  [ intros (? & ? & [= <-] & [= <-] & [?|?]); done |];
  repeat match goal with Hl : _ !! _ = Some _ |- _ => clear Hl end;
  repeat case_decide; world_proj; (repeat split; try done);
  intros pid; try intros product;
  (destruct (decide (o_playerId inc = pid)) as [<-|?];
   [destruct (decide (o_playerId rst = o_playerId inc)) as [E|?]; [rewrite ?E|]
   |destruct (decide (o_playerId rst = pid)) as [<-|?]]);
  repeat (rewrite lookup_alter_eq || rewrite lookup_alter_ne by done);
  match goal with |- context [?m !! ?k] => destruct (m !! k) as [p|] end;
  simpl; try done;
  rewrite ?inventoryOf_insert;
  repeat case_decide; subst; try congruence; try tauto;
  f_equal; lia.

Lemma executeTrade_inv clock incId rstId pl (w w1 : World) tr :
  executeTrade clock incId rstId pl w = Returns (tr, w1) ->
  exists inc rst,
    w_orders w !! incId = Some inc /\ w_orders w !! rstId = Some rst /\
    match tr with
    | None => w1 = w
    | Some t =>
        let q := Z.min (o_remainingQuantity inc) (o_remainingQuantity rst) in
        let v := q * toNum (o_price rst) in
        let buyer := buyerOf inc rst in
        let seller := sellerOf inc rst in
        let tid := w_next w in
        let k := w_ticks w in
        t = mkTrade tid (o_gameId inc) (buyOrderOf inc incId rstId)
                    (sellOrderOf inc incId rstId) buyer seller (o_product inc)
                    q (o_price rst) v (clock k)
        /\ (is_Some (w_players w !! buyer) /\ is_Some (w_players w !! seller))
        /\ ~ recheck_fails w inc rst
        /\ w_orders w1
           = alter (Order_filled tid q (o_price rst) (clock (3 + k)%nat) (clock (4 + k)%nat))
                   (sellOrderOf inc incId rstId)
               (alter (Order_filled tid q (o_price rst) (clock (1 + k)%nat) (clock (2 + k)%nat))
                      (buyOrderOf inc incId rstId) (w_orders w))
        /\ w_trades w1 = <[tid := t]> (w_trades w)
        /\ w_orderBooks w1 = w_orderBooks w
        /\ w_playerKeys w1 = w_playerKeys w
        /\ w_next w1 = Pos.succ tid
        /\ w_ticks w1 = (5 + k)%nat
        /\ (forall pid,
              p_cash <$> (w_players w1 !! pid)
              = (fun c => c - (if decide (buyer = pid) then v else 0)
                            + (if decide (seller = pid) then v else 0))
                  <$> (p_cash <$> (w_players w !! pid)))
        /\ (forall pid product,
              (fun p => inventoryOf (p_inventory p) product) <$> (w_players w1 !! pid)
              = (fun n => n + (if decide (buyer = pid /\ o_product inc = product) then q else 0)
                            - (if decide (seller = pid /\ o_product inc = product) then q else 0))
                  <$> ((fun p => inventoryOf (p_inventory p) product) <$> (w_players w !! pid)))
    end.
Proof.
  unfold recheck_fails, buyerOf, sellerOf, buyOrderOf, sellOrderOf. intros H.
  unfold executeTrade in H.
  destruct (w_orders w !! incId) as [inc|]; [|done].
  destruct (w_orders w !! rstId) as [rst|]; [|done].
  exists inc, rst. split; [done|]. split; [done|].
  destruct w as [players keys orders trades books next ticks].
  world_proj in H. world_proj.
  destruct (o_side inc).
  - destruct (players !! o_playerId inc) as [b|] eqn:Hb; [|by injection H as <- <-].
    destruct (players !! o_playerId rst) as [s|] eqn:Hs; [|by injection H as <- <-].
    destruct (decide (p_cash b < _)) as [Hc|Hc]; [by injection H as <- <-|].
    destruct (decide (inventoryOf _ _ < _)) as [Hi|Hi]; [by injection H as <- <-|].
    executeTrade_settled H inc rst.
  - destruct (players !! o_playerId rst) as [b|] eqn:Hb; [|by injection H as <- <-].
    destruct (players !! o_playerId inc) as [s|] eqn:Hs; [|by injection H as <- <-].
    destruct (decide (p_cash b < _)) as [Hc|Hc]; [by injection H as <- <-|].
    destruct (decide (inventoryOf _ _ < _)) as [Hi|Hi]; [by injection H as <- <-|].
    executeTrade_settled H inc rst.
Qed.

(** ** The matching loop: an invariant rule *)

(** A property of the trades and the world that every executed trade
    preserves holds when the loop returns.  (An iteration in which
    [executeTrade] returns [null] need not be considered: the loop does not
    return after it.) *)
Lemma matchLoop_rule clock incId pl (P : list Trade -> World -> Prop) :
  (forall trades w inc book oppId opp tr w1,
      P trades w ->
      w_orders w !! incId = Some inc ->
      o_remainingQuantity inc > 0 ->
      w_orderBooks w !! o_product inc = Some book ->
      bestOpposing (w_orders w) inc book = Some oppId ->
      w_orders w !! oppId = Some opp ->
      o_playerId opp <> o_playerId inc ->
      crosses inc opp ->
      executeTrade clock incId oppId pl w = Returns (Some tr, w1) ->
      P (trades ++ [tr])
        (set_orderBooks (alter (cleanup (w_orders w1)) (o_product inc)) w1)) ->
  forall fuel trades w trades' w',
    P trades w ->
    matchLoop clock fuel incId pl trades w = Returns (trades', w') ->
    P trades' w'.
Proof.
  intros Hstep. induction fuel as [|fuel IH]; intros trades w trades' w' HP H; [done|].
  pose proof H as H0. simpl in H.
  destruct (w_orders w !! incId) as [inc|] eqn:Hinc; [|done].
  destruct (decide (o_remainingQuantity inc > 0)) as [Hrem|];
    [|by injection H as <- <-].
  destruct (w_orderBooks w !! o_product inc) as [book|] eqn:Hbook; [|done].
  destruct (match o_side inc with
            | buy => getBestAsk (w_orders w) book
            | sell => getBestBid (w_orders w) book
            end) as [oppId|] eqn:Hbest; [|by injection H as <- <-].
  destruct (w_orders w !! oppId) as [opp|] eqn:Hopp; [|done].
  destruct (decide (o_playerId opp = o_playerId inc)) as [|Hself];
    [by injection H as <- <-|].
  destruct (decide (_ /\ _ /\ _ < _)) as [|Hc1]; [by injection H as <- <-|].
  destruct (decide (_ /\ _ /\ _ > _)) as [|Hc2]; [by injection H as <- <-|].
  destruct (executeTrade clock incId oppId pl w) as [[[tr|] w1]| |] eqn:Hex; try done.
  - eapply IH; [|exact H]. eapply Hstep; eauto. by split.
  - destruct (executeTrade_null _ _ _ _ _ _ Hex) as [-> _].
    rewrite (matchLoop_stuck clock (S fuel) incId pl trades w inc book oppId opp) in H0;
      try done.
Qed.

(** ** Sums over the players *)

Section Sums.
Context {A : Type}.

Lemma msum_empty (g : uuid -> A -> Z) : msum g ∅ = 0.
Proof. apply map_fold_empty. Qed.

Lemma msum_insert (g : uuid -> A -> Z) (m : gmap uuid A) i x :
  m !! i = None -> msum g (<[i := x]> m) = msum g m + g i x.
Proof.
  intros Hi. unfold msum. rewrite map_fold_insert_L; [done| |done].
  intros; lia.
Qed.

(** Two maps with the same keys: the sums differ by the sum of the
    pointwise differences. *)
Lemma msum_pointwise (g : A -> Z) (d : uuid -> Z) (m m' : gmap uuid A) :
  (forall k, g <$> (m' !! k) = (fun c => c + d k) <$> (g <$> (m !! k))) ->
  msum (fun _ x => g x) m' = msum (fun _ x => g x) m + msum (fun k _ => d k) m.
Proof.
  revert m'. induction m as [|i x m Hi IH] using map_ind; intros m' H.
  - assert (m' = ∅) as ->.
    { apply map_empty. intros k. specialize (H k). rewrite lookup_empty in H.
      by destruct (m' !! k). }
    rewrite !msum_empty. lia.
  - pose proof (H i) as Hii. rewrite lookup_insert_eq in Hii. simpl in Hii.
    destruct (m' !! i) as [x'|] eqn:Hx'; [|done]. injection Hii as Hii.
    rewrite <- (insert_delete_id m' i x') by done.
    rewrite !msum_insert by (done || apply lookup_delete_eq).
    rewrite (IH (delete i m')); [lia|].
    intros k. destruct (decide (i = k)) as [<-|Hne].
    + by rewrite lookup_delete_eq, Hi.
    + rewrite lookup_delete_ne by done. rewrite H. by rewrite lookup_insert_ne.
Qed.

(** The sum of what one key contributes. *)
Lemma msum_at (v : Z) (i : uuid) (m : gmap uuid A) :
  is_Some (m !! i) ->
  msum (fun k _ => if decide (i = k) then v else 0) m = v.
Proof.
  induction m as [|j x m Hj IH] using map_ind; intros [y Hy].
  - by rewrite lookup_empty in Hy.
  - rewrite msum_insert by done. simpl. destruct (decide (i = j)) as [<-|Hne].
    + 
      assert (msum (fun k _ => if decide (i = k) then v else 0) m = 0) as ->; [|lia].
      clear IH Hy. induction m as [|k z m Hk IH] using map_ind; [apply msum_empty|].
      rewrite msum_insert by done. simpl.
      rewrite lookup_insert_None in Hj. destruct Hj as [Hj ?].
      rewrite IH by done. by rewrite decide_False.
    + rewrite lookup_insert_ne in Hy by done. rewrite IH by eauto. lia.
Qed.

Lemma msum_plus (f g : uuid -> A -> Z) (m : gmap uuid A) :
  msum (fun k x => f k x + g k x) m = msum f m + msum g m.
Proof.
  induction m as [|j x m Hj IH] using map_ind.
  - by rewrite !msum_empty.
  - rewrite !msum_insert by done. lia.
Qed.

Lemma msum_opp (f : uuid -> A -> Z) (m : gmap uuid A) :
  msum (fun k x => - f k x) m = - msum f m.
Proof.
  induction m as [|j x m Hj IH] using map_ind.
  - by rewrite !msum_empty.
  - rewrite !msum_insert by done. lia.
Qed.
End Sums.

Lemma msum_transfer {A} (g : A -> Z) (a b : uuid) (v : Z) (m m' : gmap uuid A) :
  is_Some (m !! a) -> is_Some (m !! b) ->
  (forall k, g <$> (m' !! k)
             = (fun c => c - (if decide (a = k) then v else 0)
                           + (if decide (b = k) then v else 0)) <$> (g <$> (m !! k))) ->
  msum (fun _ x => g x) m' = msum (fun _ x => g x) m.
Proof.
  intros Ha Hb H.
  rewrite (msum_pointwise g (fun k => - (if decide (a = k) then v else 0)
                                        + (if decide (b = k) then v else 0)) m m').
  - rewrite (msum_plus (fun k _ => - (if decide (a = k) then v else 0))
                       (fun k _ => if decide (b = k) then v else 0)).
    rewrite (msum_opp (fun k _ => if decide (a = k) then v else 0)).
    rewrite !msum_at by done. lia.
  - intros k. rewrite H. destruct (m !! k); simpl; [f_equal; lia|done].
Qed.

(** ** C2: settlement *)

(** C2. A trade that [executeTrade] makes has the quantity
    [min(incoming.remaining, resting.remaining)], the price of the resting
    order and their product as value.  Between two different players (the
    only case [matchOrder] lets through) the buyer's cash goes down and the
    seller's cash up by exactly that value, the buyer's inventory of the
    product up and the seller's down by exactly the quantity.  In every
    case the total cash and, for each product, the total inventory of all
    players are what they were. *)
Theorem executeTrade_settles clock incId rstId pl (w w1 : World) inc rst t :
  w_orders w !! incId = Some inc ->
  w_orders w !! rstId = Some rst ->
  executeTrade clock incId rstId pl w = Returns (Some t, w1) ->
  let q := Z.min (o_remainingQuantity inc) (o_remainingQuantity rst) in
  let v := q * toNum (o_price rst) in
  t_quantity t = q /\ t_price t = o_price rst /\ t_value t = v
  /\ t_product t = o_product inc
  /\ t_buyerId t = buyerOf inc rst /\ t_sellerId t = sellerOf inc rst
  /\ (exists b s,
        w_players w !! t_buyerId t = Some b /\ w_players w !! t_sellerId t = Some s
        /\ v <= p_cash b /\ q <= inventoryOf (p_inventory s) (t_product t)
        /\ (t_buyerId t <> t_sellerId t ->
            exists b' s',
              w_players w1 !! t_buyerId t = Some b'
              /\ w_players w1 !! t_sellerId t = Some s'
              /\ p_cash b' = p_cash b - v
              /\ p_cash s' = p_cash s + v
              /\ inventoryOf (p_inventory b') (t_product t)
                 = inventoryOf (p_inventory b) (t_product t) + q
              /\ inventoryOf (p_inventory s') (t_product t)
                 = inventoryOf (p_inventory s) (t_product t) - q))
  /\ total_cash w1 = total_cash w
  /\ (forall product, total_inventory product w1 = total_inventory product w).
Proof.
  intros Hinc Hrst Hex q v.
  destruct (executeTrade_inv _ _ _ _ _ _ _ Hex)
    as (inc' & rst' & Hinc' & Hrst' & Ht & [[b Hb] [s Hs]] & Hre & _ & _ & _ & _ & _ & _ & Hcash & Hinv).
  assert (inc' = inc) as -> by congruence. assert (rst' = rst) as -> by congruence.
  fold q in Ht, Hcash, Hinv, Hre. fold v in Ht, Hcash. subst t. simpl.
  repeat split.
  - exists b, s. split; [done|]. split; [done|].
    split. { destruct (decide (v <= p_cash b)); [done|]. exfalso. apply Hre.
             exists b, s. repeat split; try done. left. fold q. fold v. lia. }
    split. { destruct (decide (q <= inventoryOf (p_inventory s) (o_product inc))); [done|].
             exfalso. apply Hre. exists b, s. repeat split; try done. right. fold q. lia. }
    intros Hne.
    pose proof (Hcash (buyerOf inc rst)) as Hcb. pose proof (Hcash (sellerOf inc rst)) as Hcs.
    pose proof (Hinv (buyerOf inc rst) (o_product inc)) as Hib.
    pose proof (Hinv (sellerOf inc rst) (o_product inc)) as His.
    rewrite Hb in Hcb, Hib. rewrite Hs in Hcs, His.
    destruct (w_players w1 !! buyerOf inc rst) as [b'|]; [|done].
    destruct (w_players w1 !! sellerOf inc rst) as [s'|]; [|done].
    simpl in *. exists b', s'.
    rewrite decide_True in Hcb by done. rewrite decide_False in Hcb by done.
    rewrite decide_False in Hcs by done. rewrite decide_True in Hcs by done.
    rewrite decide_True in Hib by done.
    rewrite decide_False in Hib by (intros [? _]; congruence).
    rewrite decide_False in His by (intros [? _]; congruence).
    rewrite decide_True in His by done.
    injection Hcb as ->. injection Hcs as ->. injection Hib as ->. injection His as ->.
    repeat split; lia.
  - unfold total_cash. by apply (msum_transfer p_cash (buyerOf inc rst) (sellerOf inc rst) v).
  - intros product. unfold total_inventory.
    destruct (decide (o_product inc = product)) as [Hp|Hp].
    + apply (msum_transfer (fun p => inventoryOf (p_inventory p) product)
                           (sellerOf inc rst) (buyerOf inc rst) q); [done..|].
      intros k. rewrite Hinv. destruct (w_players w !! k); simpl; [|done].
      f_equal. repeat case_decide; try tauto; try lia.
    + apply (msum_transfer (fun p => inventoryOf (p_inventory p) product)
                           (sellerOf inc rst) (buyerOf inc rst) 0); [done..|].
      intros k. rewrite Hinv. destruct (w_players w !! k); simpl; [|done].
      f_equal. repeat case_decide; try tauto; try lia.
Qed.

Lemma executeTrade_settles_witness :
  exists t w1,
    executeTrade ticking_clock cross_order 100%positive 11%positive w_cross
    = Returns (Some t, w1)
    /\ t_quantity t = 6 /\ t_price t = Some 1 /\ t_value t = 6
    /\ total_cash w1 = total_cash w_cross.
Proof.
  assert (exists t w1, executeTrade ticking_clock cross_order 100%positive 11%positive w_cross
                       = Returns (Some t, w1)) as (t & w1 & Hex)
    by (eexists _, _; vm_compute; reflexivity).
  assert (exists inc, w_orders w_cross !! cross_order = Some inc
                      /\ o_remainingQuantity inc = 6) as (inc & Hinc & Hq)
    by (eexists; split; vm_compute; reflexivity).
  assert (exists rst, w_orders w_cross !! 100%positive = Some rst
                      /\ o_remainingQuantity rst = 6 /\ o_price rst = Some 1)
    as (rst & Hrst & Hq' & Hp)
    by (eexists; repeat split; vm_compute; reflexivity).
  destruct (executeTrade_settles _ _ _ _ _ _ _ _ _ Hinc Hrst Hex)
    as (H1 & H2 & H3 & _ & _ & _ & _ & H4 & _).
  exists t, w1. split; [exact Hex|].
  rewrite H1, H2, H3, H4, Hq, Hq', Hp. repeat split; reflexivity.
Defined.

(** ** submitOrder: the stages of a call *)

Lemma new_Order_spec clock gameId playerId playerName product side orderType quantity price
    (w : World) :
  let r := new_Order clock gameId playerId playerName product side orderType quantity price w in
  fst r = w_next w
  /\ w_orders (snd r)
     = <[w_next w := mkOrder (w_next w) gameId playerId playerName product side orderType
                             quantity quantity price open []
                             (clock (w_ticks w)) (clock (S (w_ticks w)))]> (w_orders w)
  /\ w_players (snd r) = w_players w
  /\ w_playerKeys (snd r) = w_playerKeys w
  /\ w_trades (snd r) = w_trades w
  /\ w_orderBooks (snd r) = w_orderBooks w
  /\ w_next (snd r) = Pos.succ (w_next w)
  /\ w_ticks (snd r) = S (S (w_ticks w)).
Proof. by destruct w. Qed.

Lemma submitOrder_inv clock cfg fuel gameId player product side orderType quantity price
    (w w' : World) res :
  submitOrder clock cfg fuel gameId player product side orderType quantity price w
  = Returns (res, w') ->
  (exists e, validateOrder cfg player product side orderType quantity price w
             = Returns (Some e)
             /\ res = mkSubmit None [] [e] /\ w' = w)
  \/ (exists pl trades w2,
        validateOrder cfg player product side orderType quantity price w = Returns None
        /\ w_players w !! player = Some pl
        /\ let r := new_Order clock gameId (p_playerId pl) (p_name pl) product side
                              orderType quantity price w in
           matchOrder clock fuel (fst r) player (snd r) = Returns (trades, w2)
           /\ restRemainder (fst r) player product side orderType trades w2
              = Returns (res, w')).
Proof.
  unfold submitOrder. intros H.
  destruct (validateOrder _ _ _ _ _ _ _ _) as [[e|]| |]; try done.
  - left. exists e. by injection H as <- <-.
  - right. destruct (w_players w !! player) as [pl|]; [|done].
    destruct (new_Order _ _ _ _ _ _ _ _ _ _) as [order w1] eqn:Hn.
    destruct (matchOrder _ _ _ _ _) as [[trades w2]| |] eqn:Hm; try done.
    exists pl, trades, w2. split; [done|]. split; [done|].
    cbv zeta. rewrite Hn. by split.
Qed.

(** The world after the tail of [submitOrder]. *)
Lemma restRemainder_inv order player product side orderType trades (w w' : World) res :
  restRemainder order player product side orderType trades w = Returns (res, w') ->
  res = mkSubmit (Some order) trades []
  /\ exists o, w_orders w !! order = Some o
     /\ ((~ o_remainingQuantity o > 0 /\ w' = w)
         \/ (o_remainingQuantity o > 0
             /\ exists book, w_orderBooks w !! product = Some book
                /\ let orders' :=
                     match orderType with
                     | limit => w_orders w
                     | market => alter (with_limit_price
                                          (match side with buy => 999999 | sell => 1 end))
                                       order (w_orders w)
                     end in
                   w_orders w' = orders'
                   /\ w_orderBooks w'
                      = <[product := OrderBook_addOrder orders' order book]> (w_orderBooks w)
                   /\ w_players w' = alter (Player_addOrder order) player (w_players w)
                   /\ w_playerKeys w' = w_playerKeys w
                   /\ w_trades w' = w_trades w
                   /\ w_next w' = w_next w
                   /\ w_ticks w' = w_ticks w)).
Proof.
  unfold restRemainder. intros H.
  destruct (w_orders w !! order) as [o|]; [|done].
  case_decide as Hrem.
  - destruct (w_orderBooks w !! product) as [book|] eqn:Hbook; [|done].
    injection H as <- <-. split; [done|]. exists o. split; [done|]. right.
    split; [done|]. exists book. split; [done|].
    by destruct w, orderType.
  - injection H as <- <-. split; [done|]. exists o. split; [done|]. by left.
Qed.

(** ** C4: self-trade prevention *)

(** Every trade that the loop appends is between two different players. *)
Lemma matchLoop_no_self_trade clock fuel incId pl trades (w : World) trades' w' :
  matchLoop clock fuel incId pl trades w = Returns (trades', w') ->
  (forall t, t ∈ trades' -> t ∈ trades \/ t_buyerId t <> t_sellerId t)
  /\ (forall tid t, w_trades w' !! tid = Some t ->
        w_trades w !! tid = Some t \/ t_buyerId t <> t_sellerId t).
Proof.
  intros H.
  apply (matchLoop_rule clock incId pl
           (fun ts w1 =>
              (forall t, t ∈ ts -> t ∈ trades \/ t_buyerId t <> t_sellerId t)
              /\ (forall tid t, w_trades w1 !! tid = Some t ->
                    w_trades w !! tid = Some t \/ t_buyerId t <> t_sellerId t))) in H;
    [done| |by split; eauto].
  clear. intros ts w1 inc book oppId opp t w2 [IH1 IH2] Hinc _ _ _ Hopp Hself _ Hex.
  destruct (executeTrade_inv _ _ _ _ _ _ _ Hex)
    as (inc' & rst' & Hinc' & Hrst' & Ht & _ & _ & _ & Htr & _).
  assert (inc' = inc) as -> by congruence. assert (rst' = opp) as -> by congruence.
  assert (t_buyerId t <> t_sellerId t) as Hne.
  { subst t. simpl. unfold buyerOf, sellerOf. destruct (o_side inc); congruence. }
  split.
  - intros t'. rewrite elem_of_app, list_elem_of_singleton. intros [?| ->]; eauto.
  - intros tid t'. simpl. rewrite Htr. rewrite lookup_insert.
    case_decide; [intros [= <-]; eauto|eauto].
Qed.

(** C4. When the best opposing order belongs to the submitter the loop
    returns at once, with the trades and the world it had: no trade is made
    and no further price level is tried.  The trades that a submission
    returns, and the trade records it adds to the store, are all between two
    different players. *)
Theorem self_trade_prevention clock cfg :
  (forall fuel incId pl trades (w : World) inc book oppId opp,
      w_orders w !! incId = Some inc ->
      o_remainingQuantity inc > 0 ->
      w_orderBooks w !! o_product inc = Some book ->
      bestOpposing (w_orders w) inc book = Some oppId ->
      w_orders w !! oppId = Some opp ->
      o_playerId opp = o_playerId inc ->
      matchLoop clock (S fuel) incId pl trades w = Returns (trades, w))
  /\ (forall fuel gameId player product side orderType quantity price (w w' : World) res,
        submitOrder clock cfg fuel gameId player product side orderType quantity price w
        = Returns (res, w') ->
        (forall t, t ∈ r_trades res -> t_buyerId t <> t_sellerId t)
        /\ (forall tid t, w_trades w' !! tid = Some t ->
              w_trades w !! tid = Some t \/ t_buyerId t <> t_sellerId t)).
Proof.
  split.
  - intros fuel incId pl trades w inc book oppId opp Hinc Hrem Hbook Hbest Hopp Hself.
    simpl. rewrite Hinc. rewrite decide_True by done. rewrite Hbook.
    unfold bestOpposing in Hbest. rewrite Hbest, Hopp. by rewrite decide_True.
  - intros fuel gameId player product side orderType quantity price w w' res H.
    apply submitOrder_inv in H as [(e & _ & -> & ->)|(pl & trades & w2 & _ & Hpl & Hm & Hr)].
    { split; [by intros t Ht; apply elem_of_nil in Ht|eauto]. }
    unfold matchOrder in Hm. apply matchLoop_no_self_trade in Hm as [Hm1 Hm2].
    apply restRemainder_inv in Hr as (-> & o & Ho & Hw).
    assert (w_trades w' = w_trades w2) as ->.
    { destruct Hw as [[_ ->]|(_ & book & _ & _ & _ & _ & _ & Htr & _)]; done. }
    split.
    + intros t Ht. destruct (Hm1 t Ht) as [Hnil|]; [|done]. by apply elem_of_nil in Hnil.
    + intros tid t Ht. destruct (Hm2 tid t Ht) as [Hold|]; [|eauto].
      left. by rewrite (proj1 (proj2 (proj2 (proj2 (proj2 (new_Order_spec _ _ _ _ _ _ _ _ _ _)))))) in Hold.
Qed.

(** ** Array.prototype.sort *)

Section JsSort.
Context {A : Type} (cmp : A -> A -> Z).

Lemma js_insert_perm x l : js_insert cmp x l ≡ₚ x :: l.
Proof.
  induction l as [|y l IH]; simpl; [done|].
  destruct (cmp x y <? 0); [done|]. rewrite IH. apply Permutation_swap.
Qed.

Lemma js_sort_snoc l x : js_sort cmp (l ++ [x]) = js_insert cmp x (js_sort cmp l).
Proof. unfold js_sort. by rewrite foldl_app. Qed.

Lemma js_sort_perm l : js_sort cmp l ≡ₚ l.
Proof.
  induction l as [|x l IH] using rev_ind; [done|].
  rewrite js_sort_snoc, js_insert_perm, IH. by rewrite Permutation_cons_append.
Qed.

(** The comparator is consistent on the elements that satisfy [P]: it
    does not put [a] strictly before [b] exactly when [b] is at least as
    good as [a] in the total preorder [le]. *)
Context (P : A -> Prop) (le : A -> A -> Prop).
Hypothesis cmp_le : forall a b, P a -> P b -> (0 <= cmp a b <-> le b a).
Hypothesis le_total : forall a b, P a -> P b -> le a b \/ le b a.
Hypothesis le_trans : forall a b c, P a -> P b -> P c -> le a b -> le b c -> le a c.

Lemma js_insert_sorted x l :
  P x -> Forall P l -> StronglySorted le l -> StronglySorted le (js_insert cmp x l).
Proof.
  intros Hx HP Hs. induction Hs as [|y l Hs IH Hy]; simpl.
  - repeat constructor.
  - apply Forall_cons in HP as [HPy HPl].
    destruct (Z.ltb_spec (cmp x y) 0) as [Hlt|Hge].
    + assert (~ le y x) as Hn by (rewrite <- cmp_le by done; lia).
      assert (le x y) as Hxy by (destruct (le_total x y); done).
      constructor; [by constructor|]. constructor; [done|].
      rewrite Forall_forall in Hy, HPl. apply Forall_forall. intros z Hz.
      eapply le_trans; [| | |exact Hxy|]; eauto.
    + assert (le y x) as Hyx by (by apply cmp_le).
      constructor; [by apply IH|].
      rewrite js_insert_perm. by constructor.
Qed.

Lemma js_sort_sorted l : Forall P l -> StronglySorted le (js_sort cmp l).
Proof.
  induction l as [|x l IH] using rev_ind; intros HP; [constructor|].
  apply Forall_app in HP as [HPl HPx]. apply Forall_cons in HPx as [HPx _].
  rewrite js_sort_snoc. apply js_insert_sorted; [done| |by apply IH].
  by rewrite js_sort_perm.
Qed.

(** Where [x] lands: behind every element that is at least as good, and
    before the others. *)
Lemma js_insert_split x l :
  P x -> Forall P l -> StronglySorted le l ->
  exists l1 l2, l = l1 ++ l2 /\ js_insert cmp x l = l1 ++ x :: l2
                /\ Forall (fun y => le y x) l1 /\ Forall (fun y => ~ le y x) l2.
Proof.
  intros Hx HP Hs. induction Hs as [|y l Hs IH Hy]; simpl.
  - exists [], []. by repeat split.
  - apply Forall_cons in HP as [HPy HPl].
    destruct (Z.ltb_spec (cmp x y) 0) as [Hlt|Hge].
    + assert (~ le y x) as Hn by (rewrite <- cmp_le by done; lia).
      exists [], (y :: l). repeat split; [done|].
      constructor; [done|].
      rewrite Forall_forall in Hy, HPl. apply Forall_forall. intros z Hz Hzx.
      apply Hn. eapply le_trans; [| | |apply Hy|exact Hzx]; eauto.
    + assert (le y x) as Hyx by (by apply cmp_le).
      destruct (IH HPl) as (l1 & l2 & -> & -> & H1 & H2).
      exists (y :: l1), l2. repeat split; [by constructor|done].
Qed.

(** A sorted array is left as it is. *)
Lemma js_sort_sorted_id l : Forall P l -> StronglySorted le l -> js_sort cmp l = l.
Proof.
  induction l as [|x l IH] using rev_ind; intros HP Hs; [done|].
  apply Forall_app in HP as [HPl HPx]. apply Forall_cons in HPx as [HPx _].
  apply StronglySorted_app in Hs as (Hlx & Hsl & _).
  rewrite js_sort_snoc, IH by done.
  clear IH. induction l as [|y l IH]; [done|]. simpl.
  apply Forall_cons in HPl as [HPy HPl].
  destruct (Z.ltb_spec (cmp x y) 0) as [Hlt|Hge].
  - assert (le y x) as Hyx by (apply Hlx; by constructor).
    apply cmp_le in Hyx; [lia|done..].
  - f_equal. apply IH; [done| |].
    + intros a b Ha Hb. apply Hlx; [by right|done].
    + by apply StronglySorted_inv in Hsl as [? _].
Qed.
End JsSort.

(** ** Orders in the heap: what stays *)

Lemma stableFields_refl o : stableFields o o.
Proof. by repeat split. Qed.

Lemma stableFields_trans o1 o2 o3 :
  stableFields o1 o2 -> stableFields o2 o3 -> stableFields o1 o3.
Proof. unfold stableFields. intuition congruence. Qed.

Lemma Order_filled_stable tid q p ts upd o :
  stableFields o (Order_filled tid q p ts upd o).
Proof. by repeat split. Qed.

Lemma stable_at_refl h ref : stable_at h h ref.
Proof. intros o Ho. exists o. split; [done|apply stableFields_refl]. Qed.

Lemma stable_at_trans h1 h2 h3 ref :
  stable_at h1 h2 ref -> stable_at h2 h3 ref -> stable_at h1 h3 ref.
Proof.
  intros H12 H23 o Ho. destruct (H12 o Ho) as (o2 & Ho2 & Hs2).
  destruct (H23 o2 Ho2) as (o3 & Ho3 & Hs3).
  exists o3. split; [done|]. by eapply stableFields_trans.
Qed.

Lemma stable_at_alter (f : Order -> Order) h i ref :
  (forall o, stableFields o (f o)) -> stable_at h (alter f i h) ref.
Proof.
  intros Hf o Ho. destruct (decide (i = ref)) as [->|Hne].
  - exists (f o). by rewrite lookup_alter_eq, Ho.
  - exists o. rewrite lookup_alter_ne by done. split; [done|apply stableFields_refl].
Qed.

Lemma stable_at_alter_ne (f : Order -> Order) h i ref :
  i <> ref -> stable_at h (alter f i h) ref.
Proof.
  intros Hne o Ho. exists o. rewrite lookup_alter_ne by done.
  split; [done|apply stableFields_refl].
Qed.

Lemma stable_at_insert_fresh h i o ref :
  h !! i = None -> stable_at h (<[i := o]> h) ref.
Proof.
  intros Hi o' Ho'. exists o'. split; [|apply stableFields_refl].
  rewrite lookup_insert_ne; [done|]. intros ->. congruence.
Qed.

Lemma side_le_stable s x x' y y' :
  stableFields x x' -> stableFields y y' -> side_le s x y -> side_le s x' y'.
Proof.
  intros (_ & _ & _ & _ & _ & Hp & Hc) (_ & _ & _ & _ & _ & Hp' & Hc').
  destruct s; unfold side_le, bid_le, ask_le; rewrite Hp, Hp', Hc, Hc'; done.
Qed.

Lemma limitAt_stable h h' ref : stable_at h h' ref -> limitAt h ref -> limitAt h' ref.
Proof.
  intros Hst (o & Ho & Ht & Hp). destruct (Hst o Ho) as (o' & Ho' & Hs).
  exists o'. destruct Hs as (_ & _ & _ & _ & Hty & Hpr & _).
  by rewrite Hty, Hpr.
Qed.

Lemma viaHeap_stable h h' s a b :
  stable_at h h' a -> stable_at h h' b ->
  viaHeap h (side_le s) a b -> viaHeap h' (side_le s) a b.
Proof.
  intros Ha Hb (x & y & Hx & Hy & Hle).
  destruct (Ha x Hx) as (x' & Hx' & Hsx). destruct (Hb y Hy) as (y' & Hy' & Hsy).
  exists x', y'. repeat split; [done..|]. by eapply side_le_stable.
Qed.

(** ** Lists *)

Lemma StronglySorted_sublist {A : Type} (R : A -> A -> Prop) (l1 l2 : list A) :
  l1 `sublist_of` l2 -> StronglySorted R l2 -> StronglySorted R l1.
Proof.
  induction 1 as [|x l1 l2 Hsub IH|x l1 l2 Hsub IH]; intros Hs; [done|..].
  - apply StronglySorted_inv in Hs as [Hs Hx]. constructor; [by apply IH|].
    rewrite Forall_forall in *. intros y Hy. apply Hx. by eapply elem_of_sublist.
  - apply StronglySorted_inv in Hs as [Hs _]. by apply IH.
Qed.

Lemma StronglySorted_impl_in {A : Type} (R R' : A -> A -> Prop) (l : list A) :
  (forall a b, a ∈ l -> b ∈ l -> R a b -> R' a b) ->
  StronglySorted R l -> StronglySorted R' l.
Proof.
  intros HR Hs. induction Hs as [|x l Hs IH Hx]; [constructor|].
  constructor.
  - apply IH. intros a b Ha Hb. apply HR; by right.
  - rewrite Forall_forall in *. intros y Hy. apply HR; [by left|by right|by apply Hx].
Qed.

Lemma Forall_sublist_of {A : Type} (P : A -> Prop) (l1 l2 : list A) :
  l1 `sublist_of` l2 -> Forall P l2 -> Forall P l1.
Proof.
  rewrite !Forall_forall. intros Hsub Hall x Hx. apply Hall. by eapply elem_of_sublist.
Qed.

Lemma filter_ext_in {A : Type} (P Q : A -> Prop) `{!forall x, Decision (P x)}
    `{!forall x, Decision (Q x)} (l : list A) :
  (forall x, x ∈ l -> P x <-> Q x) -> filter P l = filter Q l.
Proof.
  induction l as [|x l IH]; intros Hext; [done|].
  rewrite !filter_cons. rewrite IH by (intros y Hy; apply Hext; by right).
  destruct (decide (P x)) as [HP|HP], (decide (Q x)) as [HQ|HQ]; try done.
  - destruct HQ. apply Hext; [by left|done].
  - destruct HP. apply Hext; [by left|done].
Qed.

Lemma filter_ne_head {A : Type} `{!EqDecision A} (x : A) (l : list A) :
  x ∉ l -> filter (fun y => y <> x) (x :: l) = l.
Proof.
  intros Hx. rewrite filter_cons_False by (intros H; by apply H).
  induction l as [|y l IH]; [done|].
  apply not_elem_of_cons in Hx as [Hne Hx].
  rewrite filter_cons_True by done. by rewrite IH.
Qed.

(** ** One side of a book *)

Lemma side_ok_sublist_stable h h' s l l' :
  side_ok h s l -> l' `sublist_of` l -> (forall ref, ref ∈ l -> stable_at h h' ref) ->
  side_ok h' s l'.
Proof.
  intros (Hnd & Hlim & Hs) Hsub Hst. repeat split.
  - by eapply sublist_NoDup.
  - eapply Forall_sublist_of; [done|]. rewrite Forall_forall in *.
    intros ref Href. eapply limitAt_stable; eauto.
  - eapply StronglySorted_sublist; [done|].
    eapply StronglySorted_impl_in; [|done].
    intros a b Ha Hb. apply viaHeap_stable; eauto.
Qed.

(** ** addOrder keeps a side in order *)

Lemma sideCmp_le s x y :
  is_Some (o_price x) -> is_Some (o_price y) ->
  0 <= sideCmp s x y <-> side_le s y x.
Proof.
  intros [px Hpx] [py Hpy].
  destruct s; unfold sideCmp, side_le, bidCmp, askCmp, bid_le, ask_le;
    rewrite Hpx, Hpy; simpl; case_decide as Hne.
  - assert (py <> px) by congruence. lia.
  - injection Hne as ->. lia.
  - assert (px <> py) by congruence. lia.
  - injection Hne as ->. lia.
Qed.

Lemma byRef_le h s a b :
  limitAt h a -> limitAt h b ->
  0 <= byRef h (sideCmp s) a b <-> viaHeap h (side_le s) b a.
Proof.
  intros (x & Hx & _ & Hpx) (y & Hy & _ & Hpy). unfold byRef, viaHeap.
  rewrite Hx, Hy. rewrite sideCmp_le by done. split.
  - intros Hle. by exists y, x.
  - intros (y' & x' & Hy' & Hx' & Hle). congruence.
Qed.

Lemma side_le_total s x y : side_le s x y \/ side_le s y x.
Proof. destruct s; unfold side_le, bid_le, ask_le; lia. Qed.

Lemma side_le_trans s x y z : side_le s x y -> side_le s y z -> side_le s x z.
Proof. destruct s; unfold side_le, bid_le, ask_le; lia. Qed.

Lemma viaHeap_total h s a b :
  limitAt h a -> limitAt h b -> viaHeap h (side_le s) a b \/ viaHeap h (side_le s) b a.
Proof.
  intros (x & Hx & _) (y & Hy & _).
  destruct (side_le_total s x y); [left|right]; unfold viaHeap; eauto 6.
Qed.

Lemma viaHeap_trans h s a b c :
  viaHeap h (side_le s) a b -> viaHeap h (side_le s) b c -> viaHeap h (side_le s) a c.
Proof.
  intros (x & y & Hx & Hy & Hxy) (y' & z & Hy' & Hz & Hyz).
  assert (y' = y) as -> by congruence.
  exists x, z. repeat split; [done..|]. by eapply side_le_trans.
Qed.

Lemma addOrder_side_ok h s l ref :
  side_ok h s l -> limitAt h ref -> ref ∉ l ->
  side_ok h s (js_sort (byRef h (sideCmp s)) (l ++ [ref])).
Proof.
  intros (Hnd & Hlim & Hs) Href Hnew. repeat split.
  - rewrite js_sort_perm. apply NoDup_app. repeat split; [done| |apply NoDup_singleton].
    intros x Hx. rewrite list_elem_of_singleton. by intros ->.
  - rewrite js_sort_perm. apply Forall_app. split; [done|]. by constructor.
  - apply (js_sort_sorted _ (limitAt h)).
    + intros a b Ha Hb. by apply byRef_le.
    + intros a b Ha Hb. by apply viaHeap_total.
    + intros a b c _ _ _. apply viaHeap_trans.
    + apply Forall_app. split; [done|]. by constructor.
Qed.

(** [addOrder] works on the side of the order and leaves the other one. *)
Lemma OrderBook_addOrder_side h ref o book s :
  h !! ref = Some o ->
  book_side s (OrderBook_addOrder h ref book)
  = if decide (s = o_side o)
    then js_sort (byRef h (sideCmp s)) (book_side s book ++ [ref])
    else book_side s book.
Proof.
  intros Ho. unfold OrderBook_addOrder. rewrite Ho. simpl.
  by destruct (o_side o), s.
Qed.

(** Where [addOrder] puts the order: behind every order that is at least
    as good, before the others. *)
Lemma addOrder_position h s l ref :
  side_ok h s l -> limitAt h ref ->
  exists l1 l2,
    l = l1 ++ l2
    /\ js_sort (byRef h (sideCmp s)) (l ++ [ref]) = l1 ++ ref :: l2
    /\ Forall (fun r => viaHeap h (side_le s) r ref) l1
    /\ Forall (fun r => ~ viaHeap h (side_le s) r ref) l2.
Proof.
  intros (_ & Hlim & Hs) Href.
  assert (forall a b, limitAt h a -> limitAt h b ->
            (0 <= byRef h (sideCmp s) a b <-> viaHeap h (side_le s) b a)) as Hcmp
    by (intros a b Ha Hb; by apply byRef_le).
  assert (forall a b c, limitAt h a -> limitAt h b -> limitAt h c ->
            viaHeap h (side_le s) a b -> viaHeap h (side_le s) b c ->
            viaHeap h (side_le s) a c) as Htr
    by (intros a b c _ _ _; apply viaHeap_trans).
  rewrite js_sort_snoc.
  rewrite (js_sort_sorted_id _ (limitAt h) (viaHeap h (side_le s)) Hcmp l Hlim Hs).
  apply (js_insert_split _ (limitAt h) (viaHeap h (side_le s)) Hcmp Htr ref l Href Hlim Hs).
Qed.

(** ** executeTrade: the two orders *)

Lemma executeTrade_orders clock incId rstId pl (w w1 : World) inc rst t :
  w_orders w !! incId = Some inc ->
  w_orders w !! rstId = Some rst ->
  incId <> rstId ->
  executeTrade clock incId rstId pl w = Returns (Some t, w1) ->
  let q := Z.min (o_remainingQuantity inc) (o_remainingQuantity rst) in
  (exists inc' rst',
      w_orders w1 !! incId = Some inc' /\ w_orders w1 !! rstId = Some rst'
      /\ o_remainingQuantity inc' = o_remainingQuantity inc - q
      /\ o_remainingQuantity rst' = o_remainingQuantity rst - q
      /\ o_status rst' = (if decide (o_remainingQuantity rst - q <= 0) then filled else partial))
  /\ (forall id, id <> incId -> id <> rstId -> w_orders w1 !! id = w_orders w !! id)
  /\ (forall id, stable_at (w_orders w) (w_orders w1) id)
  /\ (forall id, is_Some (w_orders w1 !! id) <-> is_Some (w_orders w !! id))
  /\ restingRef (o_side inc) t = rstId
  /\ w_orderBooks w1 = w_orderBooks w
  /\ w_next w1 = Pos.succ (w_next w).
Proof.
  intros Hinc Hrst Hne Hex q.
  destruct (executeTrade_inv _ _ _ _ _ _ _ Hex)
    as (inc' & rst' & Hinc' & Hrst' & Ht & _ & _ & Ho & _ & Hb & _ & Hn & _).
  assert (inc' = inc) as -> by congruence. assert (rst' = rst) as -> by congruence.
  fold q in Ho, Ht. rewrite Ho, Hb, Hn. clear Ho Hb Hn Hex.
  repeat split.
  - unfold buyOrderOf, sellOrderOf. destruct (o_side inc).
    + eexists _, _. rewrite lookup_alter_ne by done. rewrite !lookup_alter_eq.
      rewrite lookup_alter_ne by done. rewrite Hinc, Hrst. simpl. done.
    + eexists _, _. rewrite lookup_alter_eq. rewrite lookup_alter_ne by done.
      rewrite lookup_alter_ne by done. rewrite lookup_alter_eq.
      rewrite Hinc, Hrst. simpl. done.
  - intros id H1 H2. unfold buyOrderOf, sellOrderOf.
    destruct (o_side inc); by rewrite !lookup_alter_ne.
  - intros id. eapply stable_at_trans; apply stable_at_alter; intros; apply Order_filled_stable.
  - by rewrite !lookup_alter_is_Some.
  - by rewrite !lookup_alter_is_Some.
  - subst t. unfold restingRef, buyOrderOf, sellOrderOf. by destruct (o_side inc).
Qed.

(** ** The matching loop: price-time priority *)

Lemma bestOpposing_head h inc book :
  bestOpposing h inc book
  = head (filter (restingAt h) (book_side (opposite (o_side inc)) book)).
Proof. unfold bestOpposing. by destruct (o_side inc). Qed.

Lemma matchLoop_loop_inv clock fuel incId pl (w0 : World) inc0 trades' w' :
  w_orders w0 !! incId = Some inc0 ->
  (forall product book s, w_orderBooks w0 !! product = Some book ->
      NoDup (book_side s book) /\ incId ∉ book_side s book) ->
  matchLoop clock fuel incId pl [] w0 = Returns (trades', w') ->
  loop_inv incId (o_side inc0) (o_product inc0) w0 trades' w'.
Proof.
  intros Hinc0 Hbooks0 H.
  apply (matchLoop_rule clock incId pl (loop_inv incId (o_side inc0) (o_product inc0) w0))
    in H; [done| |].
  2:{ split; [intros id; apply stable_at_refl|]. split; [done|]. split; [lia|].
      split; [intros product book Hb; exists book; by split|].
      intros book0 Hb0. split; [apply prefix_nil|].
      intros inc book _ _ Hb. by assert (book = book0) as -> by congruence. }
  clear H trades' w'.
  intros trades w inc book oppId opp t w1 (H1 & H2 & H3 & H4 & H5)
         Hinc Hrem Hbook Hbest Hopp Hself Hcross Hex.
  destruct (H1 incId inc0 Hinc0) as (inc' & Hinc' & Hst).
  assert (inc' = inc) as -> by congruence.
  destruct Hst as (_ & _ & Hprod & Hside & _).
  rewrite bestOpposing_head in Hbest. rewrite Hside in Hbest. rewrite Hprod in Hbook.
  destruct (H4 _ _ Hbook) as (book0 & Hbook0 & Hsub).
  destruct (Hbooks0 _ _ (opposite (o_side inc0)) Hbook0) as [Hnd0 Hnin0].
  set (side := book_side (opposite (o_side inc0)) book) in *.
  assert (NoDup side) as Hnd by (eapply sublist_NoDup; [exact Hnd0|apply Hsub]).
  assert (incId ∉ side) as Hnin.
  { intros Hin. apply Hnin0. eapply elem_of_sublist; [exact Hin|apply Hsub]. }
  destruct (filter (restingAt (w_orders w)) side) as [|oppId' rest] eqn:Hf; [done|].
  injection Hbest as ->.
  assert (oppId ∈ side) as Hoppin.
  { assert (oppId ∈ filter (restingAt (w_orders w)) side) as Hx by (rewrite Hf; by left).
    by apply list_elem_of_filter in Hx as [_ ?]. }
  assert (incId <> oppId) as Hne by (intros ->; done).
  destruct (executeTrade_orders _ _ _ _ _ _ _ _ _ Hinc Hopp Hne Hex)
    as ((inc1 & opp1 & Hinc1 & Hopp1 & Hr1 & Hr2 & Hs2) & Hoth & Hst1 & Hdom1 & Href & Hb1 & Hn1).
  rewrite Hside in Href.
  unfold loop_inv. simpl. rewrite Hb1. repeat split.
  - intros id. eapply stable_at_trans; [apply H1|apply Hst1].
  - intros Hs. apply H2. by apply Hdom1.
  - intros Hs. apply Hdom1. by apply H2.
  - rewrite Hn1. lia.
  - intros product bk. rewrite lookup_alter.
    destruct (decide (o_product inc = product)) as [Hp|Hp].
    + subst product. rewrite Hprod, Hbook. simpl. intros [= <-].
      exists book0. split; [done|]. intros s.
      etrans; [|apply Hsub]. destruct s; apply sublist_filter.
    + apply H4.
  - destruct (H5 _ H) as [_ Heq]. specialize (Heq _ _ Hinc Hrem Hbook).
    rewrite Hbook0 in H. injection H as <-. fold side in Heq. rewrite Hf in Heq.
    rewrite fmap_app. simpl. rewrite Href. rewrite <- Heq.
    apply prefix_app. by apply prefix_cons, prefix_nil.
  - intros inc2 book2 Hinc2 Hrem2. rewrite Hprod, lookup_alter_eq, Hbook. simpl.
    intros [= <-].
    destruct (H5 _ H) as [_ Heq]. specialize (Heq _ _ Hinc Hrem Hbook).
    rewrite Hbook0 in H. injection H as <-. fold side in Heq. rewrite Hf in Heq.
    rewrite <- Heq. rewrite fmap_app. simpl. rewrite Href. rewrite <- app_assoc. simpl.
    do 2 f_equal.
    assert (inc2 = inc1) as -> by congruence.
    assert (~ restingAt (w_orders w1) oppId) as Hfilled.
    { unfold restingAt, isResting. rewrite Hopp1, Hs2.
      rewrite decide_True by lia. intros [?|?]; done. }
    assert (book_side (opposite (o_side inc0)) (cleanup (w_orders w1) book)
            = filter (restingAt (w_orders w1)) side) as ->.
    { unfold cleanup, side. by destruct (o_side inc0). }
    rewrite filter_idemp.
    rewrite (filter_ext_in _ (fun id => id <> oppId /\ restingAt (w_orders w) id)).
    + rewrite <- (list_filter_filter (fun id => id <> oppId)).
      rewrite Hf. apply filter_ne_head.
      assert (NoDup (oppId :: rest)) as Hnd' by (rewrite <- Hf; by apply NoDup_filter).
      by apply NoDup_cons in Hnd' as [? _].
    + intros id Hid. unfold restingAt. destruct (decide (id = oppId)) as [->|Hno].
      * split; [|tauto]. intros Hrest. by destruct Hfilled.
      * rewrite Hoth; [tauto|by intros ->|done].
Qed.

(** ** submitOrder: an accepted order *)

Lemma validateOrder_limit_priced cfg player product side quantity price (w : World) :
  validateOrder cfg player product side limit quantity price w = Returns None ->
  is_Some price.
Proof.
  unfold validateOrder. intros H.
  destruct (decide (product ∉ products cfg)); [done|].
  destruct (decide (_ \/ _)); [done|].
  destruct (decide (limit = limit /\ _)) as [|Hn]; [done|].
  destruct price; [done|]. destruct Hn. split; [done|by left].
Qed.

Lemma book_wf_fresh (w : World) : book_wf w -> w_orders w !! w_next w = None.
Proof.
  intros [Hfresh _]. destruct (w_orders w !! w_next w) eqn:E; [|done].
  assert (w_next w < w_next w)%positive by (apply Hfresh; eauto). lia.
Qed.

Lemma book_wf_not_fresh (w : World) product book s ref :
  book_wf w -> w_orderBooks w !! product = Some book -> ref ∈ book_side s book ->
  ref <> w_next w.
Proof.
  intros [Hfresh Hbooks] Hbook Hin ->.
  destruct (Hbooks _ _ Hbook s) as (_ & Hlim & _).
  rewrite Forall_forall in Hlim. destruct (Hlim _ Hin) as (o & Ho & _).
  assert (w_next w < w_next w)%positive by (apply Hfresh; eauto). lia.
Qed.

Lemma matchLoop_players clock fuel incId pl trades (w : World) trades' w' :
  matchLoop clock fuel incId pl trades w = Returns (trades', w') ->
  forall pid, is_Some (w_players w !! pid) -> is_Some (w_players w' !! pid).
Proof.
  intros H.
  refine (matchLoop_rule clock incId pl
            (fun _ w1 => forall pid, is_Some (w_players w !! pid) ->
                                     is_Some (w_players w1 !! pid))
            _ fuel trades w trades' w' _ H); [|done].
  clear. intros ts w1 inc book oppId opp t w2 IH _ _ _ _ _ _ _ Hex pid Hpid.
  destruct (executeTrade_inv _ _ _ _ _ _ _ Hex)
    as (inc' & rst' & _ & _ & _ & _ & _ & _ & _ & _ & _ & _ & _ & Hcash & _).
  specialize (Hcash pid). simpl. destruct (IH pid Hpid) as [p Hp].
  rewrite Hp in Hcash. by destruct (w_players w2 !! pid).
Qed.

(** What an accepted submission goes through: the order gets the next
    uuid, the loop runs from the world [w1] in which the order has been
    created and ends in a world [w2] in which the order [o2] is not on any
    book, and the tail of [submitOrder] makes [w'] of it. *)
Lemma submitOrder_accepted clock cfg fuel gameId player product side orderType
    quantity price (w w' : World) res order :
  book_wf w ->
  submitOrder clock cfg fuel gameId player product side orderType quantity price w
  = Returns (res, w') ->
  r_order res = Some order ->
  exists pl w2 o2,
    let w1 := snd (new_Order clock gameId (p_playerId pl) (p_name pl) product side
                             orderType quantity price w) in
    order = w_next w
    /\ w_players w !! player = Some pl
    /\ (orderType = limit -> is_Some price)
    /\ w_orders w1 = <[order := mkOrder order gameId (p_playerId pl) (p_name pl) product
                                        side orderType quantity quantity price open []
                                        (clock (w_ticks w)) (clock (S (w_ticks w)))]>
                       (w_orders w)
    /\ w_orderBooks w1 = w_orderBooks w
    /\ w_next w1 = Pos.succ (w_next w)
    /\ loop_inv order side product w1 (r_trades res) w2
    /\ w_orders w2 !! order = Some o2
    /\ o_side o2 = side /\ o_orderType o2 = orderType /\ o_price o2 = price
    /\ o_product o2 = product /\ o_createdAt o2 = clock (w_ticks w)
    /\ (forall product book s, w_orderBooks w2 !! product = Some book ->
          order ∉ book_side s book)
    /\ is_Some (w_players w2 !! player)
    /\ restRemainder order player product side orderType (r_trades res) w2
       = Returns (res, w').
Proof.
  intros Hwf H Hord.
  apply submitOrder_inv in H as [(e & _ & -> & _)|(pl & trades & w2 & Hv & Hpl & Hm & Hr)];
    [done|].
  destruct (new_Order_spec clock gameId (p_playerId pl) (p_name pl) product side orderType
              quantity price w) as (Hid & Ho1 & Hp1 & _ & _ & Hb1 & Hn1 & _).
  cbv zeta in Hid, Ho1, Hp1, Hb1, Hn1.
  set (r := new_Order _ _ _ _ _ _ _ _ _ _) in *.
  rewrite Hid in Hm, Hr.
  pose proof (restRemainder_inv _ _ _ _ _ _ _ _ _ Hr) as (-> & _). simpl in Hord.
  injection Hord as <-. simpl.
  unfold matchOrder in Hm.
  assert (w_orders (snd r) !! w_next w = Some
            (mkOrder (w_next w) gameId (p_playerId pl) (p_name pl) product side orderType
                     quantity quantity price open [] (clock (w_ticks w))
                     (clock (S (w_ticks w))))) as Hinc
    by (rewrite Ho1; apply lookup_insert_eq).
  assert (forall product book s, w_orderBooks (snd r) !! product = Some book ->
            NoDup (book_side s book) /\ w_next w ∉ book_side s book) as Hbooks.
  { intros p b s. rewrite Hb1. intros Hb. split.
    - by destruct (proj2 Hwf _ _ Hb s) as (? & _).
    - intros Hin. by eapply book_wf_not_fresh. }
  pose proof (matchLoop_loop_inv _ _ _ _ _ _ _ _ Hinc Hbooks Hm) as Hinv.
  cbn [o_side o_product] in Hinv.
  pose proof Hinv as (H1 & _ & _ & H4 & _).
  destruct (H1 _ _ Hinc) as (o2 & Ho2 & _ & _ & Hprod & Hside & Hty & Hpr & Hcr).
  cbn in Hprod, Hside, Hty, Hpr, Hcr.
  exists pl, w2, o2. cbv zeta. fold r.
  split; [done|]. split; [done|].
  split; [intros ->; by eapply validateOrder_limit_priced|].
  do 10 (split; [done|]).
  split; [|split; [|done]].
  - intros p b s Hb Hin. destruct (H4 _ _ Hb) as (b0 & Hb0 & Hsub).
    apply (proj2 (Hbooks _ _ s Hb0)). eapply elem_of_sublist; [exact Hin|apply Hsub].
  - eapply matchLoop_players; [exact Hm|].
    rewrite Hp1. eauto.
Qed.

(** ** submitOrder keeps the books in order *)

Lemma side_ok_frame h h' s l :
  side_ok h s l -> (forall ref, ref ∈ l -> stable_at h h' ref) -> side_ok h' s l.
Proof. intros Hok Hst. by eapply side_ok_sublist_stable. Qed.

(** The world in which the loop of an accepted submission has ended. *)
Lemma loop_inv_book_wf (w w1 w2 : World) order o0 s0 p0 trades :
  book_wf w ->
  order = w_next w ->
  w_orders w1 = <[order := o0]> (w_orders w) ->
  w_orderBooks w1 = w_orderBooks w ->
  w_next w1 = Pos.succ (w_next w) ->
  loop_inv order s0 p0 w1 trades w2 ->
  book_wf w2
  /\ (forall ref, ref <> order -> stable_at (w_orders w) (w_orders w2) ref).
Proof.
  intros Hwf -> Ho1 Hb1 Hn1 (H1 & H2 & H3 & H4 & _).
  assert (forall ref, stable_at (w_orders w) (w_orders w2) ref) as Hst.
  { intros ref. eapply stable_at_trans; [|apply H1]. rewrite Ho1.
    apply stable_at_insert_fresh. by apply book_wf_fresh. }
  split; [|by intros].
  split.
  - intros id Hid. apply H2 in Hid. rewrite Ho1 in Hid.
    apply lookup_insert_is_Some in Hid as [<-|[_ Hid]].
    + lia.
    + apply (proj1 Hwf) in Hid. lia.
  - intros p b Hb s. destruct (H4 _ _ Hb) as (b0 & Hb0 & Hsub). rewrite Hb1 in Hb0.
    eapply side_ok_sublist_stable; [by apply (proj2 Hwf _ _ Hb0)|apply Hsub|].
    intros ref _. apply Hst.
Qed.

Lemma submitOrder_book_wf clock cfg fuel gameId player product side orderType
    quantity price (w w' : World) res :
  book_wf w ->
  submitOrder clock cfg fuel gameId player product side orderType quantity price w
  = Returns (res, w') ->
  book_wf w'.
Proof.
  intros Hwf H.
  destruct (r_order res) as [order|] eqn:Hord.
  2:{ apply submitOrder_inv in H as [(e & _ & _ & ->)|(pl & trades & w2 & _ & _ & _ & Hr)];
        [done|].
      apply restRemainder_inv in Hr as [-> _]. done. }
  destruct (submitOrder_accepted _ _ _ _ _ _ _ _ _ _ _ _ _ _ Hwf H Hord)
    as (pl & w2 & o2 & Hid & Hpl & Hlim & Ho1 & Hb1 & Hn1 & Hinv & Ho2 & Hside & Hty & Hpr
        & _ & _ & Hnin & _ & Hr).
  destruct (loop_inv_book_wf _ _ _ _ _ _ _ _ Hwf Hid Ho1 Hb1 Hn1 Hinv) as [Hwf2 _].
  apply restRemainder_inv in Hr as (_ & o & Ho & [[_ ->]|(Hrem & book & Hbook & Hw')]);
    [done|].
  cbv zeta in Hw'. destruct Hw' as (Hos & Hbs & _ & _ & _ & Hn & _).
  assert (o = o2) as -> by congruence.
  set (orders' := match orderType with
                  | limit => w_orders w2
                  | market => alter (with_limit_price
                                       (match side with buy => 999999 | sell => 1 end))
                                    order (w_orders w2)
                  end) in *.
  assert (forall ref, ref <> order -> stable_at (w_orders w2) orders' ref) as Hst.
  { intros ref Hne. unfold orders'. destruct orderType;
      [apply stable_at_refl|by apply stable_at_alter_ne]. }
  assert (exists o', orders' !! order = Some o' /\ o_side o' = side
                     /\ o_orderType o' = limit /\ is_Some (o_price o'))
    as (o' & Ho' & Hside' & Hty' & Hpr').
  { unfold orders'. destruct orderType.
    - exists o2. rewrite Hpr. repeat split; try done; by apply Hlim.
    - eexists. rewrite lookup_alter_eq, Ho2. simpl. repeat split; try done; by eexists. }
  split.
  - intros id. rewrite Hos, Hn. intros Hid'. apply (proj1 Hwf2).
    unfold orders' in Hid'. destruct orderType; [done|].
    by rewrite lookup_alter_is_Some in Hid'.
  - intros p b. rewrite Hbs, Hos. rewrite lookup_insert.
    destruct (decide (product = p)) as [<-|Hne].
    + intros [= <-] s. rewrite (OrderBook_addOrder_side _ _ _ _ _ Ho'). rewrite Hside'.
      assert (side_ok orders' s (book_side s book)) as Hok.
      { eapply side_ok_frame; [by apply (proj2 Hwf2 _ _ Hbook)|].
        intros ref Href. apply Hst. intros ->. by eapply Hnin. }
      case_decide as Hs; [|done]. subst s.
      apply addOrder_side_ok; [done| |by eapply Hnin].
      by exists o'.
    + intros Hb s. eapply side_ok_frame; [by apply (proj2 Hwf2 _ _ Hb)|].
      intros ref Href. apply Hst. intros ->. by eapply Hnin.
Qed.

(** The resting orders that a submission executes are the first ones of the
    opposing side of the book, in the order of the book. *)
Lemma submitOrder_prefix clock cfg fuel gameId player product side orderType
    quantity price (w w' : World) res book :
  book_wf w ->
  submitOrder clock cfg fuel gameId player product side orderType quantity price w
  = Returns (res, w') ->
  w_orderBooks w !! product = Some book ->
  restingRef side <$> r_trades res
  `prefix_of` filter (restingAt (w_orders w)) (book_side (opposite side) book).
Proof.
  intros Hwf H Hbook.
  destruct (r_order res) as [order|] eqn:Hord.
  2:{ apply submitOrder_inv in H as [(e & _ & -> & _)|(pl & trades & w2 & _ & _ & _ & Hr)].
      - apply prefix_nil.
      - apply restRemainder_inv in Hr as [-> _]. done. }
  destruct (submitOrder_accepted _ _ _ _ _ _ _ _ _ _ _ _ _ _ Hwf H Hord)
    as (pl & w2 & o2 & Hid & Hpl & Hlim & Ho1 & Hb1 & Hn1 & Hinv & _).
  destruct Hinv as (_ & _ & _ & _ & H5).
  rewrite <- Hb1 in Hbook. destruct (H5 _ Hbook) as [Hpre _].
  rewrite (filter_ext_in _ (restingAt (w_orders w))) in Hpre; [done|].
  intros ref Href. unfold restingAt. rewrite Ho1, lookup_insert_ne; [done|].
  rewrite Hid. intros <-. rewrite Hb1 in Hbook.
  by eapply (book_wf_not_fresh w product book (opposite side) (w_next w)).
Qed.

(** ** C6: the unfilled remainder *)

Lemma Player_addOrder_elem order p : order ∈ p_openOrderIds (Player_addOrder order p).
Proof.
  unfold Player_addOrder. case_decide; [done|]. simpl.
  apply elem_of_app. right. by left.
Qed.

(** C6. An accepted order that comes out of the matching loop with a
    remaining quantity is a limit order when [submitOrder] returns: a limit
    order at its own price, a market order at 999999 (buy) or 1 (sell); it
    is on its side of the book of its product and among the open orders of
    the submitter.  Every order on a book is then a limit order. *)
Theorem unfilled_remainder_rests clock cfg fuel gameId player product side orderType
    quantity price (w w' : World) res order o' :
  book_wf w ->
  submitOrder clock cfg fuel gameId player product side orderType quantity price w
  = Returns (res, w') ->
  r_order res = Some order ->
  w_orders w' !! order = Some o' ->
  o_remainingQuantity o' > 0 ->
  o_orderType o' = limit
  /\ o_price o' = match orderType with
                  | limit => price
                  | market => Some (match side with buy => 999999 | sell => 1 end)
                  end
  /\ (exists book', w_orderBooks w' !! product = Some book'
                    /\ order ∈ book_side side book')
  /\ (exists pl', w_players w' !! player = Some pl' /\ order ∈ p_openOrderIds pl')
  /\ (forall p book s ref, w_orderBooks w' !! p = Some book -> ref ∈ book_side s book ->
        exists o, w_orders w' !! ref = Some o /\ o_orderType o = limit).
Proof.
  intros Hwf H Hord Ho' Hrem.
  pose proof (submitOrder_book_wf _ _ _ _ _ _ _ _ _ _ _ _ _ Hwf H) as Hwf'.
  destruct (submitOrder_accepted _ _ _ _ _ _ _ _ _ _ _ _ _ _ Hwf H Hord)
    as (pl & w2 & o2 & Hid & Hpl & Hlim & Ho1 & Hb1 & Hn1 & Hinv & Ho2 & Hside & Hty & Hpr
        & _ & _ & Hnin & [pl2 Hpl2] & Hr).
  apply restRemainder_inv in Hr as (_ & o & Ho & [[Hn ->]|(_ & book & Hbook & Hw')]).
  { assert (o = o') by congruence. by subst. }
  cbv zeta in Hw'. destruct Hw' as (Hos & Hbs & Hps & _).
  assert (o = o2) as -> by congruence.
  repeat split.
  - rewrite Hos in Ho'. destruct orderType.
    + assert (o' = o2) by congruence. by subst.
    + rewrite lookup_alter_eq, Ho2 in Ho'. by injection Ho' as <-.
  - rewrite Hos in Ho'. destruct orderType.
    + assert (o' = o2) by congruence. by subst.
    + rewrite lookup_alter_eq, Ho2 in Ho'. by injection Ho' as <-.
  - eexists. rewrite Hbs, lookup_insert_eq. split; [done|].
    rewrite <- Hos. rewrite (OrderBook_addOrder_side _ _ _ _ _ Ho').
    assert (o_side o' = side) as ->.
    { rewrite Hos in Ho'. destruct orderType.
      - assert (o' = o2) by congruence. by subst.
      - rewrite lookup_alter_eq, Ho2 in Ho'. by injection Ho' as <-. }
    rewrite decide_True by done. rewrite js_sort_perm.
    apply elem_of_app. right. by left.
  - exists (Player_addOrder order pl2). rewrite Hps, lookup_alter_eq, Hpl2.
    split; [done|]. apply Player_addOrder_elem.
  - intros p b s ref Hb Hin. destruct (proj2 Hwf' _ _ Hb s) as (_ & Hl & _).
    rewrite Forall_forall in Hl. destruct (Hl _ Hin) as (x & Hx & Hxt & _). eauto.
Qed.

(** ** C3: price-time priority *)

(** The first element that satisfies [P]. *)
Lemma head_filter_first {A : Type} (P : A -> Prop) `{!forall x, Decision (P x)}
    (l : list A) (x : A) :
  head (filter P l) = Some x
  <-> exists l1 l2, l = l1 ++ x :: l2 /\ P x /\ Forall (fun y => ~ P y) l1.
Proof.
  induction l as [|y l IH].
  - split; [done|]. intros (l1 & l2 & Hl & _). by destruct l1.
  - rewrite filter_cons. destruct (decide (P y)) as [Hy|Hy]; simpl.
    + split.
      * intros [= ->]. exists [], l. by repeat split.
      * intros ([|z l1] & l2 & Hl & Hx & Hl1); simpl in Hl.
        -- by injection Hl as -> _.
        -- injection Hl as -> _. by apply Forall_cons in Hl1 as [? _].
    + rewrite IH. split.
      * intros (l1 & l2 & -> & Hx & Hl1). exists (y :: l1), l2.
        repeat split; [done|by constructor].
      * intros ([|z l1] & l2 & Hl & Hx & Hl1); simpl in Hl.
        -- injection Hl as -> _. done.
        -- injection Hl as -> ->. apply Forall_cons in Hl1 as [_ ?]. eauto.
Qed.

Lemma head_filter_none {A : Type} (P : A -> Prop) `{!forall x, Decision (P x)}
    (l : list A) :
  head (filter P l) = None <-> Forall (fun y => ~ P y) l.
Proof.
  induction l as [|y l IH]; [by split|].
  rewrite filter_cons, Forall_cons. destruct (decide (P y)); simpl.
  - split; [done|tauto].
  - rewrite IH. tauto.
Qed.

(** The books of a new engine. *)
Lemma new_orderBooks_empty cfg product book :
  new_orderBooks cfg !! product = Some book -> book = mkBook [] [].
Proof.
  unfold new_orderBooks. induction (products cfg) as [|p ps IH] using rev_ind; simpl.
  - by rewrite lookup_empty.
  - rewrite foldl_app. simpl. rewrite lookup_insert. case_decide; [congruence|done].
Qed.

Lemma book_wf_new cfg (w : World) :
  w_orders w = ∅ -> w_orderBooks w = new_orderBooks cfg -> book_wf w.
Proof.
  intros Ho Hb. split.
  - intros id. rewrite Ho, lookup_empty. by intros [? ?].
  - intros p b. rewrite Hb. intros ->%new_orderBooks_empty s.
    destruct s; repeat split; simpl; constructor.
Qed.

Lemma cancelOrder_book_wf clock orderId playerId (w w' : World) res :
  book_wf w -> cancelOrder clock orderId playerId w = Returns (res, w') -> book_wf w'.
Proof.
  intros Hwf. unfold cancelOrder.
  destruct (w_orders w !! orderId) as [o|]; [|by intros [= _ <-]].
  case_decide; [by intros [= _ <-]|]. case_decide; [by intros [= _ <-]|].
  destruct (w_orderBooks w !! o_product o) as [book|] eqn:Hbook; [|done].
  intros [= _ <-]. destruct w as [players keys orders trades books next ticks].
  destruct Hwf as [Hfresh Hbooks]. simpl in *. split; simpl.
  - intros id. rewrite lookup_alter_is_Some. apply Hfresh.
  - intros p b. rewrite lookup_insert. intros Hb s.
    assert (exists b0, books !! p = Some b0
                       /\ book_side s b `sublist_of` book_side s b0) as (b0 & Hb0 & Hsub).
    { case_decide as Hp.
      - subst p. injection Hb as <-. exists book. split; [done|].
        destruct s; apply sublist_filter.
      - by exists b. }
    eapply side_ok_sublist_stable; [exact (Hbooks _ _ Hb0 s)|done|].
    intros ref _. apply stable_at_alter. intros x. by repeat split.
Qed.

Lemma StronglySorted_prefix {A : Type} (R : A -> A -> Prop) (l1 l2 : list A) :
  l1 `prefix_of` l2 -> StronglySorted R l2 -> StronglySorted R l1.
Proof. intros [k ->]. apply StronglySorted_app_1_l. Qed.

Lemma StronglySorted_strict {A : Type} (R R' : A -> A -> Prop) (l : list A) :
  NoDup l ->
  (forall a b, a ∈ l -> b ∈ l -> a <> b -> R a b -> R' a b) ->
  StronglySorted R l -> StronglySorted R' l.
Proof.
  intros Hnd HR Hs. induction Hs as [|x l Hs IH Hx]; [constructor|].
  apply NoDup_cons in Hnd as [Hxl Hnd]. constructor.
  - apply IH; [done|]. intros a b Ha Hb. apply HR; by right.
  - rewrite Forall_forall in *. intros y Hy.
    apply HR; [by left|by right| |by apply Hx]. by intros ->.
Qed.

Lemma side_lt_of_le s x y :
  side_le s x y -> o_createdAt x <> o_createdAt y -> side_lt s x y.
Proof. destruct s; unfold side_le, side_lt, bid_le, bid_lt, ask_le, ask_lt; lia. Qed.

(** C3 (amended). (i) [getBestBid] and [getBestAsk] return the first order of their
    side whose status is open or partial, and [null] exactly when there is
    none.  (ii) The books of a new engine are in order ([book_wf]: bids by
    descending price then ascending [createdAt], asks by ascending price
    then ascending [createdAt]), and [submitOrder] and [cancelOrder] keep
    them so.  (iii) The resting orders that a submission executes are the
    first resting orders of the opposing side, taken in the order of the
    book: each is at least as good in (price, [createdAt]) as the ones
    executed after it, and strictly better when their [createdAt] differ.
    (iv) [addOrder] puts an order behind every order of its side that is at
    least as good, and before the others: orders that tie on price and
    [createdAt] stay in the order in which they were added. *)
Theorem price_time_priority clock cfg :
  (forall h book ref,
      (getBestBid h book = Some ref
       <-> exists l1 l2, bids book = l1 ++ ref :: l2 /\ restingAt h ref
                         /\ Forall (fun r => ~ restingAt h r) l1)
      /\ (getBestAsk h book = Some ref
          <-> exists l1 l2, asks book = l1 ++ ref :: l2 /\ restingAt h ref
                            /\ Forall (fun r => ~ restingAt h r) l1))
  /\ (forall h book,
        (getBestBid h book = None <-> Forall (fun r => ~ restingAt h r) (bids book))
        /\ (getBestAsk h book = None <-> Forall (fun r => ~ restingAt h r) (asks book)))
  /\ (forall w, w_orders w = ∅ -> w_orderBooks w = new_orderBooks cfg -> book_wf w)
  /\ (forall orderId playerId w w' res,
        book_wf w -> cancelOrder clock orderId playerId w = Returns (res, w') ->
        book_wf w')
  /\ (forall fuel gameId player product side orderType quantity price w w' res,
        book_wf w ->
        submitOrder clock cfg fuel gameId player product side orderType quantity price w
        = Returns (res, w') ->
        book_wf w'
        /\ forall book, w_orderBooks w !! product = Some book ->
             let executed := restingRef side <$> r_trades res in
             executed `prefix_of` filter (restingAt (w_orders w))
                                         (book_side (opposite side) book)
             /\ StronglySorted (viaHeap (w_orders w) (side_le (opposite side))) executed
             /\ ((forall a b x y, a ∈ executed -> b ∈ executed -> a <> b ->
                    w_orders w !! a = Some x -> w_orders w !! b = Some y ->
                    o_createdAt x <> o_createdAt y) ->
                 StronglySorted (viaHeap (w_orders w) (side_lt (opposite side))) executed))
  /\ (forall h book ref o,
        h !! ref = Some o -> limitAt h ref ->
        side_ok h (o_side o) (book_side (o_side o) book) ->
        exists l1 l2,
          book_side (o_side o) book = l1 ++ l2
          /\ book_side (o_side o) (OrderBook_addOrder h ref book) = l1 ++ ref :: l2
          /\ Forall (fun r => viaHeap h (side_le (o_side o)) r ref) l1
          /\ Forall (fun r => ~ viaHeap h (side_le (o_side o)) r ref) l2).
Proof.
  split; [|split; [|split; [|split; [|split]]]]; cycle 5.
  { intros h book ref o Ho Hlim Hok.
    rewrite (OrderBook_addOrder_side _ _ _ _ _ Ho), decide_True by done.
    by apply addOrder_position. }
  - intros h book ref. split; apply head_filter_first.
  - intros h book. split; apply head_filter_none.
  - apply book_wf_new.
  - intros orderId playerId w w' res. apply cancelOrder_book_wf.
  - intros fuel gameId player product side orderType quantity price w w' res Hwf H.
    split; [by eapply submitOrder_book_wf|].
    intros book Hbook executed.
    pose proof (submitOrder_prefix _ _ _ _ _ _ _ _ _ _ _ _ _ _ Hwf H Hbook) as Hpre.
    fold executed in Hpre.
    destruct (proj2 Hwf _ _ Hbook (opposite side)) as (Hnd & _ & Hs).
    assert (StronglySorted (viaHeap (w_orders w) (side_le (opposite side))) executed) as Hse.
    { eapply StronglySorted_prefix; [exact Hpre|].
      eapply StronglySorted_sublist; [apply sublist_filter|done]. }
    split; [done|]. split; [done|].
    intros Hdistinct. eapply StronglySorted_strict; [| |exact Hse].
    + destruct Hpre as [k Hk]. apply (NoDup_filter (restingAt (w_orders w))) in Hnd.
      rewrite Hk in Hnd. by apply NoDup_app in Hnd as [? _].
    + intros a b Ha Hb Hne (x & y & Hx & Hy & Hle).
      exists x, y. repeat split; [done..|].
      apply side_lt_of_le; [done|]. exact (Hdistinct a b x y Ha Hb Hne Hx Hy).
Qed.

(** ** C8: timestamps *)

Lemma matchLoop_stamps clock fuel incId pl (w0 : World) trades' w' :
  (forall i j, (i <= j)%nat -> clock i <= clock j) ->
  matchLoop clock fuel incId pl [] w0 = Returns (trades', w') ->
  stamp_inv clock w0 trades' w'.
Proof.
  intros Hmono H.
  refine (matchLoop_rule clock incId pl (stamp_inv clock w0) _ fuel [] w0 trades' w' _ H).
  2:{ split; [done|]. split; [intros id; apply stable_at_refl|]. split; [done|].
      split; [by left|]. split; constructor. }
  clear H trades' w'.
  intros trades w inc book oppId opp t w1 (H1 & H2 & H3 & H4 & H5 & H6)
         Hinc _ _ _ Hopp _ _ Hex.
  destruct (executeTrade_inv _ _ _ _ _ _ _ Hex)
    as (inc' & rst' & _ & _ & Ht & _ & _ & Ho & Htr & _ & _ & _ & Htk & _).
  cbv zeta in Ht, Ho, Htr, Htk.
  assert (t_executedAt t = clock (w_ticks w)) as Hat by (by subst t).
  unfold stamp_inv. simpl. rewrite Ho, Htr, Htk. clear Ho Htr Ht.
  split; [lia|]. split.
  { intros id. eapply stable_at_trans; [apply H2|].
    eapply stable_at_trans; apply stable_at_alter; intros; apply Order_filled_stable. }
  split. { intros id. rewrite !lookup_alter_is_Some. apply H3. }
  split.
  { intros tid t'. rewrite lookup_insert. case_decide.
    - intros [= <-]. right. apply elem_of_app. right. by left.
    - intros Ht'. destruct (H4 _ _ Ht') as [?|?]; [by left|].
      right. apply elem_of_app. by left. }
  split.
  { apply Forall_app. split.
    - eapply Forall_impl; [exact H5|]. intros x (k & Hk & Hx). exists k. split; [lia|done].
    - constructor; [|constructor]. exists (w_ticks w). split; [lia|done]. }
  apply StronglySorted_app_2; [|done|repeat constructor].
  intros a b Ha Hb. apply list_elem_of_singleton in Hb as ->.
  rewrite Forall_forall in H5. destruct (H5 _ Ha) as (k & Hk & ->).
  rewrite Hat. apply Hmono. lia.
Qed.

(** C8 (amended). [createdAt] and [executedAt] are readings of the wall
    clock, taken one after the other.  On a clock that never goes back, the
    order that a submission creates gets the reading [clock (w_ticks w)],
    which is not earlier than the [createdAt] of any order already in the
    store; the trades of the submission have non-decreasing [executedAt],
    not earlier than those of the trades already in the store. *)
Theorem timestamps_are_clock_readings clock cfg fuel gameId player product side orderType
    quantity price (w w' : World) res :
  (forall i j, (i <= j)%nat -> clock i <= clock j) ->
  stamped clock w ->
  submitOrder clock cfg fuel gameId player product side orderType quantity price w
  = Returns (res, w') ->
  stamped clock w'
  /\ (forall order o', r_order res = Some order -> w_orders w' !! order = Some o' ->
        o_createdAt o' = clock (w_ticks w)
        /\ forall id o, w_orders w !! id = Some o -> o_createdAt o <= o_createdAt o')
  /\ StronglySorted (fun a b => t_executedAt a <= t_executedAt b) (r_trades res)
  /\ (forall t tid t0, t ∈ r_trades res -> w_trades w !! tid = Some t0 ->
        t_executedAt t0 <= t_executedAt t).
Proof.
  intros Hmono [Hso Hst] H.
  apply submitOrder_inv in H as [(e & _ & -> & ->)|(pl & trades & w2 & _ & Hpl & Hm & Hr)].
  { split; [by split|]. split; [done|]. split; [constructor|].
    intros t tid t0 Ht. by apply elem_of_nil in Ht. }
  destruct (new_Order_spec clock gameId (p_playerId pl) (p_name pl) product side orderType
              quantity price w) as (Hid & Ho1 & _ & _ & Ht1 & _ & _ & Htk1).
  cbv zeta in Hid, Ho1, Ht1, Htk1.
  set (r := new_Order _ _ _ _ _ _ _ _ _ _) in *. rewrite Hid in Hm, Hr.
  unfold matchOrder in Hm.
  apply (matchLoop_stamps _ _ _ _ _ _ _ Hmono) in Hm as (H1 & H2 & H3 & H4 & H5 & H6).
  rewrite Htk1 in H1, H5. rewrite Ht1 in H4.
  apply restRemainder_inv in Hr as (-> & o & Ho & Hw'). simpl.
  assert (w_orders (snd r) !! w_next w = Some
            (mkOrder (w_next w) gameId (p_playerId pl) (p_name pl) product side orderType
                     quantity quantity price open [] (clock (w_ticks w))
                     (clock (S (w_ticks w))))) as Hinc
    by (rewrite Ho1; apply lookup_insert_eq).
  destruct (H2 _ _ Hinc) as (o2 & Ho2 & Hstb). assert (o2 = o) as -> by congruence.
  assert (o_createdAt o = clock (w_ticks w)) as Hcr by (by destruct Hstb as (_&_&_&_&_&_&?)).
  (* the orders of [w2] *)
  assert (forall id x, w_orders w2 !! id = Some x ->
            o_createdAt x = clock (w_ticks w)
            \/ exists k, (k < w_ticks w)%nat /\ o_createdAt x = clock k) as Hw2.
  { intros id x Hx. destruct (decide (id = w_next w)) as [->|Hne].
    - left. congruence.
    - right. assert (is_Some (w_orders w !! id)) as [x0 Hx0].
      { assert (is_Some (w_orders (snd r) !! id)) as Hs by (apply H3; eauto).
        rewrite Ho1, lookup_insert_ne in Hs; done. }
      destruct (Hso _ _ Hx0) as (k & Hk & Hck). exists k. split; [done|].
      assert (w_orders (snd r) !! id = Some x0) as Hx1
        by (rewrite Ho1, lookup_insert_ne; done).
      destruct (H2 _ _ Hx1) as (x' & Hx' & (_&_&_&_&_&_&Hc)). congruence. }
  (* the orders, trades and ticks of [w'] *)
  assert (w_trades w' = w_trades w2 /\ w_ticks w' = w_ticks w2
          /\ (forall id x, w_orders w' !! id = Some x ->
                exists x2, w_orders w2 !! id = Some x2 /\ o_createdAt x = o_createdAt x2))
    as (Htr' & Htk' & Hos').
  { destruct Hw' as [[_ ->]|(_ & book & _ & Hw')]; [by eauto|].
    cbv zeta in Hw'. destruct Hw' as (Hos & _ & _ & _ & Htr & _ & Htk).
    split; [done|]. split; [done|]. intros id x. rewrite Hos.
    destruct orderType; [by eauto|].
    rewrite lookup_alter. case_decide; [|by eauto].
    subst id. rewrite Ho. simpl. intros [= <-]. by eauto. }
  split; [split|split; [|split]].
  - intros id x Hx. destruct (Hos' _ _ Hx) as (x2 & Hx2 & ->). rewrite Htk'.
    destruct (Hw2 _ _ Hx2) as [->|(k & Hk & ->)].
    + exists (w_ticks w). split; [lia|done].
    + exists k. split; [lia|done].
  - intros tid t. rewrite Htr', Htk'. intros Ht.
    destruct (H4 _ _ Ht) as [Hold|Hnew].
    + destruct (Hst _ _ Hold) as (k & Hk & ->). exists k. split; [lia|done].
    + rewrite Forall_forall in H5. destruct (H5 _ Hnew) as (k & Hk & ->).
      exists k. split; [lia|done].
  - intros order o' [= <-] Ho'. destruct (Hos' _ _ Ho') as (x2 & Hx2 & ->).
    assert (x2 = o) as -> by congruence. split; [done|].
    intros id x Hx. destruct (Hso _ _ Hx) as (k & Hk & ->). rewrite Hcr.
    apply Hmono. lia.
  - done.
  - intros t tid t0 Ht Ht0. destruct (Hst _ _ Ht0) as (k0 & Hk0 & ->).
    rewrite Forall_forall in H5. destruct (H5 _ Ht) as (k & Hk & ->).
    apply Hmono. lia.
Qed.

(** ** Scoring *)

(** A sum over the entries of a JS object whose keys are the products. *)
Lemma sum_over_products (g : string -> Z -> Z) (f : string -> Z)
    (m : gmap string Z) (ks : list string) :
  NoDup ks ->
  (forall k, k ∈ ks <-> is_Some (m !! k)) ->
  (forall k v, m !! k = Some v -> f k = v) ->
  map_fold (fun k v acc => acc + g k v) 0 m = foldr (fun k acc => g k (f k) + acc) 0 ks.
Proof.
  intros Hnd. revert m. induction Hnd as [|k ks Hk Hnd IH]; intros m Hdom Hf.
  - assert (m = ∅) as ->; [|by rewrite map_fold_empty].
    apply map_empty. intros k. apply eq_None_not_Some. rewrite <- Hdom. apply not_elem_of_nil.
  - destruct (proj1 (Hdom k) ltac:(by left)) as [v Hv].
    rewrite <- (insert_delete_id m k v) by done.
    rewrite map_fold_insert_L; [|intros; lia|apply lookup_delete_eq].
    simpl. rewrite (Hf k v Hv). rewrite (IH (delete k m)); [lia| |].
    + intros k'. rewrite lookup_delete_is_Some. rewrite <- Hdom. split.
      * intros Hk'. split; [by intros ->|by right].
      * intros [Hne Hin]. apply elem_of_cons in Hin as [->|?]; done.
    + intros k' v'. rewrite lookup_delete_Some. intros [_ ?]. by apply Hf.
Qed.

Lemma scrapValueOf_products scrap inv ks :
  NoDup ks -> (forall k, k ∈ ks <-> is_Some (inv !! k)) ->
  scrapValueOf scrap inv = spec_inventory_value ks scrap inv.
Proof.
  intros Hnd Hdom. unfold scrapValueOf, spec_inventory_value.
  apply (sum_over_products (fun k v => v * default 0 (scrap !! k)) (inventoryOf inv));
    [done..|].
  intros k v Hv. unfold inventoryOf. by rewrite Hv.
Qed.

(** The minimum, as the loop of [getCompleteSets] accumulates it. *)
Lemma foldl_min_shift (n : string -> Z) (l : list string) (a b : Z) :
  foldl (fun k q => Z.min k (n q)) (Z.min a b) l
  = Z.min a (foldl (fun k q => Z.min k (n q)) b l).
Proof.
  revert a b. induction l as [|q l IH]; intros a b; simpl; [done|].
  rewrite <- Z.min_assoc. apply IH.
Qed.

Lemma minSets_products (g : string -> Z -> Z) (f : string -> Z)
    (m : gmap string Z) (ks : list string) :
  NoDup ks ->
  (forall k, k ∈ ks <-> is_Some (m !! k)) ->
  (forall k v, m !! k = Some v -> f k = v) ->
  map_fold (fun k v acc => Some (match acc with
                                 | None => g k v
                                 | Some x => Z.min x (g k v)
                                 end)) None m
  = match ks with
    | [] => None
    | p :: ps => Some (foldl (fun k q => Z.min k (g q (f q))) (g p (f p)) ps)
    end.
Proof.
  intros Hnd. revert m. induction Hnd as [|k ks Hk Hnd IH]; intros m Hdom Hf.
  - assert (m = ∅) as ->; [|by rewrite map_fold_empty].
    apply map_empty. intros k. apply eq_None_not_Some. rewrite <- Hdom. apply not_elem_of_nil.
  - destruct (proj1 (Hdom k) ltac:(by left)) as [v Hv].
    rewrite <- (insert_delete_id m k v) by done.
    rewrite map_fold_insert_L; [| |apply lookup_delete_eq].
    2:{ intros j1 j2 z1 z2 [y|] _ _ _; cbv beta iota; f_equal.
        - by rewrite <- !Z.min_assoc, (Z.min_comm (g j2 z2)).
        - apply Z.min_comm. }
    rewrite (IH (delete k m)).
    + rewrite <- (Hf k v Hv). destruct ks as [|p ps]; [done|]. f_equal. cbn [foldl].
      rewrite (foldl_min_shift (fun q => g q (f q))). apply Z.min_comm.
    + intros k'. rewrite lookup_delete_is_Some. rewrite <- Hdom. split.
      * intros Hk'. split; [by intros ->|by right].
      * intros [Hne Hin]. apply elem_of_cons in Hin as [->|?]; done.
    + intros k' v'. rewrite lookup_delete_Some. intros [_ ?]. by apply Hf.
Qed.

Lemma getCompleteSets_products recipe p ks :
  NoDup ks -> (forall k, k ∈ ks <-> is_Some (recipe !! k)) ->
  getCompleteSets recipe p = spec_complete_sets ks recipe (p_inventory p).
Proof.
  intros Hnd Hdom. unfold getCompleteSets, minSetsOf, spec_complete_sets.
  rewrite (minSets_products (fun k v => inventoryOf (p_inventory p) k / v)
                            (inventoryOf recipe) recipe ks); [by destruct ks|done..|].
  intros k v Hv. unfold inventoryOf. by rewrite Hv.
Qed.




(** ** The final leaderboard *)

Section JsSortStable.
Context {A : Type} (cmp : A -> A -> Z) (P : A -> Prop) (le : A -> A -> Prop).
Hypothesis cmp_le : forall a b, P a -> P b -> (0 <= cmp a b <-> le b a).
Hypothesis le_total : forall a b, P a -> P b -> le a b \/ le b a.
Hypothesis le_trans : forall a b c, P a -> P b -> P c -> le a b -> le b c -> le a c.

(** [Q] picks a class of elements that the comparator ties. *)
Context (Q : A -> Prop) `{!forall x, Decision (Q x)}.
Hypothesis Q_tie : forall a b, P a -> P b -> Q a -> Q b -> le a b.

Lemma js_insert_filter x l :
  P x -> Forall P l -> StronglySorted le l ->
  filter Q (js_insert cmp x l) = filter Q l ++ filter Q [x].
Proof.
  intros Hx HP Hs.
  destruct (js_insert_split cmp P le cmp_le le_trans x l Hx HP Hs)
    as (l1 & l2 & -> & -> & H1 & H2).
  rewrite !filter_app, <- app_assoc. f_equal.
  rewrite filter_cons, (filter_cons _ x []), filter_nil.
  destruct (decide (Q x)) as [HQ|HQ]; simpl. 2: by rewrite app_nil_r.
  assert (filter Q l2 = []) as ->; [|done].
  apply Forall_app in HP as [_ HP2]. clear Hs.
  induction l2 as [|y l2 IH]; [done|].
  apply Forall_cons in HP2 as [HPy HP2]. apply Forall_cons in H2 as [Hy H2].
  rewrite filter_cons. destruct (decide (Q y)) as [HQy|_]; [|by apply IH].
  destruct Hy. by apply Q_tie.
Qed.

(** The sort is stable: tied elements keep the order they had. *)
Lemma js_sort_stable l : Forall P l -> filter Q (js_sort cmp l) = filter Q l.
Proof.
  induction l as [|x l IH] using rev_ind; intros HP; [done|].
  apply Forall_app in HP as [HPl HPx]. apply Forall_cons in HPx as [HPx _].
  rewrite js_sort_snoc, js_insert_filter, filter_app, IH; try done.
  - by rewrite js_sort_perm.
  - by apply (js_sort_sorted cmp P le).
Qed.
End JsSortStable.






Lemma dom_products (m : gmap string Z) (ps : list string) :
  dom m = list_to_set ps -> forall k, k ∈ ps <-> is_Some (m !! k).
Proof. intros H k. by rewrite <- elem_of_dom, H, elem_of_list_to_set. Qed.




(** ** Order of appearance in a list *)

Lemma before_lookup {A : Type} (l : list A) i j a b :
  l !! i = Some a -> l !! j = Some b -> (i < j)%nat -> before a b l.
Proof.
  intros Hi Hj Hlt.
  exists (take i l), (take (j - S i) (drop (S i) l)), (drop (S j) l).
  rewrite <- (take_drop_middle l i a Hi) at 1. f_equal. f_equal.
  rewrite <- (take_drop (j - S i) (drop (S i) l)) at 1. f_equal.
  rewrite drop_drop. replace (S i + (j - S i))%nat with j by lia.
  by apply drop_S.
Qed.

Lemma before_filter {A : Type} (P : A -> Prop) `{!forall x, Decision (P x)} a b (l : list A) :
  P a -> P b -> (before a b l <-> before a b (filter P l)).
Proof.
  intros Ha Hb. split.
  - intros (l1 & l2 & l3 & ->).
    exists (filter P l1), (filter P l2), (filter P l3).
    rewrite filter_app, filter_cons_True, filter_app, filter_cons_True by done. done.
  - induction l as [|x l IH]; intros (l1 & l2 & l3 & Heq).
    + by destruct l1.
    + rewrite filter_cons in Heq. destruct (decide (P x)) as [Hx|Hx].
      * destruct l1 as [|y l1]; simpl in Heq; injection Heq as <- Heq.
        -- assert (b ∈ l) as Hin.
           { eapply (list_elem_of_filter P). rewrite Heq. set_solver. }
           apply list_elem_of_split in Hin as (k1 & k2 & ->).
           by exists [], k1, k2.
        -- destruct IH as (k1 & k2 & k3 & ->); [by exists l1, l2, l3|].
           by exists (x :: k1), k2, k3.
      * destruct IH as (k1 & k2 & k3 & ->); [by exists l1, l2, l3|].
        by exists (x :: k1), k2, k3.
Qed.

Lemma before_fmap {A B : Type} (f : A -> B) a b (l : list A) :
  before a b l -> before (f a) (f b) (f <$> l).
Proof.
  intros (l1 & l2 & l3 & ->). exists (f <$> l1), (f <$> l2), (f <$> l3).
  by rewrite fmap_app, fmap_cons, fmap_app, fmap_cons.
Qed.

Lemma StronglySorted_before {A : Type} (R : A -> A -> Prop) a b (l : list A) :
  StronglySorted R l -> before a b l -> R a b.
Proof.
  intros Hs (l1 & l2 & l3 & ->).
  apply StronglySorted_app_1_r, StronglySorted_inv in Hs as [_ Hall].
  rewrite Forall_forall in Hall. apply Hall. set_solver.
Qed.

(** ** The rows of the final leaderboard *)

Lemma playerOfGame_elem gid w id :
  players_filed w ->
  id ∈ getPlayersByGame gid w <-> exists pl, playerOfGame gid w id pl.
Proof.
  intros (_ & Hkeys & _). unfold getPlayersByGame, playerOfGame.
  rewrite list_elem_of_filter, Hkeys. split.
  - intros [Hg [pl Hpl]]. exists pl. split; [done|]. rewrite Hpl in Hg. by injection Hg.
  - intros (pl & Hpl & Hg). rewrite Hpl. split; [by rewrite <- Hg|by eexists].
Qed.





Lemma players_filed_savePlayer p w : players_filed w -> players_filed (savePlayer p w).
Proof.
  intros (Hnd & Hkeys & Hown). unfold players_filed, savePlayer.
  cbn [w_players w_playerKeys]. split; [|split].
  - destruct (decide (p_playerId p ∈ w_playerKeys w)) as [|Hnew]; [done|].
    apply NoDup_app. split; [done|]. split; [|apply NoDup_singleton].
    intros x Hx ->%list_elem_of_singleton. done.
  - intros id. destruct (decide (id = p_playerId p)) as [->|Hne].
    + rewrite lookup_insert_eq. split; [by eexists|]. intros _.
      destruct (decide (p_playerId p ∈ w_playerKeys w)); [done|].
      apply elem_of_app. right. by apply list_elem_of_singleton.
    + rewrite lookup_insert_ne, <- Hkeys by done.
      destruct (decide (p_playerId p ∈ w_playerKeys w)); [done|].
      rewrite elem_of_app, list_elem_of_singleton. split; [by intros [?|?]|by left].
  - intros id q. destruct (decide (id = p_playerId p)) as [->|Hne].
    + rewrite lookup_insert_eq. by intros [= <-].
    + rewrite lookup_insert_ne by done. apply Hown.
Qed.

Lemma players_filed_w_final : players_filed w_final.
Proof.
  unfold w_final. do 3 apply players_filed_savePlayer.
  split; [constructor|]. split; [|done]. intros id. simpl.
  rewrite lookup_empty. split; [by intros ?%elem_of_nil|by intros [? ?]].
Qed.



(** The leaderboard of the example: Carol first, then Alice and Bob, who are
    level, in the order in which they joined. *)
Lemma endGame_example :
  exists lb game' w',
    endGame frozen_clock cfg8 (Some running_game) w_final = Some (EndOk lb, game', w')
    /\ (fun e => (e_name e, totalOf e, e_rank e)) <$> lb
       = [("Carol", 100, Some 1); ("Alice", 56, Some 2); ("Bob", 56, Some 3)]%string.
Proof.
  eexists _, _, _. split; [vm_compute; reflexivity|]. vm_compute. reflexivity.
Qed.

(** ** The session: its worlds are in order *)

Lemma book_wf_w0 : book_wf w0.
Proof. by apply (book_wf_new cfg8). Qed.

Lemma book_wf_world_of clock fuel gameId player product side orderType quantity price w :
  book_wf w ->
  book_wf (world_of (submitOrder clock cfg8 fuel gameId player product side orderType
                                 quantity price w)).
Proof.
  intros Hwf.
  destruct (submitOrder _ _ _ _ _ _ _ _ _ _ _) as [[r w']| |] eqn:E; simpl;
    [by eapply submitOrder_book_wf|apply book_wf_w0..].
Qed.

Lemma book_wf_w_two_asks : book_wf w_two_asks.
Proof.
  unfold w_two_asks.
  destruct (submitOrder ticking_clock cfg8 10 game1 10%positive "bread" sell limit 6 (Some 1) w0)
    as [[r w']| |] eqn:E; simpl; [|apply book_wf_w0..].
  apply book_wf_world_of. eapply submitOrder_book_wf; [apply book_wf_w0|exact E].
Qed.

Lemma book_wf_w_alice_ask : book_wf w_alice_ask.
Proof. apply book_wf_world_of, book_wf_w0. Qed.

Lemma book_wf_w_tied : book_wf w_tied.
Proof. apply book_wf_world_of, book_wf_world_of, book_wf_w0. Qed.

(** ** Instances *)

Lemma price_time_priority_witness :
  exists res w' book,
    submitOrder frozen_clock cfg8 10 game1 11%positive "bread" buy limit 6 (Some 1) w_tied
    = Returns (res, w')
    /\ w_orderBooks w_tied !! "bread"%string = Some book
    /\ book_wf w'
    /\ restingRef buy <$> r_trades res
       `prefix_of` filter (restingAt (w_orders w_tied)) (book_side sell book).
Proof.
  destruct (submitOrder frozen_clock cfg8 10 game1 11%positive "bread" buy limit 6 (Some 1)
                        w_tied) as [[res w']| |] eqn:E;
    [|vm_compute in E; discriminate..].
  destruct (w_orderBooks w_tied !! "bread"%string) as [book|] eqn:Hb;
    [|vm_compute in Hb; discriminate].
  destruct (price_time_priority frozen_clock cfg8) as (_ & _ & _ & _ & H & _).
  destruct (H _ _ _ _ _ _ _ _ _ _ _ book_wf_w_tied E) as [Hwf Hex].
  destruct (Hex _ Hb) as (Hpre & _).
  exists res, w', book.
  split; [reflexivity|]. split; [reflexivity|]. split; [exact Hwf|exact Hpre].
Defined.

(** Two asks at the same price created within the same millisecond are both
    executed by one buy, and neither is strictly better than the other in
    (price, [createdAt]). *)
Lemma strict_priority_counterexample :
  exists res w' x y,
    submitOrder frozen_clock cfg8 10 game1 11%positive "bread" buy limit 6 (Some 1) w_tied
    = Returns (res, w')
    /\ restingRef buy <$> r_trades res = [100%positive; 101%positive]
    /\ w_orders w_tied !! 100%positive = Some x
    /\ w_orders w_tied !! 101%positive = Some y
    /\ ~ side_lt sell x y.
Proof.
  eexists _, _, _, _.
  split; [vm_compute; reflexivity|].
  split; [vm_compute; reflexivity|].
  split; [vm_compute; reflexivity|].
  split; [vm_compute; reflexivity|].
  vm_compute. intros [H|[_ H]]; discriminate H.
Qed.

(** Alice's market buy meets her own ask: the loop returns at once, without
    a trade; Bob's buy crosses Alice's ask, and the trade is between the two
    of them. *)
Lemma self_trade_prevention_witness :
  (exists inc, w_orders (snd (new_Order ticking_clock game1 10%positive "Alice" "bread" buy
                                        market 1 None w_alice_ask)) !! 101%positive = Some inc
     /\ matchLoop ticking_clock 1 101%positive 10%positive []
          (snd (new_Order ticking_clock game1 10%positive "Alice" "bread" buy market 1 None
                          w_alice_ask))
        = Returns ([], snd (new_Order ticking_clock game1 10%positive "Alice" "bread" buy
                                      market 1 None w_alice_ask)))
  /\ exists res w' t,
       submitOrder ticking_clock cfg8 10 game1 11%positive "bread" buy limit 6 (Some 1)
                   w_two_asks = Returns (res, w')
       /\ r_trades res = [t] /\ t_buyerId t <> t_sellerId t.
Proof.
  destruct (self_trade_prevention ticking_clock cfg8) as [H1 H2]. split.
  - eexists. split; [vm_compute; reflexivity|].
    eapply (H1 0%nat 101%positive 10%positive []); try (vm_compute; reflexivity).
  - destruct (submitOrder ticking_clock cfg8 10 game1 11%positive "bread" buy limit 6 (Some 1)
                          w_two_asks) as [[res w']| |] eqn:E;
      [|vm_compute in E; discriminate..].
    destruct (H2 _ _ _ _ _ _ _ _ _ _ _ E) as [Ht _].
    assert (exists t, r_trades res = [t]) as [t Hres].
    { vm_compute in E. injection E as <- _. eexists. reflexivity. }
    exists res, w', t. split; [reflexivity|]. split; [exact Hres|].
    apply Ht. rewrite Hres. by left.
Defined.

(** Dan, who has 5 in cash, bids for 10 bread at 1. *)
Lemma submitOrder_rejects_witness :
  exists e,
    submitOrder ticking_clock cfg8 10 game1 12%positive "bread" buy limit 10 (Some 1) w_dan
    = Returns (mkSubmit None [] [e], w_dan).
Proof.
  apply (submitOrder_rejects ticking_clock cfg8 10 game1 12%positive dan).
  - vm_compute; reflexivity.
  - right. right. right. right. left. by repeat split.
Defined.

(** Alice's market buy of 1 bread, which meets her own ask, rests as a limit
    order at 999999. *)
Lemma unfilled_remainder_rests_witness :
  exists res w' order o',
    submitOrder ticking_clock cfg8 10 game1 10%positive "bread" buy market 1 None w_alice_ask
    = Returns (res, w')
    /\ r_order res = Some order
    /\ w_orders w' !! order = Some o'
    /\ o_orderType o' = limit /\ o_price o' = Some 999999.
Proof.
  destruct (submitOrder ticking_clock cfg8 10 game1 10%positive "bread" buy market 1 None
                        w_alice_ask) as [[res w']| |] eqn:E;
    [|vm_compute in E; discriminate..].
  assert (exists order o', r_order res = Some order /\ w_orders w' !! order = Some o'
                           /\ o_remainingQuantity o' > 0) as (order & o' & Hord & Ho' & Hrem).
  { vm_compute in E. injection E as <- <-. eexists _, _.
    split; [reflexivity|]. split; vm_compute; reflexivity. }
  destruct (unfilled_remainder_rests _ _ _ _ _ _ _ _ _ _ _ _ _ _ _
              book_wf_w_alice_ask E Hord Ho' Hrem) as (Hty & Hpr & _).
  exists res, w', order, o'.
  split; [reflexivity|]. split; [exact Hord|]. split; [exact Ho'|].
  split; [exact Hty|exact Hpr].
Defined.

(** Within one millisecond two orders get the same [createdAt], and the two
    trades of one submission the same [executedAt]. *)
Lemma timestamps_tie :
  exists o1 o2 res w' t1 t2,
    w_orders w_tied !! 100%positive = Some o1
    /\ w_orders w_tied !! 101%positive = Some o2
    /\ o_createdAt o1 = o_createdAt o2
    /\ submitOrder frozen_clock cfg8 10 game1 11%positive "bread" buy limit 6 (Some 1) w_tied
       = Returns (res, w')
    /\ r_trades res = [t1; t2]
    /\ t_tradeId t1 <> t_tradeId t2
    /\ t_executedAt t1 = t_executedAt t2.
Proof.
  eexists _, _, _, _, _, _.
  split; [vm_compute; reflexivity|].
  split; [vm_compute; reflexivity|].
  split; [vm_compute; reflexivity|].
  split; [vm_compute; reflexivity|].
  split; [vm_compute; reflexivity|].
  split; [vm_compute; discriminate|vm_compute; reflexivity].
Qed.

Lemma timestamps_are_clock_readings_witness :
  exists res w' order o',
    submitOrder ticking_clock cfg8 10 game1 10%positive "bread" sell limit 6 (Some 1) w0
    = Returns (res, w')
    /\ r_order res = Some order
    /\ w_orders w' !! order = Some o'
    /\ o_createdAt o' = ticking_clock (w_ticks w0)
    /\ stamped ticking_clock w'.
Proof.
  destruct (submitOrder ticking_clock cfg8 10 game1 10%positive "bread" sell limit 6 (Some 1) w0)
    as [[res w']| |] eqn:E; [|vm_compute in E; discriminate..].
  assert (exists order o', r_order res = Some order /\ w_orders w' !! order = Some o')
    as (order & o' & Hord & Ho').
  { vm_compute in E. injection E as <- <-. eexists _, _.
    split; [reflexivity|]. vm_compute; reflexivity. }
  assert (forall i j, (i <= j)%nat -> ticking_clock i <= ticking_clock j) as Hmono
    by (unfold ticking_clock; lia).
  assert (stamped ticking_clock w0) as Hst.
  { split; intros id x Hx; vm_compute in Hx; discriminate. }
  destruct (timestamps_are_clock_readings _ _ _ _ _ _ _ _ _ _ _ _ _ Hmono Hst E)
    as (Hst' & Hcr & _).
  exists res, w', order, o'.
  split; [reflexivity|]. split; [exact Hord|]. split; [exact Ho'|].
  split; [exact (proj1 (Hcr _ _ Hord Ho'))|exact Hst'].
Defined.

(** Alice cancels her resting ask; Bob cannot. *)
Lemma cancelOrder_spec_witness :
  (exists w', cancelOrder ticking_clock 100%positive 10%positive w_alice_ask
              = Returns (CancelOk 100%positive, w')
              /\ o_status <$> w_orders w' !! 100%positive = Some cancelled)
  /\ cancelOrder ticking_clock 100%positive 11%positive w_alice_ask
     = Returns (CancelFailed NotYourOrder, w_alice_ask).
Proof.
  destruct (cancelOrder_spec ticking_clock 100%positive 10%positive w_alice_ask)
    as (_ & _ & _ & Hok).
  destruct (cancelOrder_spec ticking_clock 100%positive 11%positive w_alice_ask)
    as (_ & Hno & _).
  assert (exists o, w_orders w_alice_ask !! 100%positive = Some o
                    /\ o_playerId o = 10%positive /\ o_status o = open
                    /\ exists book, w_orderBooks w_alice_ask !! o_product o = Some book)
    as (o & Ho & Hown & Hst & book & Hbook).
  { eexists. split; [vm_compute; reflexivity|]. split; [reflexivity|].
    split; [reflexivity|]. eexists. vm_compute. reflexivity. }
  split.
  - destruct (Hok o book Ho Hown (or_introl Hst) Hbook) as (w' & Hc & Hs & _).
    exists w'. split; [exact Hc|exact Hs].
  - apply (Hno o Ho). rewrite Hown. discriminate.
Defined.

(** After the end the accessor still answers 180 seconds. *)
Lemma getRemainingTime_spec_witness :
  getRemainingTime 121000 ended_game = inject_Z 180.
Proof.
  apply (proj1 (getRemainingTime_spec 121000 ended_game)). discriminate.
Defined.

(** The two ways out of [cancelOrder]. *)
Lemma cancelOrder_cases clock orderId playerId (w w' : World) res :
  cancelOrder clock orderId playerId w = Returns (res, w') ->
  (w' = w /\ ~ ownResting playerId (w_orders w) orderId /\ exists e, res = CancelFailed e)
  \/ (res = CancelOk orderId /\ ownResting playerId (w_orders w) orderId
      /\ exists o book,
           w_orders w !! orderId = Some o
           /\ w_orderBooks w !! o_product o = Some book
           /\ w_players w' = alter (Player_removeOrder orderId) playerId (w_players w)
           /\ w_orders w' = alter (with_status cancelled (clock (w_ticks w))) orderId (w_orders w)
           /\ w_orderBooks w'
              = <[o_product o := OrderBook_removeOrder orderId book]> (w_orderBooks w)
           /\ w_playerKeys w' = w_playerKeys w /\ w_trades w' = w_trades w
           /\ w_next w' = w_next w /\ w_ticks w' = S (w_ticks w)).
Proof.
  unfold cancelOrder, ownResting.
  destruct (w_orders w !! orderId) as [o|] eqn:Ho.
  2: { intros [= <- <-]. left. eauto. }
  destruct (decide (o_playerId o <> playerId)) as [Hne|Heq].
  { intros [= <- <-]. left. split; [done|]. split; [tauto|eauto]. }
  destruct (decide (o_status o = filled \/ o_status o = cancelled)) as [Hst|Hst].
  { intros [= <- <-]. left. split; [done|]. split; [|eauto].
    unfold isResting. intros [_ [H|H]]; destruct Hst; congruence. }
  destruct (w_orderBooks w !! o_product o) as [book|] eqn:Hbook; [|done].
  intros [= <- <-]. right. split; [done|]. split.
  { split; [by destruct (decide (o_playerId o = playerId)) as [|?]; [|tauto]|].
    unfold isResting. destruct (o_status o); tauto. }
  exists o, book. by destruct w.
Qed.

Lemma ownResting_cancelled playerId h id t id' :
  ownResting playerId (alter (with_status cancelled t) id h) id'
  <-> ownResting playerId h id' /\ id' <> id.
Proof.
  unfold ownResting. destruct (decide (id = id')) as [->|Hne].
  - rewrite lookup_alter_eq. destruct (h !! id'); simpl; [|tauto].
    unfold isResting. simpl. split; [intros [_ [?|?]]; done|tauto].
  - rewrite lookup_alter_ne by done. destruct (h !! id'); [|tauto].
    split; [intros ?; split; [done|congruence]|tauto].
Qed.

Lemma filter_all {A : Type} (P : A -> Prop) `{!forall x, Decision (P x)} (l : list A) :
  Forall P l -> filter P l = l.
Proof.
  induction 1 as [|x l Hx Hl IH]; [done|]. by rewrite filter_cons_True, IH.
Qed.

Lemma cancelOrder_returns clock orderId playerId (w : World) :
  orders_have_books w ->
  exists res w', cancelOrder clock orderId playerId w = Returns (res, w').
Proof.
  intros Hb. unfold cancelOrder.
  destruct (w_orders w !! orderId) as [o|] eqn:Ho; [|eauto].
  destruct (decide _); [eauto|]. destruct (decide _); [eauto|].
  destruct (Hb _ _ Ho) as [book ->]. eauto.
Qed.

(** What a run of cancellations by [playerId] over [ids] does: the orders
    it hits are the ones of [ids] that are the player's and resting. *)
Lemma cancelEach_spec clock ids playerId (w : World) :
  orders_have_books w ->
  exists w',
    cancelEach clock ids playerId w = Returns w'
    /\ orders_have_books w'
    /\ (forall pid,
          w_players w' !! pid
          = if decide (pid = playerId)
            then (fun p => with_openOrderIds
                             (filter (fun id => ~ (id ∈ ids /\ ownResting playerId (w_orders w) id))
                                     (p_openOrderIds p)) p) <$> w_players w !! pid
            else w_players w !! pid)
    /\ (forall id, ~ (id ∈ ids /\ ownResting playerId (w_orders w) id) ->
          w_orders w' !! id = w_orders w !! id)
    /\ (forall id o, id ∈ ids -> ownResting playerId (w_orders w) id ->
          w_orders w !! id = Some o ->
          (exists t, w_orders w' !! id = Some (with_status cancelled t o))
          /\ forall book', w_orderBooks w' !! o_product o = Some book' ->
               (id ∉ bids book') /\ (id ∉ asks book'))
    /\ (forall p book', w_orderBooks w' !! p = Some book' ->
          exists book, w_orderBooks w !! p = Some book
                       /\ forall s, book_side s book' `sublist_of` book_side s book)
    /\ w_playerKeys w' = w_playerKeys w /\ w_trades w' = w_trades w
    /\ w_next w' = w_next w
    /\ (book_wf w -> book_wf w').
Proof.
  revert w. induction ids as [|id rest IH]; intros w Hb; simpl.
  - exists w. split; [done|]. split; [done|]. split.
    { intros pid. case_decide; [|done]. destruct (w_players w !! pid) as [p|]; [|done].
      simpl. f_equal. rewrite filter_all; [by destruct p|].
      apply Forall_forall. intros x _ [Hx _]. by apply elem_of_nil in Hx. }
    split; [done|]. split; [intros ? ? Hx; by apply elem_of_nil in Hx|].
    split; [intros p b ->; eauto|]. done.
  - destruct (cancelOrder_returns clock id playerId w Hb) as (res & w1 & Hc).
    rewrite Hc. pose proof (fun H => cancelOrder_book_wf clock id playerId w w1 res H Hc) as Hwf1.
    apply cancelOrder_cases in Hc as [(-> & Hno & _)|(_ & Hown & o & book & Ho & Hbook & Hp1
                                       & Ho1 & Hb1 & Hk1 & Ht1 & Hn1 & _)].
    + (* the cancellation fails: nothing changes *)
      destruct (IH w Hb) as (w' & -> & Hb' & Hpl & Hoth & Hhit & Hsub & Hrest).
      assert (forall x, (x ∈ id :: rest /\ ownResting playerId (w_orders w) x)
                        <-> (x ∈ rest /\ ownResting playerId (w_orders w) x)) as Hiff.
      { intros x. rewrite elem_of_cons. split; [|tauto]. intros [[->|?] ?]; tauto. }
      exists w'. split; [done|]. split; [done|]. split.
      { intros pid. rewrite Hpl. case_decide; [|done].
        destruct (w_players w !! pid); [|done]. simpl. do 2 f_equal.
        apply filter_ext_in. intros x _. by rewrite Hiff. }
      split; [intros x Hx; apply Hoth; by rewrite <- Hiff|].
      split; [|done].
      intros x ox Hx Hox. apply Hhit; [|done]. by apply Hiff.
    + (* the cancellation goes through *)
      assert (orders_have_books w1) as Hb1'.
      { intros x ox. rewrite Ho1, Hb1. intros Hx.
        assert (exists ox0, w_orders w !! x = Some ox0 /\ o_product ox = o_product ox0)
          as (ox0 & Hx0 & ->).
        { destruct (decide (id = x)) as [->|Hne].
          - rewrite lookup_alter_eq, Ho in Hx. injection Hx as <-. eauto.
          - rewrite lookup_alter_ne in Hx by done. eauto. }
        rewrite lookup_insert. case_decide; [eauto|exact (Hb _ _ Hx0)]. }
      destruct (IH w1 Hb1') as (w' & -> & Hb' & Hpl & Hoth & Hhit & Hsub & Hk & Ht & Hn & Hwf).
      assert (forall x, (x ∈ id :: rest /\ ownResting playerId (w_orders w) x)
                        <-> (x = id \/ (x ∈ rest /\ ownResting playerId (w_orders w1) x)))
        as Hiff.
      { intros x. rewrite Ho1, ownResting_cancelled, elem_of_cons.
        destruct (decide (x = id)) as [->|]; tauto. }
      exists w'. split; [done|]. split; [done|]. split.
      { intros pid. rewrite Hpl, Hp1. case_decide as Hpid; [|by rewrite lookup_alter_ne]. subst pid.
        rewrite lookup_alter_eq. destruct (w_players w !! playerId) as [p|]; [|done].
        simpl. f_equal. unfold Player_removeOrder, with_openOrderIds. simpl. f_equal.
        rewrite list_filter_filter.
        apply filter_ext_in. intros x _. rewrite Hiff. tauto. }
      split.
      { intros x Hx. rewrite Hiff in Hx. rewrite Hoth by tauto.
        rewrite Ho1. apply lookup_alter_ne. intros ->. tauto. }
      split.
      { intros x ox Hx Hox Hlx.
        destruct (decide (x = id)) as [->|Hne].
        - assert (ox = o) as -> by congruence. split.
          + rewrite Hoth by (rewrite Ho1, ownResting_cancelled; tauto).
            rewrite Ho1, lookup_alter_eq, Ho. eauto.
          + intros book' Hbook'. destruct (Hsub _ _ Hbook') as (b1 & Hb1l & Hs).
            rewrite Hb1, lookup_insert_eq in Hb1l. injection Hb1l as <-.
            split.
            * intros Hin. eapply not_elem_of_filter_ne, elem_of_sublist; [exact Hin|].
              exact (Hs buy).
            * intros Hin. eapply not_elem_of_filter_ne, elem_of_sublist; [exact Hin|].
              exact (Hs sell).
        - assert (w_orders w1 !! x = Some ox) as Hx1
            by (by rewrite Ho1, lookup_alter_ne).
          apply (Hhit x ox); [|rewrite Ho1, ownResting_cancelled; tauto|done].
          apply elem_of_cons in Hx as [?|?]; done. }
      split.
      { intros p book' Hbook'. destruct (Hsub _ _ Hbook') as (b1 & Hb1l & Hs).
        rewrite Hb1, lookup_insert in Hb1l. case_decide as Hp.
        - injection Hb1l as <-. subst p. exists book. split; [done|].
          intros s. etrans; [apply Hs|]. destruct s; apply sublist_filter.
        - eauto. }
      split; [congruence|]. split; [congruence|]. split; [congruence|].
      intros Hwf0. apply Hwf, Hwf1; done.
Qed.

(** X1. [cancelAllPlayerOrders(playerId)] returns when every order is for a
    product that has a book.  It cancels the orders listed in the player's
    [openOrderIds] that are the player's own and open or partial, and takes
    each out of its book; the ids it leaves in [openOrderIds] are the ones
    whose cancellation fails (unknown, someone else's, filled or cancelled).
    No other order changes, no cash or inventory changes, an unknown player
    changes nothing, and the books stay in order. *)
Theorem cancelAllPlayerOrders_sweeps clock playerId (w : World) :
  orders_have_books w ->
  exists w',
    cancelAllPlayerOrders clock playerId w = Returns w'
    /\ (forall pid, p_cash <$> w_players w' !! pid = p_cash <$> w_players w !! pid)
    /\ (forall pid, p_inventory <$> w_players w' !! pid = p_inventory <$> w_players w !! pid)
    /\ (forall pl, w_players w !! playerId = Some pl ->
          p_openOrderIds <$> w_players w' !! playerId
          = Some (filter (fun id => ~ ownResting playerId (w_orders w) id) (p_openOrderIds pl))
          /\ (forall id o, id ∈ p_openOrderIds pl -> ownResting playerId (w_orders w) id ->
                w_orders w !! id = Some o ->
                o_status <$> w_orders w' !! id = Some cancelled
                /\ forall book', w_orderBooks w' !! o_product o = Some book' ->
                     (id ∉ bids book') /\ (id ∉ asks book'))
          /\ (forall id, ~ (id ∈ p_openOrderIds pl /\ ownResting playerId (w_orders w) id) ->
                w_orders w' !! id = w_orders w !! id))
    /\ (w_players w !! playerId = None -> w' = w)
    /\ (book_wf w -> book_wf w').
Proof.
  intros Hb. unfold cancelAllPlayerOrders.
  destruct (w_players w !! playerId) as [pl|] eqn:Hpl.
  2: { exists w. split; [done|]. split; [done|]. split; [done|].
       split; [intros ? [=]|done]. }
  destruct (cancelEach_spec clock (p_openOrderIds pl) playerId w Hb)
    as (w' & Hrun & _ & Hp & Hoth & Hhit & _ & _ & _ & _ & Hwf).
  exists w'. split; [done|]. split; [|split; [|split; [|split; [done|done]]]].
  - intros pid. rewrite Hp. case_decide; [|done]. by destruct (w_players w !! pid).
  - intros pid. rewrite Hp. case_decide; [|done]. by destruct (w_players w !! pid).
  - intros pl0 [= <-]. split; [|split; [|done]].
    + rewrite Hp, decide_True, Hpl by done. simpl. f_equal.
      apply filter_ext_in. intros x Hx. tauto.
    + intros id o Hin Hown Ho. destruct (Hhit id o Hin Hown Ho) as [[t Ht] Hbk].
      split; [by rewrite Ht|done].
Qed.

Lemma cancelAllPlayerOrders_sweeps_witness :
  exists w',
    cancelAllPlayerOrders ticking_clock 10%positive w_two_asks = Returns w'
    /\ p_openOrderIds <$> w_players w' !! 10%positive = Some []
    /\ (forall pid, p_cash <$> w_players w' !! pid = p_cash <$> w_players w_two_asks !! pid).
Proof.
  destruct (cancelAllPlayerOrders_sweeps ticking_clock 10%positive w_two_asks)
    as (w' & Hrun & Hcash & _ & Hpl & _); [compute_done|].
  exists w'. split; [exact Hrun|]. split; [|exact Hcash].
  destruct (w_players w_two_asks !! 10%positive) as [pl|] eqn:E; [|by vm_compute in E].
  destruct (Hpl pl eq_refl) as [-> _]. f_equal.
  vm_compute in E. injection E as <-. by vm_compute.
Defined.

Lemma gameResting_cancelled gameId h id t id' :
  gameResting gameId (alter (with_status cancelled t) id h) id'
  <-> gameResting gameId h id' /\ id' <> id.
Proof.
  unfold gameResting. destruct (decide (id = id')) as [->|Hne].
  - rewrite lookup_alter_eq. destruct (h !! id'); simpl; [|tauto].
    unfold isResting. simpl. split; [intros [_ [?|?]]; done|tauto].
  - rewrite lookup_alter_ne by done. destruct (h !! id'); [|tauto].
    split; [intros ?; split; [done|congruence]|tauto].
Qed.

Lemma cancelResting_spec clock gameId L (w : World) :
  let w' := cancelResting clock gameId L w in
  (forall id o, w_orders w !! id = Some o ->
      if decide (id ∈ L /\ gameResting gameId (w_orders w) id)
      then exists t, w_orders w' !! id = Some (with_status cancelled t o)
      else w_orders w' !! id = Some o)
  /\ (forall id, w_orders w !! id = None -> w_orders w' !! id = None)
  /\ w_players w' = w_players w /\ w_playerKeys w' = w_playerKeys w
  /\ w_trades w' = w_trades w /\ w_orderBooks w' = w_orderBooks w
  /\ w_next w' = w_next w.
Proof.
  revert w. induction L as [|x L IH]; intros w; cbv zeta; cbn [cancelResting].
  - split; [|done]. intros id o Ho. rewrite decide_False; [done|].
    intros [H _]. by apply elem_of_nil in H.
  - set (w1 := if decide (gameResting gameId (w_orders w) x)
               then Order_cancel clock x w else w).
    destruct (IH w1) as (Ho' & Hn' & Hp & Hk & Ht & Hb & Hnx). clear IH. cbv zeta in *.
    assert (w_orders w1 = (if decide (gameResting gameId (w_orders w) x)
                           then alter (with_status cancelled (clock (w_ticks w))) x (w_orders w)
                           else w_orders w)
            /\ w_players w1 = w_players w /\ w_playerKeys w1 = w_playerKeys w
            /\ w_trades w1 = w_trades w /\ w_orderBooks w1 = w_orderBooks w
            /\ w_next w1 = w_next w) as (Ho1 & Hp1 & Hk1 & Ht1 & Hb1 & Hn1).
    { subst w1. destruct (decide _); [|done]. by destruct w. }
    split; [|split; [|repeat split; congruence]].
    + intros id o Ho.
      destruct (decide (gameResting gameId (w_orders w) x)) as [Hx|Hx].
      * (* [x] is cancelled *)
        destruct (decide (id = x)) as [->|Hne].
        -- rewrite decide_True by (split; [by left|done]).
           specialize (Ho' x (with_status cancelled (clock (w_ticks w)) o)).
           rewrite Ho1, lookup_alter_eq, Ho in Ho'. specialize (Ho' eq_refl).
           rewrite decide_False in Ho'; [eauto|].
           rewrite gameResting_cancelled. tauto.
        -- specialize (Ho' id o). rewrite Ho1, lookup_alter_ne, Ho in Ho' by done.
           specialize (Ho' eq_refl).
           destruct (decide (id ∈ L /\ _)) as [[H1 H2]|Hn] in Ho'.
           ++ apply gameResting_cancelled in H2 as [H2 _].
              rewrite decide_True; [done|]. split; [by right|done].
           ++ rewrite decide_False; [done|]. intros [H1 H2]. apply Hn.
              apply elem_of_cons in H1 as [?|?]; [done|].
              split; [done|]. apply gameResting_cancelled. done.
      * specialize (Ho' id o). rewrite Ho1, Ho in Ho'. specialize (Ho' eq_refl).
        destruct (decide (id ∈ L /\ _)) as [[H1 H2]|Hn] in Ho'.
        -- rewrite decide_True; [done|]. split; [by right|done].
        -- rewrite decide_False; [done|]. intros [H1 H2]. apply Hn.
           apply elem_of_cons in H1 as [->|?]; done.
    + intros id Hid. apply Hn'. rewrite Ho1. destruct (decide _); [|done].
      destruct (decide (id = x)) as [->|Hne].
      * by rewrite lookup_alter_eq, Hid.
      * by rewrite lookup_alter_ne.
Qed.

Lemma with_status_stable t o : stableFields o (with_status cancelled t o).
Proof. by repeat split. Qed.

(** The sweep of [cancelAllOrders] over the books of the products [ps]. *)
Lemma cancelAllOrders_fold clock gameId ps (w : World) :
  let w' := foldl (fun w product =>
                     match w_orderBooks w !! product with
                     | Some orderBook =>
                         set_orderBooks (insert product (mkBook [] []))
                           (cancelResting clock gameId (bids orderBook ++ asks orderBook) w)
                     | None => w
                     end) w ps in
  (forall p, w_orderBooks w' !! p
             = if decide (p ∈ ps) then (fun _ => mkBook [] []) <$> w_orderBooks w !! p
               else w_orderBooks w !! p)
  /\ (forall id o, w_orders w !! id = Some o ->
        if decide (onBook ps (w_orderBooks w) id /\ gameResting gameId (w_orders w) id)
        then exists t, w_orders w' !! id = Some (with_status cancelled t o)
        else w_orders w' !! id = Some o)
  /\ (forall id, w_orders w !! id = None -> w_orders w' !! id = None)
  /\ w_players w' = w_players w /\ w_playerKeys w' = w_playerKeys w
  /\ w_trades w' = w_trades w /\ w_next w' = w_next w.
Proof.
  cbv zeta. induction ps as [|p ps IH] using rev_ind.
  - cbn [foldl]. split; [|split; [|done]].
    + intros p. rewrite decide_False; [done|]. apply not_elem_of_nil.
    + intros id o Ho. rewrite decide_False; [done|].
      intros [H _]. by apply Exists_nil in H.
  - rewrite foldl_app. cbn [foldl].
    set (wi := foldl _ w ps) in *.
    destruct IH as (Hbk & Hor & Hno & Hpl & Hk & Htr & Hnx).
    assert (forall id, onBook (ps ++ [p]) (w_orderBooks w) id
                       <-> onBook ps (w_orderBooks w) id
                           \/ exists b, w_orderBooks w !! p = Some b /\ id ∈ bids b ++ asks b)
      as Hon.
    { intros id. unfold onBook. rewrite Exists_app, Exists_cons, Exists_nil.
      destruct (w_orderBooks w !! p) as [b|].
      - split; [intros [?|[?|[]]]; eauto|intros [?|(b' & [= <-] & ?)]; tauto].
      - split; [intros [?|[[]|[]]]; eauto|intros [?|(b' & [=] & ?)]; tauto]. }
    destruct (w_orderBooks wi !! p) as [b|] eqn:Hb.
    + pose proof (cancelResting_spec clock gameId (bids b ++ asks b) wi) as Hc.
      cbv zeta in Hc. destruct Hc as (Hor' & Hno' & Hpl' & Hk' & Htr' & Hbk' & Hnx').
      set (wc := cancelResting clock gameId (bids b ++ asks b) wi) in *.
      assert (w_orders (set_orderBooks (insert p (mkBook [] [])) wc) = w_orders wc) as Eo
        by (by destruct wc).
      split; [|split; [|split; [|by destruct wc; simpl in *; repeat split; congruence]]].
      * intros q. transitivity (<[p := mkBook [] []]> (w_orderBooks wc) !! q);
          [by destruct wc|].
        rewrite lookup_insert, Hbk', Hbk. rewrite Hbk in Hb.
        destruct (decide (p = q)) as [<-|Hne].
        -- rewrite decide_True by (apply elem_of_app; right; by left).
           destruct (decide (p ∈ ps)); destruct (w_orderBooks w !! p); done.
        -- destruct (decide (q ∈ ps)) as [Hq|Hq].
           ++ rewrite decide_True; [done|]. apply elem_of_app. by left.
           ++ rewrite decide_False; [done|]. rewrite elem_of_app, list_elem_of_singleton.
              intros [?|?]; congruence.
      * intros id o Ho. rewrite Eo. specialize (Hor id o Ho). rewrite Hbk in Hb.
        destruct (decide (onBook ps (w_orderBooks w) id /\ _)) as [[H1 H2]|Hn] in Hor.
        -- destruct Hor as [t Ht]. rewrite decide_True by (rewrite Hon; tauto).
           specialize (Hor' id _ Ht). rewrite decide_False in Hor'; [eauto|].
           intros [_ Hg]. unfold gameResting in Hg. rewrite Ht in Hg. simpl in Hg.
           unfold isResting in Hg. simpl in Hg. destruct Hg as [_ [?|?]]; done.
        -- specialize (Hor' id o Hor).
           assert (gameResting gameId (w_orders wi) id <-> gameResting gameId (w_orders w) id)
             as Hg by (unfold gameResting; by rewrite Hor, Ho).
           destruct (decide (id ∈ bids b ++ asks b /\ _)) as [[H1 H2]|Hn'] in Hor'.
           ++ rewrite decide_True; [done|]. split; [|by apply Hg].
              apply Hon. right. exists b. split; [|done].
              destruct (decide (p ∈ ps)); [|done].
              destruct (w_orderBooks w !! p); simpl in Hb; [|done].
              injection Hb as <-. by apply elem_of_nil in H1.
           ++ rewrite decide_False; [done|]. intros [H1 H2]. apply Hon in H1 as [H1|(b0 & Hb0 & H1)].
              ** tauto.
              ** apply Hn'. split; [|by apply Hg].
                 destruct (decide (p ∈ ps)) as [Hp|Hp].
                 --- exfalso. apply Hn. split; [|done]. unfold onBook. apply Exists_exists.
                     exists p. split; [done|]. by rewrite Hb0.
                 --- assert (b = b0) as -> by congruence. done.
      * intros id Hid. rewrite Eo. by apply Hno', Hno.
    + split; [|split; [|done]].
      * intros q. rewrite Hbk. rewrite Hbk in Hb.
        destruct (decide (p = q)) as [<-|Hne].
        -- rewrite (decide_True (P := p ∈ ps ++ [p])) by (apply elem_of_app; right; by left).
           destruct (decide (p ∈ ps)); destruct (w_orderBooks w !! p); done.
        -- destruct (decide (q ∈ ps)) as [Hq|Hq].
           ++ rewrite decide_True; [done|]. apply elem_of_app. by left.
           ++ rewrite decide_False; [done|]. rewrite elem_of_app, list_elem_of_singleton.
              intros [?|?]; congruence.
      * intros id o Ho. specialize (Hor id o Ho). rewrite Hbk in Hb.
        assert (w_orderBooks w !! p = None) as Hb0
          by (destruct (decide (p ∈ ps)); destruct (w_orderBooks w !! p); done).
        assert (onBook (ps ++ [p]) (w_orderBooks w) id <-> onBook ps (w_orderBooks w) id)
          as Hiff.
        { rewrite Hon, Hb0. split; [intros [?|(? & [=] & _)]; done|tauto]. }
        destruct (decide (onBook ps (w_orderBooks w) id /\ _)) as [Hy|Hn] in Hor.
        -- rewrite decide_True; [done|]. destruct Hy. split; [by apply Hiff|done].
        -- rewrite decide_False; [done|]. intros [H1 H2]. apply Hn.
           split; [by apply Hiff|done].
Qed.

(** What [cancelAllOrders] does, product by product. *)
Lemma cancelAllOrders_products clock cfg gameId (w : World) :
  let w' := cancelAllOrders clock cfg gameId w in
  (forall p, w_orderBooks w' !! p
             = if decide (p ∈ products cfg) then (fun _ => mkBook [] []) <$> w_orderBooks w !! p
               else w_orderBooks w !! p)
  /\ (forall id o, w_orders w !! id = Some o ->
        if decide (onBook (products cfg) (w_orderBooks w) id
                   /\ gameResting gameId (w_orders w) id)
        then (exists t, w_orders w' !! id = Some (with_status cancelled t o))
             /\ cancelOrder clock id (o_playerId o) w'
                = Returns (CancelFailed (OrderAlready cancelled), w')
        else w_orders w' !! id = Some o)
  /\ (forall id, w_orders w !! id = None -> w_orders w' !! id = None)
  /\ w_players w' = w_players w
  /\ w_trades w' = w_trades w
  /\ (book_wf w -> book_wf w').
Proof.
  intros w'. pose proof (cancelAllOrders_fold clock gameId (products cfg) w) as H.
  cbv zeta in H. fold (cancelAllOrders clock cfg gameId w) in H. fold w' in H.
  destruct H as (Hbk & Hor & Hno & Hpl & Hk & Htr & Hnx).
  split; [done|]. split; [|split; [done|split; [done|split; [done|]]]].
  - intros id o Ho. specialize (Hor id o Ho).
    destruct (decide _) as [_|_]; [|done]. destruct Hor as [t Ht].
    split; [eauto|]. unfold cancelOrder. rewrite Ht. cbv beta iota.
    rewrite decide_False by (intros Hne; by apply Hne).
    by rewrite decide_True by (by right).
  - intros [Hfresh Hsides]. split.
    + intros id [o' Ho']. rewrite Hnx. apply Hfresh.
      destruct (w_orders w !! id) as [o|] eqn:Ho; [done|].
      by rewrite (Hno id Ho) in Ho'.
    + intros p book. rewrite Hbk. intros Hb s.
      destruct (decide (p ∈ products cfg)).
      * destruct (w_orderBooks w !! p); [|done]. injection Hb as <-.
        destruct s; repeat split; simpl; constructor.
      * eapply side_ok_frame; [exact (Hsides p book Hb s)|].
        intros ref _ o Ho. specialize (Hor ref o Ho).
        destruct (decide _); [|exists o; split; [done|apply stableFields_refl]].
        destruct Hor as [t Ht]. exists (with_status cancelled t o).
        split; [done|apply with_status_stable].
Qed.

Lemma onBook_onSomeBook cfg w id :
  books_of_products cfg w ->
  onBook (products cfg) (w_orderBooks w) id <-> onSomeBook (w_orderBooks w) id.
Proof.
  intros Hdom. unfold onBook, onSomeBook. rewrite Exists_exists. split.
  - intros (p & Hp & Hb). destruct (w_orderBooks w !! p) as [book|] eqn:E; [|done].
    by exists p, book.
  - intros (p & book & Hb & Hin). exists p. rewrite Hb. split; [|done].
    apply (elem_of_list_to_set (C := gset string)). rewrite <- Hdom.
    apply elem_of_dom. by eexists.
Qed.

(** X2. [cancelAllOrders(gameId)] empties every book, whatever game its
    orders are of.  The orders it cancels are the ones that were on a book,
    are of the game and were open or partial: they only change status (and
    [updatedAt]); every other order is left as it was, so an order of
    another game leaves the book and stays open.  The players are not
    touched: the cancelled orders stay in their owners' [openOrderIds], and
    cancelling one of them afterwards fails with 'Order already cancelled'.
    The trades are not touched and the books stay in order. *)
Theorem cancelAllOrders_spec clock cfg gameId (w : World) :
  books_of_products cfg w ->
  let w' := cancelAllOrders clock cfg gameId w in
  (forall p, w_orderBooks w' !! p = (fun _ => mkBook [] []) <$> w_orderBooks w !! p)
  /\ (forall id o, w_orders w !! id = Some o ->
        (onSomeBook (w_orderBooks w) id -> o_gameId o = gameId -> isResting o ->
           (exists t, w_orders w' !! id = Some (with_status cancelled t o))
           /\ o_status <$> w_orders w' !! id = Some cancelled
           /\ cancelOrder clock id (o_playerId o) w'
              = Returns (CancelFailed (OrderAlready cancelled), w'))
        /\ (~ (onSomeBook (w_orderBooks w) id /\ o_gameId o = gameId /\ isResting o) ->
            w_orders w' !! id = Some o))
  /\ (forall id, w_orders w !! id = None -> w_orders w' !! id = None)
  /\ w_players w' = w_players w
  /\ w_trades w' = w_trades w
  /\ (book_wf w -> book_wf w').
Proof.
  intros Hdom w'.
  destruct (cancelAllOrders_products clock cfg gameId w)
    as (Hbk & Hor & Hno & Hpl & Htr & Hwf). fold w' in Hbk, Hor, Hno, Hpl, Htr, Hwf.
  split; [|split; [|done]].
  - intros p. rewrite Hbk. destruct (decide (p ∈ products cfg)) as [|Hp]; [done|].
    destruct (w_orderBooks w !! p) as [book|] eqn:E; [|done]. destruct Hp.
    apply (elem_of_list_to_set (C := gset string)). rewrite <- Hdom.
    apply elem_of_dom. by eexists.
  - intros id o Ho. specialize (Hor id o Ho).
    assert (gameResting gameId (w_orders w) id <-> o_gameId o = gameId /\ isResting o)
      as Hgr by (unfold gameResting; by rewrite Ho).
    split.
    + intros Hon Hg Hr. rewrite decide_True in Hor.
      2: { split; [by apply (onBook_onSomeBook cfg)|by apply Hgr]. }
      destruct Hor as [[t Ht] Hc]. split; [by exists t|]. split; [|done].
      by rewrite Ht.
    + intros Hn. rewrite decide_False in Hor; [done|].
      intros [Hon Hg]. apply Hn. split; [by apply (onBook_onSomeBook cfg)|by apply Hgr].
Qed.

Lemma cancelAllOrders_spec_witness :
  w_orderBooks (cancelAllOrders ticking_clock cfg8 game1 w_two_asks) !! "bread"%string
  = Some (mkBook [] [])
  /\ w_players (cancelAllOrders ticking_clock cfg8 game1 w_two_asks) = w_players w_two_asks.
Proof.
  destruct (cancelAllOrders_spec ticking_clock cfg8 game1 w_two_asks)
    as (Hb & _ & _ & Hp & _); [by vm_compute|].
  split; [|exact Hp]. rewrite Hb. by vm_compute.
Defined.

(** After the end of the game of the example session Alice's two asks are
    cancelled and still listed as her open orders. *)
Lemma cancelAllOrders_example :
  let w' := cancelAllOrders ticking_clock cfg8 game1 w_two_asks in
  w_orderBooks w' !! "bread"%string = Some (mkBook [] [])
  /\ o_status <$> w_orders w' !! 100%positive = Some cancelled
  /\ o_status <$> w_orders w' !! 101%positive = Some cancelled
  /\ p_openOrderIds <$> w_players w' !! 10%positive = Some [100%positive; 101%positive].
Proof. by vm_compute. Qed.

(** ** reset *)

(** With no resting order on the opposing side of the book, a submission
    makes no trade. *)
Lemma submitOrder_no_liquidity clock cfg fuel gameId player product side orderType
    quantity price (w w' : World) res :
  (forall book, w_orderBooks w !! product = Some book ->
     Forall (fun r => ~ restingAt (w_orders w) r) (book_side (opposite side) book)) ->
  submitOrder clock cfg fuel gameId player product side orderType quantity price w
  = Returns (res, w') ->
  r_trades res = [].
Proof.
  intros Hempty H.
  apply submitOrder_inv in H as [(e & _ & -> & _)|(pl & trades & w2 & _ & Hpl & Hm & Hr)];
    [done|].
  destruct (new_Order_spec clock gameId (p_playerId pl) (p_name pl) product side orderType
              quantity price w) as (Hid & Ho1 & _ & _ & _ & Hb1 & _).
  cbv zeta in Hid, Ho1, Hb1.
  set (r := new_Order _ _ _ _ _ _ _ _ _ _) in *.
  apply restRemainder_inv in Hr as (-> & _). simpl.
  unfold matchOrder in Hm.
  refine (proj1 (matchLoop_rule clock (fst r) player
           (fun trades w' => trades = [] /\ w_orderBooks w' = w_orderBooks (snd r)
                             /\ w_orders w' = w_orders (snd r))
           _ fuel [] (snd r) trades w2 _ Hm)); [|done].
  intros trades0 w0 inc book oppId opp tr w1 (-> & Hb0 & Ho0) Hinc Hrem Hbook Hbest Hopp
    Hself _ _.
  exfalso. rewrite Hb0, Hb1 in Hbook.
  rewrite Ho0, Hid, Ho1, lookup_insert_eq in Hinc. injection Hinc as <-.
  simpl in Hbook, Hbest, Hself.
  assert (oppId ∈ filter (restingAt (w_orders w0)) (book_side (opposite side) book)) as Hin.
  { unfold bestOpposing, getBestAsk, getBestBid in Hbest. simpl in Hbest.
    destruct side; simpl; apply head_Some_elem_of in Hbest; done. }
  clearbody r.
  apply list_elem_of_filter in Hin as [Hrest Hin].
  specialize (Hempty _ Hbook). rewrite Forall_forall in Hempty.
  apply (Hempty _ Hin). rewrite Ho0, Ho1 in Hopp. unfold restingAt in *.
  rewrite Ho0, Ho1 in Hrest. rewrite lookup_insert in Hopp, Hrest.
  destruct (decide (w_next w = oppId)) as [<-|Hne]; [|done].
  injection Hopp as <-. by simpl in Hself.
Qed.

Lemma reset_books cfg (w : World) p :
  w_orderBooks (reset cfg w) !! p
  = if decide (p ∈ products cfg) then Some (mkBook [] []) else w_orderBooks w !! p.
Proof.
  unfold reset. destruct w as [pl k o t books n tk]. cbn [set_orderBooks w_orderBooks].
  induction (products cfg) as [|q qs IH] using rev_ind.
  - cbn [foldl]. rewrite decide_False; [done|]. apply not_elem_of_nil.
  - rewrite foldl_app. cbn [foldl]. rewrite lookup_insert, IH.
    destruct (decide (q = p)) as [->|Hne].
    + rewrite decide_True; [done|]. apply elem_of_app. right. by left.
    + destruct (decide (p ∈ qs)) as [Hp|Hp].
      * rewrite decide_True; [done|]. apply elem_of_app. by left.
      * rewrite decide_False; [done|]. rewrite elem_of_app, list_elem_of_singleton.
        intros [?|?]; congruence.
Qed.

(** X3. [reset()] gives every product an empty book and touches nothing
    else: the orders that were resting stay as they are in the store (still
    open or partial) and in their owners' [openOrderIds], but they are on no
    book any more, so the next submission, whatever it is, makes no trade. *)
Theorem reset_spec clock cfg (w : World) :
  let w' := reset cfg w in
  (forall p, w_orderBooks w' !! p
             = if decide (p ∈ products cfg) then Some (mkBook [] []) else w_orderBooks w !! p)
  /\ w_orders w' = w_orders w
  /\ w_players w' = w_players w
  /\ w_trades w' = w_trades w
  /\ (forall p, p ∈ products cfg ->
        exists book, w_orderBooks w' !! p = Some book
                     /\ getBestBid (w_orders w') book = None
                     /\ getBestAsk (w_orders w') book = None)
  /\ (forall fuel gameId player product side orderType quantity price res w'',
        submitOrder clock cfg fuel gameId player product side orderType quantity price w'
        = Returns (res, w'') ->
        r_trades res = []).
Proof.
  intros w'. split; [apply reset_books|].
  split; [by destruct w|]. split; [by destruct w|]. split; [by destruct w|]. split.
  - intros p Hp. exists (mkBook [] []). subst w'. rewrite reset_books, decide_True by done.
    done.
  - intros fuel gameId player product side orderType quantity price res w'' H.
    destruct (decide (product ∈ products cfg)) as [Hp|Hp].
    + eapply submitOrder_no_liquidity; [|exact H].
      intros book. subst w'. rewrite reset_books, decide_True by done.
      intros [= <-]. destruct side; constructor.
    + apply submitOrder_inv in H as [(e & _ & -> & _)|(pl & trades & w2 & Hv & _)]; [done|].
      unfold validateOrder in Hv. by rewrite decide_True in Hv.
Qed.

Lemma filledQuantity_snoc o f rem st upd :
  filledQuantity (with_fill f rem st upd o) = filledQuantity o + f_quantity f.
Proof.
  unfold filledQuantity. simpl. rewrite fmap_app, foldr_app. simpl.
  generalize (f_quantity <$> o_fills o). intros l.
  induction l as [|x l IH]; simpl; lia.
Qed.

Lemma Order_filled_ok tid q price t u o :
  order_ok o -> 0 < q <= o_remainingQuantity o ->
  order_ok (Order_filled tid q price t u o).
Proof.
  intros (Hacc & Hpos & Hnn & _) Hq. unfold Order_filled. cbv zeta.
  split; [|split; [|split; [|split; [|split]]]].
  - rewrite filledQuantity_snoc. simpl. lia.
  - simpl. apply Forall_app. split; [done|]. apply Forall_singleton. simpl. lia.
  - simpl. lia.
  - simpl. by destruct (decide _).
  - simpl. destruct (decide _) as [|Hn]; [done|]. intros _.
    split; [lia|]. by destruct (o_fills o).
  - simpl. destruct (decide _) as [Hle|]; [|done]. intros _.
    split; [lia|]. by destruct (o_fills o).
Qed.

Lemma Order_filled_resting tid q price t u o :
  isResting (Order_filled tid q price t u o) ->
  0 < o_remainingQuantity o - q
  /\ o_remainingQuantity (Order_filled tid q price t u o) = o_remainingQuantity o - q
  /\ o_price (Order_filled tid q price t u o) = o_price o.
Proof.
  unfold isResting, Order_filled. cbv zeta. simpl.
  destruct (decide _); [intros [?|?]; done|]. intros _. split; [lia|done].
Qed.

Lemma map_Forall_alter_2 {A : Type} (P : A -> Prop) (f : A -> A) (i : uuid)
    (m : gmap uuid A) :
  map_Forall (fun _ x => P x) m ->
  (forall x, m !! i = Some x -> P (f x)) ->
  map_Forall (fun _ x => P x) (alter f i m).
Proof.
  intros Hm Hf j y. destruct (decide (i = j)) as [->|Hne].
  - rewrite lookup_alter_eq. destruct (m !! j) as [x|] eqn:E; [|done].
    intros [= <-]. by apply Hf.
  - rewrite lookup_alter_ne by done. apply Hm.
Qed.

Lemma validateOrder_positive_price cfg player product side quantity price (w : World) :
  validateOrder cfg player product side limit quantity price w = Returns None ->
  0 < toNum price.
Proof.
  unfold validateOrder. intros H.
  destruct (decide (product ∉ products cfg)); [done|].
  destruct (decide (_ \/ _)); [done|].
  destruct (decide (limit = limit /\ _)) as [|Hn]; [done|].
  destruct (decide (0 < toNum price)) as [|Hle]; [done|].
  destruct Hn. split; [done|]. right. lia.
Qed.

(** One trade of the loop of [matchOrder] keeps the accounts. *)
Lemma accounts_step clock incId pl inc0 trades (w : World) inc book oppId opp t w1 :
  accounts_inv incId inc0 trades w ->
  w_orders w !! incId = Some inc ->
  o_remainingQuantity inc > 0 ->
  w_orderBooks w !! o_product inc = Some book ->
  bestOpposing (w_orders w) inc book = Some oppId ->
  w_orders w !! oppId = Some opp ->
  executeTrade clock incId oppId pl w = Returns (Some t, w1) ->
  accounts_inv incId inc0 (trades ++ [t])
    (set_orderBooks (alter (cleanup (w_orders w1)) (o_product inc)) w1).
Proof.
  intros ([Hok Hpos] & Hnin & (inc' & Hinc' & Hst) & Htr) Hinc Hrem Hbook Hbest Hopp Hex.
  unfold accounts_inv.
  assert (inc' = inc) as -> by congruence.
  rewrite bestOpposing_head in Hbest.
  assert (oppId ∈ filter (restingAt (w_orders w))
                         (book_side (opposite (o_side inc)) book)) as Hin
    by (by apply head_Some_elem_of).
  apply list_elem_of_filter in Hin as [Hrest Hin].
  unfold restingAt in Hrest. rewrite Hopp in Hrest.
  destruct (Hpos _ _ _ _ _ Hbook Hin Hopp Hrest) as [Hrem2 Hprice].
  assert (incId <> oppId) as Hne by (intros ->; by apply (Hnin _ _ _ Hbook) in Hin).
  destruct (executeTrade_inv _ _ _ _ _ _ _ Hex)
    as (inc1 & rst1 & Hinc1 & Hrst1 & Ht & _ & _ & Ho & _ & Hb & _).
  assert (inc1 = inc) as -> by congruence. assert (rst1 = opp) as -> by congruence.
  set (q := Z.min (o_remainingQuantity inc) (o_remainingQuantity opp)) in *.
  assert (0 < q) as Hq by (unfold q; lia).
  assert (forall id o, (id = incId \/ id = oppId) -> w_orders w !! id = Some o ->
            0 < q <= o_remainingQuantity o) as Hqle.
  { intros id o [->| ->] Hl; [assert (o = inc) as -> by congruence
                             |assert (o = opp) as -> by congruence]; unfold q; lia. }
  assert (forall id, id = buyOrderOf inc incId oppId \/ id = sellOrderOf inc incId oppId ->
            id = incId \/ id = oppId) as Hids.
  { unfold buyOrderOf, sellOrderOf. destruct (o_side inc); tauto. }
  assert (buyOrderOf inc incId oppId <> sellOrderOf inc incId oppId) as Hbs.
  { unfold buyOrderOf, sellOrderOf. destruct (o_side inc); congruence. }
  (* the orders after the trade *)
  assert (forall id o1, w_orders w1 !! id = Some o1 ->
            (id <> incId /\ id <> oppId /\ w_orders w !! id = Some o1)
            \/ ((id = incId \/ id = oppId)
                /\ exists o tid p ts u, w_orders w !! id = Some o
                                        /\ o1 = Order_filled tid q p ts u o)) as Hcase.
  { intros id o1. rewrite Ho.
    destruct (decide (id = sellOrderOf inc incId oppId)) as [->|Hn1].
    - rewrite lookup_alter_eq, lookup_alter_ne by done.
      destruct (w_orders w !! sellOrderOf inc incId oppId) as [o|] eqn:E; [|done].
      intros [= <-]. right. split; [apply Hids; by right|]. eauto 10.
    - rewrite lookup_alter_ne by done.
      destruct (decide (id = buyOrderOf inc incId oppId)) as [->|Hn2].
      + rewrite lookup_alter_eq.
        destruct (w_orders w !! buyOrderOf inc incId oppId) as [o|] eqn:E; [|done].
        intros [= <-]. right. split; [apply Hids; by left|]. eauto 10.
      + rewrite lookup_alter_ne by done. intros Hl. left.
        unfold buyOrderOf, sellOrderOf in Hn1, Hn2. destruct (o_side inc); done. }
  set (w2 := set_orderBooks (alter (cleanup (w_orders w1)) (o_product inc)) w1).
  assert (w_orders w2 = w_orders w1) as Eo2 by (by destruct w1).
  assert (forall p b2 s, w_orderBooks w2 !! p = Some b2 ->
            exists b, w_orderBooks w !! p = Some b
                      /\ book_side s b2 `sublist_of` book_side s b) as Hsub.
  { assert (w_orderBooks w2
            = alter (cleanup (w_orders w1)) (o_product inc) (w_orderBooks w1)) as ->
      by (by destruct w1).
    intros p b2 s. rewrite Hb, lookup_alter. destruct (decide (o_product inc = p)) as [<-|Hp].
    - rewrite Hbook. simpl. intros [= <-]. exists book. split; [done|].
      destruct s; apply sublist_filter.
    - intros Hl. by exists b2. }
  split; [split|split; [|split]].
  - (* every order is in balance *)
    rewrite Eo2. intros id o1 Hl.
    destruct (Hcase id o1 Hl) as [(_ & _ & Hl0)|(Hid & o & tid & p & ts & u & Hl0 & ->)].
    + exact (Hok id o1 Hl0).
    + apply Order_filled_ok; [exact (Hok id o Hl0)|by apply (Hqle id)].
  - (* the resting orders *)
    intros p b2 s ref o1 Hb2 Href. rewrite Eo2. intros Hl Hres.
    destruct (Hsub p b2 s Hb2) as (b & Hb0 & Hs).
    assert (ref ∈ book_side s b) as Href0 by (by eapply elem_of_sublist).
    destruct (Hcase ref o1 Hl) as [(_ & _ & Hl0)|([->| ->] & o & tid & pr & ts & u & Hl0 & ->)].
    + exact (Hpos _ _ _ _ _ Hb0 Href0 Hl0 Hres).
    + by apply (Hnin _ _ _ Hb0) in Href0.
    + assert (o = opp) as -> by congruence.
      destruct (Order_filled_resting _ _ _ _ _ _ Hres) as (Hgt & -> & ->). done.
  - intros p b2 s Hb2 Hin2. destruct (Hsub p b2 s Hb2) as (b & Hb0 & Hs).
    apply (Hnin _ _ s Hb0). by eapply elem_of_sublist.
  - rewrite Eo2.
    destruct (w_orders w1 !! incId) as [o1|] eqn:Hl.
    2: { rewrite Ho in Hl. apply eq_None_not_Some in Hl. destruct Hl.
         rewrite !lookup_alter_is_Some. eauto. }
    exists o1. split; [done|].
    destruct (Hcase incId o1 Hl) as [(? & _)|(_ & o & tid & pr & ts & u & Hl0 & ->)]; [done|].
    assert (o = inc) as -> by congruence.
    eapply stableFields_trans; [exact Hst|apply Order_filled_stable].
  - apply Forall_app. split; [done|]. apply Forall_singleton.
    rewrite Ht. unfold trade_ok. simpl. done.
Qed.

(** What the loop of [matchOrder] keeps for the accounts. *)
Lemma matchLoop_accounts clock fuel incId pl (w0 : World) inc0 trades' w' :
  accounts_ok w0 ->
  w_orders w0 !! incId = Some inc0 ->
  (forall p book s, w_orderBooks w0 !! p = Some book -> incId ∉ book_side s book) ->
  matchLoop clock fuel incId pl [] w0 = Returns (trades', w') ->
  accounts_ok w'
  /\ (forall p book s, w_orderBooks w' !! p = Some book -> incId ∉ book_side s book)
  /\ (exists inc', w_orders w' !! incId = Some inc' /\ stableFields inc0 inc')
  /\ Forall trade_ok trades'.
Proof.
  intros Hacc0 Hinc0 Hnin0 H.
  refine (matchLoop_rule clock incId pl (accounts_inv incId inc0) _ fuel [] w0 trades' w' _ H).
  - intros. by eapply accounts_step.
  - split; [done|]. split; [done|]. split; [|constructor].
    exists inc0. split; [done|apply stableFields_refl].
Qed.

Lemma with_limit_price_ok pr o : order_ok o -> order_ok (with_limit_price pr o).
Proof. by intros (? & ? & ? & ? & ? & ?). Qed.

Lemma submitOrder_accounts clock cfg fuel gameId player product side orderType
    quantity price (w w' : World) res :
  book_wf w -> accounts_ok w ->
  submitOrder clock cfg fuel gameId player product side orderType quantity price w
  = Returns (res, w') ->
  accounts_ok w' /\ Forall trade_ok (r_trades res).
Proof.
  intros Hwf Hacc H.
  apply submitOrder_inv in H as [(e & _ & -> & ->)|(pl & trades & w2 & Hv & Hpl & Hm & Hr)].
  { split; [done|constructor]. }
  destruct (new_Order_spec clock gameId (p_playerId pl) (p_name pl) product side orderType
              quantity price w) as (Hid & Ho1 & _ & _ & _ & Hb1 & _).
  cbv zeta in Hid, Ho1, Hb1, Hm, Hr.
  set (r := new_Order _ _ _ _ _ _ _ _ _ _) in *.
  rewrite Hid in Hm, Hr. clearbody r.
  set (o1 := mkOrder (w_next w) gameId (p_playerId pl) (p_name pl) product side orderType
                     quantity quantity price open [] (clock (w_ticks w))
                     (clock (S (w_ticks w)))) in *.
  unfold matchOrder in Hm.
  assert (w_orders (snd r) !! w_next w = Some o1) as Hinc
    by (rewrite Ho1; apply lookup_insert_eq).
  assert (forall p book s, w_orderBooks (snd r) !! p = Some book ->
            w_next w ∉ book_side s book) as Hnin.
  { intros p book s. rewrite Hb1. intros Hb Hin.
    by apply (book_wf_not_fresh w p book s (w_next w) Hwf Hb Hin). }
  assert (accounts_ok (snd r)) as Hacc1.
  { destruct Hacc as [Hok Hpos]. split.
    - rewrite Ho1. apply map_Forall_insert_2; [|done].
      unfold order_ok, filledQuantity. simpl. repeat split; try done; lia.
    - intros p book s ref o. rewrite Hb1, Ho1. intros Hb Hin.
      rewrite lookup_insert_ne; [exact (Hpos p book s ref o Hb Hin)|].
      intros <-. by apply (book_wf_not_fresh w p book s (w_next w) Hwf Hb Hin). }
  destruct (matchLoop_accounts _ _ _ _ _ _ _ _ Hacc1 Hinc Hnin Hm)
    as ([Hok2 Hpos2] & Hnin2 & (inc2 & Hinc2 & Hst) & Htr).
  apply restRemainder_inv in Hr as (-> & o & Ho & [[Hn ->]|(Hrem & book & Hbook & Hw')]).
  { split; [by split|done]. }
  split; [|done]. cbv zeta in Hw'. destruct Hw' as (Hos & Hbs & _).
  assert (o = inc2) as -> by congruence.
  destruct Hst as (_ & _ & _ & Hside & Hty & Hpr & _). simpl in Hside, Hty, Hpr.
  set (orders' := match orderType with
                  | limit => w_orders w2
                  | market => alter (with_limit_price
                                       (match side with buy => 999999 | sell => 1 end))
                                    (w_next w) (w_orders w2)
                  end) in *.
  assert (exists o', orders' !! w_next w = Some o'
                     /\ o_remainingQuantity o' = o_remainingQuantity inc2
                     /\ o_side o' = side /\ 0 < toNum (o_price o')) as (o' & Ho' & Hr' & Hs' & Hp').
  { subst orders'. destruct orderType.
    - exists inc2. repeat split; try done. rewrite Hpr.
      by eapply validateOrder_positive_price.
    - eexists. rewrite lookup_alter_eq, Hinc2. simpl. repeat split; try done.
      by destruct side. }
  assert (forall id, id <> w_next w -> orders' !! id = w_orders w2 !! id) as Hoth.
  { intros id Hne. subst orders'. destruct orderType; [done|by rewrite lookup_alter_ne]. }
  split.
  - rewrite Hos. subst orders'. destruct orderType; [done|].
    apply map_Forall_alter_2; [done|]. intros x Hx. apply with_limit_price_ok.
    exact (Hok2 _ _ Hx).
  - intros p b s ref ox. rewrite Hos, Hbs, lookup_insert.
    destruct (decide (product = p)) as [<-|Hp].
    + intros [= <-]. rewrite (OrderBook_addOrder_side _ _ _ _ _ Ho'), Hs'.
      destruct (decide (ref = w_next w)) as [->|Hne].
      * intros _. rewrite Ho'. intros [= <-] _. lia.
      * intros Hin. rewrite (Hoth _ Hne). apply (Hpos2 product book s); [done|].
        destruct (decide (s = side)); [|done].
        rewrite js_sort_perm in Hin. apply elem_of_app in Hin as [?|Hin]; [done|].
        by apply list_elem_of_singleton in Hin.
    + intros Hb Hin.
      assert (ref <> w_next w) as Hne by (intros ->; by apply (Hnin2 _ _ _ Hb) in Hin).
      rewrite (Hoth _ Hne). exact (Hpos2 p b s ref ox Hb Hin).
Qed.

Lemma cancelOrder_accounts clock orderId playerId (w w' : World) res :
  accounts_ok w -> cancelOrder clock orderId playerId w = Returns (res, w') ->
  accounts_ok w'.
Proof.
  intros [Hok Hpos] H.
  apply cancelOrder_cases in H as [(-> & _)|(_ & _ & o & book & Ho & Hbook & _ & Ho1 & Hb1 & _)];
    [done|].
  split.
  - rewrite Ho1. apply map_Forall_alter_2; [done|]. intros x Hx.
    destruct (Hok _ _ Hx) as (? & ? & ? & _). by repeat split.
  - intros p b s ref ox. rewrite Ho1, Hb1, lookup_insert.
    destruct (decide (ref = orderId)) as [->|Hne].
    { intros _ _. rewrite lookup_alter_eq, Ho. intros [= <-] [?|?]; done. }
    rewrite lookup_alter_ne by done.
    destruct (decide (o_product o = p)) as [<-|Hp].
    + intros [= <-] Hin. apply (Hpos _ _ s _ _ Hbook).
      destruct s; simpl in *; by apply list_elem_of_filter in Hin as [_ ?].
    + intros Hb Hin. exact (Hpos p b s ref ox Hb Hin).
Qed.

(** X4. The accounts of the orders are an invariant of the engine.  From a
    new engine on, through every submission and cancellation that returns:
    the remaining quantity of an order is its quantity less the sum of its
    fills, every fill and every trade is of a positive quantity, an open
    order has no fill, a partial one has something left and a filled one
    nothing, no order is filled beyond its quantity, and an order that rests
    on a book has something left and a positive price.  The value of a trade
    is its quantity times its price. *)
Theorem order_accounts clock cfg :
  (forall w, w_orders w = ∅ -> w_orderBooks w = new_orderBooks cfg -> accounts_ok w)
  /\ (forall fuel gameId player product side orderType quantity price w w' res,
        book_wf w -> accounts_ok w ->
        submitOrder clock cfg fuel gameId player product side orderType quantity price w
        = Returns (res, w') ->
        accounts_ok w' /\ Forall trade_ok (r_trades res))
  /\ (forall orderId playerId w w' res,
        accounts_ok w -> cancelOrder clock orderId playerId w = Returns (res, w') ->
        accounts_ok w').
Proof.
  split; [|split].
  - intros w Ho Hb. split.
    + rewrite Ho. apply map_Forall_empty.
    + intros p book s ref o. rewrite Ho, lookup_empty. done.
  - intros *. apply submitOrder_accounts.
  - intros *. apply cancelOrder_accounts.
Qed.

Lemma estimateLoop_cost asks rem cost :
  estimateLoop asks rem cost
  = (fst (estimateLoop asks rem 0), cost + snd (estimateLoop asks rem 0)).
Proof.
  revert rem cost. induction asks as [|a asks IH]; intros rem cost; simpl.
  - f_equal. lia.
  - destruct (decide (rem <= 0)); simpl; [f_equal; lia|].
    rewrite IH. rewrite (IH _ (0 + _)). simpl. f_equal. lia.
Qed.

Lemma estimateOver_done asks rem : rem <= 0 -> estimateOver asks rem = 0.
Proof.
  intros Hrem. unfold estimateOver. destruct asks as [|a asks]; simpl.
  - by rewrite decide_False by lia.
  - rewrite decide_True by done. by rewrite decide_False by lia.
Qed.

Lemma estimateOver_cons a asks rem :
  rem > 0 ->
  estimateOver (a :: asks) rem
  = Z.min rem (o_remainingQuantity a) * toNum (o_price a)
    + estimateOver asks (rem - Z.min rem (o_remainingQuantity a)).
Proof.
  intros Hrem. unfold estimateOver. simpl. rewrite decide_False by lia.
  rewrite estimateLoop_cost.
  destruct (estimateLoop asks _ 0) as [r c]. simpl.
  destruct (decide (r > 0)); lia.
Qed.

Lemma estimateOver_nonneg asks rem :
  Forall (fun a => 0 <= o_remainingQuantity a /\ 0 <= toNum (o_price a)) asks ->
  0 <= estimateOver asks rem.
Proof.
  intros Hall. revert rem. induction Hall as [|a asks [Ha1 Ha2] _ IH]; intros rem.
  - unfold estimateOver. simpl. destruct (decide (rem > 0)); lia.
  - destruct (decide (rem > 0)) as [Hrem|Hrem].
    + rewrite estimateOver_cons by done. specialize (IH (rem - Z.min rem (o_remainingQuantity a))).
      nia.
    + rewrite estimateOver_done by lia. done.
Qed.


Lemma tradedQuantity_snoc trades t :
  tradedQuantity (trades ++ [t]) = tradedQuantity trades + t_quantity t.
Proof.
  unfold tradedQuantity. rewrite fmap_app, foldr_app. simpl.
  generalize (t_quantity <$> trades). intros l. induction l as [|x l IH]; simpl; lia.
Qed.


Lemma estimateMarketBuyCost_over product quantity (w : World) book :
  w_orderBooks w !! product = Some book ->
  estimateMarketBuyCost product quantity w
  = Returns (estimateOver (omap (fun ref => w_orders w !! ref)
                                (filter (restingAt (w_orders w)) (asks book))) quantity).
Proof.
  intros Hb. unfold estimateMarketBuyCost, estimateOver. rewrite Hb.
  by destruct (estimateLoop _ _ _).
Qed.

Lemma omap_ext_in {A B : Type} (f g : A -> option B) (l : list A) :
  (forall x, x ∈ l -> f x = g x) -> omap f l = omap g l.
Proof.
  induction l as [|x l IH]; intros Hfg; [done|].
  change (omap f (x :: l)) with (match f x with Some y => y :: omap f l | None => omap f l end).
  change (omap g (x :: l)) with (match g x with Some y => y :: omap g l | None => omap g l end).
  rewrite (Hfg x) by (by left). rewrite IH; [done|]. intros y Hy. apply Hfg. by right.
Qed.



Lemma tradedQuantity_nonneg trades : Forall trade_ok trades -> 0 <= tradedQuantity trades.
Proof.
  induction 1 as [|t trades [Hq _] _ IH]; [done|].
  change (tradedQuantity (t :: trades)) with (t_quantity t + tradedQuantity trades). lia.
Qed.


(** What the incoming order trades and what is left of it add up to what it
    came with. *)
Lemma matchLoop_quantities clock fuel incId pl (w1 : World) inc0 trades' w' :
  w_orders w1 !! incId = Some inc0 ->
  matchLoop clock fuel incId pl [] w1 = Returns (trades', w') ->
  exists inc',
    w_orders w' !! incId = Some inc'
    /\ tradedQuantity trades' + o_remainingQuantity inc' = o_remainingQuantity inc0
    /\ (0 <= o_remainingQuantity inc0 -> 0 <= o_remainingQuantity inc').
Proof.
  intros Hinc0 H.
  refine (matchLoop_rule clock incId pl
            (fun trades w =>
               exists inc',
                 w_orders w !! incId = Some inc'
                 /\ tradedQuantity trades + o_remainingQuantity inc' = o_remainingQuantity inc0
                 /\ (0 <= o_remainingQuantity inc0 -> 0 <= o_remainingQuantity inc'))
            _ fuel [] w1 trades' w' _ H).
  2: { exists inc0. by repeat split. }
  clear H trades' w'.
  intros trades w inc book oppId opp t w2 (inc' & Hinc' & Hqty & Hnn)
         Hinc Hrem Hbook Hbest Hopp Hself _ Hex.
  assert (inc' = inc) as -> by congruence.
  assert (incId <> oppId) as Hne by (intros ->; congruence).
  destruct (executeTrade_inv _ _ _ _ _ _ _ Hex)
    as (inc1 & rst1 & Hinc1 & Hrst1 & Ht & _ & _ & Ho & _).
  assert (inc1 = inc) as -> by congruence. assert (rst1 = opp) as -> by congruence.
  cbv zeta in Ht, Ho.
  set (q := Z.min (o_remainingQuantity inc) (o_remainingQuantity opp)) in *.
  assert (exists ts u, w_orders w2 !! incId
                       = Some (Order_filled (w_next w) q (o_price opp) ts u inc))
    as (ts & u & Hinc2).
  { rewrite Ho. unfold buyOrderOf, sellOrderOf. destruct (o_side inc).
    - rewrite lookup_alter_ne, lookup_alter_eq, Hinc by done. eauto.
    - rewrite lookup_alter_eq, lookup_alter_ne, Hinc by done. eauto. }
  exists (Order_filled (w_next w) q (o_price opp) ts u inc).
  split; [by destruct w2|].
  rewrite tradedQuantity_snoc, Ht. unfold Order_filled. simpl. unfold q. split; lia.
Qed.

(** What is left of an accepted order when [submitOrder] returns. *)
Lemma submitOrder_remaining clock cfg fuel gameId player product side orderType
    quantity price (w w' : World) res order o' :
  submitOrder clock cfg fuel gameId player product side orderType quantity price w
  = Returns (res, w') ->
  r_order res = Some order -> w_orders w' !! order = Some o' ->
  o_remainingQuantity o' = quantity - tradedQuantity (r_trades res)
  /\ (0 <= quantity -> 0 <= o_remainingQuantity o').
Proof.
  intros H Hord Ho'.
  apply submitOrder_inv in H as [(e & _ & -> & _)|(pl & trades & w2 & _ & Hpl & Hm & Hr)];
    [done|].
  destruct (new_Order_spec clock gameId (p_playerId pl) (p_name pl) product side orderType
              quantity price w) as (Hid & Ho1 & _).
  cbv zeta in Hid, Ho1, Hm, Hr.
  set (r := new_Order _ _ _ _ _ _ _ _ _ _) in *.
  rewrite Hid in Hm, Hr. clearbody r. unfold matchOrder in Hm.
  edestruct (matchLoop_quantities clock fuel (w_next w) player (snd r)) as (inc2 & Hinc2 & Hqty & Hnn);
    [rewrite Ho1; apply lookup_insert_eq|exact Hm|].
  simpl in Hqty, Hnn.
  apply restRemainder_inv in Hr as (-> & o & Ho & Hw'). simpl in Hord. injection Hord as <-.
  simpl. assert (o = inc2) as -> by congruence.
  assert (o_remainingQuantity o' = o_remainingQuantity inc2) as ->; [|split; lia].
  destruct Hw' as [[_ ->]|(_ & book & _ & Hw')]; [congruence|].
  cbv zeta in Hw'. destruct Hw' as (Hos & _). rewrite Hos in Ho'.
  destruct orderType; [congruence|].
  rewrite lookup_alter_eq, Hinc2 in Ho'. by injection Ho' as <-.
Qed.


(** The worlds of the example session keep their accounts. *)
Lemma accounts_ok_w0 : accounts_ok w0.
Proof. by apply (proj1 (order_accounts ticking_clock cfg8)). Qed.

Lemma accounts_ok_world_of clock fuel gameId player product side orderType quantity price w :
  book_wf w -> accounts_ok w ->
  accounts_ok (world_of (submitOrder clock cfg8 fuel gameId player product side orderType
                                     quantity price w)).
Proof.
  intros Hwf Hacc.
  destruct (submitOrder _ _ _ _ _ _ _ _ _ _ _) as [[r w']| |] eqn:E; simpl;
    [by eapply submitOrder_accounts|apply accounts_ok_w0..].
Qed.

Lemma accounts_ok_w_tied : accounts_ok w_tied.
Proof.
  apply accounts_ok_world_of; [apply book_wf_world_of, book_wf_w0|].
  apply accounts_ok_world_of; [apply book_wf_w0|apply accounts_ok_w0].
Qed.


Lemma matchLoop_within_limit clock fuel incId pl (w1 : World) inc0 trades' w' :
  w_orders w1 !! incId = Some inc0 ->
  o_orderType inc0 = limit ->
  matchLoop clock fuel incId pl [] w1 = Returns (trades', w') ->
  Forall (within_limit (o_side inc0) (o_price inc0)) trades'.
Proof.
  intros Hinc0 Hlim H.
  refine (proj1 (matchLoop_rule clock incId pl
            (fun trades w =>
               Forall (within_limit (o_side inc0) (o_price inc0)) trades
               /\ exists inc', w_orders w !! incId = Some inc' /\ stableFields inc0 inc')
            _ fuel [] w1 trades' w' _ H)).
  2: { split; [constructor|]. exists inc0. split; [done|apply stableFields_refl]. }
  clear H trades' w'.
  intros trades w inc book oppId opp t w2 (Hall & inc' & Hinc' & Hst)
         Hinc Hrem Hbook Hbest Hopp Hself [Hc1 Hc2] Hex.
  assert (inc' = inc) as -> by congruence.
  assert (incId <> oppId) as Hne by (intros ->; congruence).
  destruct (executeTrade_inv _ _ _ _ _ _ _ Hex)
    as (inc1 & rst1 & Hinc1 & Hrst1 & Ht & _ & _ & Ho & _).
  assert (inc1 = inc) as -> by congruence. assert (rst1 = opp) as -> by congruence.
  cbv zeta in Ht, Ho. split.
  - apply Forall_app. split; [done|]. apply Forall_singleton.
    destruct Hst as (_ & _ & _ & Hside & Hty & Hprice & _).
    rewrite Ht. unfold within_limit. rewrite <- Hside, <- Hprice. simpl.
    rewrite <- Hty in Hlim. destruct (o_side inc) eqn:Hs.
    + destruct (decide (toNum (o_price opp) <= toNum (o_price inc))); [done|].
      destruct Hc1. repeat split; [done..|lia].
    + destruct (decide (toNum (o_price inc) <= toNum (o_price opp))); [done|].
      destruct Hc2. repeat split; [done..|lia].
  - assert (exists ts u q, w_orders w2 !! incId
                           = Some (Order_filled (w_next w) q (o_price opp) ts u inc))
      as (ts & u & q & Hinc2).
    { rewrite Ho. unfold buyOrderOf, sellOrderOf. destruct (o_side inc).
      - rewrite lookup_alter_ne, lookup_alter_eq, Hinc by done. eauto.
      - rewrite lookup_alter_eq, lookup_alter_ne, Hinc by done. eauto. }
    eexists. split; [by destruct w2|].
    apply (stableFields_trans inc0 inc); [done|apply Order_filled_stable].
Qed.

Lemma validateOrder_sell cfg player pl product orderType quantity price (w : World) :
  w_players w !! player = Some pl ->
  validateOrder cfg player product sell orderType quantity price w = Returns None ->
  quantity <= inventoryOf (p_inventory pl) product.
Proof.
  intros Hpl Hv. unfold validateOrder in Hv.
  destruct (decide (product ∉ products cfg)); [done|].
  destruct (decide (_ \/ _)); [done|].
  destruct (decide (orderType = limit /\ _)) as [|Hn]; [done|].
  rewrite Hpl in Hv. destruct (decide (_ < quantity)); [done|lia].
Qed.

(** X6. The limit of an accepted limit order is honoured by every trade it
    makes on submission: a buy never pays more than its price and a sell
    never receives less.  An accepted order, limit or market, never trades
    more than its quantity, what is left of it is its quantity less what it
    traded, and a sell order never sells more than its submitter held when
    it was validated. *)
Theorem limit_and_quantity_honoured clock cfg fuel gameId player pl product side orderType
    quantity price (w w' : World) res :
  book_wf w -> accounts_ok w -> 0 <= quantity ->
  w_players w !! player = Some pl ->
  submitOrder clock cfg fuel gameId player product side orderType quantity price w
  = Returns (res, w') ->
  r_errors res = [] ->
  (orderType = limit -> Forall (within_limit side price) (r_trades res))
  /\ 0 <= tradedQuantity (r_trades res) <= quantity
  /\ (side = sell -> tradedQuantity (r_trades res) <= inventoryOf (p_inventory pl) product)
  /\ (forall order o', r_order res = Some order -> w_orders w' !! order = Some o' ->
        o_remainingQuantity o' = quantity - tradedQuantity (r_trades res)
        /\ 0 <= o_remainingQuantity o').
Proof.
  intros Hwf Hacc Hq Hpl H Herr.
  destruct (submitOrder_accounts _ _ _ _ _ _ _ _ _ _ _ _ _ Hwf Hacc H) as [_ Htok].
  pose proof (tradedQuantity_nonneg _ Htok) as Hqn.
  pose proof (fun order o' => submitOrder_remaining _ _ _ _ _ _ _ _ _ _ _ _ _ order o' H)
    as Hleft.
  apply submitOrder_inv in H as [(e & _ & -> & _)|(pl' & trades & w2 & Hv & Hpl' & Hm & Hr)];
    [done|].
  assert (pl' = pl) as -> by congruence.
  destruct (new_Order_spec clock gameId (p_playerId pl) (p_name pl) product side orderType
              quantity price w) as (Hid & Ho1 & _).
  cbv zeta in Hid, Ho1, Hm, Hr.
  set (r := new_Order _ _ _ _ _ _ _ _ _ _) in *.
  rewrite Hid in Hm, Hr. clearbody r. unfold matchOrder in Hm.
  assert (w_orders (snd r) !! w_next w = Some
            (mkOrder (w_next w) gameId (p_playerId pl) (p_name pl) product side orderType
                     quantity quantity price open [] (clock (w_ticks w))
                     (clock (S (w_ticks w))))) as Hinc
    by (rewrite Ho1; apply lookup_insert_eq).
  destruct (matchLoop_quantities _ _ _ _ _ _ _ _ Hinc Hm) as (inc2 & Hinc2 & Hqty & Hnn).
  simpl in Hqty, Hnn. specialize (Hnn Hq).
  pose proof (restRemainder_inv _ _ _ _ _ _ _ _ _ Hr) as (-> & _). simpl in *.
  split; [|split; [lia|split]].
  - intros ->. by apply (matchLoop_within_limit _ _ _ _ _ _ _ _ Hinc eq_refl Hm).
  - intros ->. pose proof (validateOrder_sell _ _ _ _ _ _ _ _ Hpl Hv). lia.
  - intros order o' Hord Ho'. destruct (Hleft order o' Hord Ho') as [Hl Hl2].
    split; [done|by apply Hl2].
Qed.

Lemma limit_and_quantity_honoured_witness :
  exists res w',
    submitOrder frozen_clock cfg8 10 game1 11%positive "bread" buy limit 4 (Some 2) w_tied
    = Returns (res, w')
    /\ Forall (within_limit buy (Some 2)) (r_trades res)
    /\ 0 <= tradedQuantity (r_trades res) <= 4.
Proof.
  destruct (submitOrder frozen_clock cfg8 10 game1 11%positive "bread" buy limit 4 (Some 2)
                        w_tied) as [[res w']| |] eqn:E;
    [|vm_compute in E; discriminate..].
  destruct (limit_and_quantity_honoured frozen_clock cfg8 10 game1 11%positive bob "bread"
              buy limit 4 (Some 2) w_tied w' res book_wf_w_tied accounts_ok_w_tied)
    as (Hlim & Hqty & _); [lia|by vm_compute|exact E| |].
  - vm_compute in E. injection E as <- _. reflexivity.
  - exists res, w'. split; [reflexivity|]. split; [exact (Hlim eq_refl)|exact Hqty].
Defined.

(** ** estimateMarketBuyCost *)

Lemma estimateOver_mono asks rem rem' :
  Forall (fun a => 0 <= o_remainingQuantity a /\ 0 <= toNum (o_price a)) asks ->
  rem <= rem' -> estimateOver asks rem <= estimateOver asks rem'.
Proof.
  intros Hall. revert rem rem'.
  induction Hall as [|a asks [Ha1 Ha2] Hall IH]; intros rem rem' Hle.
  - unfold estimateOver. simpl. destruct (decide (rem > 0)), (decide (rem' > 0)); lia.
  - destruct (decide (rem > 0)) as [Hrem|Hrem].
    + rewrite !estimateOver_cons by lia.
      specialize (IH (rem - Z.min rem (o_remainingQuantity a))
                     (rem' - Z.min rem' (o_remainingQuantity a))).
      assert (Z.min rem (o_remainingQuantity a) <= Z.min rem' (o_remainingQuantity a)) by lia.
      assert (estimateOver asks (rem - Z.min rem (o_remainingQuantity a))
              <= estimateOver asks (rem' - Z.min rem' (o_remainingQuantity a)))
        by (apply IH; lia).
      nia.
    + rewrite (estimateOver_done _ rem) by lia.
      apply estimateOver_nonneg. by constructor.
Qed.

(** X7. [estimateMarketBuyCost(product, quantity)] throws on a product that
    has no book; is 0 for a quantity that is not positive; is 100 a unit when
    no ask is resting; and, when the accounts of the engine are in order, is
    never negative and never smaller for a larger quantity. *)
Theorem estimateMarketBuyCost_edges product (w : World) :
  (w_orderBooks w !! product = None ->
     forall quantity, estimateMarketBuyCost product quantity w = Throws)
  /\ (forall book, w_orderBooks w !! product = Some book ->
        (forall quantity, quantity <= 0 ->
           estimateMarketBuyCost product quantity w = Returns 0)
        /\ (forall quantity, getBestAsk (w_orders w) book = None -> 0 < quantity ->
              estimateMarketBuyCost product quantity w = Returns (quantity * 100))
        /\ (accounts_ok w ->
            forall q1 q2, q1 <= q2 ->
              exists e1 e2, estimateMarketBuyCost product q1 w = Returns e1
                            /\ estimateMarketBuyCost product q2 w = Returns e2
                            /\ 0 <= e1 <= e2)).
Proof.
  split.
  - intros Hb quantity. unfold estimateMarketBuyCost. by rewrite Hb.
  - intros book Hb. split; [|split].
    + intros quantity Hq. rewrite (estimateMarketBuyCost_over _ _ _ _ Hb).
      by rewrite estimateOver_done.
    + intros quantity Hbest Hq. rewrite (estimateMarketBuyCost_over _ _ _ _ Hb).
      unfold getBestAsk in Hbest. apply head_None in Hbest. rewrite Hbest.
      unfold estimateOver. simpl. rewrite decide_True by lia. f_equal.
    + intros [_ Hpos] q1 q2 Hle. rewrite !(estimateMarketBuyCost_over _ _ _ _ Hb).
      eexists _, _. split; [done|]. split; [done|].
      assert (Forall (fun a => 0 <= o_remainingQuantity a /\ 0 <= toNum (o_price a))
                     (omap (fun ref => w_orders w !! ref)
                           (filter (restingAt (w_orders w)) (asks book)))) as Hall.
      { apply Forall_forall. intros o Ho.
        apply list_elem_of_omap in Ho as (ref & Href & Ho).
        apply list_elem_of_filter in Href as [Hres Hin].
        unfold restingAt in Hres. rewrite Ho in Hres.
        destruct (Hpos product book sell ref o Hb Hin Ho Hres). lia. }
      split; [by apply estimateOver_nonneg|by apply estimateOver_mono].
Qed.

(** ** OrderBook: adding and removing *)

Lemma filter_ne_not_in (x : uuid) (l : list uuid) :
  x ∉ l -> filter (fun y => y ≠ x) l = l.
Proof.
  intros Hx. apply filter_all. apply Forall_forall. intros y Hy ->. done.
Qed.

Lemma OrderBook_add_remove h book ref o :
  h !! ref = Some o -> limitAt h ref ->
  side_ok h (o_side o) (book_side (o_side o) book) ->
  ref ∉ bids book -> ref ∉ asks book ->
  OrderBook_removeOrder ref (OrderBook_addOrder h ref book) = book.
Proof.
  intros Ho Hlim Hok Hb Ha.
  destruct (addOrder_position h (o_side o) _ ref Hok Hlim) as (l1 & l2 & Hl & Hs & _).
  assert (ref ∉ l1 ++ l2) as Hnin by (rewrite <- Hl; by destruct (o_side o)).
  assert (filter (fun y => y ≠ ref) (l1 ++ ref :: l2) = l1 ++ l2) as Hf.
  { apply not_elem_of_app in Hnin as [H1 H2].
    rewrite filter_app, filter_cons_False by (intros Hn; by apply Hn).
    by rewrite !filter_ne_not_in. }
  unfold OrderBook_addOrder, OrderBook_removeOrder. rewrite Ho. simpl.
  destruct book as [bs als]. destruct (o_side o); simpl in *.
  - rewrite Hs, Hf, <- Hl. by rewrite filter_ne_not_in.
  - rewrite Hs, Hf, <- Hl. by rewrite filter_ne_not_in.
Qed.

(** A run of the loop that makes no trade leaves the world as it was. *)
Lemma matchLoop_no_trade clock fuel incId pl (w1 : World) w' :
  matchLoop clock fuel incId pl [] w1 = Returns ([], w') -> w' = w1.
Proof.
  intros H.
  refine (matchLoop_rule clock incId pl (fun trades w => trades = [] -> w = w1)
            _ fuel [] w1 [] w' _ H eq_refl); [|done].
  intros trades w inc book oppId opp t w2 _ _ _ _ _ _ _ _ _ Hnil.
  by destruct trades.
Qed.

(** X8. A submission that is accepted and makes no trade rests (its
    quantity being positive), and when its owner cancels it the books, the
    players (cash, inventory, open orders) and the trades are again what they
    were before the submission: only the cancelled order stays behind in the
    store. *)
Theorem submit_then_cancel clock cfg fuel gameId player pl product side orderType
    quantity price (w w1 : World) res :
  book_wf w -> 0 < quantity ->
  w_players w !! player = Some pl -> p_playerId pl = player ->
  w_next w ∉ p_openOrderIds pl ->
  submitOrder clock cfg fuel gameId player product side orderType quantity price w
  = Returns (res, w1) ->
  r_errors res = [] -> r_trades res = [] ->
  exists order w2,
    r_order res = Some order
    /\ cancelOrder clock order player w1 = Returns (CancelOk order, w2)
    /\ w_orderBooks w2 = w_orderBooks w
    /\ w_players w2 = w_players w
    /\ w_trades w2 = w_trades w
    /\ o_status <$> w_orders w2 !! order = Some cancelled
    /\ forall id, id <> order -> w_orders w2 !! id = w_orders w !! id.
Proof.
  intros Hwf Hq Hpl Hid Hfresh H Herr Htr.
  apply submitOrder_inv in H as [(e & _ & -> & _)|(pl' & trades & w2 & Hv & Hpl' & Hm & Hr)];
    [done|].
  assert (pl' = pl) as -> by congruence.
  destruct (new_Order_spec clock gameId (p_playerId pl) (p_name pl) product side orderType
              quantity price w) as (Hnid & Ho1 & Hp1 & _ & Ht1 & Hb1 & _).
  cbv zeta in Hnid, Ho1, Hp1, Ht1, Hb1, Hm, Hr.
  set (r := new_Order _ _ _ _ _ _ _ _ _ _) in *.
  rewrite Hnid in Hm, Hr. clearbody r.
  set (o1 := mkOrder (w_next w) gameId (p_playerId pl) (p_name pl) product side orderType
                     quantity quantity price open [] (clock (w_ticks w))
                     (clock (S (w_ticks w)))) in *.
  pose proof (restRemainder_inv _ _ _ _ _ _ _ _ _ Hr) as (-> & o & Ho & Hw1).
  simpl in Htr. subst trades. unfold matchOrder in Hm.
  apply matchLoop_no_trade in Hm as ->.
  rewrite Ho1, lookup_insert_eq in Ho. injection Ho as <-.
  destruct Hw1 as [[Hn _]|(_ & book & Hbook & Hw1)]; [simpl in Hn; lia|].
  cbv zeta in Hw1. destruct Hw1 as (Hos & Hbs & Hps & _ & Hts & _).
  rewrite Hb1 in Hbook, Hbs. rewrite Hp1 in Hps. rewrite Ht1 in Hts.
  set (orders' := match orderType with
                  | limit => w_orders (snd r)
                  | market => alter (with_limit_price
                                       (match side with buy => 999999 | sell => 1 end))
                                    (w_next w) (w_orders (snd r))
                  end) in *.
  assert (w_orders w !! w_next w = None) as Hnone by (by apply book_wf_fresh).
  assert (exists o', orders' !! w_next w = Some o' /\ o_playerId o' = player
                     /\ o_status o' = open /\ o_product o' = product /\ o_side o' = side
                     /\ o_orderType o' = limit /\ is_Some (o_price o'))
    as (o' & Ho' & Hown & Hst & Hprod & Hside & Hty & Hpr).
  { subst orders'. destruct orderType.
    - exists o1. rewrite Ho1, lookup_insert_eq.
      do 6 (split; [done|]). simpl. by eapply validateOrder_limit_priced.
    - eexists. rewrite lookup_alter_eq, Ho1, lookup_insert_eq. simpl.
      do 6 (split; [done|]). simpl. by destruct side. }
  assert (forall id, id <> w_next w -> orders' !! id = w_orders w !! id) as Hoth.
  { intros id Hne. subst orders'. destruct orderType;
      rewrite ?lookup_alter_ne by done; rewrite Ho1; by apply lookup_insert_ne. }
  assert (OrderBook_removeOrder (w_next w) (OrderBook_addOrder orders' (w_next w) book)
          = book) as Hround.
  { destruct Hwf as [Hfr Hsides].
    apply (OrderBook_add_remove orders' book (w_next w) o' Ho').
    - exists o'. repeat split; done.
    - eapply side_ok_frame; [exact (Hsides product book Hbook (o_side o'))|].
      intros ref Href x Hx. exists x. split; [|apply stableFields_refl].
      rewrite Hoth; [done|]. intros ->. congruence.
    - intros Hin. by apply (book_wf_not_fresh w product book buy (w_next w) (conj Hfr Hsides)).
    - intros Hin. by apply (book_wf_not_fresh w product book sell (w_next w) (conj Hfr Hsides)). }
  exists (w_next w).
  exists (set_players (alter (Player_removeOrder (w_next w)) player)
            (Order_cancel clock (w_next w)
               (set_orderBooks
                  (insert product (OrderBook_removeOrder (w_next w)
                                     (OrderBook_addOrder orders' (w_next w) book))) w1))).
  split; [done|]. split.
  { unfold cancelOrder. rewrite Hos, Ho'. cbv beta iota.
    rewrite decide_False by (intros Hne; by apply Hne).
    rewrite decide_False by (rewrite Hst; intros [?|?]; done).
    by rewrite Hprod, Hbs, lookup_insert_eq. }
  destruct w1 as [players1 keys1 orders1 trades1 books1 next1 ticks1].
  simpl in Hos, Hbs, Hps, Hts. subst orders1 books1 players1 trades1. simpl.
  split; [|split; [|split; [done|split]]].
  - rewrite Hround, insert_insert_eq. by apply insert_id.
  - rewrite alter_alter_eq. apply alter_id. intros x Hx.
    assert (x = pl) as -> by congruence.
    cbv [compose]. unfold Player_addOrder. rewrite decide_False by done.
    unfold Player_removeOrder, with_openOrderIds. simpl.
    rewrite filter_app, filter_ne_not_in by done.
    rewrite filter_cons_False by (intros Hn; by apply Hn). rewrite filter_nil, app_nil_r.
    by destruct pl.
  - by rewrite lookup_alter_eq, Ho'.
  - intros id Hne. rewrite lookup_alter_ne by done. by apply Hoth.
Qed.

Lemma submit_then_cancel_witness :
  exists order w1 w2 res,
    submitOrder ticking_clock cfg8 10 game1 10%positive "bread" sell limit 1 (Some 3) w0
    = Returns (res, w1)
    /\ cancelOrder ticking_clock order 10%positive w1 = Returns (CancelOk order, w2)
    /\ w_orderBooks w2 = w_orderBooks w0
    /\ w_players w2 = w_players w0.
Proof.
  destruct (submitOrder ticking_clock cfg8 10 game1 10%positive "bread" sell limit 1 (Some 3) w0)
    as [[res w1]| |] eqn:E; [|vm_compute in E; discriminate..].
  destruct (submit_then_cancel ticking_clock cfg8 10 game1 10%positive alice "bread" sell limit
              1 (Some 3) w0 w1 res book_wf_w0)
    as (order & w2 & _ & Hc & Hb & Hp & _);
    [lia|reflexivity|reflexivity|apply not_elem_of_nil|exact E| | |].
  - vm_compute in E. injection E as <- _. reflexivity.
  - vm_compute in E. injection E as <- _. reflexivity.
  - exists order, w1, w2, res. split; [reflexivity|]. split; [exact Hc|].
    split; [exact Hb|exact Hp].
Defined.

Lemma level_add_new sn o levels :
  o_price o ∉ l_price <$> levels ->
  level_add sn o levels
  = levels ++ [mkLevel (o_price o) (0 + o_remainingQuantity o) [toOrderBookJSON sn o]].
Proof.
  induction levels as [|l levels IH]; intros Hnin; [done|]. simpl.
  rewrite fmap_cons in Hnin. apply not_elem_of_cons in Hnin as [Hne Hnin].
  rewrite decide_False by done. by rewrite IH.
Qed.

Lemma level_add_bump sn o levels :
  NoDup (l_price <$> levels) -> o_price o ∈ l_price <$> levels ->
  level_add sn o levels
  = (fun l => if decide (l_price l = o_price o)
              then mkLevel (l_price l) (l_quantity l + o_remainingQuantity o)
                           (l_orders l ++ [toOrderBookJSON sn o])
              else l) <$> levels.
Proof.
  induction levels as [|l levels IH]; intros Hnd Hin; [by apply elem_of_nil in Hin|].
  rewrite fmap_cons in Hnd, Hin. apply NoDup_cons in Hnd as [Hl Hnd]. simpl.
  destruct (decide (l_price l = o_price o)) as [Heq|Hne].
  - f_equal. rewrite <- Heq in *. clear IH Hin.
    induction levels as [|l' levels IH]; [done|]. simpl.
    rewrite fmap_cons in Hl, Hnd. apply not_elem_of_cons in Hl as [Hne Hl].
    apply NoDup_cons in Hnd as [_ Hnd].
    rewrite decide_False by done. f_equal. by apply IH.
  - f_equal. apply IH; [done|]. apply elem_of_cons in Hin as [?|?]; [congruence|done].
Qed.

Lemma restingQuantity_snoc os o :
  restingQuantity (os ++ [o]) = restingQuantity os + o_remainingQuantity o.
Proof.
  unfold restingQuantity. rewrite fmap_app, foldr_app. simpl.
  generalize (o_remainingQuantity <$> os). intros l. induction l as [|x l IH]; simpl; lia.
Qed.

Lemma atPrice_snoc p os o :
  atPrice p (os ++ [o])
  = if decide (o_price o = p) then atPrice p os ++ [o] else atPrice p os.
Proof.
  unfold atPrice. rewrite filter_app, filter_cons, filter_nil.
  destruct (decide (o_price o = p)); [done|by rewrite app_nil_r].
Qed.

Lemma levelsOf_aggregates sn os : aggregates sn os (levelsOf sn os).
Proof.
  induction os as [|o os IH] using rev_ind.
  - split; [constructor|]. split; [intros l Hl; by apply elem_of_nil in Hl|].
    intros o Ho. by apply elem_of_nil in Ho.
  - unfold levelsOf. rewrite foldl_app. simpl. fold (levelsOf sn os).
    destruct IH as (Hnd & Hlev & Hall).
    destruct (decide (o_price o ∈ l_price <$> levelsOf sn os)) as [Hin|Hnin].
    + rewrite (level_add_bump _ _ _ Hnd Hin).
      assert (l_price <$> ((fun l => if decide (l_price l = o_price o)
                then mkLevel (l_price l) (l_quantity l + o_remainingQuantity o)
                             (l_orders l ++ [toOrderBookJSON sn o])
                else l) <$> levelsOf sn os) = l_price <$> levelsOf sn os) as Hpr.
      { rewrite <- list_fmap_compose. apply list_fmap_ext. intros i l _. simpl.
        by destruct (decide _). }
      split; [by rewrite Hpr|]. split.
      * intros l' Hl'. apply list_elem_of_fmap in Hl' as (l & -> & Hl).
        destruct (Hlev l Hl) as (Hne & Hor & Hq).
        destruct (decide (l_price l = o_price o)) as [Heq|Hneq]; simpl.
        -- rewrite atPrice_snoc, decide_True by done.
           split; [by destruct (atPrice _ os)|]. rewrite fmap_app, restingQuantity_snoc.
           by rewrite Hor, Hq.
        -- rewrite atPrice_snoc, decide_False by done. done.
      * intros o' Ho'. rewrite Hpr. apply elem_of_app in Ho' as [Ho'|Ho'].
        -- by apply Hall.
        -- apply list_elem_of_singleton in Ho' as ->. done.
    + rewrite (level_add_new _ _ _ Hnin).
      assert (atPrice (o_price o) os = []) as Hnone.
      { destruct (atPrice (o_price o) os) as [|x xs] eqn:E; [done|].
        assert (x ∈ atPrice (o_price o) os) as Hx by (rewrite E; by left).
        apply list_elem_of_filter in Hx as [Hp Hx]. destruct Hnin. rewrite <- Hp.
        by apply Hall. }
      split; [|split].
      * rewrite fmap_app. apply NoDup_app. split; [done|]. split; [|apply NoDup_singleton].
        intros p Hp Hp'. simpl in Hp'. apply list_elem_of_singleton in Hp' as ->. done.
      * intros l Hl. apply elem_of_app in Hl as [Hl|Hl].
        -- destruct (Hlev l Hl) as (Hne & Hor & Hq).
           assert (o_price o <> l_price l) as Hneq.
           { intros Heq. apply Hnin. rewrite Heq. apply list_elem_of_fmap. eauto. }
           rewrite atPrice_snoc, decide_False by done. done.
        -- apply list_elem_of_singleton in Hl as ->. simpl.
           rewrite atPrice_snoc, decide_True, Hnone by done. simpl.
           split; [done|]. split; [done|]. unfold restingQuantity. simpl. lia.
      * intros o' Ho'. rewrite fmap_app. apply elem_of_app.
        apply elem_of_app in Ho' as [Ho'|Ho'].
        -- left. by apply Hall.
        -- right. apply list_elem_of_singleton in Ho' as ->. by left.
Qed.

Lemma aggregates_perm sn os levels levels' :
  levels' ≡ₚ levels -> aggregates sn os levels -> aggregates sn os levels'.
Proof.
  intros Hp (Hnd & Hlev & Hall). split; [by rewrite Hp|].
  split; [intros l Hl; apply Hlev; by rewrite <- Hp|].
  intros o Ho. rewrite Hp. by apply Hall.
Qed.

Lemma levelQuantity_perm levels levels' :
  levels' ≡ₚ levels -> levelQuantity levels' = levelQuantity levels.
Proof.
  unfold levelQuantity.
  induction 1 as [|x l l' _ IH|x y l|l1 l2 l3 _ IH1 _ IH2];
    rewrite ?fmap_cons; cbn [foldr]; lia.
Qed.

Lemma levelQuantity_app l1 l2 :
  levelQuantity (l1 ++ l2) = levelQuantity l1 + levelQuantity l2.
Proof.
  unfold levelQuantity. induction l1 as [|x l1 IH]; [done|].
  rewrite <- app_comm_cons, !fmap_cons. cbn [foldr]. lia.
Qed.

Lemma levelsOf_quantity sn os : levelQuantity (levelsOf sn os) = restingQuantity os.
Proof.
  induction os as [|o os IH] using rev_ind; [done|].
  unfold levelsOf. rewrite foldl_app. simpl. fold (levelsOf sn os).
  rewrite restingQuantity_snoc, <- IH. clear IH.
  destruct (levelsOf_aggregates sn os) as (Hnd & _). revert Hnd.
  generalize (levelsOf sn os). intros levels.
  induction levels as [|l levels IH]; intros Hnd; [unfold levelQuantity; simpl; lia|].
  cbn [level_add]. rewrite fmap_cons in Hnd. apply NoDup_cons in Hnd as [_ Hnd].
  destruct (decide _).
  - unfold levelQuantity. rewrite !fmap_cons. cbn [foldr l_quantity]. lia.
  - specialize (IH Hnd). unfold levelQuantity in *. rewrite !fmap_cons. cbn [foldr]. lia.
Qed.

Lemma js_sort_ext {A : Type} (cmp cmp' : A -> A -> Z) (l : list A) :
  (forall a b, cmp a b = cmp' a b) -> js_sort cmp l = js_sort cmp' l.
Proof.
  intros Hext. induction l as [|x l IH] using rev_ind; [done|].
  rewrite !js_sort_snoc, IH. generalize (js_sort cmp' l). intros k.
  induction k as [|y k IHk]; [done|]. simpl. rewrite Hext. by rewrite IHk.
Qed.

(** The levels of one side, sorted by [Array.prototype.sort] on the price. *)
Lemma sorted_levels s sn os (cmp : Level -> Level -> Z) :
  (forall a b, cmp a b = levelKey s (l_price a) - levelKey s (l_price b)) ->
  let levels := js_sort cmp (levelsOf sn os) in
  aggregates sn os levels
  /\ StronglySorted (fun a b => levelKey s (l_price a) <= levelKey s (l_price b)) levels
  /\ levelQuantity levels = restingQuantity os.
Proof.
  intros Hcmp levels. split; [|split].
  - eapply aggregates_perm; [apply js_sort_perm|apply levelsOf_aggregates].
  - apply (js_sort_sorted cmp (fun _ => True)); [| | |by apply Forall_true].
    + intros a b _ _. rewrite Hcmp. lia.
    + intros a b _ _. lia.
    + intros a b c _ _ _. lia.
  - unfold levels. rewrite (levelQuantity_perm (levelsOf sn os)) by apply js_sort_perm.
    apply levelsOf_quantity.
Qed.

(** On a side that is in order the first level is the one of the best
    order. *)
Lemma first_level s sn h (side : list uuid) (cmp : Level -> Level -> Z) :
  (forall a b, cmp a b = levelKey s (l_price a) - levelKey s (l_price b)) ->
  side_ok h s side ->
  let levels := js_sort cmp (levelsOf sn (omap (fun ref => h !! ref)
                                               (filter (restingAt h) side))) in
  match head (filter (restingAt h) side) with
  | None => levels = []
  | Some ref => exists o l rest, h !! ref = Some o /\ levels = l :: rest
                                 /\ l_price l = o_price o
  end.
Proof.
  intros Hcmp (Hnd & Hlim & Hsorted) levels.
  destruct (sorted_levels s sn (omap (fun ref => h !! ref) (filter (restingAt h) side))
              cmp Hcmp) as ((_ & Hlev & Hall) & Hs & _). fold levels in Hlev, Hall, Hs.
  assert (Forall (limitAt h) (filter (restingAt h) side)) as Hlim'
    by (eapply Forall_sublist_of; [apply sublist_filter|done]).
  assert (StronglySorted (viaHeap h (side_le s)) (filter (restingAt h) side)) as Hsorted'
    by (eapply StronglySorted_sublist; [apply sublist_filter|done]).
  destruct (filter (restingAt h) side) as [|ref refs] eqn:Hf; simpl.
  - simpl in levels. done.
  - apply Forall_cons in Hlim' as [(o & Ho & _ & Hpo) Hlim'].
    apply StronglySorted_inv in Hsorted' as [_ Hfirst].
    assert (o ∈ omap (fun ref => h !! ref) (ref :: refs)) as Hin.
    { apply list_elem_of_omap. exists ref. split; [by left|done]. }
    destruct levels as [|l rest] eqn:Hl.
    { specialize (Hall o Hin). by apply elem_of_nil in Hall. }
    exists o, l, rest. split; [done|]. split; [done|].
    (* the first level is at the price of some resting order, which is not
       better than the first one *)
    destruct (Hlev l) as (Hne & _); [by left|].
    destruct (atPrice (l_price l) _) as [|o' os'] eqn:Hat; [done|].
    assert (o' ∈ atPrice (l_price l) (omap (fun ref => h !! ref) (ref :: refs))) as Ho'
      by (rewrite Hat; by left).
    apply list_elem_of_filter in Ho' as [Hp' Ho'].
    apply list_elem_of_omap in Ho' as (ref' & Href' & Ho').
    assert (levelKey s (o_price o) <= levelKey s (o_price o')
            /\ is_Some (o_price o')) as [Hle Hpo'].
    { apply elem_of_cons in Href' as [->|Href'].
      - assert (o' = o) as -> by congruence. split; [lia|done].
      - rewrite Forall_forall in Hfirst, Hlim'.
        destruct (Hfirst _ Href') as (x & y & Hx & Hy & Hxy).
        assert (x = o) as -> by congruence. assert (y = o') as -> by congruence.
        destruct (Hlim' _ Href') as (y & Hy' & _ & Hpy).
        assert (y = o') as -> by congruence. split; [|done].
        unfold levelKey. destruct s; unfold side_le, bid_le, ask_le in Hxy; lia. }
    (* and the level of the first order is not before the first level *)
    assert (levelKey s (l_price l) <= levelKey s (o_price o)) as Hge.
    { specialize (Hall o Hin). apply list_elem_of_fmap in Hall as (lo & Hlo & Hin').
      rewrite Hlo. apply elem_of_cons in Hin' as [->|Hin']; [lia|].
      apply StronglySorted_inv in Hs as [_ Hs]. rewrite Forall_forall in Hs.
      by apply Hs. }
    rewrite Hp' in Hle, Hpo'. destruct Hpo as [p Hp]. destruct Hpo' as [p' Hp''].
    rewrite Hp'', Hp in *. f_equal. unfold levelKey, toNum in Hle, Hge.
    destruct s; simpl in Hle, Hge; lia.
Qed.

Lemma head_resting h (side : list uuid) :
  head (omap (fun ref => h !! ref) (filter (restingAt h) side))
  = head (filter (restingAt h) side) ≫= (fun ref => h !! ref).
Proof.
  assert (Forall (restingAt h) (filter (restingAt h) side)) as Hall.
  { apply Forall_forall. intros ref Href. by apply list_elem_of_filter in Href as [? _]. }
  destruct Hall as [|ref refs Href _]; [done|]. simpl.
  unfold restingAt in Href. by destruct (h !! ref).
Qed.

(** X9. [getDepth] makes one level for each price at which an open or
    partial order rests on a side: the level holds these orders in the order
    of the book, and its quantity is what they have left together, so that
    the levels of a side add up to what rests on it.  Bid levels come from
    the highest price down and ask levels from the lowest up.  On a side
    that is in order, the first level is at the price of the best order, and
    [bestBid] or [bestAsk] is that price ([null] when nothing rests, or when
    the price is 0); the spread is the best ask less the best bid when both
    exist. *)
Theorem getDepth_spec h product sn book :
  let d := getDepth h product sn book in
  let resting s := omap (fun ref => h !! ref) (filter (restingAt h) (book_side s book)) in
  let levels s := match s with buy => d_bids d | sell => d_asks d end in
  let best s := match s with buy => d_bestBid d | sell => d_bestAsk d end in
  d_product d = product
  /\ (forall s,
        aggregates sn (resting s) (levels s)
        /\ StronglySorted (fun a b => levelKey s (l_price a) <= levelKey s (l_price b))
                          (levels s)
        /\ levelQuantity (levels s) = restingQuantity (resting s)
        /\ (side_ok h s (book_side s book) ->
            match head (resting s) with
            | None => levels s = [] /\ best s = None
            | Some o => exists l rest, levels s = l :: rest /\ l_price l = o_price o
                                       /\ best s = orNull (o_price o)
            end))
  /\ d_spread d = match head (resting buy), head (resting sell) with
                  | Some bid, Some ask => Some (toNum (o_price ask) - toNum (o_price bid))
                  | _, _ => None
                  end.
Proof.
  intros d resting levels best. split; [done|]. split.
  - intros s.
    assert (forall a b, (match s with
                         | buy => fun a b => toNum (l_price b) - toNum (l_price a)
                         | sell => fun a b => toNum (l_price a) - toNum (l_price b)
                         end) a b = levelKey s (l_price a) - levelKey s (l_price b)) as Hcmp.
    { intros a b. unfold levelKey. destruct s; lia. }
    assert (levels s = js_sort (match s with
                                | buy => fun a b => toNum (l_price b) - toNum (l_price a)
                                | sell => fun a b => toNum (l_price a) - toNum (l_price b)
                                end) (levelsOf sn (resting s))) as Hlev
      by (by destruct s).
    assert (best s = orNull (head (resting s) ≫= o_price)) as Hbest.
    { unfold resting. rewrite head_resting. by destruct s. }
    destruct (sorted_levels s sn (resting s) _ Hcmp) as (Hagg & Hsorted & Hq).
    rewrite <- Hlev in Hagg, Hsorted, Hq.
    split; [done|]. split; [done|]. split; [done|].
    intros Hok. pose proof (first_level s sn h (book_side s book) _ Hcmp Hok) as Hfirst.
    cbv zeta in Hfirst. fold (resting s) in Hfirst. rewrite <- Hlev in Hfirst.
    assert (head (resting s)
            = head (filter (restingAt h) (book_side s book)) ≫= (fun ref => h !! ref)) as Hh
      by apply head_resting.
    rewrite Hbest, Hh.
    destruct (head (filter (restingAt h) (book_side s book))) as [ref|]; simpl.
    + destruct Hfirst as (o & l & rest & -> & Hl & Hp). simpl. eauto.
    + done.
  - unfold resting. rewrite !head_resting. done.
Qed.

(** The book of bread in the example session, Alice's two asks of 3 at 1:
    one ask level of 6 at 1. *)
Lemma getOrderBookDepth_example :
  exists d l,
    getOrderBookDepth cfg8 "bread" w_tied = Some d
    /\ d_bids d = [] /\ d_asks d = [l]
    /\ l_price l = Some 1 /\ l_quantity l = 6 /\ length (l_orders l) = 2%nat
    /\ d_bestBid d = None /\ d_bestAsk d = Some 1 /\ d_spread d = None.
Proof. eexists _, _. vm_compute. repeat split. Qed.

Lemma zeroInventory_dom cfg : dom (zeroInventory cfg) = list_to_set (products cfg).
Proof.
  unfold zeroInventory. induction (products cfg) as [|p ps IH] using rev_ind; simpl.
  - by rewrite dom_empty_L.
  - rewrite foldl_app. simpl. rewrite dom_insert_L, IH, list_to_set_app_L. simpl.
    rewrite (right_id_L ∅ (∪)). apply (comm_L (∪)).
Qed.

Lemma zeroInventory_zero cfg : map_Forall (fun _ n => n = 0) (zeroInventory cfg).
Proof.
  unfold zeroInventory. induction (products cfg) as [|p ps IH] using rev_ind; simpl.
  - apply map_Forall_empty.
  - rewrite foldl_app. simpl. by apply map_Forall_insert_2.
Qed.

Lemma scrapValueOf_zero scrap (inv : gmap string Z) :
  map_Forall (fun _ n => n = 0) inv -> scrapValueOf scrap inv = 0.
Proof.
  unfold scrapValueOf. induction inv as [|p n inv Hp Hfold IH] using map_first_key_ind.
  - by rewrite map_fold_empty.
  - intros Hall. rewrite map_fold_insert_first_key by done.
    apply map_Forall_insert in Hall as [-> Hall]; [|done]. rewrite IH by done. lia.
Qed.

Lemma scrapValueOf_increment scrap (inv : gmap string Z) p :
  is_Some (inv !! p) ->
  scrapValueOf scrap (increment p inv) = scrapValueOf scrap inv + default 0 (scrap !! p).
Proof.
  intros [n Hn]. unfold increment, scrapValueOf.
  assert (alter (fun n => n + 1) p inv = <[p := n + 1]> (delete p inv)) as ->.
  { apply map_eq. intros q. destruct (decide (p = q)) as [->|Hne].
    - by rewrite lookup_alter_eq, lookup_insert_eq, Hn.
    - by rewrite lookup_alter_ne, lookup_insert_ne, lookup_delete_ne. }
  rewrite <- (insert_delete_id inv p n) at 2 by done.
  rewrite !map_fold_insert_L; [lia|intros; lia|apply lookup_delete_eq|intros; lia
                               |apply lookup_delete_eq].
Qed.

Lemma increment_dom p (inv : gmap string Z) : dom (increment p inv) = dom inv.
Proof. unfold increment. apply dom_alter_L. Qed.

Lemma increment_nonneg p (inv : gmap string Z) :
  map_Forall (fun _ n => 0 <= n) inv -> map_Forall (fun _ n => 0 <= n) (increment p inv).
Proof.
  intros Hall q n. unfold increment. destruct (decide (p = q)) as [->|Hne].
  - rewrite lookup_alter_eq. destruct (inv !! q) as [m|] eqn:E; [|done].
    intros [= <-]. specialize (Hall q m E). simpl in Hall. lia.
  - rewrite lookup_alter_ne by done. apply Hall.
Qed.

Section StartingInventoryFacts.
Context (random : nat -> Q) (cfg : Config) (targetValue : Z) (factor : Q).

Section Ceiling.
(** Any bound that is not below target times (1 + factor). *)
Context (ceiling : Q).
Hypothesis ceiling_ok : (maxValue targetValue factor <= ceiling)%Q.

Lemma randomProduct_Some k p pv :
  randomProduct random cfg k ≫= (fun p => pair p <$> scrapValues cfg !! p) = Some (p, pv) ->
  p ∈ products cfg /\ scrapValues cfg !! p = Some pv.
Proof.
  unfold randomProduct. destruct (decide _); [|done].
  destruct (products cfg !! _) as [q|] eqn:E; [|done]. simpl.
  destruct (scrapValues cfg !! q) as [v|] eqn:Ev; [|done]. simpl. intros [= <- <-].
  split; [by eapply list_elem_of_lookup_2|done].
Qed.

Lemma keeps_increment inventory value p pv :
  startingInventory_ok cfg ceiling inventory value ->
  p ∈ products cfg -> scrapValues cfg !! p = Some pv ->
  ~ (maxValue targetValue factor < inject_Z (value + pv))%Q ->
  startingInventory_ok cfg ceiling (increment p inventory) (value + pv).
Proof.
  intros (Hdom & Hnn & Hval & Hmax) Hp Hpv Hfit. split; [|split; [|split]].
  - by rewrite increment_dom.
  - by apply increment_nonneg.
  - rewrite scrapValueOf_increment, Hpv, Hval; [done|].
    apply elem_of_dom. rewrite Hdom. by apply elem_of_list_to_set.
  - eapply Qle_trans; [by apply Qnot_lt_le|done].
Qed.

Lemma fillRandom_keeps fuel k inventory value inventory' value' k' :
  fillRandom random cfg targetValue factor fuel k inventory value
  = Returns (inventory', value', k') ->
  startingInventory_ok cfg ceiling inventory value -> startingInventory_ok cfg ceiling inventory' value' /\ (k <= k')%nat.
Proof.
  revert k inventory value. induction fuel as [|fuel IH]; intros k inventory value H Hk;
    [done|]. simpl in H.
  destruct (Qlt_le_dec _ _); [|injection H as <- <- <-; by split].
  destruct (randomProduct random cfg k ≫= _) as [[p pv]|] eqn:E;
    [|injection H as <- <- <-; split; [done|lia]].
  apply randomProduct_Some in E as [Hp Hpv].
  destruct (Qlt_le_dec _ _) as [|Hfit]; [injection H as <- <- <-; split; [done|lia]|].
  destruct (IH _ _ _ H) as [Hk' Hle]; [|split; [done|lia]].
  apply keeps_increment; try done. by apply Qle_not_lt.
Qed.

Lemma firstFitting_Some value candidates p pv :
  firstFitting cfg targetValue factor value candidates = Some (p, pv) ->
  p ∈ candidates /\ scrapValues cfg !! p = Some pv
  /\ ~ (maxValue targetValue factor < inject_Z (value + pv))%Q.
Proof.
  induction candidates as [|c cs IH]; [done|]. simpl.
  destruct (scrapValues cfg !! c) as [v|] eqn:Ev.
  - destruct (Qlt_le_dec _ _) as [|Hfit].
    + intros H. destruct (IH H) as (? & ? & ?). split; [by right|done].
    + intros [= <- <-]. split; [by left|]. split; [done|by apply Qle_not_lt].
  - intros H. destruct (IH H) as (? & ? & ?). split; [by right|done].
Qed.

Lemma firstFitting_None value candidates :
  firstFitting cfg targetValue factor value candidates = None ->
  forall p pv, p ∈ candidates -> scrapValues cfg !! p = Some pv ->
    (maxValue targetValue factor < inject_Z (value + pv))%Q.
Proof.
  induction candidates as [|c cs IH]; intros H p pv Hp Hpv; [by apply elem_of_nil in Hp|].
  simpl in H. apply elem_of_cons in Hp as [->|Hp].
  - rewrite Hpv in H. by destruct (Qlt_le_dec _ _).
  - assert (firstFitting cfg targetValue factor value cs = None) as Hn.
    { destruct (scrapValues cfg !! c); [|done]. by destruct (Qlt_le_dec _ _). }
    exact (IH Hn p pv Hp Hpv).
Qed.

Lemma cheapestFirst_elem p : p ∈ cheapestFirst cfg <-> p ∈ products cfg.
Proof. unfold cheapestFirst. by rewrite js_sort_perm. Qed.

Lemma topUp_keeps fuel inventory value inventory' value' :
  topUp cfg targetValue factor fuel inventory value = Returns (inventory', value') ->
  startingInventory_ok cfg ceiling inventory value ->
  startingInventory_ok cfg ceiling inventory' value'
  /\ (targetValue <= value'
      \/ forall p pv, p ∈ products cfg -> scrapValues cfg !! p = Some pv ->
           (maxValue targetValue factor < inject_Z (value' + pv))%Q).
Proof.
  revert inventory value. induction fuel as [|fuel IH]; intros inventory value H Hk;
    [done|]. simpl in H.
  destruct (decide (value < targetValue)); [|injection H as <- <-; split; [done|left; lia]].
  destruct (firstFitting _ _ _ _ _) as [[p pv]|] eqn:E.
  - apply firstFitting_Some in E as (Hp & Hpv & Hfit). apply cheapestFirst_elem in Hp.
    apply (IH _ _ H). by apply keeps_increment.
  - injection H as <- <-. split; [done|]. right. intros p pv Hp Hpv.
    eapply firstFitting_None; [exact E| |done]. by apply cheapestFirst_elem.
Qed.

Lemma generateStartingInventory_keeps fuel k inventory value k' :
  (0 <= ceiling)%Q ->
  generateStartingInventory random cfg targetValue factor fuel k
  = Returns (inventory, value, k') ->
  startingInventory_ok cfg ceiling inventory value
  /\ (k <= k')%nat
  /\ (targetValue <= value
      \/ forall p pv, p ∈ products cfg -> scrapValues cfg !! p = Some pv ->
           (maxValue targetValue factor < inject_Z (value + pv))%Q).
Proof.
  intros Hmax H. unfold generateStartingInventory in H.
  destruct (fillRandom _ _ _ _ _ _ _ _) as [[[inv1 v1] k1]| |] eqn:E1; [|done..].
  destruct (topUp _ _ _ _ _ _) as [[inv2 v2]| |] eqn:E2; [|done..].
  injection H as <- <- <-.
  destruct (fillRandom_keeps _ _ _ _ _ _ _ E1) as [Hk1 Hle].
  { split; [apply zeroInventory_dom|]. split.
    - intros p n Hn. by rewrite (zeroInventory_zero cfg p n Hn).
    - split; [|done]. symmetry. apply scrapValueOf_zero, zeroInventory_zero. }
  destruct (topUp_keeps _ _ _ _ _ E2 Hk1) as [Hk2 Hdone]. done.
Qed.

End Ceiling.

Lemma inject_Z_le_floor (n : Z) (q : Q) : (inject_Z n <= q)%Q -> n <= Qfloor q.
Proof. intros H. rewrite <- (Qfloor_Z n). by apply Qfloor_resp_le. Qed.

Hypothesis scrap_positive : map_Forall (fun _ pv => 0 < pv) (scrapValues cfg).

Lemma fillRandom_returns fuel k inventory value :
  (Z.to_nat (Qfloor (maxValue targetValue factor) - value) < fuel)%nat ->
  exists inventory' value' k',
    fillRandom random cfg targetValue factor fuel k inventory value
    = Returns (inventory', value', k')
    /\ value <= value'.
Proof.
  revert k inventory value. induction fuel as [|fuel IH]; intros k inventory value Hfuel;
    [lia|]. simpl.
  destruct (Qlt_le_dec _ _); [|eexists _, _, _; split; [done|lia]].
  destruct (randomProduct random cfg k ≫= _) as [[p pv]|] eqn:E;
    [|eexists _, _, _; split; [done|lia]].
  apply randomProduct_Some in E as [Hp Hpv].
  destruct (Qlt_le_dec _ _) as [|Hfit]; [eexists _, _, _; split; [done|lia]|].
  pose proof (scrap_positive p pv Hpv) as Hpos. simpl in Hpos.
  apply inject_Z_le_floor in Hfit.
  destruct (IH (S k) (increment p inventory) (value + pv)) as (i' & v' & k' & -> & Hle);
    [lia|]. eexists _, _, _. split; [done|lia].
Qed.

Lemma topUp_returns fuel inventory value :
  (Z.to_nat (Qfloor (maxValue targetValue factor) - value) < fuel)%nat ->
  exists inventory' value',
    topUp cfg targetValue factor fuel inventory value = Returns (inventory', value').
Proof.
  revert inventory value. induction fuel as [|fuel IH]; intros inventory value Hfuel;
    [lia|]. simpl.
  destruct (decide _); [|eauto].
  destruct (firstFitting _ _ _ _ _) as [[p pv]|] eqn:E; [|eauto].
  apply firstFitting_Some in E as (Hp & Hpv & Hfit).
  pose proof (scrap_positive p pv Hpv) as Hpos. simpl in Hpos.
  apply Qnot_lt_le, inject_Z_le_floor in Hfit.
  apply IH. lia.
Qed.

Lemma generateStartingInventory_terminates fuel k :
  (Z.to_nat (Qfloor (maxValue targetValue factor)) < fuel)%nat ->
  exists inventory value k',
    generateStartingInventory random cfg targetValue factor fuel k
    = Returns (inventory, value, k').
Proof.
  intros Hfuel. unfold generateStartingInventory.
  destruct (fillRandom_returns fuel k (zeroInventory cfg) 0) as (i1 & v1 & k1 & -> & Hle);
    [by rewrite Z.sub_0_r|].
  destruct (topUp_returns fuel i1 v1) as (i2 & v2 & ->); [lia|]. eauto.
Qed.

End StartingInventoryFacts.


(** X11. When every scrap value is positive [generateStartingInventory]
    returns: its two loops end within a number of turns bounded by the
    ceiling, target times (1 + factor). *)
Theorem generateStartingInventory_returns random cfg targetValue factor fuel k :
  map_Forall (fun _ pv => 0 < pv) (scrapValues cfg) ->
  (Z.to_nat (Qfloor (maxValue targetValue factor)) < fuel)%nat ->
  exists inventory value k',
    generateStartingInventory random cfg targetValue factor fuel k
    = Returns (inventory, value, k').
Proof.
  intros Hpos Hfuel.
  exact (generateStartingInventory_terminates random cfg targetValue factor Hpos fuel k Hfuel).
Qed.

Local Open Scope string_scope.


Lemma generateStartingInventory_returns_witness :
  exists inventory value k',
    generateStartingInventory (fun _ => 0%Q) cfg8 20 (1 # 5) 30 0
    = Returns (inventory, value, k').
Proof.
  apply (generateStartingInventory_returns (fun _ => 0%Q) cfg8 20 (1 # 5)).
  - compute_done.
  - vm_compute. lia.
Defined.

Local Close Scope string_scope.

(** ** The players of a game *)

Lemma getPlayersByGame_savePlayer_new gid p w :
  p_playerId p ∉ w_playerKeys w ->
  getPlayersByGame gid (savePlayer p w)
  = getPlayersByGame gid w ++ (if decide (p_gameId p = gid) then [p_playerId p] else []).
Proof.
  intros Hnew. unfold getPlayersByGame, savePlayer.
  cbn [w_players w_playerKeys].
  destruct (decide (p_playerId p ∈ w_playerKeys w)); [done|].
  rewrite filter_app. f_equal.
  - apply filter_ext_in. intros ref Href.
    rewrite lookup_insert_ne; [done|]. intros Heq. apply Hnew. by rewrite Heq.
  - rewrite filter_cons, filter_nil, lookup_insert_eq.
    destruct (decide (p_gameId p = gid)) as [Hg|Hg].
    + rewrite decide_True; [done|]. simpl. by rewrite Hg.
    + rewrite decide_False; [done|]. simpl. congruence.
Qed.

Lemma getPlayersByGame_keys gid w ref :
  ref ∈ getPlayersByGame gid w ->
  ref ∈ w_playerKeys w /\ exists p, w_players w !! ref = Some p /\ p_gameId p = gid.
Proof.
  unfold getPlayersByGame. rewrite list_elem_of_filter. intros [Hg Hk]. split; [done|].
  destruct (w_players w !! ref) as [p|]; [|done]. exists p. split; [done|]. by injection Hg.
Qed.

Lemma playersOf_savePlayer_new gid p w :
  p_playerId p ∉ w_playerKeys w ->
  playersOf gid (savePlayer p w)
  = playersOf gid w ++ (if decide (p_gameId p = gid) then [p] else []).
Proof.
  intros Hnew. unfold playersOf. rewrite getPlayersByGame_savePlayer_new by done.
  rewrite omap_app. f_equal.
  - apply omap_ext_in. intros ref Href. apply getPlayersByGame_keys in Href as [Hk _].
    simpl. rewrite lookup_insert_ne; [done|]. intros Heq. apply Hnew. by rewrite Heq.
  - destruct (decide _); [|done]. simpl. by rewrite lookup_insert_eq.
Qed.

Lemma playersOf_elem gid w p :
  p ∈ playersOf gid w <->
  exists ref, ref ∈ w_playerKeys w /\ w_players w !! ref = Some p /\ p_gameId p = gid.
Proof.
  unfold playersOf. rewrite list_elem_of_omap. split.
  - intros (ref & Href & Hp). apply getPlayersByGame_keys in Href as (Hk & q & Hq & Hg).
    exists ref. split; [done|]. split; [done|]. congruence.
  - intros (ref & Hk & Hp & Hg). exists ref. split; [|done].
    unfold getPlayersByGame. apply list_elem_of_filter. by rewrite Hp, <- Hg.
Qed.

Lemma getPlayersByGame_frame gid w w' :
  w_players w' = w_players w -> w_playerKeys w' = w_playerKeys w ->
  getPlayersByGame gid w' = getPlayersByGame gid w.
Proof. unfold getPlayersByGame. by intros -> ->. Qed.

Lemma playersOf_frame gid w w' :
  w_players w' = w_players w -> w_playerKeys w' = w_playerKeys w ->
  playersOf gid w' = playersOf gid w.
Proof.
  intros Hp Hk. unfold playersOf. by rewrite (getPlayersByGame_frame gid w w'), Hp.
Qed.

Lemma store_ok_frame w w' :
  w_players w' = w_players w -> w_playerKeys w' = w_playerKeys w ->
  (w_next w <= w_next w')%positive ->
  store_ok w -> store_ok w'.
Proof.
  intros Hp Hk Hn [Hfiled Hids]. unfold store_ok, players_filed. rewrite Hp, Hk.
  split; [done|]. intros id p Hid. destruct (Hids id p Hid). split; lia.
Qed.

Lemma roster_ok_frame lower cfg game w w' :
  w_players w' = w_players w -> w_playerKeys w' = w_playerKeys w ->
  (w_next w <= w_next w')%positive ->
  roster_ok lower cfg game w -> roster_ok lower cfg game w'.
Proof.
  intros Hp Hk Hn (Hg & Hnd & Hsub & Hlen & Hnames & Hinv). unfold roster_ok.
  rewrite (getPlayersByGame_frame _ w w'), (playersOf_frame _ w w') by done.
  split; [lia|done].
Qed.

Lemma store_ok_savePlayer p w :
  p_playerId p ∉ w_playerKeys w ->
  (p_playerId p < w_next w)%positive -> (p_gameId p < w_next w)%positive ->
  store_ok w -> store_ok (savePlayer p w).
Proof.
  intros Hnew Hid Hgid [Hfiled Hids]. split; [by apply players_filed_savePlayer|].
  intros id q. unfold savePlayer. cbn [w_players w_next].
  destruct (decide (id = p_playerId p)) as [->|Hne].
  - rewrite lookup_insert_eq. by intros [= <-].
  - rewrite lookup_insert_ne by done. apply Hids.
Qed.

Lemma no_player_of_next w :
  store_ok w -> getPlayersByGame (w_next w) w = [].
Proof.
  intros [_ Hids]. unfold getPlayersByGame.
  induction (w_playerKeys w) as [|ref l IH]; [done|].
  rewrite filter_cons_False; [done|].
  destruct (w_players w !! ref) as [p|] eqn:E; [|done]. simpl. intros [= Hg].
  destruct (Hids ref p E) as [_ Hlt]. lia.
Qed.

(** ** Joining *)

Section GameManagerFacts.
Context (clock : nat -> Z) (random : nat -> Q) (toLowerCase : string -> string).
Context (cfg : Config) (targetValue : Z) (factor : Q).

Lemma joinGame_inv fuel name game k w r g' k' w' :
  joinGame clock random toLowerCase cfg targetValue factor fuel name (Some game) k w
  = Returns (r, g', k', w') ->
  (exists e, r = Failed e /\ g' = Some game /\ k' = k /\ w' = w
     /\ (g_status game ≠ lobby /\ e = CannotJoin (g_status game)
         \/ g_status game = lobby
            /\ (maxPlayers cfg <= Z.of_nat (length (g_playerIds game)) /\ e = GameFull
                \/ Z.of_nat (length (g_playerIds game)) < maxPlayers cfg
                   /\ nameTaken toLowerCase name (getPlayersByGame (g_gameId game) w) w
                   /\ e = NameTaken)))
  \/ g_status game = lobby
     /\ Z.of_nat (length (g_playerIds game)) < maxPlayers cfg
     /\ ~ nameTaken toLowerCase name (getPlayersByGame (g_gameId game) w) w
     /\ exists inventory value,
          generateStartingInventory random cfg targetValue factor fuel k
          = Returns (inventory, value, k')
          /\ r = Succeeded (w_next w)
          /\ g' = Some (Game_addPlayer (w_next w) game)
          /\ w' = snd (Date_now clock
                    (savePlayer (joined clock cfg game name inventory w)
                       (snd (Date_now clock (snd (uuidv4 w)))))).
Proof.
  unfold joinGame. intros H.
  destruct (decide (g_status game ≠ lobby)) as [Hs|Hs].
  { injection H as <- <- <- <-. left. eexists. repeat (split; [done|]). by left. }
  apply dec_stable in Hs.
  destruct (decide (maxPlayers cfg <= _)) as [Hfull|Hfull].
  { injection H as <- <- <- <-. left. eexists. repeat (split; [done|]).
    right. split; [done|]. by left. }
  destruct (decide (nameTaken _ _ _ _)) as [Hname|Hname].
  { injection H as <- <- <- <-. left. eexists. repeat (split; [done|]).
    right. split; [done|]. right. split; [lia|done]. }
  destruct (generateStartingInventory _ _ _ _ _ _) as [[[inventory value] k1]| |] eqn:E;
    [|done..].
  injection H as <- <- <- <-. right. split; [done|]. split; [lia|]. split; [done|].
  by exists inventory, value.
Qed.


Lemma next_not_key w : store_ok w -> w_next w ∉ w_playerKeys w.
Proof.
  intros [(_ & Hkeys & _) Hids] Hin. apply Hkeys in Hin as [p Hp].
  destruct (Hids _ _ Hp) as [Hlt _]. lia.
Qed.


Lemma joined_world game name inventory w :
  store_ok w -> (g_gameId game < w_next w)%positive ->
  let w' := snd (Date_now clock (savePlayer (joined clock cfg game name inventory w)
                   (snd (Date_now clock (snd (uuidv4 w)))))) in
  store_ok w'
  /\ w_players w' = <[w_next w := joined clock cfg game name inventory w]> (w_players w)
  /\ w_playerKeys w' = w_playerKeys w ++ [w_next w]
  /\ getPlayersByGame (g_gameId game) w' = getPlayersByGame (g_gameId game) w ++ [w_next w]
  /\ playersOf (g_gameId game) w'
     = playersOf (g_gameId game) w ++ [joined clock cfg game name inventory w]
  /\ w_orders w' = w_orders w /\ w_trades w' = w_trades w
  /\ w_orderBooks w' = w_orderBooks w
  /\ w_next w' = Pos.succ (w_next w) /\ w_ticks w' = S (S (w_ticks w)).
Proof.
  intros Hst Hg. pose proof (next_not_key w Hst) as Hnew.
  set (w1 := snd (Date_now clock (snd (uuidv4 w)))).
  set (pl := joined clock cfg game name inventory w).
  assert (store_ok w1) as Hst1 by (apply (store_ok_frame w); [done..|simpl; lia|done]).
  assert (p_playerId pl ∉ w_playerKeys w1) as Hnew1 by done.
  intros w'. split; [|split; [|split; [|split; [|split]]]].
  - apply (store_ok_frame (savePlayer pl w1)); [done..|reflexivity|].
    apply store_ok_savePlayer; [done|simpl; lia..|done].
  - done.
  - unfold w'. simpl. by rewrite decide_False.
  - rewrite (getPlayersByGame_frame _ (savePlayer pl w1) w') by done.
    rewrite getPlayersByGame_savePlayer_new by done. simpl.
    by rewrite decide_True.
  - rewrite (playersOf_frame _ (savePlayer pl w1) w') by done.
    rewrite playersOf_savePlayer_new by done. simpl.
    by rewrite decide_True.
  - done.
Qed.

End GameManagerFacts.



Lemma same_game_refl g : same_game g g.
Proof. by repeat split. Qed.


Lemma nameTaken_playerOfGame lower name gid w :
  players_filed w ->
  nameTaken lower name (getPlayersByGame gid w) w
  <-> exists ref pl, playerOfGame gid w ref pl /\ lower (p_name pl) = lower name.
Proof.
  intros Hfiled. unfold nameTaken. rewrite Exists_exists. split.
  - intros (ref & Href & Hn).
    apply (playerOfGame_elem _ _ _ Hfiled) in Href as (pl & Hpl & Hg).
    exists ref, pl. split; [done|]. rewrite Hpl in Hn. by injection Hn.
  - intros (ref & pl & [Hpl Hg] & Hn). exists ref. split.
    + apply (playerOfGame_elem _ _ _ Hfiled). by exists pl.
    + rewrite Hpl. simpl. by rewrite Hn.
Qed.

(** X13. [joinGame] refuses, in this order: when there is no game ('No game
    exists. Create a game first.'); when the game is not in the lobby
    ('Cannot join: game is ' and its status); when the game's list has
    [maxPlayers] ids or more ('Game is full'); when a player filed under the
    game has the name, case ignored ('Name already taken').  A refusal
    changes nothing: the game, the store and the random numbers drawn are
    as before.  In every other case, when the scrap values are positive,
    the call returns and admits the player. *)
Theorem joinGame_rejects clock random toLowerCase cfg targetValue factor
    fuel name currentGame k (w : World) :
  let join := joinGame clock random toLowerCase cfg targetValue factor fuel name
                       currentGame k w in
  (currentGame = None -> join = Returns (Failed NoGameCreateFirst, currentGame, k, w))
  /\ (forall game, currentGame = Some game ->
        (g_status game <> lobby ->
           join = Returns (Failed (CannotJoin (g_status game)), currentGame, k, w))
        /\ (g_status game = lobby ->
            maxPlayers cfg <= Z.of_nat (length (g_playerIds game)) ->
            join = Returns (Failed GameFull, currentGame, k, w))
        /\ (g_status game = lobby ->
            Z.of_nat (length (g_playerIds game)) < maxPlayers cfg ->
            players_filed w ->
            (exists ref pl, playerOfGame (g_gameId game) w ref pl
                            /\ toLowerCase (p_name pl) = toLowerCase name) ->
            join = Returns (Failed NameTaken, currentGame, k, w))
        /\ (g_status game = lobby ->
            Z.of_nat (length (g_playerIds game)) < maxPlayers cfg ->
            players_filed w ->
            (forall ref pl, playerOfGame (g_gameId game) w ref pl ->
               toLowerCase (p_name pl) <> toLowerCase name) ->
            map_Forall (fun _ pv => 0 < pv) (scrapValues cfg) ->
            (Z.to_nat (Qfloor (maxValue targetValue factor)) < fuel)%nat ->
            exists id g' k' w', join = Returns (Succeeded id, g', k', w')))
  /\ (forall e g' k' w',
        join = Returns (Failed e, g', k', w') -> g' = currentGame /\ k' = k /\ w' = w).
Proof.
  intros join. unfold join, joinGame. split; [by intros ->|]. split.
  - intros game ->. split; [|split; [|split]].
    + intros Hs. by rewrite decide_True.
    + intros Hs Hfull. rewrite decide_False by (by intros ?). by rewrite decide_True.
    + intros Hs Hroom Hfiled Hname.
      rewrite decide_False by (by intros ?). rewrite decide_False by lia.
      rewrite decide_True; [done|]. by apply nameTaken_playerOfGame.
    + intros Hs Hroom Hfiled Hname Hpos Hfuel.
      rewrite decide_False by (by intros ?). rewrite decide_False by lia.
      rewrite decide_False.
      2: { intros (ref & pl & Hpl & Heq)%nameTaken_playerOfGame; [|done].
           by eapply Hname. }
      destruct (generateStartingInventory_terminates random cfg targetValue factor
                  Hpos fuel k Hfuel) as (inventory & value & k' & ->).
      by eexists _, _, _, _.
  - intros e g' k' w'. destruct currentGame as [game|]; [|by intros [= <- <- <- <-]].
    repeat (destruct (decide _); [by intros [= <- <- <- <-]|]).
    by destruct (generateStartingInventory _ _ _ _ _ _) as [[[? ?] ?]| |].
Qed.

Local Open Scope string_scope.

(** Names are compared without case: ALICE cannot join Alice's game. *)
Lemma joinGame_example :
  joinGame frozen_clock (fun _ => 0%Q) ascii_toLowerCase cfg8 20 (1 # 5) 30
           "ALICE" (Some lobby_game) 0 w0
  = Returns (Failed NameTaken, Some lobby_game, 0%nat, w0).
Proof. vm_compute. reflexivity. Qed.

Lemma store_ok_w0 : store_ok w0.
Proof.
  unfold w0.
  apply store_ok_savePlayer; [compute_done|done|done|].
  apply store_ok_savePlayer; [compute_done|done|done|].
  split; [|intros id p; simpl; by rewrite lookup_empty].
  split; [constructor|]. split; [|intros id p; simpl; by rewrite lookup_empty].
  intros id. simpl. rewrite lookup_empty. split; [by intros ?%elem_of_nil|by intros [? ?]].
Qed.



Local Close Scope string_scope.

(** ** Leaving *)

(** X14. [leaveGame] fails without a game ('No game exists') and for an id
    that is not in the store ('Player not found'), changing nothing.
    Otherwise it succeeds, whatever the status of the game and whether or
    not the player is of this game: the id is taken out of the game's list,
    whose other ids keep their order, and nothing else changes.  The player
    stays in the store: the players of the game, the live leaderboard and
    the players that [getGameState] lists are as before, and in the lobby
    the name of a player of the game who left stays taken.  The store and
    the roster stay in order. *)
Theorem leaveGame_spec clock playerId currentGame (w : World) :
  (currentGame = None -> leaveGame clock playerId currentGame w = (Failed NoGame, None, w))
  /\ (forall game, currentGame = Some game ->
        (w_players w !! playerId = None ->
           leaveGame clock playerId currentGame w = (Failed PlayerNotFound, currentGame, w))
        /\ (forall pl, w_players w !! playerId = Some pl ->
              exists game' w',
                leaveGame clock playerId currentGame w = (Succeeded (), Some game', w')
                /\ g_playerIds game' = filter (fun id => id <> playerId) (g_playerIds game)
                /\ g_status game' = g_status game /\ same_game game game'
                /\ g_startTime game' = g_startTime game /\ g_endTime game' = g_endTime game
                /\ (w_players w' = w_players w /\ w_playerKeys w' = w_playerKeys w
                    /\ w_orders w' = w_orders w /\ w_trades w' = w_trades w
                    /\ w_orderBooks w' = w_orderBooks w)
                /\ getPlayersByGame (g_gameId game') w' = getPlayersByGame (g_gameId game) w
                /\ (forall cfg, getLiveLeaderboard cfg (Some game') w'
                                = getLiveLeaderboard cfg (Some game) w)
                /\ (forall cfg now,
                      s_players <$> getGameState cfg now (Some game') w'
                      = s_players <$> getGameState cfg now (Some game) w)
                /\ (forall random toLowerCase cfg targetValue factor fuel name k,
                      players_filed w -> p_gameId pl = g_gameId game ->
                      g_status game = lobby ->
                      Z.of_nat (length (g_playerIds game')) < maxPlayers cfg ->
                      toLowerCase name = toLowerCase (p_name pl) ->
                      joinGame clock random toLowerCase cfg targetValue factor fuel name
                               (Some game') k w'
                      = Returns (Failed NameTaken, Some game', k, w'))
                /\ (store_ok w -> store_ok w')
                /\ (forall toLowerCase cfg,
                      roster_ok toLowerCase cfg game w -> roster_ok toLowerCase cfg game' w'))).
Proof.
  split; [by intros ->|]. intros game ->. unfold leaveGame. split; [by intros ->|].
  intros pl Hpl. rewrite Hpl. eexists _, _. split; [reflexivity|].
  set (w' := snd (Date_now clock w)).
  assert (w_players w' = w_players w) as Hp by done.
  assert (w_playerKeys w' = w_playerKeys w) as Hk by done.
  split; [done|]. split; [done|]. split; [by repeat split|]. split; [done|].
  split; [done|]. split; [done|]. split; [done|]. split; [done|]. split; [done|].
  split; [|split].
  - intros random toLowerCase cfg targetValue factor fuel name k Hfiled Hg Hs Hroom Hname.
    unfold joinGame. cbn [g_status g_gameId g_playerIds Game_removePlayer with_playerIds].
    cbn [g_playerIds Game_removePlayer with_playerIds] in Hroom.
    rewrite decide_False by (by intros ?). rewrite decide_False by lia.
    rewrite decide_True; [done|].
    apply (nameTaken_playerOfGame toLowerCase name (g_gameId game) w' Hfiled).
    by exists playerId, pl.
  - by apply store_ok_frame.
  - intros toLowerCase cfg Hro.
    apply (roster_ok_frame _ _ _ w w') in Hro; [|done..|reflexivity].
    destruct Hro as (Hg & Hnd & Hsub & Hlen & Hnames & Hinv).
    split; [done|]. split; [by apply NoDup_filter|]. split; [|split; [|done]].
    + intros x [_ Hx]%list_elem_of_filter. by apply Hsub.
    + cbn [g_playerIds Game_removePlayer with_playerIds].
      pose proof (length_filter (fun id => id <> playerId) (g_playerIds game)). lia.
Qed.

(** ** Creating and starting *)

(** X15. [createGame] refuses ('A game is already in progress') while the
    current game has not ended, and changes nothing then.  Without a game,
    or after the current one has ended, it makes the new current game: in
    the lobby, with an id that was not in use, the host and the
    configuration given, an empty list, no start or end time, created at the
    reading of the clock.  The store is not touched: players of earlier
    games stay filed, none of them under the new game, whose roster is in
    order. *)
Theorem createGame_spec clock cfg hostPlayerId currentGame (w : World) :
  (forall game, currentGame = Some game -> g_status game <> ended ->
     createGame clock cfg hostPlayerId currentGame w
     = (Failed GameInProgress, currentGame, w))
  /\ (currentGame = None \/ (exists game, currentGame = Some game /\ g_status game = ended) ->
      exists game' w',
        createGame clock cfg hostPlayerId currentGame w = (Succeeded game', Some game', w')
        /\ g_status game' = lobby /\ g_playerIds game' = []
        /\ g_hostPlayerId game' = hostPlayerId /\ g_config game' = cfg
        /\ g_startTime game' = None /\ g_endTime game' = None
        /\ g_createdAt game' = clock (w_ticks w)
        /\ (forall game, currentGame = Some game -> g_gameId game' <> g_gameId game
                                                   \/ ~ (g_gameId game < w_next w)%positive)
        /\ (w_players w' = w_players w /\ w_playerKeys w' = w_playerKeys w
            /\ w_orders w' = w_orders w /\ w_trades w' = w_trades w
            /\ w_orderBooks w' = w_orderBooks w)
        /\ (store_ok w ->
            store_ok w'
            /\ getPlayersByGame (g_gameId game') w' = []
            /\ forall toLowerCase, roster_ok toLowerCase cfg game' w')).
Proof.
  split.
  - intros game -> Hs. unfold createGame. by rewrite decide_True.
  - intros Hfree.
    assert (createGame clock cfg hostPlayerId currentGame w
            = (Succeeded (fst (new_Game clock cfg hostPlayerId w)),
               Some (fst (new_Game clock cfg hostPlayerId w)),
               snd (Date_now clock (snd (new_Game clock cfg hostPlayerId w))))) as ->.
    { unfold createGame. destruct Hfree as [->|(game & -> & Hs)]; [done|].
      by rewrite decide_False by (by intros ?). }
    eexists _, _. split; [reflexivity|].
    set (w' := snd (Date_now clock (snd (new_Game clock cfg hostPlayerId w)))).
    do 7 (split; [done|]). split; [|split; [done|]].
    + intros game _. simpl. destruct (decide (w_next w = g_gameId game)) as [<-|]; [|by left].
      right. lia.
    + intros Hst.
      assert (getPlayersByGame (w_next w) w' = []) as Hnone.
      { rewrite (getPlayersByGame_frame _ w w') by done. by apply no_player_of_next. }
      split; [apply (store_ok_frame w); [done..|simpl; lia|done]|]. split; [done|].
      intros toLowerCase. unfold roster_ok, playersOf. cbn [fst new_Game uuidv4 Date_now
        g_gameId g_playerIds]. rewrite Hnone. simpl.
      split; [lia|]. split; [constructor|]. split; [done|]. split; [lia|].
      split; constructor.
Qed.

(** X16. [startGame] refuses, in this order: without a game ('No game
    exists'); for a player who is not the host ('Only the host can start the
    game'); when the game is not in the lobby ('Game is already ' and its
    status); with fewer than two ids on the game's list ('Need at least 2
    players to start'); a refusal changes nothing.  Otherwise the game is
    running, started at the reading of the clock, with the same list, and
    the store is not touched; the time that remains is then the duration of
    the configuration less the seconds since that reading, and not below
    zero. *)
Theorem startGame_spec clock requestingPlayerId currentGame (w : World) :
  let start := startGame clock requestingPlayerId currentGame w in
  (currentGame = None -> start = (Failed NoGame, None, w))
  /\ (forall game, currentGame = Some game ->
        (g_hostPlayerId game <> requestingPlayerId ->
           start = (Failed OnlyHost, currentGame, w))
        /\ (g_hostPlayerId game = requestingPlayerId -> g_status game <> lobby ->
            start = (Failed (GameAlready (g_status game)), currentGame, w))
        /\ (g_hostPlayerId game = requestingPlayerId -> g_status game = lobby ->
            (length (g_playerIds game) < 2)%nat ->
            start = (Failed NeedTwoPlayers, currentGame, w))
        /\ (g_hostPlayerId game = requestingPlayerId -> g_status game = lobby ->
            (2 <= length (g_playerIds game))%nat ->
            exists game' w',
              start = (Succeeded game', Some game', w')
              /\ g_status game' = running
              /\ g_startTime game' = Some (clock (w_ticks w))
              /\ g_playerIds game' = g_playerIds game
              /\ same_game game game' /\ g_endTime game' = g_endTime game
              /\ (w_players w' = w_players w /\ w_playerKeys w' = w_playerKeys w
                  /\ w_orders w' = w_orders w /\ w_trades w' = w_trades w
                  /\ w_orderBooks w' = w_orderBooks w)
              /\ (forall now,
                    getRemainingTime now game'
                    = Qmax (inject_Z 0)
                           (inject_Z (gameDuration (g_config game))
                            - Qmake (now - clock (w_ticks w)) 1000)%Q)
              /\ (store_ok w -> store_ok w')
              /\ (forall toLowerCase cfg,
                    roster_ok toLowerCase cfg game w -> roster_ok toLowerCase cfg game' w'))).
Proof.
  intros start. unfold start, startGame. split; [by intros ->|]. intros game ->.
  split; [|split; [|split]].
  - intros Hh. by rewrite decide_True.
  - intros Hh Hs. rewrite decide_False by (by intros ?). by rewrite decide_True.
  - intros Hh Hs Hn. rewrite decide_False by (by intros ?).
    rewrite decide_False by (by intros ?). by rewrite decide_True.
  - intros Hh Hs Hn. rewrite decide_False by (by intros ?).
    rewrite decide_False by (by intros ?). rewrite decide_False by lia.
    eexists _, _. split; [reflexivity|].
    set (w' := snd (Date_now clock (snd (Date_now clock w)))).
    do 3 (split; [done|]). split; [by repeat split|]. do 2 (split; [done|]).
    split; [|split].
    + intros now. reflexivity.
    + by apply store_ok_frame.
    + intros toLowerCase cfg Hro.
      by apply (roster_ok_frame _ _ _ w w') in Hro; [|done..|reflexivity].
Qed.

(** ** The stages of a game *)

(** X17. The status of a game never goes back, and the game is replaced
    only once it has ended.  [joinGame] and [leaveGame] keep the status;
    [startGame] keeps it or takes the lobby to running; after [endGame]
    the game has ended; each of them keeps the game's id, host,
    configuration and creation time; [createGame] leaves a game that has
    not ended in place.  Once the game has ended, [joinGame], [startGame]
    and [endGame] fail and change nothing. *)
Theorem game_status_never_goes_back clock random toLowerCase cfg targetValue factor
    game (w : World) :
  (forall fuel name k r g' k' w',
     joinGame clock random toLowerCase cfg targetValue factor fuel name (Some game) k w
     = Returns (r, g', k', w') ->
     exists game', g' = Some game' /\ same_game game game'
                   /\ g_status game' = g_status game)
  /\ (forall playerId r g' w',
        leaveGame clock playerId (Some game) w = (r, g', w') ->
        exists game', g' = Some game' /\ same_game game game'
                      /\ g_status game' = g_status game)
  /\ (forall requestingPlayerId r g' w',
        startGame clock requestingPlayerId (Some game) w = (r, g', w') ->
        exists game', g' = Some game' /\ same_game game game'
                      /\ (g_status game' = g_status game
                          \/ g_status game = lobby /\ g_status game' = running))
  /\ (forall r g' w',
        endGame clock cfg (Some game) w = Some (r, g', w') ->
        exists game', g' = Some game' /\ same_game game game'
                      /\ g_status game' = ended)
  /\ (forall hostPlayerId r g' w',
        createGame clock cfg hostPlayerId (Some game) w = (r, g', w') ->
        g' = Some game \/ g_status game = ended)
  /\ (g_status game = ended ->
      (forall fuel name k,
         joinGame clock random toLowerCase cfg targetValue factor fuel name (Some game) k w
         = Returns (Failed (CannotJoin ended), Some game, k, w))
      /\ (forall requestingPlayerId,
            exists e, startGame clock requestingPlayerId (Some game) w
                      = (Failed e, Some game, w))
      /\ endGame clock cfg (Some game) w = Some (EndFailed, Some game, w)).
Proof.
  split; [|split; [|split; [|split; [|split]]]].
  - intros fuel name k r g' k' w' H.
    apply joinGame_inv in H as [(e & _ & -> & _)|(_ & _ & _ & inv & v & _ & _ & -> & _)].
    + exists game. split; [done|]. split; [by repeat split|done].
    + eexists. split; [done|]. unfold Game_addPlayer.
      destruct (decide _); (split; [by repeat split|done]).
  - intros playerId r g' w'. unfold leaveGame.
    destruct (w_players w !! playerId); intros [= <- <- <-];
      (eexists; split; [done|]; split; [by repeat split|done]).
  - intros requestingPlayerId r g' w'. unfold startGame.
    repeat (destruct (decide _);
            [intros [= <- <- <-]; exists game; split; [done|];
             split; [by repeat split|by left]|]).
    intros [= <- <- <-]. eexists. split; [done|]. split; [by repeat split|].
    right. split; [|done]. by apply dec_stable.
  - intros r g' w'. unfold endGame.
    destruct (decide (g_status game = ended)) as [Hs|Hs].
    + intros [= <- <- <-]. exists game. split; [done|]. split; [by repeat split|done].
    + destruct (Date_now clock w) as [endTime w1].
      destruct (scoreLoop _ _ _ _) as [[lb w2]|]; [|done].
      destruct (Date_now clock w2) as [t1 w3]. destruct (Date_now clock w3) as [t2 w4].
      intros [= <- <- <-]. eexists. split; [done|]. split; [by repeat split|done].
  - intros hostPlayerId r g' w'. unfold createGame.
    destruct (decide (g_status game <> ended)) as [Hs|Hs].
    + intros [= <- <- <-]. by left.
    + intros _. right. by apply dec_stable.
  - intros Hs. split; [|split].
    + intros fuel name k. unfold joinGame. rewrite decide_True by (by rewrite Hs).
      by rewrite Hs.
    + intros requestingPlayerId. unfold startGame.
      destruct (decide _); [by eexists|]. rewrite decide_True by (by rewrite Hs).
      by eexists.
    + unfold endGame. by rewrite decide_True.
Qed.

(** ** The live leaderboard *)

Lemma playersOf_ids gid w :
  players_filed w -> p_playerId <$> playersOf gid w = getPlayersByGame gid w.
Proof.
  intros (_ & _ & Hown). unfold playersOf, getPlayersByGame.
  induction (w_playerKeys w) as [|ref l IH]; [done|].
  rewrite filter_cons. destruct (decide _) as [Hg|_]; [|done].
  destruct (w_players w !! ref) as [pl|] eqn:E; [|done].
  change (omap (fun ref => w_players w !! ref) (ref :: filter _ l))
    with (match w_players w !! ref with
          | Some y => y :: omap (fun ref => w_players w !! ref)
                                (filter (fun ref => p_gameId <$> w_players w !! ref = Some gid) l)
          | None => omap (fun ref => w_players w !! ref)
                         (filter (fun ref => p_gameId <$> w_players w !! ref = Some gid) l)
          end).
  rewrite E, fmap_cons, IH. f_equal. by apply Hown.
Qed.

Lemma byEstimatedValueDesc_sorted l :
  StronglySorted (fun a b => l_estimatedValue b <= l_estimatedValue a)
                 (js_sort byEstimatedValueDesc l).
Proof.
  apply (js_sort_sorted byEstimatedValueDesc (fun _ => True)); [| | |by apply Forall_true].
  - intros a b _ _. unfold byEstimatedValueDesc. lia.
  - intros a b _ _. lia.
  - intros a b c _ _ _. lia.
Qed.

Lemma byEstimatedValueDesc_stable v l :
  filter (fun e => l_estimatedValue e = v) (js_sort byEstimatedValueDesc l)
  = filter (fun e => l_estimatedValue e = v) l.
Proof.
  apply (js_sort_stable byEstimatedValueDesc (fun _ => True)
           (fun a b => l_estimatedValue b <= l_estimatedValue a));
    [| | | |by apply Forall_true].
  - intros a b _ _. unfold byEstimatedValueDesc. lia.
  - intros a b _ _. lia.
  - intros a b c _ _ _. lia.
  - intros a b _ _ -> ->. lia.
Qed.

(** X18. The live leaderboard is empty without a game.  With one it has
    exactly one row for each player filed in the store under the game
    (also one who left the lobby), with the player's name, cash plus the
    scrap value of the whole inventory as estimated value, and the number of
    complete sets the inventory holds.  The estimated values descend, and
    of two rows with the same value the one of the player who joined
    first comes first. *)
Theorem getLiveLeaderboard_spec cfg game (w : World) :
  NoDup (products cfg) ->
  dom (setRecipe cfg) = list_to_set (products cfg) ->
  players_filed w ->
  map_Forall (fun _ pl => p_gameId pl = g_gameId game -> holds_all_products cfg pl)
             (w_players w) ->
  let lb := getLiveLeaderboard cfg (Some game) w in
  (forall id, id ∈ l_playerId <$> lb <-> exists pl, playerOfGame (g_gameId game) w id pl)
  /\ NoDup (l_playerId <$> lb)
  /\ (forall e, e ∈ lb ->
        exists pl, playerOfGame (g_gameId game) w (l_playerId e) pl
                   /\ l_name e = p_name pl
                   /\ l_estimatedValue e
                      = p_cash pl + spec_inventory_value (products cfg) (scrapValues cfg)
                                                         (p_inventory pl)
                   /\ l_completeSets e
                      = spec_complete_sets (products cfg) (setRecipe cfg) (p_inventory pl))
  /\ (forall i j ei ej, lb !! i = Some ei -> lb !! j = Some ej -> (i < j)%nat ->
        l_estimatedValue ej <= l_estimatedValue ei
        /\ (l_estimatedValue ei = l_estimatedValue ej
            -> filedBefore w (l_playerId ei) (l_playerId ej)))
  /\ getLiveLeaderboard cfg None w = [].
Proof.
  intros Hnd Hrec Hfiled Hall lb. pose proof Hfiled as (Hkeys & _ & Hown).
  set (rows := liveRow cfg <$> playersOf (g_gameId game) w).
  assert (l_playerId <$> rows = getPlayersByGame (g_gameId game) w) as Hids.
  { unfold rows. rewrite <- list_fmap_compose. by apply playersOf_ids. }
  assert (lb ≡ₚ rows) as Hperm by apply js_sort_perm.
  split; [|split; [|split; [|split; [|done]]]].
  - intros id. rewrite Hperm, Hids. by apply playerOfGame_elem.
  - rewrite Hperm, Hids. by apply NoDup_filter.
  - intros e. rewrite Hperm. intros (pl & -> & Hpl)%list_elem_of_fmap.
    apply playersOf_elem in Hpl as (ref & _ & Hpl & Hg).
    exists pl. simpl. rewrite (Hown ref pl Hpl). split; [done|]. split; [done|].
    destruct (Hall ref pl Hpl Hg) as [Hinv _]. split.
    + unfold getInventoryScrapValue. f_equal.
      apply scrapValueOf_products; [done|]. by apply dom_products.
    + apply getCompleteSets_products; [done|]. by apply dom_products.
  - intros i j ei ej Hi Hj Hlt.
    pose proof (before_lookup _ _ _ _ _ Hi Hj Hlt) as Hbefore.
    split; [exact (StronglySorted_before _ _ _ _ (byEstimatedValueDesc_sorted rows) Hbefore)|].
    intros Htie.
    apply (before_filter (fun e => l_estimatedValue e = l_estimatedValue ej)) in Hbefore;
      [|done..].
    unfold lb, getLiveLeaderboard in Hbefore. fold rows in Hbefore.
    rewrite byEstimatedValueDesc_stable in Hbefore.
    apply (before_filter (fun e => l_estimatedValue e = l_estimatedValue ej)) in Hbefore;
      [|done..].
    apply (before_fmap l_playerId) in Hbefore. rewrite Hids in Hbefore.
    unfold filedBefore. unfold getPlayersByGame in Hbefore.
    assert (forall e, e ∈ lb ->
              p_gameId <$> w_players w !! l_playerId e = Some (g_gameId game)) as Hin.
    { intros e He. rewrite Hperm in He. apply (list_elem_of_fmap_2 l_playerId) in He.
      rewrite Hids in He. by apply list_elem_of_filter in He as [? _]. }
    eapply before_filter; [| |exact Hbefore].
    + apply Hin. by eapply list_elem_of_lookup_2.
    + apply Hin. by eapply list_elem_of_lookup_2.
Qed.

Lemma getLiveLeaderboard_spec_witness :
  (fun e => (l_name e, l_estimatedValue e, l_completeSets e))
    <$> getLiveLeaderboard cfg8 (Some running_game) w_final
  = [("Carol", 100, 0); ("Bob", 56, 0); ("Alice", 46, 1)]%string
  /\ NoDup (l_playerId <$> getLiveLeaderboard cfg8 (Some running_game) w_final).
Proof.
  split; [vm_compute; reflexivity|].
  apply (getLiveLeaderboard_spec cfg8 running_game w_final).
  - compute_done.
  - compute_done.
  - apply players_filed_w_final.
  - compute_done.
Defined.

(** ** The open orders of the players *)

Ltac executeTrade_lists H inc rst pid :=
  cbv beta iota zeta delta [new_Trade Order_fill uuidv4 Date_now set_players set_orders
    set_trades w_players w_orders w_trades w_orderBooks w_next w_ticks w_playerKeys
    t_tradeId] in H;
  repeat match goal with Hl : _ !! _ = Some _ |- _ => clear Hl end;
  repeat (case_decide; world_proj in H);
  injection H as <- <-;
  cbv beta iota zeta delta [t_buyerId t_sellerId t_buyOrderId t_sellOrderId];
  world_proj;
  (destruct (decide (o_playerId inc = pid)) as [<-|?];
   [destruct (decide (o_playerId rst = o_playerId inc)) as [E|?]; [rewrite ?E|]
   |destruct (decide (o_playerId rst = pid)) as [<-|?]]);
  repeat (rewrite lookup_alter_eq || rewrite lookup_alter_ne by done);
  match goal with |- context [?m !! ?k] => destruct (m !! k) as [p|] end;
  simpl; try done;
  repeat case_decide; subst; try congruence; try tauto.

(** What a trade does to the lists of open orders: the order that it fills
    completely leaves the list of its owner. *)
Lemma executeTrade_openOrders clock incId rstId pl (w w1 : World) t :
  executeTrade clock incId rstId pl w = Returns (Some t, w1) ->
  forall pid,
    p_openOrderIds <$> w_players w1 !! pid
    = (fun l =>
         let l1 := if decide (t_buyerId t = pid
                              /\ o_status <$> w_orders w1 !! t_buyOrderId t = Some filled)
                   then filter (fun id => id <> t_buyOrderId t) l else l in
         if decide (t_sellerId t = pid
                    /\ o_status <$> w_orders w1 !! t_sellOrderId t = Some filled)
         then filter (fun id => id <> t_sellOrderId t) l1 else l1)
        <$> (p_openOrderIds <$> w_players w !! pid).
Proof.
  intros H pid. unfold executeTrade in H.
  destruct (w_orders w !! incId) as [inc|]; [|done].
  destruct (w_orders w !! rstId) as [rst|]; [|done].
  destruct w as [players keys orders trades books next ticks].
  world_proj in H. world_proj.
  destruct (o_side inc).
  - destruct (players !! o_playerId inc) as [b|] eqn:Hb; [|done].
    destruct (players !! o_playerId rst) as [s|] eqn:Hs; [|done].
    destruct (decide (p_cash b < _)) as [Hc|Hc]; [done|].
    destruct (decide (inventoryOf _ _ < _)) as [Hi|Hi]; [done|].
    executeTrade_lists H inc rst pid.
  - destruct (players !! o_playerId rst) as [b|] eqn:Hb; [|done].
    destruct (players !! o_playerId inc) as [s|] eqn:Hs; [|done].
    destruct (decide (p_cash b < _)) as [Hc|Hc]; [done|].
    destruct (decide (inventoryOf _ _ < _)) as [Hi|Hi]; [done|].
    executeTrade_lists H inc rst pid.
Qed.

Lemma filter_if_ne (C : Prop) `{!Decision C} (x : uuid) (l : list uuid) :
  (if decide C then filter (fun id => id <> x) l else l)
  = filter (fun id => ~ (id = x /\ C)) l.
Proof.
  destruct (decide C) as [HC|HC].
  - apply list_filter_iff. intros id. tauto.
  - symmetry. apply filter_all. apply Forall_forall. intros id _. tauto.
Qed.

(** The same in terms of the two orders of the trade. *)
Lemma executeTrade_removed clock incId rstId pl (w w1 : World) inc rst t :
  w_orders w !! incId = Some inc -> w_orders w !! rstId = Some rst ->
  executeTrade clock incId rstId pl w = Returns (Some t, w1) ->
  forall pid,
    p_openOrderIds <$> w_players w1 !! pid
    = filter (fun id =>
                ~ (id = incId /\ o_playerId inc = pid
                   /\ o_status <$> w_orders w1 !! incId = Some filled)
                /\ ~ (id = rstId /\ o_playerId rst = pid
                      /\ o_status <$> w_orders w1 !! rstId = Some filled))
        <$> (p_openOrderIds <$> w_players w !! pid).
Proof.
  intros Hinc Hrst Hex pid. rewrite (executeTrade_openOrders _ _ _ _ _ _ _ Hex pid).
  destruct (executeTrade_inv _ _ _ _ _ _ _ Hex) as (inc' & rst' & Hinc' & Hrst' & Ht & _).
  assert (inc' = inc) as -> by congruence. assert (rst' = rst) as -> by congruence.
  rewrite Ht. cbn [t_buyerId t_sellerId t_buyOrderId t_sellOrderId].
  unfold buyerOf, sellerOf, buyOrderOf, sellOrderOf.
  destruct (w_players w !! pid) as [p|]; [|done]. simpl. f_equal.
  rewrite !filter_if_ne, list_filter_filter.
  apply list_filter_iff. intros id. destruct (o_side inc); tauto.
Qed.

(** The two orders after the trade. *)
Lemma executeTrade_filled clock incId rstId pl (w w1 : World) inc rst t :
  w_orders w !! incId = Some inc -> w_orders w !! rstId = Some rst ->
  incId <> rstId ->
  executeTrade clock incId rstId pl w = Returns (Some t, w1) ->
  let q := Z.min (o_remainingQuantity inc) (o_remainingQuantity rst) in
  (exists ts upd,
     w_orders w1 !! incId = Some (Order_filled (w_next w) q (o_price rst) ts upd inc))
  /\ (exists ts upd,
        w_orders w1 !! rstId = Some (Order_filled (w_next w) q (o_price rst) ts upd rst)).
Proof.
  intros Hinc Hrst Hne Hex q.
  destruct (executeTrade_inv _ _ _ _ _ _ _ Hex)
    as (inc' & rst' & Hinc' & Hrst' & _ & _ & _ & Ho & _).
  assert (inc' = inc) as -> by congruence. assert (rst' = rst) as -> by congruence.
  fold q in Ho. rewrite Ho. unfold buyOrderOf, sellOrderOf.
  destruct (o_side inc); split; eexists _, _;
    repeat (rewrite lookup_alter_eq || rewrite lookup_alter_ne by done);
    by rewrite ?Hinc, ?Hrst.
Qed.

Lemma Order_filled_status tid q price ts upd o :
  o_status (Order_filled tid q price ts upd o)
  = if decide (o_remainingQuantity o - q <= 0) then filled else partial.
Proof. reflexivity. Qed.

Lemma Order_filled_remaining tid q price ts upd o :
  o_remainingQuantity (Order_filled tid q price ts upd o) = o_remainingQuantity o - q.
Proof. reflexivity. Qed.

Lemma cleanup_side h s book :
  book_side s (cleanup h book) = filter (restingAt h) (book_side s book).
Proof. by destruct s. Qed.

Lemma matchLoop_open_orders clock fuel incId pl trades (w : World) trades' w' :
  open_orders_inv incId w ->
  matchLoop clock fuel incId pl trades w = Returns (trades', w') ->
  open_orders_inv incId w'.
Proof.
  intros Hinv H.
  refine (matchLoop_rule clock incId pl (fun _ w => open_orders_inv incId w)
            _ fuel trades w trades' w' Hinv H).
  clear. intros _ w inc book oppId opp t w1 ((H1 & H2 & H3) & Hnb & Hres)
                Hinc Hrem Hbook Hbest Hopp _ _ Hex.
  rewrite bestOpposing_head in Hbest.
  assert (oppId ∈ filter (restingAt (w_orders w)) (book_side (opposite (o_side inc)) book))
    as Hoppin.
  { destruct (filter _ _) as [|x l]; [done|]. injection Hbest as ->. by left. }
  apply list_elem_of_filter in Hoppin as [Hoppr Hoppin].
  assert (isResting opp) as Hoppres by (unfold restingAt in Hoppr; by rewrite Hopp in Hoppr).
  assert (incId <> oppId) as Hne.
  { intros ->. by apply (Hnb _ _ _ Hbook) in Hoppin. }
  destruct (executeTrade_filled _ _ _ _ _ _ _ _ _ Hinc Hopp Hne Hex)
    as [(ts1 & u1 & Hinc1) (ts2 & u2 & Hopp1)].
  destruct (executeTrade_orders _ _ _ _ _ _ _ _ _ Hinc Hopp Hne Hex)
    as (_ & Hother & Hstable & Hdom & _ & Hbooks & _).
  pose proof (executeTrade_removed _ _ _ _ _ _ _ _ _ Hinc Hopp Hex) as Hlists.
  set (q := Z.min (o_remainingQuantity inc) (o_remainingQuantity opp)) in *.
  set (w2 := set_orderBooks (alter (cleanup (w_orders w1)) (o_product inc)) w1).
  assert (w_orders w2 = w_orders w1) as Ho2 by (by destruct w1).
  assert (w_players w2 = w_players w1) as Hp2 by (by destruct w1).
  assert (w_orderBooks w2 = alter (cleanup (w_orders w1)) (o_product inc) (w_orderBooks w))
    as Hb2 by (rewrite <- Hbooks; by destruct w1).
  (* the books of [w2] are parts of those of [w], and hold what rests *)
  assert (forall p book2 s id,
            w_orderBooks w2 !! p = Some book2 -> id ∈ book_side s book2 ->
            exists book0, w_orderBooks w !! p = Some book0 /\ id ∈ book_side s book0)
    as Hsub.
  { intros p book2 s id. rewrite Hb2.
    destruct (decide (o_product inc = p)) as [<-|Hp].
    - rewrite lookup_alter_eq, Hbook. intros [= <-]. rewrite cleanup_side.
      intros [_ Hin]%list_elem_of_filter. by exists book.
    - rewrite lookup_alter_ne by done. intros Hb Hin. by exists book2. }
  assert (forall p book0 s id,
            w_orderBooks w !! p = Some book0 -> id ∈ book_side s book0 ->
            restingAt (w_orders w1) id ->
            exists book2, w_orderBooks w2 !! p = Some book2 /\ id ∈ book_side s book2)
    as Hkeep.
  { intros p book0 s id Hb Hin Hr. rewrite Hb2.
    destruct (decide (o_product inc = p)) as [<-|Hp].
    - rewrite lookup_alter_eq, Hb. eexists. split; [done|]. rewrite cleanup_side.
      by apply list_elem_of_filter.
    - rewrite lookup_alter_ne by done. by exists book0. }
  (* an order that is listed after the trade rests after it *)
  assert (forall pid pl2 id o,
            w_players w2 !! pid = Some pl2 -> id ∈ p_openOrderIds pl2 ->
            w_orders w !! id = Some o -> o_playerId o = pid -> isResting o -> id <> incId ->
            exists o', w_orders w1 !! id = Some o' /\ isResting o'
                       /\ stableFields o o')
    as Hrests.
  { intros pid pl2 id o Hpl2 Hid Ho Hown Hr Hni.
    destruct (Hstable id o Ho) as (o' & Ho' & Hst). exists o'. split; [done|].
    split; [|done].
    destruct (decide (id = oppId)) as [->|Hno].
    - assert (o = opp) as -> by congruence.
      rewrite Hopp1 in Ho'. injection Ho' as <-.
      unfold isResting. rewrite Order_filled_status. destruct (decide _) as [Hle|]; [|by right].
      exfalso. specialize (Hlists pid). rewrite <- Hp2, Hpl2 in Hlists.
      destruct (w_players w !! pid) as [pl0|]; [|done]. simpl in Hlists.
      injection Hlists as Hl. rewrite Hl in Hid.
      apply list_elem_of_filter in Hid as [[_ Hn] _]. apply Hn.
      split; [done|]. split; [done|]. rewrite Hopp1. simpl.
      by rewrite decide_True.
    - rewrite Hother in Ho' by done. by assert (o' = o) as -> by congruence. }
  split; [split; [|split]|split].
  - intros pid pl2 id Hpl2 Hid.
    pose proof (Hlists pid) as Hl. rewrite <- Hp2, Hpl2 in Hl.
    destruct (w_players w !! pid) as [pl0|] eqn:Hpl0; [|done]. simpl in Hl.
    injection Hl as Hl. pose proof Hid as Hid0. rewrite Hl in Hid0.
    apply list_elem_of_filter in Hid0 as [_ Hid0].
    destruct (H1 pid pl0 id Hpl0 Hid0) as (o & Ho & Hown & Hr & book0 & Hb0 & Hin0).
    assert (id <> incId) as Hni.
    { intros ->. by apply (Hnb _ _ _ Hb0) in Hin0. }
    destruct (Hrests pid pl2 id o Hpl2 Hid Ho Hown Hr Hni)
      as (o' & Ho' & Hr' & (_ & Hown' & Hprod' & Hside' & _)).
    exists o'. rewrite Ho2. split; [done|]. split; [congruence|]. split; [done|].
    rewrite Hprod', Hside'. apply (Hkeep _ _ _ _ Hb0 Hin0).
    unfold restingAt. by rewrite Ho'.
  - intros p book2 s id o' Hb2' Hin2 Ho' Hr'. rewrite Ho2 in Ho'.
    destruct (Hsub _ _ _ _ Hb2' Hin2) as (book0 & Hb0 & Hin0).
    assert (id <> incId) as Hni.
    { intros ->. by apply (Hnb _ _ _ Hb0) in Hin0. }
    assert (is_Some (w_orders w !! id)) as [o Ho] by (apply Hdom; by eexists).
    destruct (Hstable id o Ho) as (o'' & Ho'' & (_ & Hown' & _)).
    assert (o'' = o') as -> by congruence.
    assert (isResting o) as Hr.
    { destruct (decide (id = oppId)) as [->|Hno]; [by assert (o = opp) as -> by congruence|].
      rewrite Hother in Ho' by done. by assert (o' = o) as -> by congruence. }
    destruct (H2 _ _ _ _ _ Hb0 Hin0 Ho Hr) as (pl0 & Hpl0 & Hid0).
    pose proof (Hlists (o_playerId o)) as Hl. rewrite Hpl0 in Hl. simpl in Hl.
    rewrite Hp2, Hown'.
    destruct (w_players w1 !! o_playerId o) as [pl2|]; [|done].
    exists pl2. split; [done|]. injection Hl as ->.
    apply list_elem_of_filter. split; [|done]. split.
    + intros (-> & _). done.
    + intros (-> & _ & Hf). rewrite Ho' in Hf. simpl in Hf. injection Hf as Hf.
      destruct Hr' as [Hr'|Hr']; congruence.
  - intros pid pl2 Hpl2. pose proof (Hlists pid) as Hl. rewrite <- Hp2, Hpl2 in Hl.
    destruct (w_players w !! pid) as [pl0|] eqn:Hpl0; [|done]. simpl in Hl.
    injection Hl as ->. apply NoDup_filter. by eapply H3.
  - intros p book2 s Hb2' Hin2. destruct (Hsub _ _ _ _ Hb2' Hin2) as (book0 & Hb0 & Hin0).
    by apply (Hnb _ _ _ Hb0) in Hin0.
  - intros inc'. rewrite Ho2, Hinc1. intros [= <-]. rewrite Order_filled_remaining.
    fold q. intros Hq. unfold isResting. rewrite Order_filled_status. fold q.
    rewrite decide_False by lia. by right.
Qed.

Lemma addOrder_elem h ref o book s id :
  h !! ref = Some o ->
  id ∈ book_side s (OrderBook_addOrder h ref book)
  <-> id ∈ book_side s book \/ (id = ref /\ s = o_side o).
Proof.
  intros Ho. rewrite (OrderBook_addOrder_side h ref o book s Ho).
  destruct (decide (s = o_side o)) as [->|Hs].
  - rewrite js_sort_perm, elem_of_app, list_elem_of_singleton. tauto.
  - tauto.
Qed.

Lemma Player_addOrder_elem_inv order p id :
  id ∈ p_openOrderIds (Player_addOrder order p) <-> id ∈ p_openOrderIds p \/ id = order.
Proof.
  unfold Player_addOrder. destruct (decide (order ∈ p_openOrderIds p)) as [Hin|Hin].
  - split; [by left|]. by intros [?| ->].
  - simpl. by rewrite elem_of_app, list_elem_of_singleton.
Qed.

Lemma Player_addOrder_NoDup order p :
  NoDup (p_openOrderIds p) -> NoDup (p_openOrderIds (Player_addOrder order p)).
Proof.
  intros Hnd. unfold Player_addOrder.
  destruct (decide (order ∈ p_openOrderIds p)) as [Hin|Hin]; [done|]. simpl.
  apply NoDup_app. split; [done|]. split; [|apply NoDup_singleton].
  intros x Hx ->%list_elem_of_singleton. done.
Qed.

(** The world in which the order has been created. *)
Lemma new_Order_open_orders clock gameId playerId playerName product side orderType
    quantity price (w : World) :
  book_wf w -> open_orders_ok w ->
  open_orders_inv (w_next w)
    (snd (new_Order clock gameId playerId playerName product side orderType quantity price w)).
Proof.
  intros Hwf (H1 & H2 & H3).
  destruct (new_Order_spec clock gameId playerId playerName product side orderType
              quantity price w) as (_ & Ho & Hp & _ & _ & Hb & _).
  cbv zeta in Ho, Hp, Hb.
  set (w1 := snd (new_Order _ _ _ _ _ _ _ _ _ _)) in *.
  pose proof (book_wf_fresh w Hwf) as Hfresh.
  split; [split; [|split]|split].
  - intros pid pl id. rewrite Hp, Ho, Hb. intros Hpl Hid.
    destruct (H1 pid pl id Hpl Hid) as (o & Hoid & Hrest).
    exists o. split; [|done]. rewrite lookup_insert_ne; [done|]. by intros <-; congruence.
  - intros p book s id o. rewrite Hb, Ho, Hp. intros Hbook Hin.
    rewrite lookup_insert_ne
      by (intros <-; by eapply (book_wf_not_fresh w p book s)).
    by apply (H2 p book s).
  - intros pid pl. rewrite Hp. apply H3.
  - intros p book s. rewrite Hb. intros Hbook Hin.
    by eapply (book_wf_not_fresh w p book s).
  - intros inc. rewrite Ho, lookup_insert_eq. intros [= <-] _. by left.
Qed.

Lemma submitOrder_open_orders clock cfg fuel gameId player product side orderType
    quantity price (w w' : World) res :
  book_wf w -> players_filed w -> open_orders_ok w ->
  submitOrder clock cfg fuel gameId player product side orderType quantity price w
  = Returns (res, w') ->
  open_orders_ok w'.
Proof.
  intros Hwf Hfiled Hok H.
  apply submitOrder_inv in H as [(e & _ & _ & ->)|(pl & trades & w2 & _ & Hpl & Hm & Hr)];
    [done|].
  destruct (new_Order_spec clock gameId (p_playerId pl) (p_name pl) product side orderType
              quantity price w) as (Hid & Ho1 & Hp1 & _ & _ & Hb1 & _).
  cbv zeta in Hid, Ho1, Hp1, Hb1.
  pose proof (new_Order_open_orders clock gameId (p_playerId pl) (p_name pl) product side
                orderType quantity price w Hwf Hok) as Hinv1.
  set (r := new_Order _ _ _ _ _ _ _ _ _ _) in *.
  rewrite Hid in Hm, Hr. set (order := w_next w) in *.
  unfold matchOrder in Hm.
  assert (w_orders (snd r) !! order = Some
            (mkOrder order gameId (p_playerId pl) (p_name pl) product side orderType
                     quantity quantity price open [] (clock (w_ticks w))
                     (clock (S (w_ticks w))))) as Hinc
    by (rewrite Ho1; apply lookup_insert_eq).
  assert (forall product book s, w_orderBooks (snd r) !! product = Some book ->
            NoDup (book_side s book) /\ order ∉ book_side s book) as Hbooks.
  { intros p b s. rewrite Hb1. intros Hb. split.
    - by destruct (proj2 Hwf _ _ Hb s) as (? & _).
    - intros Hin. by eapply book_wf_not_fresh. }
  pose proof (matchLoop_loop_inv _ _ _ _ _ _ _ _ Hinc Hbooks Hm) as (Hst & _).
  destruct (Hst _ _ Hinc) as (o2 & Ho2 & _ & Hown2 & Hprod2 & Hside2 & _).
  cbn in Hown2, Hprod2, Hside2.
  assert (p_playerId pl = player) as Hplayer by (destruct Hfiled as (_ & _ & Hf); by apply Hf).
  destruct (matchLoop_open_orders _ _ _ _ _ _ _ _ Hinv1 Hm) as ((H1 & H2 & H3) & Hnb & Hres).
  assert (is_Some (w_players w2 !! player)) as [pl2 Hpl2].
  { eapply matchLoop_players; [exact Hm|]. rewrite Hp1. by eexists. }
  apply restRemainder_inv in Hr as (_ & o & Ho & [[_ ->]|(Hrem & book & Hbook & Hw')]);
    [done|].
  assert (o = o2) as -> by congruence. cbv zeta in Hw'.
  destruct Hw' as (Ho' & Hb' & Hp' & _).
  set (orders' := match orderType with
                  | limit => w_orders w2
                  | market => alter (with_limit_price
                                       (match side with buy => 999999 | sell => 1 end))
                                    order (w_orders w2)
                  end) in *.
  assert (exists o2', orders' !! order = Some o2' /\ isResting o2'
                      /\ o_playerId o2' = player /\ o_product o2' = product
                      /\ o_side o2' = side) as (o2' & Ho2' & Hr2' & Hown2' & Hprod2' & Hside2').
  { unfold orders'. destruct orderType.
    - exists o2. split; [done|]. split; [by apply Hres|]. split; [congruence|done].
    - eexists. rewrite lookup_alter_eq, Ho2. split; [done|].
      split; [by apply (Hres o2)|]. split; [simpl; congruence|done]. }
  assert (forall id, id <> order -> orders' !! id = w_orders w2 !! id) as Hoth.
  { intros id Hne. unfold orders'. destruct orderType; [done|].
    by rewrite lookup_alter_ne. }
  split; [|split].
  - intros pid pl' id. rewrite Hp', Ho', Hb'. intros Hpl' Hidl.
    assert (id = order \/ exists pl0, w_players w2 !! pid = Some pl0
                                      /\ id ∈ p_openOrderIds pl0) as [->|(pl0 & Hpl0 & Hid0)].
    { destruct (decide (player = pid)) as [<-|Hne].
      - rewrite lookup_alter_eq, Hpl2 in Hpl'. injection Hpl' as <-.
        apply Player_addOrder_elem_inv in Hidl as [Hin| ->]; [right|by left].
        by exists pl2.
      - rewrite lookup_alter_ne in Hpl' by done. right. by exists pl'. }
    + assert (pid = player) as ->.
      { destruct (decide (player = pid)) as [|Hne]; [done|].
        rewrite lookup_alter_ne in Hpl' by done.
        destruct (H1 _ _ _ Hpl' Hidl) as (? & _ & _ & _ & b & Hb & Hin).
        by apply (Hnb _ _ _ Hb) in Hin. }
      exists o2'. split; [done|]. split; [done|]. split; [done|].
      rewrite Hprod2', lookup_insert_eq. eexists. split; [done|].
      apply (addOrder_elem _ _ _ _ _ _ Ho2'). by right.
    + destruct (H1 _ _ _ Hpl0 Hid0) as (o & Hoid & Hown & Hr & b & Hb & Hin).
      assert (id <> order) as Hne by (intros ->; by apply (Hnb _ _ _ Hb) in Hin).
      exists o. rewrite Hoth by done. split; [done|]. split; [done|]. split; [done|].
      destruct (decide (product = o_product o)) as [Hp|Hp].
      * rewrite <- Hp, lookup_insert_eq. eexists. split; [done|].
        apply (addOrder_elem _ _ _ _ _ _ Ho2'). left.
        rewrite <- Hp in Hb. by assert (b = book) as -> by congruence.
      * rewrite lookup_insert_ne by done. by exists b.
  - intros p book2 s id o'. rewrite Hb', Ho', Hp'. intros Hb2 Hin2 Hoid Hr.
    destruct (decide (id = order)) as [->|Hne].
    + assert (o' = o2') as -> by congruence. rewrite Hown2', lookup_alter_eq, Hpl2.
      eexists. split; [done|]. apply Player_addOrder_elem.
    + rewrite Hoth in Hoid by done.
      assert (exists b, w_orderBooks w2 !! p = Some b /\ id ∈ book_side s b)
        as (b & Hb & Hin).
      { destruct (decide (product = p)) as [<-|Hp].
        - rewrite lookup_insert_eq in Hb2. injection Hb2 as <-.
          apply (addOrder_elem _ _ _ _ _ _ Ho2') in Hin2 as [Hin2|[-> _]]; [|done].
          by exists book.
        - rewrite lookup_insert_ne in Hb2 by done. by exists book2. }
      destruct (H2 _ _ _ _ _ Hb Hin Hoid Hr) as (pl0 & Hpl0 & Hid0).
      destruct (decide (player = o_playerId o')) as [Heq|Hp].
      * rewrite <- Heq in *. rewrite lookup_alter_eq, Hpl0. eexists. split; [done|].
        apply Player_addOrder_elem_inv. by left.
      * rewrite lookup_alter_ne by done. by exists pl0.
  - intros pid pl'. rewrite Hp'. destruct (decide (player = pid)) as [<-|Hne].
    + rewrite lookup_alter_eq, Hpl2. intros [= <-].
      apply Player_addOrder_NoDup. by eapply H3.
    + rewrite lookup_alter_ne by done. apply H3.
Qed.

Lemma removeOrder_side orderId book s :
  book_side s (OrderBook_removeOrder orderId book)
  = filter (fun id => id <> orderId) (book_side s book).
Proof. by destruct s. Qed.

Lemma cancelOrder_open_orders clock orderId playerId (w w' : World) res :
  open_orders_ok w ->
  cancelOrder clock orderId playerId w = Returns (res, w') ->
  open_orders_ok w'.
Proof.
  intros (H1 & H2 & H3) H.
  apply cancelOrder_cases in H
    as [(-> & _)|(_ & Hown & o & book & Ho & Hbook & Hp' & Ho' & Hb' & _)]; [done|].
  unfold ownResting in Hown. rewrite Ho in Hown. destruct Hown as [Hown Hrest].
  split; [|split].
  - intros pid pl' id. rewrite Hp', Ho', Hb'. intros Hpl' Hid.
    assert (id <> orderId /\ exists pl0, w_players w !! pid = Some pl0
                                         /\ id ∈ p_openOrderIds pl0)
      as (Hne & pl0 & Hpl0 & Hid0).
    { destruct (decide (playerId = pid)) as [<-|Hne].
      - rewrite lookup_alter_eq in Hpl'.
        destruct (w_players w !! playerId) as [pl0|]; [|done]. injection Hpl' as <-.
        apply list_elem_of_filter in Hid as [Hne Hid]. split; [done|]. by exists pl0.
      - rewrite lookup_alter_ne in Hpl' by done. split; [|by exists pl'].
        intros ->. destruct (H1 _ _ _ Hpl' Hid) as (o0 & Ho0 & Hown0 & _). congruence. }
    destruct (H1 _ _ _ Hpl0 Hid0) as (o0 & Ho0 & Hown0 & Hr0 & b & Hb & Hin).
    exists o0. rewrite lookup_alter_ne by done. split; [done|]. split; [done|].
    split; [done|]. destruct (decide (o_product o = o_product o0)) as [Hp|Hp].
    + rewrite <- Hp, lookup_insert_eq. eexists. split; [done|].
      rewrite removeOrder_side. apply list_elem_of_filter. split; [done|].
      rewrite <- Hp in Hb. by assert (b = book) as -> by congruence.
    + rewrite lookup_insert_ne by done. by exists b.
  - intros p book2 s id o'. rewrite Hb', Ho', Hp'. intros Hb2 Hin2 Hoid Hr.
    destruct (decide (id = orderId)) as [->|Hne].
    { rewrite lookup_alter_eq, Ho in Hoid. injection Hoid as <-.
      destruct Hr as [Hr|Hr]; simpl in Hr; discriminate. }
    rewrite lookup_alter_ne in Hoid by done.
    assert (exists b, w_orderBooks w !! p = Some b /\ id ∈ book_side s b) as (b & Hb & Hin).
    { destruct (decide (o_product o = p)) as [<-|Hp].
      - rewrite lookup_insert_eq in Hb2. injection Hb2 as <-.
        rewrite removeOrder_side in Hin2. apply list_elem_of_filter in Hin2 as [_ Hin2].
        by exists book.
      - rewrite lookup_insert_ne in Hb2 by done. by exists book2. }
    destruct (H2 _ _ _ _ _ Hb Hin Hoid Hr) as (pl0 & Hpl0 & Hid0).
    destruct (decide (playerId = o_playerId o')) as [Heq|Hp].
    + rewrite <- Heq in *. rewrite lookup_alter_eq, Hpl0. eexists. split; [done|].
      simpl. by apply list_elem_of_filter.
    + rewrite lookup_alter_ne by done. by exists pl0.
  - intros pid pl'. rewrite Hp'. destruct (decide (playerId = pid)) as [<-|Hne].
    + rewrite lookup_alter_eq. destruct (w_players w !! playerId) as [pl0|] eqn:E; [|done].
      intros [= <-]. simpl. apply NoDup_filter. by eapply H3.
    + rewrite lookup_alter_ne by done. apply H3.
Qed.

Lemma filter_none {A : Type} (P : A -> Prop) `{!forall x, Decision (P x)} (l : list A) :
  Forall (fun x => ~ P x) l -> filter P l = [].
Proof.
  induction 1 as [|x l Hx _ IH]; [done|]. by rewrite filter_cons_False.
Qed.

Lemma cancelEach_open_orders clock ids playerId (w w' : World) pl :
  open_orders_ok w -> w_players w !! playerId = Some pl ->
  cancelEach clock ids playerId w = Returns w' ->
  open_orders_ok w'
  /\ exists pl', w_players w' !! playerId = Some pl'
                 /\ p_openOrderIds pl' = filter (fun id => id ∉ ids) (p_openOrderIds pl).
Proof.
  revert w pl. induction ids as [|id rest IH]; intros w pl Hok Hpl; simpl.
  - intros [= <-]. split; [done|]. exists pl. split; [done|].
    symmetry. apply filter_all, Forall_forall. intros x _. apply not_elem_of_nil.
  - destruct (cancelOrder clock id playerId w) as [[r w1]| |] eqn:Hc; [|done..].
    intros Hrest. pose proof (cancelOrder_open_orders _ _ _ _ _ _ Hok Hc) as Hok1.
    assert (exists pl1, w_players w1 !! playerId = Some pl1
                        /\ p_openOrderIds pl1
                           = filter (fun x => x <> id) (p_openOrderIds pl))
      as (pl1 & Hpl1 & Hl1).
    { apply cancelOrder_cases in Hc as [(-> & Hn & _)|(_ & _ & o & b & _ & _ & Hp' & _)].
      - exists pl. split; [done|]. symmetry. apply filter_all, Forall_forall.
        intros x Hx ->. apply Hn. destruct Hok as (H1 & _).
        destruct (H1 _ _ _ Hpl Hx) as (o & Ho & Hown & Hr & _).
        unfold ownResting. by rewrite Ho.
      - rewrite Hp', lookup_alter_eq, Hpl. by eexists. }
    destruct (IH w1 pl1 Hok1 Hpl1 Hrest) as (Hok' & pl' & Hpl' & Hl').
    split; [done|]. exists pl'. split; [done|].
    rewrite Hl', Hl1, list_filter_filter. apply list_filter_iff. intros x.
    rewrite not_elem_of_cons. tauto.
Qed.

(** X19. The lists of open orders and the books agree, from a new engine
    with players who have no open order on, through every submission,
    cancellation and sweep of a player's orders that returns: every id that a
    player lists is an order of that player, open or partial, and on its
    side of the book of its product; every open or partial order on a book
    is listed by its owner; no id is listed twice.  After
    [cancelAllPlayerOrders] the player lists no order. *)
Theorem open_orders_invariant clock cfg :
  (forall w,
     (forall pid pl, w_players w !! pid = Some pl -> p_openOrderIds pl = []) ->
     (forall p book s, w_orderBooks w !! p = Some book -> book_side s book = []) ->
     open_orders_ok w)
  /\ (forall fuel gameId player product side orderType quantity price w w' res,
        book_wf w -> players_filed w -> open_orders_ok w ->
        submitOrder clock cfg fuel gameId player product side orderType quantity price w
        = Returns (res, w') ->
        open_orders_ok w')
  /\ (forall orderId playerId w w' res,
        open_orders_ok w -> cancelOrder clock orderId playerId w = Returns (res, w') ->
        open_orders_ok w')
  /\ (forall playerId w w',
        open_orders_ok w -> cancelAllPlayerOrders clock playerId w = Returns w' ->
        open_orders_ok w'
        /\ forall pl', w_players w' !! playerId = Some pl' -> p_openOrderIds pl' = []).
Proof.
  split; [|split; [|split]].
  - intros w Hnone Hempty. split; [|split].
    + intros pid pl id Hpl. rewrite (Hnone _ _ Hpl). by intros ?%elem_of_nil.
    + intros p book s id o Hb. rewrite (Hempty _ _ s Hb). by intros ?%elem_of_nil.
    + intros pid pl Hpl. rewrite (Hnone _ _ Hpl). constructor.
  - intros. by eapply submitOrder_open_orders.
  - intros. by eapply cancelOrder_open_orders.
  - intros playerId w w' Hok. unfold cancelAllPlayerOrders.
    destruct (w_players w !! playerId) as [pl|] eqn:Hpl.
    + intros Hc. destruct (cancelEach_open_orders _ _ _ _ _ _ Hok Hpl Hc)
        as (Hok' & pl' & Hpl' & Hl').
      split; [done|]. intros pl'' Hpl''. assert (pl'' = pl') as -> by congruence.
      rewrite Hl'. apply filter_none, Forall_forall. by intros x Hx Hn.
    + intros [= <-]. split; [done|]. intros pl'. by rewrite Hpl.
Qed.

Lemma open_orders_invariant_witness : open_orders_ok w_alice_ask.
Proof.
  destruct (open_orders_invariant ticking_clock cfg8) as (Hnew & Hsubmit & _).
  unfold w_alice_ask.
  destruct (submitOrder ticking_clock cfg8 10 game1 10%positive "bread" sell limit 1 (Some 3) w0)
    as [[res w']| |] eqn:E; [|vm_compute in E; discriminate..].
  simpl. eapply Hsubmit; [apply book_wf_w0|apply store_ok_w0| |exact E].
  apply Hnew.
  - assert (map_Forall (fun _ pl => p_openOrderIds pl = []) (w_players w0)) as H
      by compute_done.
    exact H.
  - assert (map_Forall (fun _ book => bids book = [] /\ asks book = []) (w_orderBooks w0))
      as H by compute_done.
    intros p book s Hb. destruct (H p book Hb). by destruct s.
Defined.

(** ** What a player is shown *)

(** X20. [getPlayerState] is [null] for an id that is not in the store.
    Otherwise it shows the player's cash and inventory, the scrap value of
    the inventory and the number of complete sets in it, and, when the lists
    and the books agree, exactly the player's orders that rest on the books:
    one for each id the player lists, each of them the player's own and open
    or partial, and every open or partial order of the player that is on a
    book among them. *)
Theorem getPlayerState_spec cfg playerId (w : World) :
  (w_players w !! playerId = None -> getPlayerState cfg playerId w = None)
  /\ (forall pl, w_players w !! playerId = Some pl ->
        exists st,
          getPlayerState cfg playerId w = Some st
          /\ ps_name st = p_name pl /\ ps_cash st = p_cash pl
          /\ ps_inventory st = p_inventory pl
          /\ ps_tradeCount st = length (p_tradeHistory pl)
          /\ (NoDup (products cfg) -> holds_all_products cfg pl ->
              ps_inventoryValue st
              = spec_inventory_value (products cfg) (scrapValues cfg) (p_inventory pl))
          /\ (NoDup (products cfg) -> dom (setRecipe cfg) = list_to_set (products cfg) ->
              ps_completeSets st
              = spec_complete_sets (products cfg) (setRecipe cfg) (p_inventory pl))
          /\ (open_orders_ok w ->
              Forall2 (fun id o => w_orders w !! id = Some o) (p_openOrderIds pl)
                      (ps_openOrders st)
              /\ Forall (fun o => o_playerId o = playerId /\ isResting o) (ps_openOrders st)
              /\ (forall p book s id o,
                    w_orderBooks w !! p = Some book -> id ∈ book_side s book ->
                    w_orders w !! id = Some o -> isResting o -> o_playerId o = playerId ->
                    o ∈ ps_openOrders st))).
Proof.
  unfold getPlayerState. split; [by intros ->|]. intros pl Hpl. rewrite Hpl.
  eexists. split; [reflexivity|]. cbn [ps_name ps_cash ps_inventory ps_tradeCount
    ps_inventoryValue ps_completeSets ps_openOrders].
  do 4 (split; [done|]). split; [|split].
  - intros Hnd [Hinv _]. apply scrapValueOf_products; [done|]. by apply dom_products.
  - intros Hnd Hrec. apply getCompleteSets_products; [done|]. by apply dom_products.
  - intros (H1 & H2 & _).
    assert (forall id, id ∈ p_openOrderIds pl ->
              exists o, w_orders w !! id = Some o /\ o_playerId o = playerId /\ isResting o)
      as Hall.
    { intros id Hid. destruct (H1 _ _ _ Hpl Hid) as (o & Ho & Hown & Hr & _). by exists o. }
    split; [|split].
    + revert Hall. generalize (p_openOrderIds pl). intros l Hall.
      induction l as [|id l IH]; [constructor|].
      destruct (Hall id) as (o & Ho & _); [by left|].
      change (omap (fun id => w_orders w !! id) (id :: l))
        with (match w_orders w !! id with
              | Some y => y :: omap (fun id => w_orders w !! id) l
              | None => omap (fun id => w_orders w !! id) l
              end).
      rewrite Ho. constructor; [done|]. apply IH. intros x Hx. apply Hall. by right.
    + apply Forall_forall. intros o (id & Hid & Ho)%list_elem_of_omap.
      destruct (Hall id Hid) as (o' & Ho' & Hrest). by assert (o' = o) as -> by congruence.
    + intros p book s id o Hb Hin Ho Hr Hown.
      destruct (H2 _ _ _ _ _ Hb Hin Ho Hr) as (pl' & Hpl' & Hid).
      rewrite Hown in Hpl'. assert (pl' = pl) as -> by congruence.
      apply list_elem_of_omap. by exists id.
Qed.

Local Open Scope string_scope.

(** Alice, with one ask resting, is shown that ask. *)
Lemma getPlayerState_example :
  (fun st => (ps_name st, ps_cash st,
              (fun o => (o_orderId o, o_side o, o_remainingQuantity o, o_price o))
                <$> ps_openOrders st))
    <$> getPlayerState cfg8 10%positive w_alice_ask
  = Some ("Alice", 100, [(100%positive, sell, 1, Some 3)]).
Proof. vm_compute. reflexivity. Qed.

Local Close Scope string_scope.

(** ** Balances *)

(** One trade of the loop of [matchOrder] leaves nobody in debt: the
    re-check of [executeTrade] has passed. *)
Lemma balances_step clock incId pl inc0 trades (w : World) inc book oppId opp t w1 :
  accounts_inv incId inc0 trades w -> balances_ok w ->
  w_orders w !! incId = Some inc ->
  o_remainingQuantity inc > 0 ->
  w_orderBooks w !! o_product inc = Some book ->
  bestOpposing (w_orders w) inc book = Some oppId ->
  w_orders w !! oppId = Some opp ->
  executeTrade clock incId oppId pl w = Returns (Some t, w1) ->
  balances_ok (set_orderBooks (alter (cleanup (w_orders w1)) (o_product inc)) w1).
Proof.
  intros ([_ Hpos] & _) Hbal Hinc Hrem Hbook Hbest Hopp Hex.
  rewrite bestOpposing_head in Hbest.
  assert (oppId ∈ filter (restingAt (w_orders w))
                         (book_side (opposite (o_side inc)) book)) as Hin
    by (by apply head_Some_elem_of).
  apply list_elem_of_filter in Hin as [Hrest Hin].
  unfold restingAt in Hrest. rewrite Hopp in Hrest.
  destruct (Hpos _ _ _ _ _ Hbook Hin Hopp Hrest) as [Hrem2 Hprice].
  destruct (executeTrade_inv _ _ _ _ _ _ _ Hex)
    as (inc1 & rst1 & Hinc1 & Hrst1 & _ & [[b Hb] [s Hs]] & Hre & _ & _ & _ & _ & _ & _
        & Hcash & Hinv).
  assert (inc1 = inc) as -> by congruence. assert (rst1 = opp) as -> by congruence.
  set (q := Z.min (o_remainingQuantity inc) (o_remainingQuantity opp)) in *.
  assert (0 < q) as Hq by (unfold q; lia).
  assert (q * toNum (o_price opp) <= p_cash b
          /\ q <= inventoryOf (p_inventory s) (o_product inc)) as [Hcb His].
  { split; apply Z.le_ngt; intros Hlt; apply Hre; exists b, s;
      (split; [done|]; split; [done|]); fold q; [by left|by right]. }
  assert (0 <= q * toNum (o_price opp)) as Hv by nia.
  intros pid pl1 Hpl1.
  assert (w_players w1 !! pid = Some pl1) as Hpl1' by (by destruct w1).
  specialize (Hcash pid). rewrite Hpl1' in Hcash.
  destruct (w_players w !! pid) as [pl0|] eqn:Hpl0; [|done]. simpl in Hcash.
  injection Hcash as Hcash. destruct (Hbal pid pl0 Hpl0) as [Hc0 Hi0].
  split.
  - rewrite Hcash. repeat case_decide; subst;
      rewrite ?Hb, ?Hs in Hpl0; try (injection Hpl0 as <-); lia.
  - intros product. specialize (Hinv pid product). rewrite Hpl1', Hpl0 in Hinv.
    simpl in Hinv. injection Hinv as ->. specialize (Hi0 product).
    repeat case_decide; try lia.
    all: destruct_and?; subst; rewrite ?Hb, ?Hs in Hpl0; try (injection Hpl0 as <-);
      try lia; exfalso; intuition congruence.
Qed.

Lemma new_Order_accounts clock gameId playerId playerName product side orderType
    quantity price (w : World) :
  book_wf w -> accounts_ok w ->
  accounts_ok
    (snd (new_Order clock gameId playerId playerName product side orderType quantity price w)).
Proof.
  intros Hwf [Hok Hpos].
  destruct (new_Order_spec clock gameId playerId playerName product side orderType
              quantity price w) as (_ & Ho1 & _ & _ & _ & Hb1 & _).
  cbv zeta in Ho1, Hb1. split.
  - rewrite Ho1. apply map_Forall_insert_2; [|done].
    unfold order_ok, filledQuantity. simpl. repeat split; try done; lia.
  - intros p book s ref o. rewrite Hb1, Ho1. intros Hb Hin.
    rewrite lookup_insert_ne; [exact (Hpos p book s ref o Hb Hin)|].
    intros <-. by apply (book_wf_not_fresh w p book s (w_next w) Hwf Hb Hin).
Qed.

Lemma balances_frame (w w' : World) :
  (forall pid pl', w_players w' !! pid = Some pl' ->
     exists pl, w_players w !! pid = Some pl
                /\ p_cash pl' = p_cash pl /\ p_inventory pl' = p_inventory pl) ->
  balances_ok w -> balances_ok w'.
Proof.
  intros Hsame Hbal pid pl' Hpl'. destruct (Hsame pid pl' Hpl') as (pl & Hpl & -> & ->).
  by apply (Hbal pid).
Qed.

Lemma alter_list_frame (f : Player -> Player) (k : uuid) (m : gmap uuid Player) :
  (forall p, p_cash (f p) = p_cash p /\ p_inventory (f p) = p_inventory p) ->
  forall pid pl', alter f k m !! pid = Some pl' ->
    exists pl, m !! pid = Some pl /\ p_cash pl' = p_cash pl
               /\ p_inventory pl' = p_inventory pl.
Proof.
  intros Hf pid pl'. destruct (decide (k = pid)) as [->|Hne].
  - rewrite lookup_alter_eq. destruct (m !! pid) as [pl|]; [|done]. intros [= <-].
    exists pl. split; [done|apply Hf].
  - rewrite lookup_alter_ne by done. intros Hpl. by exists pl'.
Qed.

Lemma submitOrder_balances clock cfg fuel gameId player product side orderType
    quantity price (w w' : World) res :
  book_wf w -> accounts_ok w -> balances_ok w ->
  submitOrder clock cfg fuel gameId player product side orderType quantity price w
  = Returns (res, w') ->
  balances_ok w'.
Proof.
  intros Hwf Hacc Hbal H.
  apply submitOrder_inv in H as [(e & _ & _ & ->)|(pl & trades & w2 & _ & Hpl & Hm & Hr)];
    [done|].
  destruct (new_Order_spec clock gameId (p_playerId pl) (p_name pl) product side orderType
              quantity price w) as (Hid & Ho1 & Hp1 & _ & _ & Hb1 & _).
  cbv zeta in Hid, Ho1, Hp1, Hb1.
  pose proof (new_Order_accounts clock gameId (p_playerId pl) (p_name pl) product side
                orderType quantity price w Hwf Hacc) as Hacc1.
  set (r := new_Order _ _ _ _ _ _ _ _ _ _) in *.
  rewrite Hid in Hm, Hr. unfold matchOrder in Hm.
  set (o1 := mkOrder (w_next w) gameId (p_playerId pl) (p_name pl) product side orderType
                     quantity quantity price open [] (clock (w_ticks w))
                     (clock (S (w_ticks w)))) in *.
  assert (w_orders (snd r) !! w_next w = Some o1) as Hinc
    by (rewrite Ho1; apply lookup_insert_eq).
  assert (accounts_inv (w_next w) o1 [] (snd r) /\ balances_ok (snd r)) as Hinit.
  { split.
    - split; [done|]. split; [|split; [|constructor]].
      + intros p book s. rewrite Hb1. intros Hb Hin.
        by apply (book_wf_not_fresh w p book s (w_next w) Hwf Hb Hin).
      + exists o1. split; [done|apply stableFields_refl].
    - intros pid pl0. rewrite Hp1. apply Hbal. }
  assert (balances_ok w2) as Hbal2.
  { refine (proj2 (matchLoop_rule clock (w_next w) player
                     (fun ts w3 => accounts_inv (w_next w) o1 ts w3 /\ balances_ok w3)
                     _ fuel [] (snd r) trades w2 Hinit Hm)).
    intros ts w3 inc book oppId opp t w4 [Ha Hb] ? ? ? ? ? _ _ ?.
    split; [by eapply accounts_step|by eapply balances_step]. }
  apply restRemainder_inv in Hr as (_ & o & Ho & [[_ ->]|(Hrem & book & Hbook & Hw')]);
    [done|].
  cbv zeta in Hw'. destruct Hw' as (_ & _ & Hp' & _).
  eapply balances_frame; [|exact Hbal2]. rewrite Hp'. apply alter_list_frame.
  intros p. unfold Player_addOrder. by destruct (decide _).
Qed.

Lemma cancelOrder_balances clock orderId playerId (w w' : World) res :
  balances_ok w -> cancelOrder clock orderId playerId w = Returns (res, w') ->
  balances_ok w'.
Proof.
  intros Hbal H.
  apply cancelOrder_cases in H as [(-> & _)|(_ & _ & o & book & _ & _ & Hp' & _)]; [done|].
  eapply balances_frame; [|exact Hbal]. rewrite Hp'. by apply alter_list_frame.
Qed.

Lemma joinGame_balances clock random toLowerCase cfg targetValue factor
    fuel name game k (w : World) id g' k' w' :
  store_ok w -> (g_gameId game < w_next w)%positive ->
  0 <= startingCash cfg -> balances_ok w ->
  joinGame clock random toLowerCase cfg targetValue factor fuel name (Some game) k w
  = Returns (Succeeded id, g', k', w') ->
  balances_ok w'.
Proof.
  intros Hst Hg Hcash Hbal H.
  apply joinGame_inv in H
    as [(e & [=] & _)|(_ & _ & _ & inventory & value & Hgen & _ & _ & ->)].
  destruct (generateStartingInventory_keeps random cfg targetValue factor
              (Qmax 0 (maxValue targetValue factor)) (Q.le_max_r _ _)
              fuel k inventory value k' (Q.le_max_l _ _) Hgen)
    as ((_ & Hnn & _) & _).
  destruct (joined_world clock cfg game name inventory w Hst Hg) as (_ & Hpl' & _).
  intros pid pl. rewrite Hpl'. destruct (decide (w_next w = pid)) as [<-|Hne].
  - rewrite lookup_insert_eq. intros [= <-]. split; [done|]. intros product. simpl.
    unfold inventoryOf. destruct (inventory !! product) as [n|] eqn:En; [|done].
    exact (Hnn product n En).
  - rewrite lookup_insert_ne by done. apply Hbal.
Qed.

(** X21. Nobody is ever in debt.  When the accounts of the orders and the
    books are in order and no player has negative cash or a negative
    quantity of a product, the same holds after every submission and every
    cancellation that returns: cash is spent and goods are delivered only by
    trades that have passed the re-check of [executeTrade].  A player who
    joins starts without debt when the starting cash is not negative. *)
Theorem balances_never_negative clock cfg :
  (forall fuel gameId player product side orderType quantity price w w' res,
     book_wf w -> accounts_ok w -> balances_ok w ->
     submitOrder clock cfg fuel gameId player product side orderType quantity price w
     = Returns (res, w') ->
     balances_ok w')
  /\ (forall orderId playerId w w' res,
        balances_ok w -> cancelOrder clock orderId playerId w = Returns (res, w') ->
        balances_ok w')
  /\ (forall random toLowerCase targetValue factor fuel name game k w id g' k' w',
        store_ok w -> (g_gameId game < w_next w)%positive ->
        0 <= startingCash cfg -> balances_ok w ->
        joinGame clock random toLowerCase cfg targetValue factor fuel name (Some game) k w
        = Returns (Succeeded id, g', k', w') ->
        balances_ok w').
Proof.
  split; [|split].
  - intros. by eapply submitOrder_balances.
  - intros. by eapply cancelOrder_balances.
  - intros. by eapply joinGame_balances.
Qed.

Lemma balances_never_negative_witness :
  balances_ok
    (world_of (submitOrder frozen_clock cfg8 10 game1 11%positive "bread" buy limit 6 (Some 1)
                           w_tied)).
Proof.
  destruct (balances_never_negative frozen_clock cfg8) as (Hsubmit & _).
  destruct (submitOrder frozen_clock cfg8 10 game1 11%positive "bread" buy limit 6 (Some 1)
                        w_tied) as [[res w']| |] eqn:E; [|vm_compute in E; discriminate..].
  simpl. eapply Hsubmit; [apply book_wf_w_tied|apply accounts_ok_w_tied| |exact E].
  assert (map_Forall (fun _ pl => 0 <= p_cash pl
                                  /\ map_Forall (fun _ n => 0 <= n) (p_inventory pl))
                     (w_players w_tied)) as H by compute_done.
  intros pid pl Hpl. destruct (H pid pl Hpl) as [Hc Hi]. split; [done|].
  intros product. unfold inventoryOf. destruct (p_inventory pl !! product) as [n|] eqn:En;
    [exact (Hi product n En)|done].
Defined.
